(** * Japan Law MCP: citation parsing, formatting and validation

    A shallow embedding of the citation core of the repository
    (kanji-numerals.ts, citation/parser.ts, citation/formatter.ts,
    citation/validator.ts, tools/format-citation.ts) and of the provision
    lookup built on it (utils/statute-id.ts, tools/get-provision.ts),
    together with the properties its specification states about it and
    further properties that the code has.

    Conventions of the embedding.
    - A JavaScript string is the list of its UTF-16 code units ([jsstring]).
      The regular expressions of the source carry no [u] flag, so they work
      on code units, and so do [length], [trim] and indexing.
    - A JavaScript number is [NaN] or an integer ([number]).  The code only
      builds numbers with [parseInt], [+], [*], [Math.floor] and [%] from
      integers, so no fraction arises; the integers are exact as long as
      they stay below 2^53, which is the range the theorems speak about.
    - [undefined] fields are [None]. *)

From Stdlib Require Import String Ascii.
From Stdlib Require Import List ZArith NArith Lia Bool.
Import ListNotations.

Local Open Scope Z_scope.

(** ** Strings as UTF-16 code units *)

Definition char := N.
Definition jsstring := list char.

Module Utf.

(** Reads the UTF-8 bytes of a source literal as UTF-16 code units, so that
    the literals of the TypeScript source can be written as they are. *)
Fixpoint utf16_of_bytes (bs : list N) : jsstring :=
  match bs with
  | [] => []
  | b0 :: r0 =>
    if (b0 <? 128)%N then b0 :: utf16_of_bytes r0
    else match r0 with
    | [] => []
    | b1 :: r1 =>
      if (b0 <? 224)%N then ((b0 - 192) * 64 + (b1 - 128))%N :: utf16_of_bytes r1
      else match r1 with
      | [] => []
      | b2 :: r2 =>
        if (b0 <? 240)%N
        then ((b0 - 224) * 4096 + (b1 - 128) * 64 + (b2 - 128))%N :: utf16_of_bytes r2
        else match r2 with
        | [] => []
        | b3 :: r3 =>
          let cp := ((b0 - 240) * 262144 + (b1 - 128) * 4096
                     + (b2 - 128) * 64 + (b3 - 128))%N in
          let v := (cp - 65536)%N in
          (55296 + v / 1024)%N :: (56320 + v mod 1024)%N :: utf16_of_bytes r3
        end
      end
    end
  end.

Fixpoint bytes_of_string (s : string) : list N :=
  match s with
  | EmptyString => []
  | String a r => N_of_ascii a :: bytes_of_string r
  end.

End Utf.

Definition js (s : string) : jsstring := Utf.utf16_of_bytes (Utf.bytes_of_string s).

Definition char_eqb (a b : char) : bool := N.eqb a b.

Fixpoint str_eqb (a b : jsstring) : bool :=
  match a, b with
  | [], [] => true
  | x :: a', y :: b' => char_eqb x y && str_eqb a' b'
  | _, _ => false
  end.

(** WhiteSpace and LineTerminator code units: what [trim], [parseInt] and the
    class [\s] skip. *)
Definition isWhiteSpace (c : char) : bool :=
  ((9 <=? c) && (c <=? 13) || (c =? 32) || (c =? 160) || (c =? 5760)
   || (8192 <=? c) && (c <=? 8202) || (c =? 8232) || (c =? 8233)
   || (c =? 8239) || (c =? 8287) || (c =? 12288) || (c =? 65279))%N.

Definition isLineTerminator (c : char) : bool :=
  ((c =? 10) || (c =? 13) || (c =? 8232) || (c =? 8233))%N.

Definition isDigit (c : char) : bool := ((48 <=? c) && (c <=? 57))%N.

Fixpoint trimStart (s : jsstring) : jsstring :=
  match s with
  | [] => []
  | c :: r => if isWhiteSpace c then trimStart r else s
  end.

Definition trimEnd (s : jsstring) : jsstring := rev (trimStart (rev s)).

Definition trim (s : jsstring) : jsstring := trimEnd (trimStart s).

(** A field holds "a string of Arabic digits": [^\d+$]. *)
Definition all_digits (s : jsstring) : bool :=
  match s with
  | [] => false
  | _ => forallb isDigit s
  end.

(** ** Numbers *)

(** A number of the code, as far as the code computes with it: NaN or an
    integer.  The numbers of the code are doubles, which hold every integer
    up to 2^53 exactly; the properties that depend on the value of a number
    keep it within that range. *)
Inductive number : Type :=
| NaN : number
| Int (z : Z) : number.

Definition isNaN (n : number) : bool :=
  match n with NaN => true | Int _ => false end.

(** [n > k], [n <= k], [n === k] against an integer literal; every
    comparison with NaN is false. *)
Definition num_gt (n : number) (k : Z) : bool :=
  match n with NaN => false | Int z => k <? z end.

Definition num_le (n : number) (k : Z) : bool :=
  match n with NaN => false | Int z => z <=? k end.

Definition num_lt (n : number) (k : Z) : bool :=
  match n with NaN => false | Int z => z <? k end.

Definition num_eq (n : number) (k : Z) : bool :=
  match n with NaN => false | Int z => z =? k end.

(** Truthiness of a number: neither 0 nor NaN. *)
Definition num_truthy (n : number) : bool :=
  match n with NaN => false | Int z => negb (z =? 0) end.

Definition digit_char (d : Z) : char := (48 + Z.to_N d)%N.

Fixpoint decimal_loop (fuel : nat) (n : Z) (acc : jsstring) : jsstring :=
  match fuel with
  | O => digit_char (n mod 10) :: acc
  | S f =>
    if n <? 10 then digit_char n :: acc
    else decimal_loop f (n / 10) (digit_char (n mod 10) :: acc)
  end.

(** Decimal digits of a non-negative integer, most significant first. *)
Definition decimal (n : Z) : jsstring :=
  decimal_loop (Z.to_nat (Z.log2 n)) n [].

(** [String(n)] and [`${n}`] for a number. *)
Definition String_of_number (n : number) : jsstring :=
  match n with
  | NaN => js "NaN"
  | Int z => if z <? 0 then 45%N :: decimal (- z) else decimal z
  end.

Definition digit_value (c : char) : Z := Z.of_N (c - 48)%N.

Fixpoint take_digits (s : jsstring) : jsstring :=
  match s with
  | c :: r => if isDigit c then c :: take_digits r else []
  | [] => []
  end.

Definition digits_value (ds : jsstring) : Z :=
  fold_left (fun acc c => acc * 10 + digit_value c) ds 0.

(** [parseInt(s, 10)]: leading white space is skipped, then an optional
    sign, then the longest run of digits; no digit gives NaN. *)
Definition parseInt (s : jsstring) : number :=
  let t := trimStart s in
  let '(neg, body) :=
    match t with
    | c :: r => if (c =? 45)%N then (true, r)
                else if (c =? 43)%N then (false, r) else (false, t)
    | [] => (false, t)
    end in
  match take_digits body with
  | [] => NaN
  | ds => Int (if neg then - digits_value ds else digits_value ds)
  end.

(** ** Numeral converter (kanji-numerals.ts) *)

Definition c_dai : char := 31532%N.  (* 第 *)
Definition c_jo : char := 26465%N.   (* 条 *)
Definition c_kou : char := 38917%N.  (* 項 *)
Definition c_go : char := 21495%N.   (* 号 *)
Definition c_ju : char := 21313%N.   (* 十 *)
Definition c_hyaku : char := 30334%N. (* 百 *)
Definition c_sen : char := 21315%N.  (* 千 *)
Definition c_touten : char := 12289%N. (* 、 *)

Definition KANJI_DIGITS (c : char) : option Z :=
  if (c =? 12295)%N then Some 0       (* 〇 *)
  else if (c =? 38646)%N then Some 0  (* 零 *)
  else if (c =? 19968)%N then Some 1  (* 一 *)
  else if (c =? 22769)%N then Some 1  (* 壱 *)
  else if (c =? 20108)%N then Some 2  (* 二 *)
  else if (c =? 24336)%N then Some 2  (* 弐 *)
  else if (c =? 19977)%N then Some 3  (* 三 *)
  else if (c =? 21442)%N then Some 3  (* 参 *)
  else if (c =? 22235)%N then Some 4  (* 四 *)
  else if (c =? 20116)%N then Some 5  (* 五 *)
  else if (c =? 20845)%N then Some 6  (* 六 *)
  else if (c =? 19971)%N then Some 7  (* 七 *)
  else if (c =? 20843)%N then Some 8  (* 八 *)
  else if (c =? 20061)%N then Some 9  (* 九 *)
  else None.

Definition KANJI_MULTIPLIERS (c : char) : option Z :=
  if (c =? c_ju)%N then Some 10
  else if (c =? c_hyaku)%N then Some 100
  else if (c =? c_sen)%N then Some 1000
  else None.

Definition ARABIC_TO_KANJI_DIGITS (d : Z) : option jsstring :=
  if d =? 0 then Some [12295%N]
  else if d =? 1 then Some [19968%N]
  else if d =? 2 then Some [20108%N]
  else if d =? 3 then Some [19977%N]
  else if d =? 4 then Some [22235%N]
  else if d =? 5 then Some [20116%N]
  else if d =? 6 then Some [20845%N]
  else if d =? 7 then Some [19971%N]
  else if d =? 8 then Some [20843%N]
  else if d =? 9 then Some [20061%N]
  else None.

(** [c in TABLE] *)
Definition in_table {A : Type} (t : char -> option A) (c : char) : bool :=
  match t c with Some _ => true | None => false end.

(** [TABLE[c]] where the key is known to be present *)
Definition table_get (t : char -> option Z) (c : char) : Z :=
  match t c with Some v => v | None => 0 end.

(** One round of the [for (const char of kanji)] loop of [kanjiToArabic],
    on the pair (result, current). *)
Definition kanji_step (st : Z * Z) (c : char) : Z * Z :=
  let '(result, current) := st in
  match KANJI_DIGITS c with
  | Some d => (result, d)
  | None =>
    match KANJI_MULTIPLIERS c with
    | Some multiplier =>
      let current' := if current =? 0 then 1 else current in
      (result + current' * multiplier, 0)
    | None => (result, current)
    end
  end.

(** [key in TABLE] and [TABLE[key]] for a string key: the keys of the tables
    are single characters, and no property that the tables inherit has a
    one-character name. *)
Definition key_in {A : Type} (t : char -> option A) (key : jsstring) : bool :=
  match key with
  | [c] => in_table t c
  | _ => false
  end.

Definition key_get (t : char -> option Z) (key : jsstring) : Z :=
  match key with
  | [c] => table_get t c
  | _ => 0
  end.

(** The loop of [kanjiToArabic] and the sum after it. *)
Definition kanji_loop (kanji : jsstring) : number :=
  let '(result, current) := fold_left kanji_step kanji (0, 0) in
  Int (result + current).

(** [kanjiToArabic].  The string is walked by code units: the source walks
    it by code points, and no surrogate code unit is a key of either table,
    so both walks see the same digits and multipliers. *)
Definition kanjiToArabic (kanji : jsstring) : number :=
  if (length kanji =? 0)%nat then Int 0
  else
    let allSimpleDigits := forallb (in_table KANJI_DIGITS) kanji in
    if allSimpleDigits && (1 <? length kanji)%nat
       && negb (existsb (in_table KANJI_MULTIPLIERS) kanji)
    then parseInt (map (fun c => digit_char (table_get KANJI_DIGITS c)) kanji)
    else if (length kanji =? 1)%nat && key_in KANJI_DIGITS kanji
    then Int (key_get KANJI_DIGITS kanji)
    else kanji_loop kanji.

(** [result += TABLE[d]]: a missing key appends the text "undefined". *)
Definition append_entry (result : jsstring) (e : option jsstring) : jsstring :=
  match e with
  | Some s => result ++ s
  | None => result ++ js "undefined"
  end.

Definition arabicToKanji (num : number) : jsstring :=
  match num with
  | NaN => []
  | Int n =>
    if n <? 0 then []
    else if n =? 0 then [12295%N]
    else if n <=? 9 then append_entry [] (ARABIC_TO_KANJI_DIGITS n)
    else
      let result := [] in
      let remaining := n in
      let thousands := remaining / 1000 in
      let '(result, remaining) :=
        if 0 <? thousands
        then ((if 1 <? thousands
               then append_entry result (ARABIC_TO_KANJI_DIGITS thousands)
               else result) ++ [c_sen], remaining mod 1000)
        else (result, remaining) in
      let hundreds := remaining / 100 in
      let '(result, remaining) :=
        if 0 <? hundreds
        then ((if 1 <? hundreds
               then append_entry result (ARABIC_TO_KANJI_DIGITS hundreds)
               else result) ++ [c_hyaku], remaining mod 100)
        else (result, remaining) in
      let tens := remaining / 10 in
      let '(result, remaining) :=
        if 0 <? tens
        then ((if 1 <? tens
               then append_entry result (ARABIC_TO_KANJI_DIGITS tens)
               else result) ++ [c_ju], remaining mod 10)
        else (result, remaining) in
      if 0 <? remaining
      then append_entry result (ARABIC_TO_KANJI_DIGITS remaining)
      else result
  end.

(** ** Regular expressions

    The patterns of the source are kept as syntax trees and run by a
    backtracking matcher that follows the continuation semantics of the
    ECMAScript specification (22.2.2): alternatives are tried left to
    right, a greedy quantifier tries one more round before it tries the
    rest of the pattern, a lazy one the other way round, and the first
    overall success is the result. *)

Module Regex.

Inductive regex : Type :=
| Chr (c : char)              (* a pattern character *)
| Cls (p : char -> bool)      (* a class: [.], [\s], [\d], [[...]] *)
| Bol                         (* [^] *)
| Eol                         (* [$] *)
| Eps                         (* the empty pattern *)
| Seq (r1 r2 : regex)
| Alt (r1 r2 : regex)         (* [r1|r2] *)
| Rep (min : nat) (max : option nat) (greedy : bool) (r : regex)
| Group (n : nat) (r : regex) (* the n-th capturing group *).

Definition captures := nat -> option jsstring.

Record state : Type := mkState {
  idx : nat;          (* endIndex: code units consumed so far *)
  rest : jsstring;    (* the input from endIndex on *)
  caps : captures
}.

Inductive outcome : Type :=
| Matched (y : state)
| Failed
| Stuck.   (* the round budget of a quantifier ran out; see [search_not_stuck] *)

Definition cont := state -> outcome.

Definition no_caps : captures := fun _ => None.

Definition set_cap (cs : captures) (n : nat) (v : jsstring) : captures :=
  fun i => if Nat.eqb i n then Some v else cs i.

Fixpoint groups (r : regex) : list nat :=
  match r with
  | Seq r1 r2 | Alt r1 r2 => groups r1 ++ groups r2
  | Rep _ _ _ r1 => groups r1
  | Group n r1 => n :: groups r1
  | _ => []
  end.

(** A new round of a quantifier forgets what its groups captured before. *)
Definition clear_caps (gs : list nat) (x : state) : state :=
  mkState (idx x) (rest x)
          (fun i => if existsb (Nat.eqb i) gs then None else caps x i).

(** Canonicalize of the [i] flag (no [u] flag), on the ASCII letters.  A
    pattern character of the source that is compared under [i] is an ASCII
    character, and Canonicalize never maps a code unit above 127 to one
    below 128, so only the two ASCII cases of a letter match it.  The
    classes of the source ([.], [\s], [\d], [[,、]]) hold no letter and
    match the same characters with and without the flag. *)
Definition canonicalize (c : char) : char :=
  if ((97 <=? c) && (c <=? 122))%N then (c - 32)%N else c.

Definition chr_match (ignoreCase : bool) (c a : char) : bool :=
  if ignoreCase then char_eqb (canonicalize c) (canonicalize a) else char_eqb c a.

Definition step_char (p : char -> bool) (k : cont) (x : state) : outcome :=
  match rest x with
  | a :: r => if p a then k (mkState (S (idx x)) r (caps x)) else Failed
  | [] => Failed
  end.

(** RepeatMatcher.  [fuel] bounds the number of rounds; a round either
    lowers [min] or consumes input, so [min + length (rest x) + 1] rounds
    are never used up. *)
Fixpoint repeat_matcher (m : cont -> cont) (gs : list nat) (fuel : nat)
    (min : nat) (max : option nat) (greedy : bool) (k : cont) (x : state)
    : outcome :=
  match max with
  | Some O => k x
  | _ =>
    match fuel with
    | O => Stuck
    | S fuel' =>
      let d := fun y : state =>
        if Nat.eqb min 0 && Nat.eqb (idx y) (idx x) then Failed
        else repeat_matcher m gs fuel' (Nat.pred min) (option_map Nat.pred max)
                            greedy k y in
      let xr := clear_caps gs x in
      if negb (Nat.eqb min 0) then m d xr
      else if greedy then
        match m d xr with
        | Failed => k x
        | o => o
        end
      else
        match k x with
        | Failed => m d xr
        | o => o
        end
    end
  end.

Fixpoint rmatch (ignoreCase : bool) (r : regex) (k : cont) (x : state) : outcome :=
  match r with
  | Chr c => step_char (chr_match ignoreCase c) k x
  | Cls p => step_char p k x
  | Bol => if Nat.eqb (idx x) 0 then k x else Failed
  | Eol => match rest x with [] => k x | _ => Failed end
  | Eps => k x
  | Seq r1 r2 => rmatch ignoreCase r1 (rmatch ignoreCase r2 k) x
  | Alt r1 r2 =>
    match rmatch ignoreCase r1 k x with
    | Failed => rmatch ignoreCase r2 k x
    | o => o
    end
  | Rep min max greedy r1 =>
    repeat_matcher (rmatch ignoreCase r1) (groups r1)
                   (min + length (rest x) + 1) min max greedy k x
  | Group n r1 =>
    rmatch ignoreCase r1
      (fun y => k (mkState (idx y) (rest y)
                     (set_cap (caps y) n (firstn (idx y - idx x) (rest x))))) x
  end.

(** A regular expression object: the pattern and its [i] flag. *)
Record RegExp : Type := mkRegExp {
  source : regex;
  ignoreCase : bool
}.

(** RegExpBuiltinExec without the [g] and [y] flags: the pattern is tried at
    index 0, then 1, and so on up to the length of the input. *)
Fixpoint search (re : RegExp) (i : nat) (s : jsstring) : outcome :=
  match rmatch (ignoreCase re) (source re) Matched (mkState i s no_caps) with
  | Failed =>
    match s with
    | [] => Failed
    | _ :: s' => search re (S i) s'
    end
  | o => o
  end.

(** [s.match(re)]: the captures of the first match, or null. *)
Definition regex_match (re : RegExp) (s : jsstring) : option captures :=
  match search re 0 s with
  | Matched y => Some (caps y)
  | _ => None
  end.

(** [re.test(s)] *)
Definition regex_test (re : RegExp) (s : jsstring) : bool :=
  match regex_match re s with
  | Some _ => true
  | None => false
  end.

(** [m[n]], undefined when the group took no part in the match. *)
Definition capture (m : captures) (n : nat) : option jsstring := m n.

(** [m[n]] where the code uses it as a string. *)
Definition group (m : captures) (n : nat) : jsstring :=
  match m n with
  | Some v => v
  | None => []
  end.

(** *** Pattern syntax *)

Definition cat (rs : list regex) : regex := fold_right Seq Eps rs.

Definition lit (s : string) : regex := cat (map Chr (js s)).

Definition any : regex := Cls (fun c => negb (isLineTerminator c)).  (* [.] *)
Definition ws : regex := Cls isWhiteSpace.                           (* [\s] *)
Definition digit : regex := Cls isDigit.                             (* [\d] *)
Definition comma : regex :=                                          (* [[,、]] *)
  Cls (fun c => (c =? 44)%N || (c =? c_touten)%N).

Definition star (r : regex) : regex := Rep 0 None true r.            (* [r*] *)
Definition plus (r : regex) : regex := Rep 1 None true r.            (* [r+] *)
Definition plus_lazy (r : regex) : regex := Rep 1 None false r.      (* [r+?] *)
Definition opt (r : regex) : regex := Rep 0 (Some 1%nat) true r.     (* [r?] *)
Definition exactly (n : nat) (r : regex) : regex := Rep n (Some n) true r.

Definition alts (rs : list regex) (last : regex) : regex := fold_right Alt last rs.

End Regex.

Import Regex.

(** [/^\d+$/] *)
Definition RE_DIGITS : RegExp :=
  mkRegExp (cat [Bol; plus digit; Eol]) false.

(** The wrapper patterns of kanji-numerals.ts:
    [/^第(.+?)条/], [/^第(.+?)項/], [/^第(.+?)号/]. *)
Definition RE_WRAPPED (closing : char) : RegExp :=
  mkRegExp (cat [Bol; Chr c_dai; Group 1 (plus_lazy any); Chr closing]) false.

(** The body shared by [parseArticleNumber], [parseParagraphNumber] and
    [parseItemNumber], which differ in the closing marker only. *)
Definition parseWrappedNumber (closing : char) (ref : jsstring) : jsstring :=
  let trimmed := trim ref in
  match regex_match (RE_WRAPPED closing) trimmed with
  | Some joMatch =>
    let inner := group joMatch 1 in
    if regex_test RE_DIGITS inner then inner
    else
      let arabicNum := kanjiToArabic inner in
      if num_gt arabicNum 0 then String_of_number arabicNum else inner
  | None =>
    if regex_test RE_DIGITS trimmed then trimmed
    else
      let arabicNum := kanjiToArabic trimmed in
      if num_gt arabicNum 0 then String_of_number arabicNum else trimmed
  end.

Definition parseArticleNumber (ref : jsstring) : jsstring :=
  parseWrappedNumber c_jo ref.

Definition parseParagraphNumber (ref : jsstring) : jsstring :=
  parseWrappedNumber c_kou ref.

Definition parseItemNumber (ref : jsstring) : jsstring :=
  parseWrappedNumber c_go ref.

(** [formatArticleKanji] takes a string or a number. *)
Inductive article_num : Type :=
| ArtStr (s : jsstring)
| ArtNum (n : number).

(** [`${articleNum}`] *)
Definition article_text (a : article_num) : jsstring :=
  match a with
  | ArtStr s => s
  | ArtNum n => String_of_number n
  end.

Definition formatArticleKanji (articleNum : article_num) : jsstring :=
  let num := match articleNum with
             | ArtStr s => parseInt s
             | ArtNum n => n
             end in
  if isNaN num || num_le num 0
  then [c_dai] ++ article_text articleNum ++ [c_jo]
  else [c_dai] ++ arabicToKanji num ++ [c_jo].

(** ** Data model (types/index.ts) *)

Module Types.

Inductive citation_type : Type :=
| statute
| cabinet_order
| ministerial_ordinance
| unknown.

Record ParsedCitation : Type := mkParsed {
  valid : bool;
  type : citation_type;
  title : option jsstring;
  title_en : option jsstring;
  law_number : option jsstring;
  year : option number;
  act_number : option number;
  article : option jsstring;
  paragraph : option jsstring;
  item : option jsstring;
  error : option jsstring
}.

Record ValidationResult : Type := mkValidation {
  citation : ParsedCitation;
  document_exists : bool;
  provision_exists : bool;
  document_title : option jsstring;
  status : option jsstring;
  warnings : list jsstring
}.

End Types.

Import Types.

(** ** Citation parser (citation/parser.ts) *)

(** [第.+?条(?:第.+?項)?(?:第.+?号)?], the reference block of both native
    patterns. *)
Definition reference_block : regex :=
  cat [Chr c_dai; plus_lazy any; Chr c_jo;
       opt (cat [Chr c_dai; plus_lazy any; Chr c_kou]);
       opt (cat [Chr c_dai; plus_lazy any; Chr c_go])].

Definition JAPANESE_CITATION : RegExp :=
  mkRegExp
    (cat [Bol; Group 1 reference_block; star ws; opt comma; star ws;
          Group 2 (plus any); Eol])
    false.

Definition ENGLISH_FULL : RegExp :=
  mkRegExp
    (cat [Bol;
          Alt (lit "Article") (cat [lit "Art"; opt (Chr 46%N)]);
          plus ws; Group 1 (plus digit);
          opt (cat [star ws; opt (Chr 44%N); star ws;
                    alts [lit "Paragraph"; cat [lit "Para"; opt (Chr 46%N)]]
                         (cat [lit "Par"; opt (Chr 46%N)]);
                    plus ws; Group 2 (plus digit)]);
          opt (cat [star ws; opt (Chr 44%N); star ws; lit "Item";
                    plus ws; Group 3 (plus digit)]);
          star ws; comma; star ws;
          Group 4 (plus_lazy any);
          opt (cat [star ws; lit "(Act"; plus ws; lit "No."; star ws;
                    Group 5 (plus digit); plus ws; lit "of"; plus ws;
                    Group 6 (exactly 4 digit); lit ")"]);
          Eol])
    true.

Definition SHORT_CITATION : RegExp :=
  mkRegExp
    (cat [Bol;
          Alt (cat [lit "Art"; opt (Chr 46%N)]) (lit "Article");
          plus ws; Group 1 (plus digit);
          opt (cat [star ws; opt (Chr 44%N); star ws;
                    Alt (cat [lit "Para"; opt (Chr 46%N)]) (lit "Paragraph");
                    plus ws; Group 2 (plus digit)]);
          star ws; comma; star ws;
          Group 3 (plus_lazy any);
          Eol])
    true.

Definition ID_BASED : RegExp :=
  mkRegExp
    (cat [Bol;
          Group 1 (cat [lit "act-"; plus digit; lit "-"; exactly 4 digit]);
          star ws; comma; star ws;
          Alt (cat [lit "art"; opt (Chr 46%N)]) (lit "article");
          star ws; opt (Chr 46%N); star ws;
          Group 2 (plus digit);
          opt (cat [star ws; comma; star ws;
                    Alt (cat [lit "para"; opt (Chr 46%N)]) (lit "paragraph");
                    star ws; opt (Chr 46%N); star ws;
                    Group 3 (plus digit)]);
          Eol])
    true.

Definition TRAILING_JAPANESE : RegExp :=
  mkRegExp
    (cat [Bol; Group 1 (plus_lazy any); plus ws; Group 2 reference_block; Eol])
    false.

(** [/act-(\d+)-(\d{4})/] *)
Definition RE_ID_PARTS : RegExp :=
  mkRegExp
    (cat [lit "act-"; Group 1 (plus digit); lit "-"; Group 2 (exactly 4 digit)])
    false.

(** The patterns of [parseJapaneseRef]: [/第(.+?)条/], [/条(第.+?項)/] and
    [/項?(第.+?号)/]. *)
Definition RE_REF_ARTICLE : RegExp :=
  mkRegExp (cat [Chr c_dai; Group 1 (plus_lazy any); Chr c_jo]) false.

Definition RE_REF_PARAGRAPH : RegExp :=
  mkRegExp
    (cat [Chr c_jo; Group 1 (cat [Chr c_dai; plus_lazy any; Chr c_kou])])
    false.

Definition RE_REF_ITEM : RegExp :=
  mkRegExp
    (cat [opt (Chr c_kou); Group 1 (cat [Chr c_dai; plus_lazy any; Chr c_go])])
    false.

(** [x || undefined] on a captured group. *)
Definition or_undefined (g : option jsstring) : option jsstring :=
  match g with
  | Some [] => None
  | o => o
  end.

Definition parseJapaneseRef (articleRef lawName : jsstring) : ParsedCitation :=
  let article :=
    match regex_match RE_REF_ARTICLE articleRef with
    | Some _ => Some (parseArticleNumber articleRef)
    | None => None
    end in
  let paragraph :=
    match regex_match RE_REF_PARAGRAPH articleRef with
    | Some paraMatch => Some (parseParagraphNumber (group paraMatch 1))
    | None => None
    end in
  let item :=
    match regex_match RE_REF_ITEM articleRef with
    | Some itemMatch => Some (parseItemNumber (group itemMatch 1))
    | None => None
    end in
  mkParsed true statute (Some (trim lawName)) None None None None
           article paragraph item None.

Definition parse_error_prefix : jsstring :=
  js "Could not parse Japanese legal citation: ".

Definition parseCitation (citation : jsstring) : ParsedCitation :=
  let trimmed := trim citation in
  match regex_match JAPANESE_CITATION trimmed with
  | Some m => parseJapaneseRef (group m 1) (group m 2)
  | None =>
  match regex_match TRAILING_JAPANESE trimmed with
  | Some m => parseJapaneseRef (group m 2) (group m 1)
  | None =>
  match regex_match ENGLISH_FULL trimmed with
  | Some m =>
    mkParsed true statute None (Some (trim (group m 4))) None
             (option_map parseInt (or_undefined (capture m 6)))
             (option_map parseInt (or_undefined (capture m 5)))
             (Some (group m 1)) (or_undefined (capture m 2)) (or_undefined (capture m 3)) None
  | None =>
  match regex_match SHORT_CITATION trimmed with
  | Some m =>
    mkParsed true statute None (Some (trim (group m 3))) None None None
             (Some (group m 1)) (or_undefined (capture m 2)) None None
  | None =>
  match regex_match ID_BASED trimmed with
  | Some m =>
    let idParts := regex_match RE_ID_PARTS (group m 1) in
    mkParsed true statute (Some (group m 1)) None None
             (option_map (fun p => parseInt (group p 2)) idParts)
             (option_map (fun p => parseInt (group p 1)) idParts)
             (Some (group m 2)) (or_undefined (capture m 3)) None None
  | None =>
    mkParsed false unknown None None None None None None None None
             (Some (parse_error_prefix ++ [34%N] ++ trimmed ++ [34%N]))
  end end end end end.

(** ** Citation formatter (citation/formatter.ts) *)

(** [!s] for an optional string: undefined and the empty string are falsy. *)
Definition str_truthy (o : option jsstring) : bool :=
  match o with
  | Some (_ :: _) => true
  | _ => false
  end.

Definition opt_truthy (o : option number) : bool :=
  match o with
  | Some n => num_truthy n
  | None => false
  end.

(** [a ?? b ?? ''] *)
Definition coalesce (a b : option jsstring) : jsstring :=
  match a with
  | Some s => s
  | None => match b with Some s => s | None => [] end
  end.

Definition opt_number_text (o : option number) : jsstring :=
  match o with
  | Some n => String_of_number n
  | None => js "undefined"
  end.

Definition buildPinpoint (parsed : ParsedCitation) (isJapanese : bool) : jsstring :=
  let ref := coalesce (article parsed) None in
  if negb isJapanese then
    let ref :=
      if str_truthy (paragraph parsed)
      then ref ++ js "(" ++ coalesce (paragraph parsed) None ++ js ")"
      else ref in
    if str_truthy (item parsed)
    then ref ++ js "(" ++ coalesce (item parsed) None ++ js ")"
    else ref
  else ref.

(** The numeral of a paragraph or item in the native style:
    [isNaN(n) ? text : arabicToKanji(n)] with [n = parseInt(text, 10)]. *)
Definition native_numeral (text : jsstring) : jsstring :=
  let n := parseInt text in
  if isNaN n then text else arabicToKanji n.

Definition formatCitation (parsed : ParsedCitation) (format : jsstring) : jsstring :=
  if negb (valid parsed) || negb (str_truthy (article parsed)) then []
  else
    let pinpoint := buildPinpoint parsed (str_eqb format (js "japanese")) in
    if str_eqb format (js "full") then
      let name := coalesce (title_en parsed) (title parsed) in
      let actInfo :=
        if opt_truthy (act_number parsed) && opt_truthy (year parsed)
        then js " (Act No. " ++ opt_number_text (act_number parsed)
             ++ js " of " ++ opt_number_text (year parsed) ++ js ")"
        else [] in
      trim (js "Article " ++ pinpoint ++ js ", " ++ name ++ actInfo)
    else if str_eqb format (js "short") then
      let name := coalesce (title_en parsed) (title parsed) in
      trim (js "Art. " ++ pinpoint ++ js ", " ++ name)
    else if str_eqb format (js "pinpoint") then
      js "Art. " ++ pinpoint
    else if str_eqb format (js "japanese") then
      let articleKanji :=
        formatArticleKanji (ArtStr (coalesce (article parsed) None)) in
      let ref := articleKanji in
      let ref :=
        if str_truthy (paragraph parsed)
        then ref ++ [c_dai] ++ native_numeral (coalesce (paragraph parsed) None)
                 ++ [c_kou]
        else ref in
      let ref :=
        if str_truthy (item parsed)
        then ref ++ [c_dai] ++ native_numeral (coalesce (item parsed) None)
                 ++ [c_go]
        else ref in
      let name := coalesce (title parsed) (title_en parsed) in
      trim (ref ++ js " " ++ name)
    else
      trim (js "Article " ++ pinpoint ++ js ", "
            ++ coalesce (title_en parsed) (title parsed)).

(** ** Citation validator (citation/validator.ts) *)

(** A call that may throw. *)
Inductive result (A : Type) : Type :=
| Ok (a : A)
| Throw (message : jsstring).

Arguments Ok {A} a.
Arguments Throw {A} message.

Definition bind {A B : Type} (r : result A) (f : A -> result B) : result B :=
  match r with
  | Ok a => f a
  | Throw e => Throw e
  end.

Notation "x <- r ;; k" := (bind r (fun x => k))
  (at level 61, r at next level, right associativity).

(** The row the document statement selects: id, title, title_en, status. *)
Record document_row : Type := mkDocument {
  doc_id : jsstring;
  doc_title : jsstring;
  doc_title_en : option jsstring;
  doc_status : jsstring
}.

(** The store the validator is handed.  The validator prepares two fixed
    statements and binds four parameters to each; the store answers each with
    at most one row ([LIMIT 1]), or fails.
    - [get_document like_title like_title_en like_short_name id] answers
      [SELECT id, title, title_en, status FROM legal_documents WHERE title
      LIKE ? OR title_en LIKE ? OR short_name LIKE ? OR id = ? LIMIT 1];
    - [get_provision document_id provision_ref section like_ref] answers
      [SELECT 1 FROM legal_provisions WHERE document_id = ? AND
      (provision_ref = ? OR section = ? OR provision_ref LIKE ?) LIMIT 1]. *)
Record Database : Type := mkDatabase {
  get_document : jsstring -> jsstring -> jsstring -> jsstring
                 -> result (option document_row);
  get_provision : jsstring -> jsstring -> jsstring -> jsstring
                  -> result (option unit)
}.

Definition repealed_notice : jsstring := js "This statute has been repealed".

Definition document_not_found (searchTerm : jsstring) : jsstring :=
  js "Document " ++ [34%N] ++ searchTerm ++ [34%N] ++ js " not found in database".

Definition provision_not_found (article title : jsstring) : jsstring :=
  js "Article " ++ article ++ js " not found in " ++ title.

Definition validateCitation (db : Database) (citation : jsstring)
    : result ValidationResult :=
  let parsed := parseCitation citation in
  let warnings : list jsstring := [] in
  if negb (valid parsed) then
    Ok (mkValidation parsed false false None None
          [match error parsed with
           | Some e => e
           | None => js "Invalid citation format"
           end])
  else
    let searchTerm := coalesce (title parsed) (title_en parsed) in
    let like := js "%" ++ searchTerm ++ js "%" in
    doc <- get_document db like like like searchTerm ;;
    match doc with
    | None =>
      Ok (mkValidation parsed false false None None
            [document_not_found searchTerm])
    | Some doc =>
      let warnings :=
        if str_eqb (doc_status doc) (js "repealed")
        then warnings ++ [repealed_notice]
        else warnings in
      if str_truthy (article parsed) then
        let article := coalesce (article parsed) None in
        let provisionRef := js "art-" ++ article in
        let section := article in
        prov <- get_provision db (doc_id doc) provisionRef section
                              (js "art-" ++ section ++ js "%") ;;
        let provisionExists := match prov with Some _ => true | None => false end in
        let warnings :=
          if negb provisionExists
          then warnings ++ [provision_not_found article (doc_title doc)]
          else warnings in
        Ok (mkValidation parsed true provisionExists
              (Some (doc_title doc)) (Some (doc_status doc)) warnings)
      else
        Ok (mkValidation parsed true false
              (Some (doc_title doc)) (Some (doc_status doc)) warnings)
    end.

(** ** The format_citation tool (tools/format-citation.ts) *)

Module Tool.

Record FormatCitationInput : Type := mkInput {
  citation : jsstring;
  format : option jsstring
}.

(** The [results] member of the tool's response; the [_metadata] member does
    not depend on the input. *)
Record FormatCitationResult : Type := mkResult {
  input : jsstring;
  formatted : jsstring;
  formatted_japanese : jsstring;
  type : jsstring;
  valid : bool;
  error : option jsstring
}.

Definition type_name (t : citation_type) : jsstring :=
  match t with
  | statute => js "statute"
  | cabinet_order => js "cabinet_order"
  | ministerial_ordinance => js "ministerial_ordinance"
  | unknown => js "unknown"
  end.

Section WithParser.

(** The parser the tool imports, kept as a variable so that a result can be
    seen not to depend on it. *)
Variable parser : jsstring -> ParsedCitation.

Definition formatCitationTool_with (i : FormatCitationInput) : FormatCitationResult :=
  if negb (str_truthy (Some (citation i))) || (length (trim (citation i)) =? 0)%nat
  then mkResult [] [] [] (js "unknown") false (Some (js "Empty citation"))
  else
    let parsed := parser (citation i) in
    if negb (Types.valid parsed) then
      mkResult (citation i) (citation i) [] (js "unknown") false
               (Types.error parsed)
    else
      let formatted :=
        formatCitation parsed
          (match format i with Some f => f | None => js "full" end) in
      let formattedJapanese := formatCitation parsed (js "japanese") in
      mkResult (citation i) formatted formattedJapanese
               (type_name (Types.type parsed)) true None.

End WithParser.

Definition formatCitationTool : FormatCitationInput -> FormatCitationResult :=
  formatCitationTool_with parseCitation.

End Tool.

(** ** Statute identifiers (utils/statute-id.ts) *)

Definition isValidStatuteId (id : jsstring) : bool :=
  (0 <? length id)%nat && (0 <? length (trim id))%nat.

Module Provision.

(** A row of the join of legal_provisions with legal_documents, as the two
    provision statements of the tool select it. *)
Module Row.

Record ProvisionRow : Type := mkRow {
  document_id : jsstring;
  document_title : jsstring;
  document_title_en : option jsstring;
  document_status : jsstring;
  document_url : option jsstring;
  provision_ref : jsstring;
  chapter : option jsstring;
  section : jsstring;
  title : option jsstring;
  content : jsstring;
  content_en : option jsstring;
  language : option jsstring
}.

End Row.

(** The statements that [resolveExistingStatuteId] and [getProvision]
    prepare, each taking the parameters that are bound to it; a statement
    answers or throws.
    - The five document statements select the id of at most one row of
      legal_documents: where [id = ?], where [law_number = ?], where
      [title LIKE ?], where [title_en LIKE ?], where [short_name LIKE ?].
    - [count_provisions id] is the count of the rows of legal_provisions
      with that document_id, as [get] returns it.
    - [all_provisions id limit] are the rows with that document_id in the
      order of the statement, at most [limit] of them.
    - [one_provision id ref section ref'] is the first row with that
      document_id and [provision_ref = ref OR section = section OR
      provision_ref = ref']. *)
Record LawStore : Type := mkLawStore {
  document_by_id : jsstring -> result (option jsstring);
  document_by_law_number : jsstring -> result (option jsstring);
  document_by_title : jsstring -> result (option jsstring);
  document_by_title_en : jsstring -> result (option jsstring);
  document_by_short_name : jsstring -> result (option jsstring);
  count_provisions : jsstring -> result (option number);
  all_provisions : jsstring -> Z -> result (list Row.ProvisionRow);
  one_provision : jsstring -> jsstring -> jsstring -> jsstring
                  -> result (option Row.ProvisionRow)
}.

Definition resolveExistingStatuteId (db : LawStore) (inputId : jsstring)
    : result (option jsstring) :=
  exact <- document_by_id db inputId ;;
  match exact with
  | Some id => Ok (Some id)
  | None =>
  byLawNumber <- document_by_law_number db inputId ;;
  match byLawNumber with
  | Some id => Ok (Some id)
  | None =>
  byTitle <- document_by_title db (js "%" ++ inputId ++ js "%") ;;
  match byTitle with
  | Some id => Ok (Some id)
  | None =>
  byTitleEn <- document_by_title_en db (js "%" ++ inputId ++ js "%") ;;
  match byTitleEn with
  | Some id => Ok (Some id)
  | None =>
  byShortName <- document_by_short_name db (js "%" ++ inputId ++ js "%") ;;
  Ok byShortName
  end end end end.

(** *** The get_provision tool (tools/get-provision.ts) *)

Module Input.

Record GetProvisionInput : Type := mkInput {
  document_id : jsstring;
  article : option jsstring;
  provision_ref : option jsstring
}.

End Input.

(** A row as it is returned: [document_url] is overwritten with undefined
    and [citation_url] is added. *)
Record ProvisionResult : Type := mkProvisionResult {
  row : Row.ProvisionRow;
  citation_url : jsstring
}.

(** The [results] member of the response: one provision, null, the array of
    all provisions, or the capped array with [truncated: true] and the
    total.  The [_metadata] member is computed apart and cannot fail. *)
Inductive ProvisionResults : Type :=
| OneProvision (r : ProvisionResult)
| NoProvision
| AllProvisions (rs : list ProvisionResult)
| CappedProvisions (provisions : list ProvisionResult) (total : number).

Definition MAX_ALL_PROVISIONS : Z := 200.

Definition buildCitationUrl (row : Row.ProvisionRow) : jsstring :=
  if str_truthy (Row.document_url row)
  then coalesce (Row.document_url row) None
  else js "https://laws.e-gov.go.jp/law/" ++ Row.document_id row.

(** [{ ...r, citation_url: buildCitationUrl(r), document_url: undefined }] *)
Definition returned_row (r : Row.ProvisionRow) : ProvisionResult :=
  mkProvisionResult
    (Row.mkRow (Row.document_id r) (Row.document_title r)
       (Row.document_title_en r) (Row.document_status r) None
       (Row.provision_ref r) (Row.chapter r) (Row.section r) (Row.title r)
       (Row.content r) (Row.content_en r) (Row.language r))
    (buildCitationUrl r).

Definition getProvision (db : LawStore) (input : Input.GetProvisionInput)
    : result ProvisionResults :=
  if negb (str_truthy (Some (Input.document_id input)))
  then Throw (js "document_id is required")
  else
    resolved <- resolveExistingStatuteId db (Input.document_id input) ;;
    let resolvedDocumentId :=
      match resolved with
      | Some id => id
      | None => Input.document_id input
      end in
    let articleRef :=
      match Input.provision_ref input with
      | Some r => Some r
      | None => Input.article input
      end in
    let articleRef :=
      if str_truthy articleRef
      then Some (parseArticleNumber (coalesce articleRef None))
      else articleRef in
    if negb (str_truthy articleRef) then
      countRow <- count_provisions db resolvedDocumentId ;;
      let total := match countRow with Some c => c | None => Int 0 end in
      rows <- all_provisions db resolvedDocumentId MAX_ALL_PROVISIONS ;;
      let results := map returned_row rows in
      if num_gt total MAX_ALL_PROVISIONS
      then Ok (CappedProvisions results total)
      else Ok (AllProvisions results)
    else
      let articleRef := coalesce articleRef None in
      let provisionRefSearch := js "art-" ++ articleRef in
      row <- one_provision db resolvedDocumentId provisionRefSearch
                           articleRef articleRef ;;
      match row with
      | None => Ok NoProvision
      | Some row => Ok (OneProvision (returned_row row))
      end.

End Provision.

(** ** What a match is

    The relation [matches ic r x y] says that pattern [r] can take the
    matcher from state [x] to state [y]; it forgets the order in which the
    matcher tries the alternatives.  Every result of [rmatch] is a match in
    this sense ([rmatch_sound]), which is how facts about captured groups
    are read off a pattern. *)

Module RegexSpec.

Inductive matches (ic : bool) : regex -> state -> state -> Prop :=
| matches_chr c a r x :
    rest x = a :: r -> chr_match ic c a = true ->
    matches ic (Chr c) x (mkState (S (idx x)) r (caps x))
| matches_cls p a r x :
    rest x = a :: r -> p a = true ->
    matches ic (Cls p) x (mkState (S (idx x)) r (caps x))
| matches_bol x : idx x = 0%nat -> matches ic Bol x x
| matches_eol x : rest x = [] -> matches ic Eol x x
| matches_eps x : matches ic Eps x x
| matches_seq r1 r2 x y z :
    matches ic r1 x y -> matches ic r2 y z -> matches ic (Seq r1 r2) x z
| matches_alt_l r1 r2 x y : matches ic r1 x y -> matches ic (Alt r1 r2) x y
| matches_alt_r r1 r2 x y : matches ic r2 x y -> matches ic (Alt r1 r2) x y
| matches_rep_stop min max g r x :
    min = 0%nat \/ max = Some 0%nat -> matches ic (Rep min max g r) x x
| matches_rep_round min max g r x y z :
    max <> Some 0%nat ->
    matches ic r (clear_caps (groups r) x) y ->
    (min = 0%nat -> idx y <> idx x) ->
    matches ic (Rep (Nat.pred min) (option_map Nat.pred max) g r) y z ->
    matches ic (Rep min max g r) x z
| matches_group n r x y :
    matches ic r x y ->
    matches ic (Group n r) x
      (mkState (idx y) (rest y)
         (set_cap (caps y) n (firstn (idx y - idx x) (rest x)))).

(** The text between two states of one run. *)
Definition consumed (x y : state) : jsstring := firstn (idx y - idx x) (rest x).

(** Every capturing group of [r] only ever captures text that satisfies [Q]. *)
Fixpoint group_ok (ic : bool) (Q : nat -> jsstring -> Prop) (r : regex) : Prop :=
  match r with
  | Seq r1 r2 | Alt r1 r2 => group_ok ic Q r1 /\ group_ok ic Q r2
  | Rep _ _ _ r1 => group_ok ic Q r1
  | Group n r1 =>
    (forall x y, matches ic r1 x y -> Q n (consumed x y)) /\ group_ok ic Q r1
  | _ => True
  end.

Definition mentions (n : nat) (r : regex) : bool := existsb (Nat.eqb n) (groups r).

(** Group [n] takes part in every match of [r]. *)
Fixpoint always_sets (n : nat) (r : regex) : bool :=
  match r with
  | Seq r1 r2 => always_sets n r1 && negb (mentions n r2) || always_sets n r2
  | Alt r1 r2 => always_sets n r1 && always_sets n r2
  | Group m r1 => Nat.eqb n m || always_sets n r1
  | _ => false
  end.

(** [idx] and [rest] of a state of a run over an input of [n] code units. *)
Definition wf (n : nat) (x : state) : Prop := (idx x + length (rest x) = n)%nat.

(** [v] occurs in [s] as a run of consecutive code units. *)
Definition substring_of (v s : jsstring) : Prop :=
  exists a b, s = a ++ v ++ b.

(** A continuation that never reports [Stuck] on the states a run over [n]
    code units can reach from [x]. *)
Definition safe_cont (n : nat) (k : cont) (x : state) : Prop :=
  forall y, wf n y -> (idx x <= idx y)%nat -> k y <> Stuck.

(** The groups listed in [gs] hold strings of digits. *)
Definition digit_groups (gs : list nat) : nat -> jsstring -> Prop :=
  fun n v => In n gs -> all_digits v = true.

(** The groups listed in [gs] hold non-empty text. *)
Definition nonempty_groups (gs : list nat) : nat -> jsstring -> Prop :=
  fun n v => In n gs -> v <> [].

End RegexSpec.

Import RegexSpec.

(** ** Vocabulary of the properties *)

(** What [arabicToKanji] writes for one decimal place: nothing for 0, the
    multiplier alone for 1, the digit and the multiplier otherwise. *)
Definition place (k : Z) (multiplier : char) : jsstring :=
  if 0 <? k
  then (if 1 <? k then append_entry [] (ARABIC_TO_KANJI_DIGITS k) else [])
       ++ [multiplier]
  else [].

(** What it writes for the ones. *)
Definition ones (k : Z) : jsstring :=
  if 0 <? k then append_entry [] (ARABIC_TO_KANJI_DIGITS k) else [].

(** The number of kanji numeral characters (digits and multipliers) of a
    string.  A numeral of at most 15 such characters has a value below
    10^15, so [kanjiToArabic] computes it without rounding. *)
Definition numeral_count (s : jsstring) : nat :=
  length (filter (fun c => in_table KANJI_DIGITS c || in_table KANJI_MULTIPLIERS c) s).

(** [第<text>条] *)
Definition wrap_article (text : jsstring) : jsstring := [c_dai] ++ text ++ [c_jo].

(** The input of [formatArticleKanji] is a positive integer or a string of
    digits that denotes one. *)
Definition positive_integer_input (a : article_num) : bool :=
  match a with
  | ArtNum n => num_gt n 0
  | ArtStr s => all_digits s && (0 <? digits_value s)
  end.

(** The number [formatArticleKanji] works with: the input itself, or what
    [parseInt] reads at the start of a string. *)
Definition leading_integer (a : article_num) : number :=
  match a with
  | ArtNum n => n
  | ArtStr s => parseInt s
  end.

Definition repealed_document : document_row :=
  mkDocument (js "415AC0000000057") (js "個人情報の保護に関する法律") None
             (js "repealed").

(** A store with one repealed document and no provision. *)
Definition repealed_store : Database :=
  mkDatabase (fun _ _ _ _ => Ok (Some repealed_document))
             (fun _ _ _ _ => Ok None).

(** The characters that [.] matches. *)
Definition not_line_terminator (c : char) : bool := negb (isLineTerminator c).

(** The value of a string of kanji digits read as a decimal number. *)
Definition positional_value (s : jsstring) : Z :=
  fold_left (fun acc c => acc * 10 + table_get KANJI_DIGITS c) s 0.

(** The characters [arabicToKanji] writes for 1 to 9999. *)
Definition canonical_numeral (c : char) : bool :=
  existsb (N.eqb c) (js "一二三四五六七八九十百千").

(** The three closing markers. *)
Definition closing_marker (c : char) : Prop := c = c_jo \/ c = c_kou \/ c = c_go.

(** What the three parsers do with the text they settled on: the text
    inside the wrapper, or the whole trimmed reference. *)
Definition normalize_numeral (inner : jsstring) : jsstring :=
  if regex_test RE_DIGITS inner then inner
  else
    let arabicNum := kanjiToArabic inner in
    if num_gt arabicNum 0 then String_of_number arabicNum else inner.

(** The group that holds the reference block. *)
Definition article_groups (gs : list nat) : nat -> jsstring -> Prop :=
  fun n v => In n gs -> regex_match RE_REF_ARTICLE v <> None.

(** [together n1 n2 r]: in every match of [r], groups [n1] and [n2] are both
    captured or both left undefined, when they start out that way. *)
Fixpoint together (n1 n2 : nat) (r : regex) : bool :=
  (always_sets n1 r && always_sets n2 r)
  || (negb (mentions n1 r) && negb (mentions n2 r))
  || match r with
     | Seq a b | Alt a b => together n1 n2 a && together n1 n2 b
     | Group m a => negb (Nat.eqb n1 m) && negb (Nat.eqb n2 m) && together n1 n2 a
     | Rep _ _ _ a => always_sets n1 a && always_sets n2 a
     | _ => false
     end.

(** Four digits, as [\d{4}] captures them. *)
Definition four_digit_groups (gs : list nat) : nat -> jsstring -> Prop :=
  fun n v => In n gs -> forallb isDigit v = true /\ length v = 4%nat.

(** The citation that the native style writes for article [n] of [name]. *)
Definition native_citation (n : Z) (name : jsstring) : jsstring :=
  [c_dai] ++ arabicToKanji (Int n) ++ [c_jo] ++ js " " ++ name.

(** What [parseCitation] makes of it. *)
Definition article_of (n : Z) (name : jsstring) : ParsedCitation :=
  mkParsed true statute (Some name) None None None None
           (Some (String_of_number (Int n))) None None None.

(** A name as a citation can carry it: not empty, trimmed, on one line, not
    starting with a comma. *)
Definition plain_name (name : jsstring) : Prop :=
  name <> [] /\ trim name = name
  /\ forallb not_line_terminator name = true
  /\ match name with
     | c :: _ => c <> 44%N /\ c <> c_touten
     | [] => True
     end.

(** The citation without its act number. *)
Definition without_act (p : ParsedCitation) : ParsedCitation :=
  mkParsed (valid p) (type p) (title p) (title_en p) (law_number p) (year p)
           None (article p) (paragraph p) (item p) (error p).

(** The four style names that [formatCitation] knows. *)
Definition known_format (format : jsstring) : bool :=
  str_eqb format (js "full") || str_eqb format (js "short")
  || str_eqb format (js "pinpoint") || str_eqb format (js "japanese").

(** The provisions that a response of the tool holds. *)
Definition returned_provisions (r : Provision.ProvisionResults)
    : list Provision.ProvisionResult :=
  match r with
  | Provision.OneProvision p => [p]
  | Provision.NoProvision => []
  | Provision.AllProvisions rs => rs
  | Provision.CappedProvisions rs _ => rs
  end.

(** A reference that names no article: absent, or empty, or white space. *)
Definition blank_reference (o : option jsstring) : Prop :=
  match o with
  | Some r => trim r = []
  | None => True
  end.

(** A store whose statements all answer. *)
Definition store_answers (db : Provision.LawStore) : Prop :=
  (forall a e, Provision.document_by_id db a <> Throw e)
  /\ (forall a e, Provision.document_by_law_number db a <> Throw e)
  /\ (forall a e, Provision.document_by_title db a <> Throw e)
  /\ (forall a e, Provision.document_by_title_en db a <> Throw e)
  /\ (forall a e, Provision.document_by_short_name db a <> Throw e)
  /\ (forall a e, Provision.count_provisions db a <> Throw e)
  /\ (forall a n e, Provision.all_provisions db a n <> Throw e)
  /\ (forall a b c d e, Provision.one_provision db a b c d <> Throw e).

(** A store without documents. *)
Definition empty_store : Provision.LawStore :=
  Provision.mkLawStore
    (fun _ => Ok None) (fun _ => Ok None) (fun _ => Ok None) (fun _ => Ok None)
    (fun _ => Ok None) (fun _ => Ok (Some (Int 0))) (fun _ _ => Ok [])
    (fun _ _ _ _ => Ok None).

(** The citation with the name in front: <name> 第<numeral>条. *)
Definition trailing_citation (n : Z) (name : jsstring) : jsstring :=
  name ++ js " " ++ [c_dai] ++ arabicToKanji (Int n) ++ [c_jo].

(** A name written without white space that does not start with 第. *)
Definition compact_name (name : jsstring) : Prop :=
  name <> []
  /\ forallb (fun c => negb (isWhiteSpace c)) name = true
  /\ match name with
     | c :: _ => c <> c_dai
     | [] => True
     end.

(** [spans ic r p q]: pattern [r] can take the matcher from position [p] (an
    index and the text from there on) to position [q]. *)
Definition spans (ic : bool) (r : regex) (p q : nat * jsstring) : Prop :=
  forall cs, exists cs',
    matches ic r (mkState (fst p) (snd p) cs) (mkState (fst q) (snd q) cs').

Definition position (x : state) : nat * jsstring := (idx x, rest x).

(** [p] is a prefix of [s] up to the case of ASCII letters. *)
Fixpoint ci_prefix (p s : jsstring) : bool :=
  match p, s with
  | [], _ => true
  | c :: p', a :: s' => chr_match true c a && ci_prefix p' s'
  | _ :: _, [] => false
  end.

(** The act information as the full style writes it. *)
Definition act_text (act : option (Z * Z)) : jsstring :=
  match act with
  | Some (a, y) =>
    js " (Act No. " ++ String_of_number (Int a) ++ js " of "
    ++ String_of_number (Int y) ++ js ")"
  | None => []
  end.

(** Article <digits>, <name>[ (Act No. <a> of <y>)] *)
Definition full_citation (d name : jsstring) (act : option (Z * Z)) : jsstring :=
  js "Article " ++ d ++ js ", " ++ name ++ act_text act.

Definition full_cited (d name : jsstring) (act : option (Z * Z)) : ParsedCitation :=
  mkParsed true statute None (Some name) None
           (option_map (fun ay => Int (snd ay)) act)
           (option_map (fun ay => Int (fst ay)) act)
           (Some d) None None None.

(** A name that the full style can carry: not empty, trimmed, on one line,
    without an opening parenthesis and without 第, not starting with a comma
    nor with the words that introduce a paragraph or an item. *)
Definition english_name (name : jsstring) : Prop :=
  name <> [] /\ trim name = name
  /\ forallb not_line_terminator name = true
  /\ ~ In 40%N name /\ ~ In c_dai name
  /\ match name with
     | c :: _ => c <> 44%N /\ c <> c_touten
     | [] => True
     end
  /\ ci_prefix (js "Par") name = false
  /\ ci_prefix (js "Item") name = false.

(** An act number below 10^15 with a year of four digits, or none. *)
Definition act_range (act : option (Z * Z)) : Prop :=
  match act with
  | Some (a, y) => 1 <= a < 10 ^ 15 /\ 1000 <= y <= 9999
  | None => True
  end.

(** The pattern of the act information, as [ENGLISH_FULL] holds it. *)
Definition act_clause : regex :=
  cat [star ws; lit "(Act"; plus ws; lit "No."; star ws;
       Group 5 (plus digit); plus ws; lit "of"; plus ws;
       Group 6 (exactly 4 digit); lit ")"].

(** The citation that the native style writes for paragraph [p] of article
    [n] of [name], and what [parseCitation] makes of it. *)
Definition native_paragraph_citation (n p : Z) (name : jsstring) : jsstring :=
  [c_dai] ++ arabicToKanji (Int n) ++ [c_jo]
  ++ [c_dai] ++ arabicToKanji (Int p) ++ [c_kou] ++ js " " ++ name.

Definition paragraph_of (n p : Z) (name : jsstring) : ParsedCitation :=
  mkParsed true statute (Some name) None None None None
           (Some (String_of_number (Int n))) (Some (String_of_number (Int p)))
           None None.

(** A citation with a paragraph, in the Western styles. *)
Definition cited_paragraph (d p name : jsstring) : ParsedCitation :=
  mkParsed true statute None (Some name) None None None (Some d) (Some p)
           None None.

(** The word act- of an identifier, in any case. *)
Definition id_prefix (pre : jsstring) : Prop :=
  length pre = 4%nat /\ ci_prefix (js "act-") pre = true.

(** A citation by identifier: <id>, art. <digits>. *)
Definition id_citation (pre A Y d : jsstring) : jsstring :=
  pre ++ A ++ js "-" ++ Y ++ js ", art. " ++ d.

(** What the short style writes: Art. <digits>, <name>. *)
Definition short_citation (d name : jsstring) : jsstring :=
  js "Art. " ++ d ++ js ", " ++ name.

(** The text inside a wrapper of the input: 第<inner><closing> occurs in the
    input, [inner] is not empty and ends at the first closing marker after
    its first character. *)
Definition wrapped_in (closing : char) (input inner : jsstring) : Prop :=
  inner <> [] /\ ~ In closing (tl inner)
  /\ substring_of ([c_dai] ++ inner ++ [closing]) input.

(** How a reference field [v] is read from the text [inner] of a wrapper:
    digits are kept, a numeral gives the digits of its value, any other text
    is kept. *)
Definition read_from (inner v : jsstring) : Prop :=
  (all_digits inner = true -> v = inner)
  /\ (forall n, 1 <= n <= 9999 -> inner = arabicToKanji (Int n) ->
      v = String_of_number (Int n))
  /\ (all_digits inner = false -> num_gt (kanjiToArabic inner) 0 = true ->
      v = String_of_number (kanjiToArabic inner) /\ all_digits v = true)
  /\ (all_digits inner = false -> num_gt (kanjiToArabic inner) 0 = false ->
      v = inner).

(** One of the two native patterns matches the trimmed input. *)
Definition native_grammar (citation : jsstring) : bool :=
  match regex_match JAPANESE_CITATION (trim citation),
        regex_match TRAILING_JAPANESE (trim citation) with
  | None, None => false
  | _, _ => true
  end.

(** Where a reference field of a parsed citation comes from. *)
Definition reference_field (closing : char) (citation v : jsstring) : Prop :=
  if native_grammar citation
  then exists inner, wrapped_in closing citation inner /\ read_from inner v
  else all_digits v = true /\ substring_of v citation.

(** The groups listed in [gs] hold text that starts with a wrapper. *)
Definition wrapper_groups (closing : char) (gs : list nat)
    : nat -> jsstring -> Prop :=
  fun n v =>
    In n gs ->
    exists a w t,
      v = c_dai :: (a :: w) ++ closing :: t
      /\ forallb not_line_terminator (a :: w) = true
      /\ ~ In closing w.

(** A native numeral of [n]: a non-empty text of the numerals 一 to 九, 十,
    百 and 千 that [kanjiToArabic] reads as [n]. *)
Definition numeral_of (n : Z) (K : jsstring) : Prop :=
  K <> [] /\ forallb canonical_numeral K = true /\ kanjiToArabic K = Int n.

(** An article wrapper and nothing else: 第<text>条. *)
Definition bare_reference (X : jsstring) : jsstring := [c_dai] ++ X ++ [c_jo].

(** * Properties *)

(** ** The embedding on the examples of the source and of the specification *)

Example utf16_markers :
  js "第条項号十百千、" = [c_dai; c_jo; c_kou; c_go; c_ju; c_hyaku; c_sen; c_touten].
Proof. reflexivity. Qed.

Example kanji_digit_keys :
  map KANJI_DIGITS (js "〇零一壱二弐三参四五六七八九")
  = map Some [0; 0; 1; 1; 2; 2; 3; 3; 4; 5; 6; 7; 8; 9].
Proof. reflexivity. Qed.

Example kanjiToArabic_17 : kanjiToArabic (js "十七") = Int 17.
Proof. reflexivity. Qed.

Example kanjiToArabic_123 : kanjiToArabic (js "百二十三") = Int 123.
Proof. reflexivity. Qed.

Example kanjiToArabic_positional : kanjiToArabic (js "一〇三") = Int 103.
Proof. reflexivity. Qed.

Example arabicToKanji_17 : arabicToKanji (Int 17) = js "十七".
Proof. reflexivity. Qed.

Example arabicToKanji_10 : arabicToKanji (Int 10) = js "十".
Proof. reflexivity. Qed.

Example arabicToKanji_2003 : arabicToKanji (Int 2003) = js "二千三".
Proof. reflexivity. Qed.

Example String_of_number_2003 : String_of_number (Int 2003) = js "2003".
Proof. reflexivity. Qed.

Example parseArticleNumber_kanji : parseArticleNumber (js "第十七条") = js "17".
Proof. reflexivity. Qed.

Example parseArticleNumber_arabic : parseArticleNumber (js "第1条") = js "1".
Proof. reflexivity. Qed.

Example parseArticleNumber_plain : parseArticleNumber (js "17") = js "17".
Proof. reflexivity. Qed.

Example parseItemNumber_kanji : parseItemNumber (js "第一号") = js "1".
Proof. reflexivity. Qed.

Example formatArticleKanji_17 : formatArticleKanji (ArtStr (js "17")) = js "第十七条".
Proof. reflexivity. Qed.

Example parse_english_full :
  parseCitation (js "Article 17, Act on Protection of Personal Information (Act No. 57 of 2003)")
  = mkParsed true statute None
      (Some (js "Act on Protection of Personal Information")) None
      (Some (Int 2003)) (Some (Int 57)) (Some (js "17")) None None None.
Proof. vm_compute. reflexivity. Qed.

Example parse_english_short :
  parseCitation (js "Art. 17, APPI")
  = mkParsed true statute None (Some (js "APPI")) None None None
      (Some (js "17")) None None None.
Proof. vm_compute. reflexivity. Qed.

Example parse_id_based :
  parseCitation (js "act-57-2003, art. 17")
  = mkParsed true statute (Some (js "act-57-2003")) None None
      (Some (Int 2003)) (Some (Int 57)) (Some (js "17")) None None None.
Proof. vm_compute. reflexivity. Qed.

Example parse_trailing_reference :
  parseCitation (js "個人情報の保護に関する法律 第23条")
  = mkParsed true statute (Some (js "個人情報の保護に関する法律")) None None
      None None (Some (js "23")) None None None.
Proof. vm_compute. reflexivity. Qed.

Example parse_native_paragraph :
  parseCitation (js "第十七条第一項 個人情報の保護に関する法律")
  = mkParsed true statute (Some (js "個人情報の保護に関する法律")) None None
      None None (Some (js "17")) (Some (js "1")) None None.
Proof. vm_compute. reflexivity. Qed.

Example parse_empty :
  parseCitation [] 
  = mkParsed false unknown None None None None None None None None
      (Some (js "Could not parse Japanese legal citation: " ++ [34%N; 34%N])).
Proof. vm_compute. reflexivity. Qed.

Example format_full :
  formatCitation
    (parseCitation (js "Article 17, Act on Protection of Personal Information (Act No. 57 of 2003)"))
    (js "full")
  = js "Article 17, Act on Protection of Personal Information (Act No. 57 of 2003)".
Proof. vm_compute. reflexivity. Qed.

Example format_short :
  formatCitation (parseCitation (js "Art. 17, APPI")) (js "short") = js "Art. 17, APPI".
Proof. vm_compute. reflexivity. Qed.

Example format_pinpoint :
  formatCitation (parseCitation (js "Article 17, Paragraph 1, APPI")) (js "pinpoint")
  = js "Art. 17(1)".
Proof. vm_compute. reflexivity. Qed.

Example format_japanese_paragraph :
  formatCitation (parseCitation (js "Article 17, Paragraph 1, Item 2, APPI")) (js "japanese")
  = js "第十七条第一項第二号 APPI".
Proof. vm_compute. reflexivity. Qed.

Example arabicToKanji_beyond_table :
  arabicToKanji (Int 10000) = js "undefined千".
Proof. reflexivity. Qed.

(** ** The matcher *)

Section Matcher.

Variable ic : bool.

Lemma step_char_sound (p : char -> bool) (k : cont) (x o : state) :
  step_char p k x = Matched o ->
  exists a r, rest x = a :: r /\ p a = true
              /\ k (mkState (S (idx x)) r (caps x)) = Matched o.
Proof.
  unfold step_char. destruct (rest x) as [|a r]; [discriminate|].
  destruct (p a) eqn:Hp; [|discriminate].
  intros H. exists a, r. auto.
Qed.

Lemma repeat_matcher_sound (r : regex) (g : bool) :
  (forall k x o, rmatch ic r k x = Matched o ->
                 exists y, matches ic r x y /\ k y = Matched o) ->
  forall fuel min max k x o,
    repeat_matcher (rmatch ic r) (groups r) fuel min max g k x = Matched o ->
    exists y, matches ic (Rep min max g r) x y /\ k y = Matched o.
Proof.
  intros IHr. induction fuel as [|fuel IHf]; intros min max k x o H.
  - simpl in H. destruct max as [[|n]|]; try discriminate.
    exists x. split; [apply matches_rep_stop; auto | exact H].
  - simpl in H.
    assert (Hround :
      rmatch ic r
        (fun y => if Nat.eqb min 0 && Nat.eqb (idx y) (idx x) then Failed
                  else repeat_matcher (rmatch ic r) (groups r) fuel (Nat.pred min)
                         (option_map Nat.pred max) g k y)
        (clear_caps (groups r) x) = Matched o ->
      max <> Some 0%nat ->
      exists y, matches ic (Rep min max g r) x y /\ k y = Matched o).
    { intros Hm Hmax. apply IHr in Hm. destruct Hm as [y [Hy Hd]].
      destruct (Nat.eqb min 0 && Nat.eqb (idx y) (idx x)) eqn:Hc; [discriminate|].
      apply IHf in Hd. destruct Hd as [z [Hz Hk]].
      exists z. split; [|exact Hk].
      eapply matches_rep_round; eauto.
      intros Hmin Hi. subst min. rewrite Hi in Hc. simpl in Hc.
      rewrite Nat.eqb_refl in Hc. discriminate. }
    assert (Hstop : Nat.eqb min 0 = true -> k x = Matched o ->
      exists y, matches ic (Rep min max g r) x y /\ k y = Matched o).
    { intros Hmin Hk. apply Nat.eqb_eq in Hmin. exists x.
      split; [apply matches_rep_stop; auto | exact Hk]. }
    destruct max as [[|n]|].
    + exists x. split; [apply matches_rep_stop; auto | exact H].
    + destruct (Nat.eqb min 0) eqn:Hmin; simpl in H.
      * destruct g.
        -- match type of H with
           | match ?e with _ => _ end = _ => destruct e eqn:He
           end; try discriminate.
           ++ apply Hround; [inversion H; subst; exact He | discriminate].
           ++ apply Hstop; auto.
        -- destruct (k x) eqn:Hk; try discriminate.
           ++ apply Hstop; auto.
           ++ apply Hround; [exact H | discriminate].
      * apply Hround; [exact H | discriminate].
    + destruct (Nat.eqb min 0) eqn:Hmin; simpl in H.
      * destruct g.
        -- match type of H with
           | match ?e with _ => _ end = _ => destruct e eqn:He
           end; try discriminate.
           ++ apply Hround; [inversion H; subst; exact He | discriminate].
           ++ apply Hstop; auto.
        -- destruct (k x) eqn:Hk; try discriminate.
           ++ apply Hstop; auto.
           ++ apply Hround; [exact H | discriminate].
      * apply Hround; [exact H | discriminate].
Qed.

(** Whatever the matcher returns is a match of the pattern, followed by a
    success of the continuation. *)
Lemma rmatch_sound (r : regex) :
  forall k x o, rmatch ic r k x = Matched o ->
                exists y, matches ic r x y /\ k y = Matched o.
Proof.
  induction r as [c|p| | | |r1 IH1 r2 IH2|r1 IH1 r2 IH2|min max g r IH|n r IH];
    intros k x o H; simpl in H.
  - apply step_char_sound in H. destruct H as [a [t [Hr [Hp Hk]]]].
    eexists. split; [eapply matches_chr; eauto | exact Hk].
  - apply step_char_sound in H. destruct H as [a [t [Hr [Hp Hk]]]].
    eexists. split; [eapply matches_cls; eauto | exact Hk].
  - destruct (Nat.eqb (idx x) 0) eqn:Hi; [|discriminate].
    apply Nat.eqb_eq in Hi. exists x. split; [constructor; auto | exact H].
  - destruct (rest x) eqn:Hr; [|discriminate].
    exists x. split; [constructor; auto | exact H].
  - exists x. split; [constructor | exact H].
  - apply IH1 in H. destruct H as [y [Hy H]].
    apply IH2 in H. destruct H as [z [Hz H]].
    exists z. split; [econstructor; eauto | exact H].
  - destruct (rmatch ic r1 k x) eqn:H1; try discriminate.
    + apply IH1 in H1. destruct H1 as [y0 [Hy Hk]].
      exists y0. split; [apply matches_alt_l; auto | congruence].
    + apply IH2 in H. destruct H as [y0 [Hy Hk]].
      exists y0. split; [apply matches_alt_r; auto | exact Hk].
  - eapply repeat_matcher_sound; eauto.
  - apply IH in H. destruct H as [y [Hy Hk]].
    eexists. split; [apply matches_group; eauto | exact Hk].
Qed.

End Matcher.

Lemma search_sound (re : RegExp) :
  forall s i o, search re i s = Matched o ->
    exists s1 s2, s = s1 ++ s2
      /\ matches (ignoreCase re) (source re)
                 (mkState (i + length s1) s2 no_caps) o.
Proof.
  induction s as [|a s IH]; intros i o H; simpl in H.
  - destruct (rmatch _ _ _ _) eqn:Hm; try discriminate.
    apply rmatch_sound in Hm. destruct Hm as [y0 [Hy Hk]].
    exists [], []. simpl. rewrite Nat.add_0_r. split; [reflexivity|]. congruence.
  - destruct (rmatch _ _ _ _) eqn:Hm; try discriminate.
    + apply rmatch_sound in Hm. destruct Hm as [y0 [Hy Hk]].
      exists [], (a :: s). simpl. rewrite Nat.add_0_r. split; [reflexivity|]. congruence.
    + apply IH in H. destruct H as [s1 [s2 [Hs Hy]]].
      exists (a :: s1), s2. simpl. split; [congruence|].
      replace (i + S (length s1))%nat with (S i + length s1)%nat by lia. exact Hy.
Qed.

Lemma regex_match_sound (re : RegExp) (s : jsstring) (m : captures) :
  regex_match re s = Some m ->
  exists s1 s2 y, s = s1 ++ s2 /\ caps y = m
    /\ matches (ignoreCase re) (source re) (mkState (length s1) s2 no_caps) y.
Proof.
  unfold regex_match. destruct (search re 0 s) eqn:H; try discriminate.
  intros E. inversion E; subst. apply search_sound in H.
  destruct H as [s1 [s2 [Hs Hy]]]. exists s1, s2, y. auto.
Qed.

(** *** The round budget of a quantifier is never used up *)

Section NotStuck.

Variable ic : bool.
Variable n : nat.

Lemma step_char_not_stuck (p : char -> bool) (k : cont) (x : state) :
  wf n x -> safe_cont n k x -> step_char p k x <> Stuck.
Proof.
  unfold step_char, wf, safe_cont. intros Hw Hk.
  destruct (rest x) as [|a r] eqn:Hr; [discriminate|].
  destruct (p a); [|discriminate].
  apply Hk; unfold wf; simpl in *; lia.
Qed.

Lemma repeat_matcher_not_stuck (m : cont -> cont) (gs : list nat) (g : bool) :
  (forall k x, wf n x -> safe_cont n k x -> m k x <> Stuck) ->
  forall fuel min max k x,
    wf n x -> (min + (n - idx x) + 1 <= fuel)%nat -> safe_cont n k x ->
    repeat_matcher m gs fuel min max g k x <> Stuck.
Proof.
  intros Hm. induction fuel as [|fuel IHf]; intros min max k x Hw Hf Hk; [lia|].
  assert (Hkx : k x <> Stuck) by (apply Hk; auto).
  assert (Hround :
    m (fun y => if Nat.eqb min 0 && Nat.eqb (idx y) (idx x) then Failed
                else repeat_matcher m gs fuel (Nat.pred min)
                       (option_map Nat.pred max) g k y)
      (clear_caps gs x) <> Stuck).
  { apply Hm; [exact Hw|].
    intros y Hy Hle. simpl in Hle.
    destruct (Nat.eqb min 0 && Nat.eqb (idx y) (idx x)) eqn:Hc; [discriminate|].
    apply IHf; [exact Hy| |].
    - apply andb_false_iff in Hc. unfold wf in *.
      destruct Hc as [Hc|Hc]; apply Nat.eqb_neq in Hc; lia.
    - intros z Hz Hyz. apply Hk; [exact Hz | lia]. }
  simpl. destruct max as [[|k0]|]; [exact Hkx| |].
  - destruct (Nat.eqb min 0); simpl; [|exact Hround].
    destruct g.
    + destruct (m _ _); [discriminate | exact Hkx | congruence].
    + destruct (k x); [discriminate | exact Hround | congruence].
  - destruct (Nat.eqb min 0); simpl; [|exact Hround].
    destruct g.
    + destruct (m _ _); [discriminate | exact Hkx | congruence].
    + destruct (k x); [discriminate | exact Hround | congruence].
Qed.

Lemma rmatch_not_stuck (r : regex) :
  forall k x, wf n x -> safe_cont n k x -> rmatch ic r k x <> Stuck.
Proof.
  induction r as [c|p| | | |r1 IH1 r2 IH2|r1 IH1 r2 IH2|min max g r IH|i r IH];
    intros k x Hw Hk; simpl.
  - apply step_char_not_stuck; auto.
  - apply step_char_not_stuck; auto.
  - destruct (Nat.eqb (idx x) 0); [apply Hk; auto | discriminate].
  - destruct (rest x); [apply Hk; auto | discriminate].
  - apply Hk; auto.
  - apply IH1; [exact Hw|]. intros y Hy Hle.
    apply IH2; [exact Hy|]. intros z Hz Hyz. apply Hk; [exact Hz | lia].
  - destruct (rmatch ic r1 k x) eqn:H1; [discriminate | apply IH2; auto |].
    exfalso. eapply IH1; eauto.
  - apply repeat_matcher_not_stuck; auto. unfold wf in Hw. lia.
  - apply IH; [exact Hw|]. intros y Hy Hle. apply Hk; [exact Hy | exact Hle].
Qed.

End NotStuck.

(** A search always ends in a match or in a failure. *)
Lemma search_not_stuck (re : RegExp) (s : jsstring) (i : nat) :
  search re i s <> Stuck.
Proof.
  revert i. induction s as [|a s IH]; intros i; simpl.
  - destruct (rmatch _ _ _ _) eqn:H; try discriminate.
    exfalso. revert H. apply rmatch_not_stuck with (n := i).
    + unfold wf. simpl. lia.
    + intros y _ _. discriminate.
  - destruct (rmatch _ _ _ _) eqn:H; try discriminate; [apply IH|].
    exfalso. revert H. apply rmatch_not_stuck with (n := (i + S (length s))%nat).
    + unfold wf. simpl. lia.
    + intros y _ _. discriminate.
Qed.

(** [null] from [match] means that the pattern fails at every index. *)
Lemma regex_match_none (re : RegExp) (s : jsstring) :
  regex_match re s = None <-> search re 0 s = Failed.
Proof.
  unfold regex_match. pose proof (search_not_stuck re s 0) as H.
  destruct (search re 0 s); split; intros; try discriminate; congruence.
Qed.

(** *** What a match consumes and what it captures *)

Section Matches.

Variable ic : bool.

Lemma matches_consume (r : regex) (x y : state) :
  matches ic r x y ->
  exists v, rest x = v ++ rest y /\ idx y = (idx x + length v)%nat.
Proof.
  induction 1 as [c a t x Hr Hc|p a t x Hr Hp|x Hi|x Hr|x
                 |r1 r2 x y z H1 IH1 H2 IH2|r1 r2 x y H1 IH1|r1 r2 x y H1 IH1
                 |min max g r x Hs|min max g r x y z Hmax H1 IH1 Hp H2 IH2
                 |n r x y H1 IH1]; simpl.
  - exists [a]. simpl. split; [exact Hr | lia].
  - exists [a]. simpl. split; [exact Hr | lia].
  - exists []. simpl. split; [reflexivity | lia].
  - exists []. simpl. split; [reflexivity | lia].
  - exists []. simpl. split; [reflexivity | lia].
  - destruct IH1 as [v1 [E1 I1]]. destruct IH2 as [v2 [E2 I2]].
    exists (v1 ++ v2). rewrite length_app, <- app_assoc, <- E2.
    split; [exact E1 | lia].
  - exact IH1.
  - exact IH1.
  - exists []. simpl. split; [reflexivity | lia].
  - destruct IH1 as [v1 [E1 I1]]. destruct IH2 as [v2 [E2 I2]].
    simpl in E1, I1.
    exists (v1 ++ v2). rewrite length_app, <- app_assoc, <- E2.
    split; [exact E1 | lia].
  - exact IH1.
Qed.

Lemma consumed_eq (x y : state) (v : jsstring) :
  rest x = v ++ rest y -> idx y = (idx x + length v)%nat -> consumed x y = v.
Proof.
  intros E I. unfold consumed. rewrite E, I.
  replace (idx x + length v - idx x)%nat with (length v + 0)%nat by lia.
  rewrite firstn_app_2. simpl. apply app_nil_r.
Qed.

(** A group that a pattern does not contain keeps its capture. *)
Lemma matches_caps_other (r : regex) (x y : state) (n : nat) :
  matches ic r x y -> mentions n r = false -> caps y n = caps x n.
Proof.
  unfold mentions.
  induction 1 as [c a t x Hr Hc|p a t x Hr Hp|x Hi|x Hr|x
                 |r1 r2 x y z H1 IH1 H2 IH2|r1 r2 x y H1 IH1|r1 r2 x y H1 IH1
                 |min max g r x Hs|min max g r x y z Hmax H1 IH1 Hp H2 IH2
                 |i r x y H1 IH1]; simpl; intros Hn; try reflexivity.
  - rewrite existsb_app in Hn. apply orb_false_iff in Hn.
    rewrite IH2, IH1; tauto.
  - rewrite existsb_app in Hn. apply orb_false_iff in Hn. apply IH1; tauto.
  - rewrite existsb_app in Hn. apply orb_false_iff in Hn. apply IH1; tauto.
  - rewrite (IH2 Hn), (IH1 Hn). simpl. rewrite Hn. reflexivity.
  - apply orb_false_iff in Hn. destruct Hn as [Hi Hn].
    unfold set_cap. rewrite Hi. apply IH1; exact Hn.
Qed.

(** Captures keep a property that every group of the pattern ensures. *)
Lemma matches_group_ok (Q : nat -> jsstring -> Prop) (r : regex) (x y : state) :
  matches ic r x y -> group_ok ic Q r ->
  (forall n v, caps x n = Some v -> Q n v) ->
  forall n v, caps y n = Some v -> Q n v.
Proof.
  induction 1 as [c a t x Hr Hc|p a t x Hr Hp|x Hi|x Hr|x
                 |r1 r2 x y z H1 IH1 H2 IH2|r1 r2 x y H1 IH1|r1 r2 x y H1 IH1
                 |min max g r x Hs|min max g r x y z Hmax H1 IH1 Hp H2 IH2
                 |i r x y H1 IH1]; simpl; intros Hg Hx; auto.
  - destruct Hg as [G1 G2]. apply IH2; auto.
  - destruct Hg as [G1 G2]. apply IH1; auto.
  - destruct Hg as [G1 G2]. apply IH1; auto.
  - apply IH2; [exact Hg|]. apply IH1; [exact Hg|].
    simpl. intros n v. destruct (existsb _ _); [discriminate | apply Hx].
  - destruct Hg as [G1 G2]. intros n v. unfold set_cap.
    destruct (Nat.eqb n i) eqn:E.
    + apply Nat.eqb_eq in E. subst n. intros Hv. inversion Hv; subst.
      apply (G1 x y H1).
    + apply IH1; auto.
Qed.

(** A group that takes part in every match is set at the end of one. *)
Lemma matches_always_sets (r : regex) (x y : state) (n : nat) :
  matches ic r x y -> always_sets n r = true -> exists v, caps y n = Some v.
Proof.
  induction 1 as [c a t x Hr Hc|p a t x Hr Hp|x Hi|x Hr|x
                 |r1 r2 x y z H1 IH1 H2 IH2|r1 r2 x y H1 IH1|r1 r2 x y H1 IH1
                 |min max g r x Hs|min max g r x y z Hmax H1 IH1 Hp H2 IH2
                 |i r x y H1 IH1]; simpl; intros Hs'; try discriminate.
  - apply orb_true_iff in Hs'. destruct Hs' as [Hs'|Hs']; [|auto].
    apply andb_true_iff in Hs'. destruct Hs' as [S1 S2].
    apply negb_true_iff in S2.
    rewrite (matches_caps_other _ _ _ _ H2 S2). auto.
  - apply andb_true_iff in Hs'. apply IH1; tauto.
  - apply andb_true_iff in Hs'. apply IH1; tauto.
  - unfold set_cap. destruct (Nat.eqb n i) eqn:E; [eauto|].
    simpl in Hs'. auto.
Qed.

(** An unbounded quantified class consumes characters of the class, at
    least [min] of them. *)
Lemma matches_rep_cls (p : char -> bool) (g : bool) (min : nat) (x y : state) :
  matches ic (Rep min None g (Cls p)) x y ->
  forallb p (consumed x y) = true /\ (min <= length (consumed x y))%nat.
Proof.
  intros H.
  assert (G : exists v, rest x = v ++ rest y /\ idx y = (idx x + length v)%nat
                        /\ forallb p v = true /\ (min <= length v)%nat).
  { remember (Rep min None g (Cls p)) as r eqn:E. revert min E.
    induction H as [c a t x Hr Hc|q a t x Hr Hq|x Hi|x Hr|x
                   |r1 r2 x y z H1 IH1 H2 IH2|r1 r2 x y H1 IH1|r1 r2 x y H1 IH1
                   |min' max' g' r x Hs|min' max' g' r x y z Hmax H1 IH1 Hp H2 IH2
                   |i r x y H1 IH1]; intros min E; try discriminate.
    - inversion E; subst. exists []. simpl.
      repeat split; try lia. destruct Hs; [lia | discriminate].
    - inversion E; subst. clear IH1.
      destruct (IH2 _ eq_refl) as [v [E2 [I2 [F2 L2]]]].
      inversion H1 as [|q a t x' Hr Hq| | | | | | | | |]; subst.
      simpl in *.
      exists (a :: v). simpl. rewrite Hq, F2, <- E2.
      repeat split; [exact Hr | lia | lia]. }
  destruct G as [v [E [I [F L]]]].
  rewrite (consumed_eq x y v E I). auto.
Qed.

End Matches.

(** *** Substrings *)

Lemma substring_nil (s : jsstring) : substring_of [] s.
Proof. exists [], s. reflexivity. Qed.

Lemma substring_trans (u v w : jsstring) :
  substring_of u v -> substring_of v w -> substring_of u w.
Proof.
  intros [a [b E1]] [c [d E2]]. subst.
  exists (c ++ a), (b ++ d). repeat rewrite <- app_assoc. reflexivity.
Qed.

Lemma substring_app_r (v s1 s2 : jsstring) :
  substring_of v s2 -> substring_of v (s1 ++ s2).
Proof.
  intros [a [b E]]. subst. exists (s1 ++ a), b. rewrite <- app_assoc. reflexivity.
Qed.

Lemma substring_firstn (k : nat) (s : jsstring) : substring_of (firstn k s) s.
Proof.
  exists [], (skipn k s). simpl. apply eq_sym, firstn_skipn.
Qed.

Lemma trimStart_suffix (s : jsstring) : exists a, s = a ++ trimStart s.
Proof.
  induction s as [|c s [a IH]]; simpl.
  - exists []. reflexivity.
  - destruct (isWhiteSpace c).
    + exists (c :: a). simpl. congruence.
    + exists []. reflexivity.
Qed.

Lemma trim_substring (s : jsstring) : substring_of (trim s) s.
Proof.
  unfold trim, trimEnd.
  destruct (trimStart_suffix s) as [a Ea].
  destruct (trimStart_suffix (rev (trimStart s))) as [b Eb].
  apply (f_equal (@rev char)) in Eb. rewrite rev_involutive, rev_app_distr in Eb.
  exists a, (rev b). rewrite <- Eb. exact Ea.
Qed.

(** A capture is text of the input. *)
Lemma matches_caps_substring (ic : bool) (r : regex) (x y : state) :
  matches ic r x y ->
  forall n v, caps y n = Some v -> caps x n = Some v \/ substring_of v (rest x).
Proof.
  induction 1 as [c a t x Hr Hc|p a t x Hr Hp|x Hi|x Hr|x
                 |r1 r2 x y z H1 IH1 H2 IH2|r1 r2 x y H1 IH1|r1 r2 x y H1 IH1
                 |min max g r x Hs|min max g r x y z Hmax H1 IH1 Hp H2 IH2
                 |i r x y H1 IH1]; simpl; intros n v Hv; auto.
  - destruct (IH2 n v Hv) as [Hy|Hy]; [auto|].
    right. destruct (matches_consume _ _ _ _ H1) as [w [E _]].
    rewrite E. apply substring_app_r. exact Hy.
  - destruct (IH2 n v Hv) as [Hy|Hy].
    + destruct (IH1 n v Hy) as [Hx|Hx]; [|auto].
      simpl in Hx. destruct (existsb _ _); [discriminate | auto].
    + right. destruct (matches_consume _ _ _ _ H1) as [w [E _]].
      simpl in E. rewrite E. apply substring_app_r. exact Hy.
  - unfold set_cap in Hv. destruct (Nat.eqb n i); [|auto].
    inversion Hv; subst. right. apply substring_firstn.
Qed.

Lemma regex_match_substring (re : RegExp) (s : jsstring) (m : captures) (n : nat) :
  regex_match re s = Some m -> substring_of (group m n) s.
Proof.
  intros H. unfold group. destruct (m n) as [v|] eqn:Hv; [|apply substring_nil].
  apply regex_match_sound in H. destruct H as [s1 [s2 [y [Es [Ec Hm]]]]].
  subst m s. destruct (matches_caps_substring _ _ _ _ Hm n v Hv) as [Hx|Hx].
  - discriminate.
  - apply substring_app_r. exact Hx.
Qed.

(** *** The classes and quantifiers of the source patterns *)

Lemma matches_plus_digit (ic : bool) (x y : state) :
  matches ic (plus digit) x y -> all_digits (consumed x y) = true.
Proof.
  intros H. apply matches_rep_cls in H. destruct H as [F L].
  unfold all_digits. destruct (consumed x y); [simpl in L; lia | exact F].
Qed.

Lemma matches_plus_nonempty (ic g : bool) (p : char -> bool) (x y : state) :
  matches ic (Rep 1 None g (Cls p)) x y -> consumed x y <> [].
Proof.
  intros H. apply matches_rep_cls in H. destruct H as [F L].
  destruct (consumed x y); [simpl in L; lia | discriminate].
Qed.

Lemma all_digits_nonempty (s : jsstring) : all_digits s = true -> s <> [].
Proof. destruct s; [discriminate | discriminate]. Qed.

Ltac inv_matches :=
  repeat match goal with
  | H : matches _ (Seq _ _) _ _ |- _ => inversion H; clear H; subst
  | H : matches _ Eps _ _ |- _ => inversion H; clear H; subst
  | H : matches _ Bol _ _ |- _ => inversion H; clear H; subst
  | H : matches _ Eol _ _ |- _ => inversion H; clear H; subst
  | H : matches _ (Chr _) _ _ |- _ => inversion H; clear H; subst
  end.

(** [/^\d+$/.test(s)] only holds for a string of digits. *)
Lemma test_digits_sound (s : jsstring) :
  regex_test RE_DIGITS s = true -> all_digits s = true.
Proof.
  unfold regex_test. destruct (regex_match RE_DIGITS s) as [m|] eqn:H; [|discriminate].
  intros _. apply regex_match_sound in H.
  destruct H as [s1 [s2 [y [Es [_ Hm]]]]]. simpl in Hm.
  inv_matches. simpl in *.
  destruct s1; [|discriminate]. simpl.
  match goal with
  | H : matches _ (plus digit) ?x ?z |- _ =>
    pose proof (matches_plus_digit _ _ _ H) as D;
    destruct (matches_consume _ _ _ _ H) as [v [E I]];
    rewrite (consumed_eq _ _ _ E I) in D; simpl in E
  end.
  match goal with Hr : rest _ = [] |- _ => rewrite Hr, app_nil_r in E end.
  subst. exact D.
Qed.

(** *** Decimal text of a positive integer *)

Lemma below_ten (d : Z) : 0 <= d < 10 -> In d [0; 1; 2; 3; 4; 5; 6; 7; 8; 9].
Proof. simpl. lia. Qed.

Lemma digit_char_isDigit (d : Z) : 0 <= d < 10 -> isDigit (digit_char d) = true.
Proof.
  intros H. pose proof (below_ten d H) as C. simpl in C.
  repeat (destruct C as [C|C]; [subst d; reflexivity|]). contradiction.
Qed.

Lemma decimal_loop_digits (fuel : nat) :
  forall n acc, 0 <= n -> forallb isDigit acc = true ->
    forallb isDigit (decimal_loop fuel n acc) = true
    /\ decimal_loop fuel n acc <> [].
Proof.
  induction fuel as [|fuel IH]; intros n acc Hn Hacc; simpl.
  - rewrite digit_char_isDigit by (apply Z.mod_pos_bound; lia).
    split; [exact Hacc | discriminate].
  - destruct (n <? 10) eqn:Hlt.
    + apply Z.ltb_lt in Hlt. simpl. rewrite digit_char_isDigit by lia.
      split; [exact Hacc | discriminate].
    + apply IH.
      * apply Z.div_pos; lia.
      * simpl. rewrite digit_char_isDigit by (apply Z.mod_pos_bound; lia).
        exact Hacc.
Qed.

Lemma String_of_number_digits (n : number) :
  num_gt n 0 = true -> all_digits (String_of_number n) = true.
Proof.
  destruct n as [|z]; simpl; [discriminate|]. intros H. apply Z.ltb_lt in H.
  destruct (z <? 0) eqn:Hz; [apply Z.ltb_lt in Hz; lia|].
  unfold decimal, all_digits.
  destruct (decimal_loop_digits (Z.to_nat (Z.log2 z)) z []) as [F N];
    [lia | reflexivity |].
  destruct (decimal_loop _ _ _); [congruence | exact F].
Qed.

(** *** Captures of a successful [match] *)

Lemma regex_match_group_ok (re : RegExp) (Q : nat -> jsstring -> Prop)
    (s : jsstring) (m : captures) :
  regex_match re s = Some m ->
  group_ok (ignoreCase re) Q (source re) ->
  forall n v, m n = Some v -> Q n v.
Proof.
  intros H G n v Hv. apply regex_match_sound in H.
  destruct H as [s1 [s2 [y [_ [Ec Hm]]]]]. subst m.
  apply (matches_group_ok _ Q _ _ _ Hm G) with (n := n); [|exact Hv].
  simpl. unfold no_caps. discriminate.
Qed.

Lemma regex_match_always_sets (re : RegExp) (s : jsstring) (m : captures) (n : nat) :
  regex_match re s = Some m ->
  always_sets n (source re) = true ->
  exists v, m n = Some v /\ group m n = v.
Proof.
  intros H A. apply regex_match_sound in H.
  destruct H as [s1 [s2 [y [_ [Ec Hm]]]]]. subst m.
  destruct (matches_always_sets _ _ _ _ n Hm A) as [v Hv].
  exists v. unfold group. rewrite Hv. auto.
Qed.

Ltac solve_group_ok :=
  simpl; repeat split;
  try (intros x y Hm Hin; simpl in Hin;
       first [ exfalso; clear - Hin; intuition discriminate
             | apply matches_plus_digit in Hm; exact Hm
             | apply matches_plus_nonempty in Hm; exact Hm ]).

Lemma ENGLISH_FULL_digits :
  group_ok true (digit_groups [1; 2; 3]%nat) (source ENGLISH_FULL).
Proof. solve_group_ok. Qed.

Lemma SHORT_CITATION_digits :
  group_ok true (digit_groups [1; 2]%nat) (source SHORT_CITATION).
Proof. solve_group_ok. Qed.

Lemma ID_BASED_digits :
  group_ok true (digit_groups [2; 3]%nat) (source ID_BASED).
Proof. solve_group_ok. Qed.

Lemma RE_WRAPPED_nonempty (closing : char) :
  group_ok false (nonempty_groups [1]%nat) (source (RE_WRAPPED closing)).
Proof. solve_group_ok. Qed.

(** The groups that the parser reads as strings take part in every match. *)
Lemma parser_groups_defined :
  always_sets 1 (source JAPANESE_CITATION) = true
  /\ always_sets 2 (source JAPANESE_CITATION) = true
  /\ always_sets 1 (source TRAILING_JAPANESE) = true
  /\ always_sets 2 (source TRAILING_JAPANESE) = true
  /\ always_sets 1 (source ENGLISH_FULL) = true
  /\ always_sets 4 (source ENGLISH_FULL) = true
  /\ always_sets 1 (source SHORT_CITATION) = true
  /\ always_sets 3 (source SHORT_CITATION) = true
  /\ always_sets 1 (source ID_BASED) = true
  /\ always_sets 2 (source ID_BASED) = true
  /\ always_sets 1 (source RE_ID_PARTS) = true
  /\ always_sets 2 (source RE_ID_PARTS) = true
  /\ always_sets 1 (source RE_REF_PARAGRAPH) = true
  /\ always_sets 1 (source RE_REF_ITEM) = true
  /\ (forall c, always_sets 1 (source (RE_WRAPPED c)) = true).
Proof. repeat split. Qed.

(** ** Numeral references *)

Lemma parseWrappedNumber_nonempty (closing : char) (ref : jsstring) :
  trim ref <> [] -> parseWrappedNumber closing ref <> [].
Proof.
  intros Hne. unfold parseWrappedNumber.
  destruct (regex_match (RE_WRAPPED closing) (trim ref)) as [m|] eqn:Hm.
  - assert (Hin : group m 1 <> []).
    { destruct (regex_match_always_sets _ _ _ 1 Hm) as [v [Hv Hg]];
        [reflexivity|].
      rewrite Hg.
      apply (regex_match_group_ok _ _ _ _ Hm (RE_WRAPPED_nonempty closing) 1%nat v Hv).
      simpl. auto. }
    destruct (regex_test RE_DIGITS (group m 1)); [exact Hin|].
    destruct (num_gt (kanjiToArabic (group m 1)) 0) eqn:Hk; [|exact Hin].
    apply all_digits_nonempty, String_of_number_digits. exact Hk.
  - destruct (regex_test RE_DIGITS (trim ref)); [exact Hne|].
    destruct (num_gt (kanjiToArabic (trim ref)) 0) eqn:Hk; [|exact Hne].
    apply all_digits_nonempty, String_of_number_digits. exact Hk.
Qed.

Lemma trimStart_keeps (c : char) (s : jsstring) :
  In c s -> isWhiteSpace c = false -> In c (trimStart s).
Proof.
  intros Hin Hc. induction s as [|a s IH]; simpl in *; [contradiction|].
  destruct (isWhiteSpace a) eqn:Ha.
  - destruct Hin as [E|Hin]; [congruence | auto].
  - exact Hin.
Qed.

Lemma trim_keeps (c : char) (s : jsstring) :
  In c s -> isWhiteSpace c = false -> In c (trim s).
Proof.
  intros Hin Hc. unfold trim, trimEnd.
  rewrite <- in_rev. apply trimStart_keeps; [|exact Hc].
  rewrite <- in_rev. apply trimStart_keeps; auto.
Qed.

Lemma chr_match_exact (c a : char) : chr_match false c a = true -> a = c.
Proof.
  unfold chr_match, char_eqb. intros H. apply N.eqb_eq in H. congruence.
Qed.

(** A reference block that holds an article wrapper holds the marker 第. *)
Lemma RE_REF_ARTICLE_marker (s : jsstring) (m : captures) :
  regex_match RE_REF_ARTICLE s = Some m -> In c_dai s.
Proof.
  intros H. apply regex_match_sound in H.
  destruct H as [s1 [s2 [y [Es [_ Hm]]]]]. simpl in Hm.
  inv_matches. cbn [rest idx caps] in *. subst.
  match goal with
  | Hc : chr_match false c_dai ?a = true |- _ =>
    apply chr_match_exact in Hc; subst a
  end.
  apply in_or_app. right. left. reflexivity.
Qed.

(** ** Citation parser *)

Lemma parseJapaneseRef_article_nonempty (articleRef lawName a : jsstring) :
  article (parseJapaneseRef articleRef lawName) = Some a -> a <> [].
Proof.
  simpl. destruct (regex_match RE_REF_ARTICLE articleRef) as [m|] eqn:Hm; [|discriminate].
  intros H. inversion H; subst. apply parseWrappedNumber_nonempty.
  apply RE_REF_ARTICLE_marker in Hm.
  intros E. apply (trim_keeps c_dai) in Hm; [|reflexivity].
  rewrite E in Hm. contradiction.
Qed.

Lemma or_undefined_some (g : option jsstring) (v : jsstring) :
  or_undefined g = Some v -> g = Some v.
Proof. destruct g as [[|c s]|]; simpl; congruence. Qed.

Lemma digit_group (re : RegExp) (gs : list nat) (s : jsstring) (m : captures)
    (n : nat) (v : jsstring) :
  regex_match re s = Some m ->
  group_ok (ignoreCase re) (digit_groups gs) (source re) ->
  In n gs -> m n = Some v -> all_digits v = true.
Proof.
  intros Hm G Hin Hv. exact (regex_match_group_ok _ _ _ _ Hm G n v Hv Hin).
Qed.

Lemma digit_group_defined (re : RegExp) (gs : list nat) (s : jsstring) (m : captures)
    (n : nat) :
  regex_match re s = Some m ->
  group_ok (ignoreCase re) (digit_groups gs) (source re) ->
  In n gs -> always_sets n (source re) = true ->
  all_digits (group m n) = true.
Proof.
  intros Hm G Hin A.
  destruct (regex_match_always_sets _ _ _ n Hm A) as [v [Hv Hg]].
  rewrite Hg. eapply digit_group; eauto.
Qed.

(** The article of a parsed citation is never the empty string. *)
Lemma parseCitation_article_nonempty (citation a : jsstring) :
  article (parseCitation citation) = Some a -> a <> [].
Proof.
  unfold parseCitation.
  destruct (regex_match JAPANESE_CITATION (trim citation)) as [m|] eqn:H1;
    [apply parseJapaneseRef_article_nonempty|].
  destruct (regex_match TRAILING_JAPANESE (trim citation)) as [m|] eqn:H2;
    [apply parseJapaneseRef_article_nonempty|].
  destruct (regex_match ENGLISH_FULL (trim citation)) as [m|] eqn:H3.
  { simpl. intros H. inversion H; subst. apply all_digits_nonempty.
    eapply digit_group_defined; eauto using ENGLISH_FULL_digits; simpl; auto. }
  destruct (regex_match SHORT_CITATION (trim citation)) as [m|] eqn:H4.
  { simpl. intros H. inversion H; subst. apply all_digits_nonempty.
    eapply digit_group_defined; eauto using SHORT_CITATION_digits; simpl; auto. }
  destruct (regex_match ID_BASED (trim citation)) as [m|] eqn:H5.
  { simpl. intros H. inversion H; subst. apply all_digits_nonempty.
    eapply digit_group_defined; eauto using ID_BASED_digits; simpl; auto. }
  simpl. discriminate.
Qed.

(** ** Numbers and numerals *)

Lemma isDigit_cases (c : char) :
  isDigit c = true -> In c [48; 49; 50; 51; 52; 53; 54; 55; 56; 57]%N.
Proof.
  unfold isDigit. intros H. apply andb_true_iff in H. destruct H as [L U].
  apply N.leb_le in L. apply N.leb_le in U. simpl. lia.
Qed.

Lemma take_digits_all (s : jsstring) :
  forallb isDigit s = true -> take_digits s = s.
Proof.
  induction s as [|c s IH]; simpl; [reflexivity|].
  intros H. apply andb_true_iff in H. destruct H as [Hc Hs].
  rewrite Hc, (IH Hs). reflexivity.
Qed.

(** [parseInt] of a string of digits is the integer it denotes. *)
Lemma parseInt_digits (s : jsstring) :
  all_digits s = true -> parseInt s = Int (digits_value s).
Proof.
  destruct s as [|c s]; [discriminate|]. intros H. simpl in H.
  pose proof H as H'. apply andb_true_iff in H'. destruct H' as [Hc Hs].
  unfold parseInt.
  assert (T : trimStart (c :: s) = c :: s).
  { pose proof (isDigit_cases c Hc) as E. simpl in E.
    repeat (destruct E as [E|E]; [subst c; reflexivity|]). contradiction. }
  rewrite T.
  assert (M : (c =? 45)%N = false /\ (c =? 43)%N = false).
  { pose proof (isDigit_cases c Hc) as E. simpl in E.
    repeat (destruct E as [E|E]; [subst c; split; reflexivity|]). contradiction. }
  destruct M as [M1 M2]. rewrite M1, M2.
  rewrite (take_digits_all (c :: s) H). reflexivity.
Qed.

Lemma digit_value_char (d : Z) : 0 <= d < 10 -> digit_value (digit_char d) = d.
Proof.
  intros H. pose proof (below_ten d H) as C. simpl in C.
  repeat (destruct C as [C|C]; [subst d; reflexivity|]). contradiction.
Qed.

Lemma decimal_loop_value (fuel : nat) :
  forall n acc,
    0 <= n < 10 ^ Z.of_nat (S fuel) ->
    digits_value (decimal_loop fuel n acc)
    = fold_left (fun a c => a * 10 + digit_value c) acc n.
Proof.
  unfold digits_value.
  induction fuel as [|fuel IH]; intros n acc Hn.
  - change (10 ^ Z.of_nat 1) with 10 in Hn.
    simpl. rewrite Z.mod_small by lia. rewrite digit_value_char by lia.
    reflexivity.
  - cbn [decimal_loop]. destruct (Z.ltb_spec n 10) as [Hlt|Hge].
    + simpl. rewrite digit_value_char by lia. reflexivity.
    + rewrite IH.
      * simpl. rewrite digit_value_char by (apply Z.mod_pos_bound; lia).
        f_equal. pose proof (Z.div_mod n 10). lia.
      * split; [apply Z.div_pos; lia|].
        apply Z.div_lt_upper_bound; [lia|].
        replace (Z.of_nat (S (S fuel))) with (Z.succ (Z.of_nat (S fuel))) in Hn by lia.
        rewrite Z.pow_succ_r in Hn by lia. lia.
Qed.

(** The decimal text of a natural number denotes it. *)
Lemma decimal_value (n : Z) : 0 <= n -> digits_value (decimal n) = n.
Proof.
  intros Hn. unfold decimal. rewrite decimal_loop_value; [reflexivity|].
  split; [exact Hn|].
  destruct (Z.eq_dec n 0) as [E|E]; [subst; reflexivity|].
  rewrite Nat2Z.inj_succ, Z2Nat.id by apply Z.log2_nonneg.
  pose proof (Z.log2_spec n) as L.
  assert (P : 2 ^ Z.succ (Z.log2 n) <= 10 ^ Z.succ (Z.log2 n)).
  { apply Z.pow_le_mono_l. lia. }
  lia.
Qed.

Lemma decimal_digits (n : Z) : 0 <= n -> all_digits (decimal n) = true.
Proof.
  intros Hn. unfold decimal, all_digits.
  destruct (decimal_loop_digits (Z.to_nat (Z.log2 n)) n []) as [F N];
    [exact Hn | reflexivity |].
  destruct (decimal_loop _ _ _); [congruence | exact F].
Qed.

(** [parseInt(String(z), 10)] is [z]. *)
Lemma parseInt_String_of_number (z : Z) :
  parseInt (String_of_number (Int z)) = Int z.
Proof.
  unfold String_of_number. destruct (Z.ltb_spec z 0) as [Hneg|Hpos].
  - pose proof (decimal_digits (- z)) as D.
    pose proof (decimal_value (- z)) as V.
    unfold parseInt. cbn [trimStart isWhiteSpace].
    replace (isWhiteSpace 45%N) with false by reflexivity.
    replace ((45 =? 45)%N) with true by reflexivity.
    destruct (decimal (- z)) as [|c s] eqn:E; [discriminate D; lia|].
    rewrite take_digits_all by (apply D; lia).
    rewrite V by lia. f_equal. lia.
  - rewrite parseInt_digits by (apply decimal_digits; exact Hpos).
    rewrite decimal_value by exact Hpos. reflexivity.
Qed.

(** *** The digit test *)

Lemma repeat_digits_complete (s : jsstring) :
  forallb isDigit s = true ->
  forall fuel min i cs,
    (min + length s + 1 <= fuel)%nat -> (min <= length s)%nat ->
    exists y,
      repeat_matcher (rmatch false digit) [] fuel min None true
                     (rmatch false (cat [Eol]) Matched) (mkState i s cs)
      = Matched y.
Proof.
  induction s as [|a s IH]; intros Hs fuel min i cs Hf Hm.
  - destruct fuel as [|fuel]; [simpl in Hf; lia|].
    simpl in Hm. assert (min = 0)%nat by lia. subst min.
    simpl. eexists. reflexivity.
  - destruct fuel as [|fuel]; [simpl in Hf; lia|].
    simpl in Hs. apply andb_true_iff in Hs. destruct Hs as [Ha Hs].
    cbn [repeat_matcher]. cbv zeta.
    destruct min as [|min].
    + cbn [Nat.eqb negb]. unfold digit at 1. cbn [rmatch step_char clear_caps rest idx caps].
      rewrite Ha. cbn [andb idx].
      replace (Nat.eqb (S i) i) with false
        by (symmetry; apply Nat.eqb_neq; lia).
      destruct (IH Hs fuel 0%nat (S i)
                  (fun n => if existsb (Nat.eqb n) [] then None else cs n))
        as [y Hy]; [simpl in *; lia | lia |].
      cbn [Nat.pred option_map]. rewrite Hy. eexists. reflexivity.
    + cbn [Nat.eqb negb]. unfold digit at 1. cbn [rmatch step_char clear_caps rest idx caps].
      rewrite Ha. cbn [andb Nat.pred option_map].
      apply IH; [exact Hs | simpl in *; lia | simpl in *; lia].
Qed.

(** [/^\d+$/.test(s)] holds exactly for the strings of digits. *)
Lemma test_digits (s : jsstring) : regex_test RE_DIGITS s = all_digits s.
Proof.
  destruct (all_digits s) eqn:D.
  - unfold regex_test, regex_match.
    assert (F : forallb isDigit s = true /\ (1 <= length s)%nat).
    { destruct s; [discriminate|]. split; [exact D | simpl; lia]. }
    destruct F as [F L].
    destruct (repeat_digits_complete s F (1 + length s + 1) 1%nat 0%nat no_caps)
      as [y Hy]; [lia | lia |].
    assert (E : search RE_DIGITS 0 s = Matched y).
    { destruct s as [|a s]; [discriminate|].
      cbn [search RE_DIGITS source ignoreCase cat fold_right rmatch idx Nat.eqb rest].
      unfold plus at 1. cbn [rmatch groups digit rest].
      cbn [cat fold_right rmatch] in Hy. unfold digit in Hy. cbn [rmatch] in Hy.
      rewrite Hy. reflexivity. }
    rewrite E. reflexivity.
  - destruct (regex_test RE_DIGITS s) eqn:T; [|reflexivity].
    apply test_digits_sound in T. congruence.
Qed.

(** *** The numeral round trip *)

Lemma append_entry_app (result : jsstring) (e : option jsstring) :
  append_entry result e = result ++ append_entry [] e.
Proof. destruct e; reflexivity. Qed.

(** The text of a number from 10 to 9999, place by place. *)
Lemma arabicToKanji_places (n : Z) :
  10 <= n <= 9999 ->
  arabicToKanji (Int n)
  = place (n / 1000) c_sen
    ++ place (n mod 1000 / 100) c_hyaku
    ++ place (n mod 1000 mod 100 / 10) c_ju
    ++ ones (n mod 1000 mod 100 mod 10).
Proof.
  intros H. unfold arabicToKanji.
  destruct (n <? 0) eqn:E0; [lia|].
  destruct (n =? 0) eqn:E1; [lia|].
  destruct (n <=? 9) eqn:E2; [lia|].
  cbv zeta.
  match goal with
  | |- context [if 0 <? n / 1000 then ?A else ?B] =>
    replace (if 0 <? n / 1000 then A else B)
      with (place (n / 1000) c_sen, n mod 1000)
  end.
  2:{ unfold place. destruct (0 <? n / 1000) eqn:E; [reflexivity|].
      apply Z.ltb_ge in E. rewrite Z.mod_small; [reflexivity|].
      assert (n / 1000 = 0) by (pose proof (Z.div_pos n 1000); lia).
      pose proof (Z.div_mod n 1000). pose proof (Z.mod_pos_bound n 1000). lia. }
  cbv beta iota zeta.
  pose proof (Z.mod_pos_bound n 1000) as B1.
  set (r1 := n mod 1000) in *. set (p1 := place (n / 1000) c_sen).
  match goal with
  | |- context [if 0 <? r1 / 100 then ?A else ?B] =>
    replace (if 0 <? r1 / 100 then A else B)
      with (p1 ++ place (r1 / 100) c_hyaku, r1 mod 100)
  end.
  2:{ unfold place. destruct (0 <? r1 / 100) eqn:E.
      - destruct (1 <? r1 / 100); [rewrite (append_entry_app p1)|];
          repeat rewrite <- app_assoc; reflexivity.
      - apply Z.ltb_ge in E. rewrite app_nil_r. rewrite Z.mod_small; [reflexivity|].
        assert (r1 / 100 = 0) by (pose proof (Z.div_pos r1 100); lia).
        pose proof (Z.div_mod r1 100). pose proof (Z.mod_pos_bound r1 100). lia. }
  cbv beta iota zeta.
  pose proof (Z.mod_pos_bound r1 100) as B2.
  set (r2 := r1 mod 100) in *. set (p2 := p1 ++ place (r1 / 100) c_hyaku).
  match goal with
  | |- context [if 0 <? r2 / 10 then ?A else ?B] =>
    replace (if 0 <? r2 / 10 then A else B)
      with (p2 ++ place (r2 / 10) c_ju, r2 mod 10)
  end.
  2:{ unfold place. destruct (0 <? r2 / 10) eqn:E.
      - destruct (1 <? r2 / 10); [rewrite (append_entry_app p2)|];
          repeat rewrite <- app_assoc; reflexivity.
      - apply Z.ltb_ge in E. rewrite app_nil_r. rewrite Z.mod_small; [reflexivity|].
        assert (r2 / 10 = 0) by (pose proof (Z.div_pos r2 10); lia).
        pose proof (Z.div_mod r2 10). pose proof (Z.mod_pos_bound r2 10). lia. }
  cbv beta iota zeta.
  unfold ones, p2. destruct (0 <? r2 mod 10).
  - rewrite (append_entry_app (_ ++ _)). repeat rewrite <- app_assoc. reflexivity.
  - repeat rewrite <- app_assoc. rewrite app_nil_r. reflexivity.
Qed.

(** The digit character of a value from 1 to 9 reads back as that value. *)
Lemma digit_entry (k : Z) :
  1 <= k <= 9 ->
  exists ch, ARABIC_TO_KANJI_DIGITS k = Some [ch] /\ KANJI_DIGITS ch = Some k.
Proof.
  intros Hk. assert (C : In k [0; 1; 2; 3; 4; 5; 6; 7; 8; 9]) by (apply below_ten; lia).
  simpl in C.
  repeat (destruct C as [C|C];
          [subst k; first [lia | eexists; split; reflexivity]|]).
  contradiction.
Qed.

Lemma kanji_step_digit (ch : char) (k result current : Z) :
  KANJI_DIGITS ch = Some k -> kanji_step (result, current) ch = (result, k).
Proof. intros H. unfold kanji_step. rewrite H. reflexivity. Qed.

Lemma kanji_step_multiplier (m : char) (v result current : Z) :
  KANJI_DIGITS m = None -> KANJI_MULTIPLIERS m = Some v ->
  kanji_step (result, current) m
  = (result + (if current =? 0 then 1 else current) * v, 0).
Proof. intros Hd Hm. unfold kanji_step. rewrite Hd, Hm. reflexivity. Qed.

(** Reading one place adds digit times multiplier to the result. *)
Lemma kanji_step_place (k : Z) (m : char) (v result : Z) :
  0 <= k <= 9 -> KANJI_DIGITS m = None -> KANJI_MULTIPLIERS m = Some v ->
  fold_left kanji_step (place k m) (result, 0) = (result + k * v, 0).
Proof.
  intros Hk Hd Hm. unfold place.
  destruct (0 <? k) eqn:E0.
  - destruct (1 <? k) eqn:E1.
    + destruct (digit_entry k) as [ch [Ha Hc]];
        [apply Z.ltb_lt in E1; lia|].
      rewrite Ha. cbn [append_entry app fold_left].
      rewrite (kanji_step_digit ch k) by exact Hc.
      rewrite (kanji_step_multiplier m v) by assumption.
      destruct (Z.eqb_spec k 0) as [Z0|Z0]; [|reflexivity].
      apply Z.ltb_lt in E0. lia.
    + cbn [app fold_left]. rewrite (kanji_step_multiplier m v) by assumption.
      apply Z.ltb_lt in E0. apply Z.ltb_ge in E1.
      assert (K : k = 1) by lia. subst k.
      cbn [Z.eqb]. f_equal.
  - apply Z.ltb_ge in E0. assert (K : k = 0) by lia. subst k.
    cbn [fold_left]. f_equal. lia.
Qed.

Lemma kanji_step_ones (k result : Z) :
  0 <= k <= 9 -> fold_left kanji_step (ones k) (result, 0) = (result, k).
Proof.
  intros Hk. unfold ones. destruct (0 <? k) eqn:E0.
  - apply Z.ltb_lt in E0. destruct (digit_entry k) as [ch [Ha Hc]]; [lia|].
    rewrite Ha. cbn [append_entry app fold_left].
    apply kanji_step_digit. exact Hc.
  - apply Z.ltb_ge in E0. cbn [fold_left]. f_equal. lia.
Qed.

(** A multiplier is not a digit. *)
Lemma multiplier_not_digit (c : char) :
  in_table KANJI_MULTIPLIERS c = true -> in_table KANJI_DIGITS c = false.
Proof.
  unfold in_table, KANJI_MULTIPLIERS.
  destruct (N.eqb_spec c c_ju); [subst c; reflexivity|].
  destruct (N.eqb_spec c c_hyaku); [subst c; reflexivity|].
  destruct (N.eqb_spec c c_sen); [subst c; reflexivity|].
  discriminate.
Qed.

(** A string with a multiplier in it is read by the loop. *)
Lemma kanjiToArabic_loop (s : jsstring) :
  existsb (in_table KANJI_MULTIPLIERS) s = true ->
  kanjiToArabic s = kanji_loop s.
Proof.
  intros H. unfold kanjiToArabic.
  destruct s as [|c s]; [discriminate|].
  cbn [length Nat.eqb]. rewrite H. rewrite andb_false_r.
  destruct s as [|c' s]; [|reflexivity].
  simpl in H. rewrite orb_false_r in H.
  cbn [length Nat.eqb key_in andb]. rewrite (multiplier_not_digit c H).
  reflexivity.
Qed.

Lemma place_multiplier (k : Z) (m : char) (s : jsstring) :
  0 < k -> in_table KANJI_MULTIPLIERS m = true ->
  existsb (in_table KANJI_MULTIPLIERS) (place k m ++ s) = true.
Proof.
  intros Hk Hm. unfold place.
  destruct (0 <? k) eqn:E; [|apply Z.ltb_ge in E; lia].
  rewrite existsb_app, existsb_app. simpl. rewrite Hm.
  rewrite orb_true_r. reflexivity.
Qed.

(** ** Invalid citations *)

(** The only invalid result of the parser is the one of its last return. *)
Lemma parseCitation_invalid (citation : jsstring) :
  valid (parseCitation citation) = false ->
  parseCitation citation
  = mkParsed false unknown None None None None None None None None
             (Some (parse_error_prefix ++ [34%N] ++ trim citation ++ [34%N])).
Proof.
  unfold parseCitation.
  destruct (regex_match JAPANESE_CITATION (trim citation)); [discriminate|].
  destruct (regex_match TRAILING_JAPANESE (trim citation)); [discriminate|].
  destruct (regex_match ENGLISH_FULL (trim citation)); [discriminate|].
  destruct (regex_match SHORT_CITATION (trim citation)); [discriminate|].
  destruct (regex_match ID_BASED (trim citation)); [discriminate|].
  reflexivity.
Qed.

(** An invalid citation has no article. *)
Lemma parseCitation_article_valid (citation a : jsstring) :
  article (parseCitation citation) = Some a -> valid (parseCitation citation) = true.
Proof.
  intros H. destruct (valid (parseCitation citation)) eqn:V; [reflexivity|].
  rewrite (parseCitation_invalid citation V) in H. discriminate.
Qed.

(** ** Claims of the specification *)

(** C1, as stated, fails: the article of "第X条 民法" is populated with the
    text "X", which is not a string of Arabic digits. *)
Lemma parseCitation_article_raw_text :
  article (parseCitation (js "第X条 民法")) = Some (js "X")
  /\ all_digits (js "X") = false.
Proof. split; reflexivity. Qed.

(* The amended statement is proved in the last part of this file. *)

(** C2: on "第十七条第一項第三号 個人情報の保護に関する法律" the parser yields
    article "17" and paragraph "1", but item "13": the item pattern matches
    from the first 第 of the block, so the item numeral is converted together
    with the article's. *)
Theorem parseCitation_item_reads_whole_block :
  let p := parseCitation (js "第十七条第一項第三号 個人情報の保護に関する法律") in
  article p = Some (js "17")
  /\ paragraph p = Some (js "1")
  /\ item p = Some (js "13")
  /\ option_map (fun m => group m 1) (regex_match RE_REF_ITEM (js "第十七条第一項第三号"))
     = Some (js "第十七条第一項第三号").
Proof. vm_compute. repeat split. Qed.

(** C3: for every integer n with 1 <= n <= 9999,
    kanjiToArabic(arabicToKanji(n)) = n. *)
Theorem kanji_round_trip (n : Z) :
  1 <= n <= 9999 -> kanjiToArabic (arabicToKanji (Int n)) = Int n.
Proof.
  intros H. destruct (Z_lt_le_dec n 10) as [Hs|Hl].
  - assert (C : In n [0; 1; 2; 3; 4; 5; 6; 7; 8; 9]) by (apply below_ten; lia).
    simpl in C.
    repeat (destruct C as [C|C]; [subst n; reflexivity|]). contradiction.
  - rewrite arabicToKanji_places by lia.
    set (a := n / 1000). set (r1 := n mod 1000).
    set (b := r1 / 100). set (r2 := r1 mod 100).
    set (c := r2 / 10). set (d := r2 mod 10).
    assert (Hn : n = 1000 * a + r1) by (apply Z.div_mod; lia).
    assert (Hr1 : r1 = 100 * b + r2) by (apply Z.div_mod; lia).
    assert (Hr2 : r2 = 10 * c + d) by (apply Z.div_mod; lia).
    assert (B1 : 0 <= r1 < 1000) by (apply Z.mod_pos_bound; lia).
    assert (B2 : 0 <= r2 < 100) by (apply Z.mod_pos_bound; lia).
    assert (B3 : 0 <= d < 10) by (apply Z.mod_pos_bound; lia).
    assert (Ba : 0 <= a <= 9) by lia.
    assert (Bb : 0 <= b <= 9) by lia.
    assert (Bc : 0 <= c <= 9) by lia.
    rewrite kanjiToArabic_loop.
    + unfold kanji_loop. repeat rewrite fold_left_app.
      rewrite (kanji_step_place a c_sen 1000) by (auto; reflexivity).
      rewrite (kanji_step_place b c_hyaku 100) by (auto; reflexivity).
      rewrite (kanji_step_place c c_ju 10) by (auto; reflexivity).
      rewrite kanji_step_ones by lia.
      f_equal. lia.
    + destruct (Z_lt_le_dec 0 a) as [Pa|Za].
      { apply place_multiplier; [exact Pa | reflexivity]. }
      destruct (Z_lt_le_dec 0 b) as [Pb|Zb].
      { rewrite existsb_app. rewrite (place_multiplier b c_hyaku); [|exact Pb|reflexivity].
        apply orb_true_r. }
      destruct (Z_lt_le_dec 0 c) as [Pc|Zc]; [|lia].
      rewrite existsb_app, existsb_app.
      rewrite (place_multiplier c c_ju); [|exact Pc|reflexivity].
      rewrite orb_true_r. apply orb_true_r.
Qed.

Lemma kanji_round_trip_witness :
  kanjiToArabic (arabicToKanji (Int 2003)) = Int 2003.
Proof. apply (kanji_round_trip 2003). lia. Defined.

(** C4: if [parseCitation] returns a citation with valid = false, then its
    type is 'unknown', its error is the non-empty diagnostic that quotes the
    trimmed input, and no other field is populated. *)
Theorem parseCitation_invalid_shape (citation : jsstring) :
  valid (parseCitation citation) = false ->
  let p := parseCitation citation in
  type p = unknown
  /\ error p = Some (parse_error_prefix ++ [34%N] ++ trim citation ++ [34%N])
  /\ error p <> Some []
  /\ title p = None /\ title_en p = None /\ law_number p = None
  /\ act_number p = None /\ year p = None
  /\ article p = None /\ paragraph p = None /\ item p = None.
Proof.
  intros V. cbv zeta. rewrite (parseCitation_invalid citation V).
  simpl. repeat split. discriminate.
Qed.

Lemma parseCitation_invalid_shape_witness :
  let p := parseCitation (js "no citation here") in
  type p = unknown
  /\ error p = Some (parse_error_prefix ++ [34%N] ++ trim (js "no citation here") ++ [34%N])
  /\ error p <> Some []
  /\ title p = None /\ title_en p = None /\ law_number p = None
  /\ act_number p = None /\ year p = None
  /\ article p = None /\ paragraph p = None /\ item p = None.
Proof.
  apply (parseCitation_invalid_shape (js "no citation here")).
  vm_compute. reflexivity.
Defined.

(** C5: for every parsed citation p and every style s, known or not, if
    p.valid is false or p.article is absent then formatCitation(p, s) is the
    empty string; [formatCitation] is a total function, so it returns on
    every input. *)
Theorem formatCitation_empty (p : ParsedCitation) (s : jsstring) :
  valid p = false \/ article p = None -> formatCitation p s = [].
Proof.
  unfold formatCitation. intros [H|H]; rewrite H; simpl.
  - reflexivity.
  - rewrite orb_true_r. reflexivity.
Qed.

Lemma formatCitation_empty_witness :
  formatCitation (parseCitation (js "第十七条")) (js "bibtex") = [].
Proof.
  apply (formatCitation_empty (parseCitation (js "第十七条")) (js "bibtex")).
  left. vm_compute. reflexivity.
Defined.

(** C6: parsing "第十七条 個人情報の保護に関する法律" yields valid = true,
    article "17" and the native title, and formatting the result in the
    japanese style gives the input back. *)
Theorem parse_format_japanese_round_trip :
  let p := parseCitation (js "第十七条 個人情報の保護に関する法律") in
  valid p = true
  /\ article p = Some (js "17")
  /\ title p = Some (js "個人情報の保護に関する法律")
  /\ formatCitation p (js "japanese") = js "第十七条 個人情報の保護に関する法律".
Proof. vm_compute. repeat split. Qed.

(** C7: when a citation parses to a citation with article a (which is then
    a valid one), the document lookup returns a document whose status is
    'repealed' and the provision lookup (by art-a, by section a, by prefix
    art-a%) finds nothing, [validateCitation] returns document_exists = true,
    provision_exists = false, the title and status of the document, and
    exactly two warnings: the repeal notice "This statute has been repealed"
    and the provision-not-found notice "Article <a> not found in <title>",
    in this order. *)
Theorem validateCitation_repealed_without_provision
    (db : Database) (text a : jsstring) (doc : document_row) :
  article (parseCitation text) = Some a ->
  (let searchTerm := coalesce (title (parseCitation text))
                              (title_en (parseCitation text)) in
   let like := js "%" ++ searchTerm ++ js "%" in
   get_document db like like like searchTerm = Ok (Some doc)) ->
  doc_status doc = js "repealed" ->
  get_provision db (doc_id doc) (js "art-" ++ a) a (js "art-" ++ a ++ js "%")
  = Ok None ->
  exists r,
    validateCitation db text = Ok r
    /\ Types.citation r = parseCitation text
    /\ document_exists r = true
    /\ provision_exists r = false
    /\ document_title r = Some (doc_title doc)
    /\ status r = Some (js "repealed")
    /\ warnings r
       = [js "This statute has been repealed";
          js "Article " ++ a ++ js " not found in " ++ doc_title doc]
    /\ In (js "This statute has been repealed") (warnings r)
    /\ In (js "Article " ++ a ++ js " not found in " ++ doc_title doc)
          (warnings r).
Proof.
  intros A D S P.
  pose proof (parseCitation_article_valid text a A) as V.
  pose proof (parseCitation_article_nonempty text a A) as Ne.
  unfold validateCitation. cbv zeta in D |- *.
  rewrite V. simpl negb. cbv iota.
  rewrite D. unfold bind at 1.
  rewrite S, A.
  destruct a as [|c a']; [contradiction|].
  replace (str_eqb (js "repealed") (js "repealed")) with true by reflexivity.
  cbn [str_truthy coalesce].
  rewrite P. eexists. cbn [bind]. split; [reflexivity|].
  cbn [Types.citation document_exists provision_exists document_title status
       warnings negb app].
  repeat split.
  - left. reflexivity.
  - right. left. reflexivity.
Qed.

Lemma validateCitation_repealed_without_provision_witness :
  exists r,
    validateCitation repealed_store (js "第十七条 個人情報の保護に関する法律") = Ok r
    /\ Types.citation r = parseCitation (js "第十七条 個人情報の保護に関する法律")
    /\ document_exists r = true
    /\ provision_exists r = false
    /\ document_title r = Some (doc_title repealed_document)
    /\ status r = Some (js "repealed")
    /\ warnings r
       = [js "This statute has been repealed";
          js "Article " ++ js "17" ++ js " not found in "
          ++ doc_title repealed_document]
    /\ In (js "This statute has been repealed") (warnings r)
    /\ In (js "Article " ++ js "17" ++ js " not found in "
           ++ doc_title repealed_document) (warnings r).
Proof.
  refine (validateCitation_repealed_without_provision repealed_store
            (js "第十七条 個人情報の保護に関する法律") (js "17")
            repealed_document _ _ _ _).
  - vm_compute. reflexivity.
  - reflexivity.
  - reflexivity.
  - reflexivity.
Defined.

(** C8, as stated, fails: "17abc" is not a positive integer, yet it is not
    wrapped unchanged; [parseInt] reads the leading 17 and the result is
    第十七条. *)
Lemma formatArticleKanji_numeric_prefix :
  positive_integer_input (ArtStr (js "17abc")) = false
  /\ formatArticleKanji (ArtStr (js "17abc")) = js "第十七条"
  /\ formatArticleKanji (ArtStr (js "17abc")) <> wrap_article (js "17abc").
Proof. repeat split. vm_compute. discriminate. Qed.

(* The amended statement is proved in the last part of this file. *)

(** C9: at the tool layer, when the citation is non-empty (not blank: empty
    and white-space-only input is the second case) and [parseCitation]
    fails on it, the result has valid = false, formatted equal to the
    citation as it was passed in (so not the empty string),
    formatted_japanese empty, type 'unknown' and the parser's error; when the
    citation is empty or white space only, the result is the "Empty citation"
    one whatever the parser is, that is, without consulting it. *)
Theorem formatCitationTool_failure (i : Tool.FormatCitationInput) :
  (trim (Tool.citation i) <> [] ->
   valid (parseCitation (Tool.citation i)) = false ->
   Tool.formatCitationTool i
   = Tool.mkResult (Tool.citation i) (Tool.citation i) [] (js "unknown") false
                   (error (parseCitation (Tool.citation i)))
   /\ Tool.formatted (Tool.formatCitationTool i) <> [])
  /\ (trim (Tool.citation i) = [] ->
      forall parser,
        Tool.formatCitationTool_with parser i
        = Tool.mkResult [] [] [] (js "unknown") false (Some (js "Empty citation"))).
Proof.
  split.
  - intros Hne Hv.
    assert (E : Tool.formatCitationTool i
                = Tool.mkResult (Tool.citation i) (Tool.citation i) []
                    (js "unknown") false (error (parseCitation (Tool.citation i)))).
    { unfold Tool.formatCitationTool, Tool.formatCitationTool_with.
      destruct (Tool.citation i) as [|c s] eqn:Ec; [contradiction Hne; reflexivity|].
      simpl str_truthy. simpl negb.
      destruct (trim (c :: s)) as [|c' t] eqn:Et; [contradiction Hne; reflexivity|].
      simpl length. simpl Nat.eqb. simpl orb. cbv iota.
      rewrite Hv. reflexivity. }
    split; [exact E|].
    rewrite E. simpl. intros Z. rewrite Z in Hne. apply Hne. reflexivity.
  - intros He parser. unfold Tool.formatCitationTool_with.
    rewrite He. simpl length. simpl Nat.eqb. rewrite orb_true_r. reflexivity.
Qed.

Lemma formatCitationTool_failure_witness :
  Tool.formatCitationTool (Tool.mkInput (js "第十七条") None)
  = Tool.mkResult (js "第十七条") (js "第十七条") [] (js "unknown") false
      (Some (parse_error_prefix ++ [34%N] ++ js "第十七条" ++ [34%N]))
  /\ Tool.formatCitationTool (Tool.mkInput (js "   ") (Some (js "short")))
     = Tool.mkResult [] [] [] (js "unknown") false (Some (js "Empty citation")).
Proof.
  split.
  - apply (proj1 (formatCitationTool_failure (Tool.mkInput (js "第十七条") None))).
    + vm_compute. discriminate.
    + vm_compute. reflexivity.
  - apply (proj2 (formatCitationTool_failure (Tool.mkInput (js "   ") (Some (js "short"))))).
    vm_compute. reflexivity.
Defined.

(** * Further properties of the code *)

(** ** White space *)

Lemma trimStart_fixed (c : char) (s : jsstring) :
  isWhiteSpace c = false -> trimStart (c :: s) = c :: s.
Proof. intros H. simpl. rewrite H. reflexivity. Qed.

Lemma trimStart_head (s : jsstring) :
  match trimStart s with
  | [] => True
  | c :: _ => isWhiteSpace c = false
  end.
Proof.
  induction s as [|a s IH]; simpl; [exact I|].
  destruct (isWhiteSpace a) eqn:E; [exact IH | exact E].
Qed.

Lemma trimStart_idempotent (s : jsstring) : trimStart (trimStart s) = trimStart s.
Proof.
  pose proof (trimStart_head s) as H.
  destruct (trimStart s) as [|c t]; [reflexivity|].
  apply trimStart_fixed. exact H.
Qed.

Lemma trimEnd_idempotent (s : jsstring) : trimEnd (trimEnd s) = trimEnd s.
Proof.
  unfold trimEnd. rewrite rev_involutive, trimStart_idempotent. reflexivity.
Qed.

(** Cutting white space off the end keeps a string free of white space at
    its start. *)
Lemma trimStart_trimEnd (s : jsstring) :
  trimStart s = s -> trimStart (trimEnd s) = trimEnd s.
Proof.
  intros Hs. unfold trimEnd.
  destruct (trimStart_suffix (rev s)) as [a Ea].
  destruct (trimStart (rev s)) as [|b B] eqn:EB; [reflexivity|].
  apply (f_equal (@rev char)) in Ea. rewrite rev_involutive, rev_app_distr in Ea.
  pose proof (trimStart_head s) as Hh. rewrite Hs in Hh.
  destruct (rev (b :: B)) as [|c t] eqn:Er.
  - apply (f_equal (@length char)) in Er. rewrite length_rev in Er. discriminate.
  - rewrite Ea in Hh. simpl in Hh. apply trimStart_fixed. exact Hh.
Qed.

Lemma trim_idempotent (s : jsstring) : trim (trim s) = trim s.
Proof.
  unfold trim.
  rewrite (trimStart_trimEnd (trimStart s)) by apply trimStart_idempotent.
  apply trimEnd_idempotent.
Qed.

(** A string that neither starts nor ends with white space is its own
    trimmed form. *)
Lemma trim_fixed (s : jsstring) :
  trimStart s = s -> trimStart (rev s) = rev s -> trim s = s.
Proof.
  intros H1 H2. unfold trim, trimEnd. rewrite H1, H2. apply rev_involutive.
Qed.

Lemma trim_nil_iff_blank (s : jsstring) :
  trim s = [] <-> forallb isWhiteSpace s = true.
Proof.
  split.
  - intros H. apply forallb_forall. intros c Hc.
    destruct (isWhiteSpace c) eqn:E; [reflexivity|].
    apply (trim_keeps c s Hc) in E. rewrite H in E. contradiction.
  - intros H. unfold trim.
    assert (T : trimStart s = []).
    { induction s as [|a s IH]; [reflexivity|].
      simpl in *. apply andb_true_iff in H. destruct H as [Ha Hs].
      rewrite Ha. auto. }
    rewrite T. reflexivity.
Qed.

(** ** The matcher finds a match whenever there is one *)

Section Complete.

Variable ic : bool.

Lemma repeat_matcher_stop (m : cont -> cont) (gs : list nat) (fuel min : nat)
    (max : option nat) (g : bool) (k : cont) (x : state) :
  min = 0%nat \/ max = Some 0%nat -> k x <> Failed ->
  repeat_matcher m gs fuel min max g k x <> Failed.
Proof.
  intros Hs Hk.
  destruct fuel as [|fuel]; simpl;
    destruct max as [[|n]|]; try exact Hk; try discriminate;
    (destruct Hs as [Hs|Hs]; [subst min; simpl | discriminate Hs]);
    (destruct g; [destruct (m _ _); [discriminate | exact Hk | discriminate]
                 |destruct (k x); [discriminate | contradiction | discriminate]]).
Qed.

Lemma repeat_matcher_round (m : cont -> cont) (gs : list nat) (fuel min : nat)
    (max : option nat) (g : bool) (k : cont) (x : state) :
  max <> Some 0%nat ->
  m (fun y => if Nat.eqb min 0 && Nat.eqb (idx y) (idx x) then Failed
              else repeat_matcher m gs fuel (Nat.pred min)
                     (option_map Nat.pred max) g k y)
    (clear_caps gs x) <> Failed ->
  repeat_matcher m gs (S fuel) min max g k x <> Failed.
Proof.
  intros Hmax D. simpl.
  destruct max as [[|n]|]; [contradiction| |];
    (destruct (Nat.eqb min 0); simpl; [|exact D];
     destruct g; [destruct (m _ _); [discriminate | contradiction | discriminate]
                 |destruct (k x); [discriminate | exact D | discriminate]]).
Qed.

Lemma repeat_matcher_no_fuel (m : cont -> cont) (gs : list nat) (min : nat)
    (max : option nat) (g : bool) (k : cont) (x : state) :
  k x <> Failed -> repeat_matcher m gs 0 min max g k x <> Failed.
Proof.
  intros Hk. simpl. destruct max as [[|n]|]; [exact Hk | discriminate | discriminate].
Qed.

(** If the pattern can reach a state where the continuation does not fail,
    the matcher does not fail either; the same for a quantifier whatever
    its round budget. *)
Lemma rmatch_complete_aux (r : regex) (x y : state) :
  matches ic r x y ->
  forall k, k y <> Failed ->
    rmatch ic r k x <> Failed
    /\ (forall min max g r1, r = Rep min max g r1 ->
        forall fuel,
          repeat_matcher (rmatch ic r1) (groups r1) fuel min max g k x <> Failed).
Proof.
  induction 1 as [c a t x Hr Hc|p a t x Hr Hp|x Hi|x Hr|x
                 |r1 r2 x y z H1 IH1 H2 IH2|r1 r2 x y H1 IH1|r1 r2 x y H1 IH1
                 |min max g r x Hs|min max g r x y z Hmax H1 IH1 Hp H2 IH2
                 |i r x y H1 IH1]; intros k Hk.
  - split; [|discriminate]. simpl. unfold step_char. rewrite Hr, Hc. exact Hk.
  - split; [|discriminate]. simpl. unfold step_char. rewrite Hr, Hp. exact Hk.
  - split; [|discriminate]. simpl. rewrite Hi. exact Hk.
  - split; [|discriminate]. simpl. rewrite Hr. exact Hk.
  - split; [|discriminate]. simpl. exact Hk.
  - split; [|discriminate]. simpl. apply IH1. apply IH2. exact Hk.
  - split; [|discriminate]. simpl. destruct (rmatch ic r1 k x) eqn:E; try discriminate.
    exfalso. apply (proj1 (IH1 k Hk)). exact E.
  - split; [|discriminate]. simpl. destruct (rmatch ic r1 k x) eqn:E; try discriminate.
    apply IH1. exact Hk.
  - split.
    + simpl. apply repeat_matcher_stop; assumption.
    + intros min0 max0 g0 r0 E fuel. inversion E; subst.
      apply repeat_matcher_stop; assumption.
  - assert (G : forall fuel,
      repeat_matcher (rmatch ic r) (groups r) fuel min max g k x <> Failed).
    { intros [|fuel].
      - simpl. destruct max as [[|n]|]; [contradiction | discriminate | discriminate].
      - apply repeat_matcher_round; [exact Hmax|].
        apply IH1.
        destruct (Nat.eqb min 0 && Nat.eqb (idx y) (idx x)) eqn:C.
        + apply andb_true_iff in C. destruct C as [C1 C2].
          apply Nat.eqb_eq in C1. apply Nat.eqb_eq in C2.
          exfalso. apply (Hp C1). exact C2.
        + apply (proj2 (IH2 k Hk) _ _ _ _ eq_refl). }
    split.
    + simpl. apply G.
    + intros min0 max0 g0 r0 E fuel. inversion E; subst. apply G.
  - split; [|discriminate]. simpl. apply IH1. exact Hk.
Qed.

Lemma rmatch_complete (r : regex) (x y : state) (k : cont) :
  matches ic r x y -> k y <> Failed -> rmatch ic r k x <> Failed.
Proof. intros H Hk. apply (rmatch_complete_aux r x y H k Hk). Qed.

End Complete.

(** [match] returns null exactly when the pattern has no match at any index
    of the string. *)
Lemma search_complete (re : RegExp) :
  forall s1 s2 i y,
    matches (ignoreCase re) (source re)
            (mkState (i + length s1) s2 no_caps) y ->
    search re i (s1 ++ s2) <> Failed.
Proof.
  induction s1 as [|a s1 IH]; intros s2 i y H.
  - simpl in *. rewrite Nat.add_0_r in H.
    assert (R : rmatch (ignoreCase re) (source re) Matched (mkState i s2 no_caps)
                <> Failed)
      by (eapply rmatch_complete; [exact H | discriminate]).
    destruct s2; simpl; destruct (rmatch _ _ _ _); try discriminate; contradiction.
  - simpl. destruct (rmatch _ _ _ _); try discriminate.
    apply (IH s2 (S i) y). simpl in H.
    replace (S i + length s1)%nat with (i + S (length s1))%nat by lia. exact H.
Qed.

Lemma regex_match_complete (re : RegExp) (s1 s2 : jsstring) (y : state) :
  matches (ignoreCase re) (source re) (mkState (length s1) s2 no_caps) y ->
  regex_match re (s1 ++ s2) <> None.
Proof.
  intros H. unfold regex_match.
  pose proof (search_complete re s1 s2 0 y H) as C.
  pose proof (search_not_stuck re (s1 ++ s2) 0) as N.
  destruct (search re 0 (s1 ++ s2)); [discriminate | contradiction | contradiction].
Qed.

(** ** Running the matcher along a string

    How the quantifiers of the source patterns, which all range over a
    class of characters, run over a known stretch of input. *)

Lemma step_char_hit (p : char -> bool) (k : cont) (i : nat) (a : char)
    (r : jsstring) (cs : captures) :
  p a = true -> step_char p k (mkState i (a :: r) cs) = k (mkState (S i) r cs).
Proof. intros H. unfold step_char. simpl. rewrite H. reflexivity. Qed.

Lemma step_char_miss (p : char -> bool) (k : cont) (x : state) :
  match rest x with [] => True | a :: _ => p a = false end ->
  step_char p k x = Failed.
Proof.
  unfold step_char. destruct (rest x) as [|a r]; [reflexivity|].
  intros H. rewrite H. reflexivity.
Qed.

(** A greedy quantifier over a class runs to the end of the stretch of
    characters of the class and hands over to the rest of the pattern; if
    that succeeds, it is the result. *)
Lemma greedy_run (ic : bool) (p : char -> bool) (v : jsstring) :
  forallb p v = true ->
  forall fuel min i t cs k o,
    match t with [] => True | b :: _ => p b = false end ->
    (min <= length v)%nat -> (length v < fuel)%nat ->
    k (mkState (i + length v) t cs) = Matched o ->
    repeat_matcher (rmatch ic (Cls p)) [] fuel min None true k
                   (mkState i (v ++ t) cs) = Matched o.
Proof.
  induction v as [|a v IH]; intros Hv fuel min i t cs k o Ht Hmin Hf Hk.
  - destruct fuel as [|fuel]; [simpl in Hf; lia|].
    simpl in Hmin. assert (min = 0)%nat by lia. subst min.
    simpl in Hk. rewrite Nat.add_0_r in Hk.
    cbn [repeat_matcher Nat.eqb negb app rmatch].
    rewrite step_char_miss by exact Ht.
    exact Hk.
  - destruct fuel as [|fuel]; [simpl in Hf; lia|].
    simpl in Hv. apply andb_true_iff in Hv. destruct Hv as [Ha Hv].
    assert (R : repeat_matcher (rmatch ic (Cls p)) [] fuel (Nat.pred min) None true k
                  (mkState (S i) (v ++ t) cs) = Matched o).
    { apply IH; auto; simpl in Hmin, Hf; try lia.
      simpl in Hk. rewrite Nat.add_succ_r in Hk. exact Hk. }
    cbn [repeat_matcher app rmatch option_map].
    match goal with
    | |- context [step_char p ?d ?xr] =>
      assert (M : step_char p d xr = Matched o)
    end.
    { unfold step_char, clear_caps. cbn [rest idx caps]. rewrite Ha.
      replace (Nat.eqb (S i) i) with false by (symmetry; apply Nat.eqb_neq; lia).
      rewrite andb_false_r. exact R. }
    rewrite M. destruct (Nat.eqb min 0); reflexivity.
Qed.

(** A lazy quantifier over a class stops at the first place where the rest
    of the pattern succeeds. *)
Lemma lazy_scan (ic : bool) (p : char -> bool) (w : jsstring) :
  forallb p w = true ->
  forall fuel min i t cs k o,
    (forall w1 w2, w = w1 ++ w2 -> w2 <> [] -> (min <= length w1)%nat ->
       k (mkState (i + length w1) (w2 ++ t) cs) = Failed) ->
    (min <= length w)%nat -> (length w < fuel)%nat ->
    k (mkState (i + length w) t cs) = Matched o ->
    repeat_matcher (rmatch ic (Cls p)) [] fuel min None false k
                   (mkState i (w ++ t) cs) = Matched o.
Proof.
  induction w as [|a w IH]; intros Hw fuel min i t cs k o Hfail Hmin Hf Hk.
  - destruct fuel as [|fuel]; [simpl in Hf; lia|].
    simpl in Hmin. assert (min = 0)%nat by lia. subst min.
    simpl in Hk. rewrite Nat.add_0_r in Hk.
    cbn [repeat_matcher Nat.eqb negb app]. rewrite Hk. reflexivity.
  - destruct fuel as [|fuel]; [simpl in Hf; lia|].
    simpl in Hw. apply andb_true_iff in Hw. destruct Hw as [Ha Hw].
    assert (R : repeat_matcher (rmatch ic (Cls p)) [] fuel (Nat.pred min) None false k
                  (mkState (S i) (w ++ t) cs) = Matched o).
    { apply IH; auto; simpl in Hmin, Hf; try lia.
      - intros w1 w2 E Hne Hl.
        pose proof (Hfail (a :: w1) w2) as F. simpl in F.
        rewrite Nat.add_succ_r in F.
        apply F; [congruence | exact Hne | lia].
      - simpl in Hk. rewrite Nat.add_succ_r in Hk. exact Hk. }
    cbn [repeat_matcher app rmatch option_map].
    match goal with
    | |- context [step_char p ?d ?xr] =>
      assert (M : step_char p d xr = Matched o)
    end.
    { unfold step_char, clear_caps. cbn [rest idx caps]. rewrite Ha.
      replace (Nat.eqb (S i) i) with false by (symmetry; apply Nat.eqb_neq; lia).
      rewrite andb_false_r. exact R. }
    rewrite M. destruct min as [|min]; cbn [Nat.eqb negb]; [|reflexivity].
    assert (F : k (mkState i (a :: w ++ t) cs) = Failed).
    { specialize (Hfail [] (a :: w) eq_refl).
      simpl in Hfail. rewrite Nat.add_0_r in Hfail.
      apply Hfail; [discriminate | lia]. }
    rewrite F. reflexivity.
Qed.

(** The matcher only looks at what its continuation returns. *)
Lemma repeat_matcher_ext (m : cont -> cont) (gs : list nat) (g : bool) :
  (forall k1 k2 x, (forall y, k1 y = k2 y) -> m k1 x = m k2 x) ->
  forall fuel min max k1 k2 x,
    (forall y, k1 y = k2 y) ->
    repeat_matcher m gs fuel min max g k1 x = repeat_matcher m gs fuel min max g k2 x.
Proof.
  intros Hm. induction fuel as [|fuel IH]; intros min max k1 k2 x E.
  - simpl. destruct max as [[|n]|]; auto.
  - simpl.
    assert (D : m (fun y => if Nat.eqb min 0 && Nat.eqb (idx y) (idx x) then Failed
                            else repeat_matcher m gs fuel (Nat.pred min)
                                   (option_map Nat.pred max) g k1 y)
                  (clear_caps gs x)
                = m (fun y => if Nat.eqb min 0 && Nat.eqb (idx y) (idx x) then Failed
                              else repeat_matcher m gs fuel (Nat.pred min)
                                     (option_map Nat.pred max) g k2 y)
                    (clear_caps gs x)).
    { apply Hm. intros y. destruct (_ && _); [reflexivity|]. apply IH. exact E. }
    rewrite D, (E x). reflexivity.
Qed.

Lemma rmatch_ext (ic : bool) (r : regex) :
  forall k1 k2 x, (forall y, k1 y = k2 y) -> rmatch ic r k1 x = rmatch ic r k2 x.
Proof.
  induction r as [c|p| | | |r1 IH1 r2 IH2|r1 IH1 r2 IH2|min max g r IH|n r IH];
    intros k1 k2 x E; simpl.
  - unfold step_char. destruct (rest x); [reflexivity|]. destruct (chr_match _ _ _); auto.
  - unfold step_char. destruct (rest x); [reflexivity|]. destruct (p _); auto.
  - destruct (Nat.eqb _ _); auto.
  - destruct (rest x); auto.
  - auto.
  - apply IH1. intros y. apply IH2. exact E.
  - rewrite (IH1 k1 k2 x E), (IH2 k1 k2 x E). reflexivity.
  - apply repeat_matcher_ext; auto.
  - apply IH. intros y. apply E.
Qed.

Lemma repeat_matcher_done (m : cont -> cont) (gs : list nat) (fuel min : nat)
    (g : bool) (k : cont) (x : state) :
  repeat_matcher m gs fuel min (Some 0%nat) g k x = k x.
Proof. destruct fuel; reflexivity. Qed.

(** An optional part that cannot start is skipped. *)
Lemma opt_skip (ic : bool) (r : regex) (k : cont) (x : state) :
  (forall d, rmatch ic r d (clear_caps (groups r) x) = Failed) ->
  rmatch ic (opt r) k x = k x.
Proof.
  intros H. unfold opt. cbn [rmatch].
  replace (0 + length (rest x) + 1)%nat with (S (length (rest x))) by lia.
  cbn [repeat_matcher Nat.eqb negb]. rewrite H. reflexivity.
Qed.

(** An optional part that matches is taken when the rest of the pattern
    succeeds after it. *)
Lemma opt_take (ic : bool) (r : regex) (k : cont) (x : state) (o : state) :
  rmatch ic r (fun y => if Nat.eqb (idx y) (idx x) then Failed else k y)
         (clear_caps (groups r) x) = Matched o ->
  rmatch ic (opt r) k x = Matched o.
Proof.
  intros H. unfold opt. cbn [rmatch].
  replace (0 + length (rest x) + 1)%nat with (S (length (rest x))) by lia.
  cbn [repeat_matcher Nat.eqb negb andb option_map Nat.pred].
  match goal with
  | |- match rmatch ic r ?d ?xr with _ => _ end = _ =>
    replace (rmatch ic r d xr) with (Matched o); [reflexivity|]
  end.
  rewrite <- H. apply rmatch_ext. intros y.
  destruct (Nat.eqb (idx y) (idx x)); [reflexivity|].
  symmetry. apply repeat_matcher_done.
Qed.

(** ** The wrapper patterns on a wrapped numeral *)

(** [第(.+?)X] on a string that starts with 第, then a non-empty text without
    line terminator in which X does not occur after the first character,
    then X: the group is that text. *)
Lemma wrapper_core_match (closing a : char) (w tail : jsstring) (i : nat)
    (cs : captures) :
  forallb not_line_terminator (a :: w) = true ->
  ~ In closing w ->
  exists y,
    rmatch false (cat [Chr c_dai; Group 1 (plus_lazy any); Chr closing]) Matched
           (mkState i (c_dai :: (a :: w) ++ closing :: tail) cs) = Matched y
    /\ caps y 1%nat = Some (a :: w)
    /\ rest y = tail.
Proof.
  intros Hw Hc.
  cbn [cat fold_right rmatch].
  rewrite step_char_hit by (unfold chr_match, char_eqb; apply N.eqb_refl).
  unfold plus_lazy, any. cbn [rmatch groups rest idx].
  eexists. split.
  - apply (lazy_scan false (fun c => negb (isLineTerminator c)) (a :: w)).
    + exact Hw.
    + intros w1 w2 E Hne Hl.
      destruct w1 as [|a1 w1]; [simpl in Hl; lia|].
      destruct w2 as [|b w2]; [contradiction|].
      cbn [app rest idx caps]. apply step_char_miss. cbn [rest].
      unfold chr_match, char_eqb. apply N.eqb_neq. intros Eb. subst b.
      apply Hc. inversion E; subst. apply in_or_app. right. left. reflexivity.
    + simpl. lia.
    + rewrite length_app. simpl. lia.
    + cbn [rest idx caps].
      rewrite step_char_hit by (unfold chr_match, char_eqb; apply N.eqb_refl).
      reflexivity.
  - cbn [caps rest idx]. split; [|reflexivity].
    unfold set_cap. cbn [Nat.eqb].
    replace (S i + length (a :: w) - S i)%nat with (length (a :: w) + 0)%nat by lia.
    rewrite firstn_app_2. simpl. rewrite app_nil_r. reflexivity.
Qed.

Lemma RE_WRAPPED_match (closing a : char) (w tail : jsstring) :
  forallb not_line_terminator (a :: w) = true ->
  ~ In closing w ->
  exists m,
    regex_match (RE_WRAPPED closing) (c_dai :: (a :: w) ++ closing :: tail) = Some m
    /\ group m 1 = a :: w.
Proof.
  intros Hw Hc.
  destruct (wrapper_core_match closing a w tail 0 no_caps Hw Hc) as [y [Hy [Hg _]]].
  exists (caps y). unfold regex_match, group.
  cbn [search RE_WRAPPED source ignoreCase cat fold_right rmatch idx Nat.eqb].
  cbn [cat fold_right rmatch] in Hy. rewrite Hy. rewrite Hg. auto.
Qed.

Lemma RE_REF_ARTICLE_match (a : char) (w tail : jsstring) :
  forallb not_line_terminator (a :: w) = true ->
  ~ In c_jo w ->
  regex_match RE_REF_ARTICLE (c_dai :: (a :: w) ++ c_jo :: tail) <> None.
Proof.
  intros Hw Hc.
  destruct (wrapper_core_match c_jo a w tail 0 no_caps Hw Hc) as [y [Hy _]].
  unfold regex_match.
  cbn [search RE_REF_ARTICLE source ignoreCase].
  rewrite Hy. discriminate.
Qed.

(** A wrapper pattern only matches a string that starts with 第. *)
Lemma RE_WRAPPED_starts (closing : char) (s : jsstring) (m : captures) :
  regex_match (RE_WRAPPED closing) s = Some m -> exists t, s = c_dai :: t.
Proof.
  intros H. apply regex_match_sound in H.
  destruct H as [s1 [s2 [y [Es [_ Hm]]]]]. simpl in Hm.
  inv_matches. cbn [rest idx caps] in *. subst.
  destruct s1; [|discriminate]. simpl.
  match goal with
  | Hc : chr_match false c_dai ?a = true |- _ =>
    apply chr_match_exact in Hc; subst a
  end.
  eexists. reflexivity.
Qed.

Lemma RE_WRAPPED_no_match (closing : char) (s : jsstring) :
  match s with [] => True | c :: _ => c <> c_dai end ->
  regex_match (RE_WRAPPED closing) s = None.
Proof.
  intros H. destruct (regex_match (RE_WRAPPED closing) s) as [m|] eqn:E; [|reflexivity].
  apply RE_WRAPPED_starts in E. destruct E as [t E]. subst s. contradiction.
Qed.

(** ** The numeral converter on arbitrary strings *)

Lemma KANJI_DIGITS_range (c : char) (d : Z) :
  KANJI_DIGITS c = Some d -> 0 <= d <= 9.
Proof.
  unfold KANJI_DIGITS.
  repeat match goal with
         | |- context [(c =? ?k)%N] => destruct (c =? k)%N
         end; intros H; inversion H; lia.
Qed.

Lemma KANJI_MULTIPLIERS_range (c : char) (v : Z) :
  KANJI_MULTIPLIERS c = Some v -> 10 <= v <= 1000.
Proof.
  unfold KANJI_MULTIPLIERS.
  repeat match goal with
         | |- context [(c =? ?k)%N] => destruct (c =? k)%N
         end; intros H; inversion H; lia.
Qed.

Lemma table_get_range (c : char) : 0 <= table_get KANJI_DIGITS c <= 9.
Proof.
  unfold table_get. destruct (KANJI_DIGITS c) as [d|] eqn:E; [|lia].
  apply (KANJI_DIGITS_range c d E).
Qed.

Lemma digit_not_multiplier (c : char) :
  in_table KANJI_DIGITS c = true -> in_table KANJI_MULTIPLIERS c = false.
Proof.
  intros H. destruct (in_table KANJI_MULTIPLIERS c) eqn:M; [|reflexivity].
  rewrite (multiplier_not_digit c M) in H. discriminate.
Qed.

Lemma numeral_count_app (s t : jsstring) :
  numeral_count (s ++ t) = (numeral_count s + numeral_count t)%nat.
Proof. unfold numeral_count. rewrite filter_app, length_app. reflexivity. Qed.

(** The loop keeps its two counters small: each multiplier adds at most
    9000 to the result, and the pending digit is at most 9. *)
Lemma kanji_loop_bound (s : jsstring) :
  forall result current,
    0 <= result -> 0 <= current <= 9 ->
    let '(result', current') := fold_left kanji_step s (result, current) in
    0 <= result' <= result + 9000 * Z.of_nat (numeral_count s)
    /\ 0 <= current' <= 9.
Proof.
  induction s as [|c s IH]; intros result current Hr Hc.
  - simpl. unfold numeral_count. simpl. lia.
  - cbn [fold_left].
    assert (N : numeral_count (c :: s)
                = ((if in_table KANJI_DIGITS c || in_table KANJI_MULTIPLIERS c
                    then 1 else 0) + numeral_count s)%nat).
    { unfold numeral_count. simpl. destruct (_ || _); reflexivity. }
    unfold kanji_step at 2. unfold in_table in N.
    destruct (KANJI_DIGITS c) as [d|] eqn:D.
    + pose proof (KANJI_DIGITS_range c d D) as Rd.
      specialize (IH result d Hr Rd).
      destruct (fold_left kanji_step s (result, d)) as [r' c'].
      rewrite N. simpl orb. cbv iota. lia.
    + destruct (KANJI_MULTIPLIERS c) as [v|] eqn:M.
      * pose proof (KANJI_MULTIPLIERS_range c v M) as Rv.
        assert (B : 0 <= (if current =? 0 then 1 else current) * v <= 9000).
        { destruct (current =? 0); nia. }
        specialize (IH (result + (if current =? 0 then 1 else current) * v) 0).
        destruct (fold_left kanji_step s _) as [r' c'].
        rewrite N. simpl orb. cbv iota.
        assert (I : 0 <= r' <= result + (if current =? 0 then 1 else current) * v
                                + 9000 * Z.of_nat (numeral_count s) /\ 0 <= c' <= 9)
          by (apply IH; lia).
        lia.
      * specialize (IH result current Hr Hc).
        destruct (fold_left kanji_step s (result, current)) as [r' c'].
        rewrite N. simpl orb. cbv iota. lia.
Qed.

Lemma digits_value_app (ds : jsstring) (acc : Z) :
  fold_left (fun a c => a * 10 + digit_value c) ds acc
  = acc * 10 ^ Z.of_nat (length ds) + digits_value ds.
Proof.
  unfold digits_value. revert acc.
  induction ds as [|c ds IH]; intros acc.
  - simpl. lia.
  - cbn [fold_left length]. rewrite IH, (IH (0 * 10 + digit_value c)).
    rewrite Nat2Z.inj_succ, Z.pow_succ_r by lia. lia.
Qed.

Lemma positional_value_bound (s : jsstring) :
  0 <= positional_value s < 10 ^ Z.of_nat (length s).
Proof.
  unfold positional_value.
  assert (G : forall acc k, 0 <= acc < 10 ^ Z.of_nat k ->
            0 <= fold_left (fun a c => a * 10 + table_get KANJI_DIGITS c) s acc
            < 10 ^ Z.of_nat (k + length s)).
  { induction s as [|c s IH]; intros acc k Ha.
    - simpl. rewrite Nat.add_0_r. exact Ha.
    - cbn [fold_left length].
      replace (k + S (length s))%nat with (S k + length s)%nat by lia.
      apply IH. pose proof (table_get_range c).
      rewrite Nat2Z.inj_succ, Z.pow_succ_r by lia. lia. }
  apply (G 0 0%nat). simpl. lia.
Qed.

(** The digit string that the positional branch hands to [parseInt]. *)
Lemma positional_digits (s : jsstring) :
  s <> [] ->
  parseInt (map (fun c => digit_char (table_get KANJI_DIGITS c)) s)
  = Int (positional_value s).
Proof.
  intros Hne.
  assert (D : forallb isDigit (map (fun c => digit_char (table_get KANJI_DIGITS c)) s)
              = true).
  { apply forallb_forall. intros x Hx. apply in_map_iff in Hx.
    destruct Hx as [c [E _]]. subst x. apply digit_char_isDigit.
    pose proof (table_get_range c). lia. }
  rewrite parseInt_digits.
  - f_equal. unfold digits_value, positional_value.
    clear Hne D. generalize 0. induction s as [|c s IH]; intros acc; [reflexivity|].
    cbn [map fold_left]. rewrite digit_value_char
      by (pose proof (table_get_range c); lia).
    apply IH.
  - unfold all_digits. destruct s; [contradiction|]. exact D.
Qed.

Lemma kanjiToArabic_positional_branch (s : jsstring) :
  forallb (in_table KANJI_DIGITS) s = true -> (2 <= length s)%nat ->
  kanjiToArabic s = Int (positional_value s).
Proof.
  intros Hd Hl. unfold kanjiToArabic.
  destruct s as [|c s]; [simpl in Hl; lia|].
  cbn [length Nat.eqb]. rewrite Hd.
  assert (M : existsb (in_table KANJI_MULTIPLIERS) (c :: s) = false).
  { apply not_true_is_false. intros E. apply existsb_exists in E.
    destruct E as [x [Hx Mx]]. rewrite forallb_forall in Hd.
    specialize (Hd x Hx). rewrite (multiplier_not_digit x Mx) in Hd.
    discriminate. }
  rewrite M.
  replace (1 <? S (length s))%nat with true
    by (symmetry; apply Nat.ltb_lt; simpl in Hl; lia).
  cbn [andb negb]. apply positional_digits. discriminate.
Qed.

(** X1: [kanjiToArabic] returns a small natural number on every string of
    at most 15 kanji numeral characters, whatever else the string holds:
    never NaN, never a negative number, always below 10^15. *)
Theorem kanjiToArabic_bounded (s : jsstring) :
  (numeral_count s <= 15)%nat ->
  exists z, kanjiToArabic s = Int z /\ 0 <= z < 10 ^ 15.
Proof.
  intros Hn. unfold kanjiToArabic.
  destruct (Nat.eqb (length s) 0) eqn:E0; [exists 0; split; [reflexivity | lia]|].
  destruct (forallb (in_table KANJI_DIGITS) s && Nat.ltb 1 (length s)
            && negb (existsb (in_table KANJI_MULTIPLIERS) s)) eqn:P.
  - apply andb_true_iff in P. destruct P as [P _].
    apply andb_true_iff in P. destruct P as [Hd Hl].
    exists (positional_value s). split.
    + apply positional_digits. intros E. subst s. discriminate.
    + pose proof (positional_value_bound s) as B.
      assert (L : numeral_count s = length s).
      { unfold numeral_count. clear - Hd. induction s as [|c s IH]; [reflexivity|].
        simpl in Hd. apply andb_true_iff in Hd. destruct Hd as [Hc Hs].
        simpl. rewrite Hc. simpl. rewrite IH by exact Hs. reflexivity. }
      assert (M : 10 ^ Z.of_nat (length s) <= 10 ^ 15)
        by (apply Z.pow_le_mono_r; lia).
      lia.
  - destruct (Nat.eqb (length s) 1 && key_in KANJI_DIGITS s) eqn:K.
    + exists (key_get KANJI_DIGITS s). split; [reflexivity|].
      unfold key_get. destruct s as [|c [|c' s']]; try lia.
      pose proof (table_get_range c). lia.
    + unfold kanji_loop.
      pose proof (kanji_loop_bound s 0 0) as B.
      destruct (fold_left kanji_step s (0, 0)) as [r c].
      exists (r + c). split; [reflexivity|].
      assert (I : 0 <= r <= 0 + 9000 * Z.of_nat (numeral_count s) /\ 0 <= c <= 9)
        by (apply B; lia).
      lia.
Qed.

Lemma kanjiToArabic_bounded_witness :
  exists z, kanjiToArabic (js "令和三年法律第二十七号") = Int z /\ 0 <= z < 10 ^ 15.
Proof.
  apply (kanjiToArabic_bounded (js "令和三年法律第二十七号")).
  vm_compute. lia.
Defined.

(** X2: A string of two to fifteen kanji digits without multiplier is read
    as a decimal number, digit by digit, leading zeros included. *)
Theorem kanjiToArabic_digit_string (s : jsstring) :
  forallb (in_table KANJI_DIGITS) s = true ->
  (2 <= length s <= 15)%nat ->
  kanjiToArabic s = Int (positional_value s)
  /\ 0 <= positional_value s < 10 ^ Z.of_nat (length s).
Proof.
  intros Hd Hl. split.
  - apply kanjiToArabic_positional_branch; [exact Hd | lia].
  - apply positional_value_bound.
Qed.

Lemma kanjiToArabic_digit_string_witness :
  kanjiToArabic (js "二〇〇三") = Int (positional_value (js "二〇〇三"))
  /\ 0 <= positional_value (js "二〇〇三") < 10 ^ Z.of_nat (length (js "二〇〇三")).
Proof.
  apply (kanjiToArabic_digit_string (js "二〇〇三")).
  - reflexivity.
  - vm_compute. split; lia.
Defined.

(** ** Numerals beyond the table *)

(** The text of any number from 10 on, place by place; the thousands place
    holds whatever [n / 1000] is. *)
Lemma arabicToKanji_places_from_10 (n : Z) :
  10 <= n ->
  arabicToKanji (Int n)
  = place (n / 1000) c_sen
    ++ place (n mod 1000 / 100) c_hyaku
    ++ place (n mod 1000 mod 100 / 10) c_ju
    ++ ones (n mod 1000 mod 100 mod 10).
Proof.
  intros H. unfold arabicToKanji.
  destruct (n <? 0) eqn:E0; [lia|].
  destruct (n =? 0) eqn:E1; [lia|].
  destruct (n <=? 9) eqn:E2; [lia|].
  cbv zeta.
  match goal with
  | |- context [if 0 <? n / 1000 then ?A else ?B] =>
    replace (if 0 <? n / 1000 then A else B)
      with (place (n / 1000) c_sen, n mod 1000)
  end.
  2:{ unfold place. destruct (0 <? n / 1000) eqn:E; [reflexivity|].
      apply Z.ltb_ge in E. rewrite Z.mod_small; [reflexivity|].
      assert (n / 1000 = 0) by (pose proof (Z.div_pos n 1000); lia).
      pose proof (Z.div_mod n 1000). pose proof (Z.mod_pos_bound n 1000). lia. }
  cbv beta iota zeta.
  pose proof (Z.mod_pos_bound n 1000) as B1.
  set (r1 := n mod 1000) in *. set (p1 := place (n / 1000) c_sen).
  match goal with
  | |- context [if 0 <? r1 / 100 then ?A else ?B] =>
    replace (if 0 <? r1 / 100 then A else B)
      with (p1 ++ place (r1 / 100) c_hyaku, r1 mod 100)
  end.
  2:{ unfold place. destruct (0 <? r1 / 100) eqn:E.
      - destruct (1 <? r1 / 100); [rewrite (append_entry_app p1)|];
          repeat rewrite <- app_assoc; reflexivity.
      - apply Z.ltb_ge in E. rewrite app_nil_r. rewrite Z.mod_small; [reflexivity|].
        assert (r1 / 100 = 0) by (pose proof (Z.div_pos r1 100); lia).
        pose proof (Z.div_mod r1 100). pose proof (Z.mod_pos_bound r1 100). lia. }
  cbv beta iota zeta.
  pose proof (Z.mod_pos_bound r1 100) as B2.
  set (r2 := r1 mod 100) in *. set (p2 := p1 ++ place (r1 / 100) c_hyaku).
  match goal with
  | |- context [if 0 <? r2 / 10 then ?A else ?B] =>
    replace (if 0 <? r2 / 10 then A else B)
      with (p2 ++ place (r2 / 10) c_ju, r2 mod 10)
  end.
  2:{ unfold place. destruct (0 <? r2 / 10) eqn:E.
      - destruct (1 <? r2 / 10); [rewrite (append_entry_app p2)|];
          repeat rewrite <- app_assoc; reflexivity.
      - apply Z.ltb_ge in E. rewrite app_nil_r. rewrite Z.mod_small; [reflexivity|].
        assert (r2 / 10 = 0) by (pose proof (Z.div_pos r2 10); lia).
        pose proof (Z.div_mod r2 10). pose proof (Z.mod_pos_bound r2 10). lia. }
  cbv beta iota zeta.
  unfold ones, p2. destruct (0 <? r2 mod 10).
  - rewrite (append_entry_app (_ ++ _)). repeat rewrite <- app_assoc. reflexivity.
  - repeat rewrite <- app_assoc. rewrite app_nil_r. reflexivity.
Qed.

Lemma ARABIC_TO_KANJI_DIGITS_missing (k : Z) :
  10 <= k -> ARABIC_TO_KANJI_DIGITS k = None.
Proof.
  intros H. unfold ARABIC_TO_KANJI_DIGITS.
  repeat match goal with
         | |- context [k =? ?d] => destruct (Z.eqb_spec k d); [lia|]
         end.
  reflexivity.
Qed.

Lemma place_beyond_table (k : Z) (m : char) :
  10 <= k -> place k m = js "undefined" ++ [m].
Proof.
  intros H. unfold place.
  replace (0 <? k) with true by (symmetry; apply Z.ltb_lt; lia).
  replace (1 <? k) with true by (symmetry; apply Z.ltb_lt; lia).
  rewrite ARABIC_TO_KANJI_DIGITS_missing by exact H. reflexivity.
Qed.

(** What [kanjiToArabic] reads in the text [arabicToKanji] writes for a
    number from 10 on: the number itself up to 9999; beyond, a thousands
    place of 1, because the table has no digit for [n / 1000]. *)
Lemma kanji_read_back_from_10 (n : Z) :
  10 <= n ->
  kanjiToArabic (arabicToKanji (Int n))
  = Int ((if n / 1000 <=? 9 then n / 1000 else 1) * 1000 + n mod 1000).
Proof.
  intros H. rewrite arabicToKanji_places_from_10 by exact H.
  set (a := n / 1000). set (r1 := n mod 1000).
  set (b := r1 / 100). set (r2 := r1 mod 100).
  set (c := r2 / 10). set (d := r2 mod 10).
  assert (Hr1 : r1 = 100 * b + r2) by (apply Z.div_mod; lia).
  assert (Hr2 : r2 = 10 * c + d) by (apply Z.div_mod; lia).
  assert (B1 : 0 <= r1 < 1000) by (apply Z.mod_pos_bound; lia).
  assert (B2 : 0 <= r2 < 100) by (apply Z.mod_pos_bound; lia).
  assert (B3 : 0 <= d < 10) by (apply Z.mod_pos_bound; lia).
  assert (Ba : 0 <= a) by (apply Z.div_pos; lia).
  assert (Bb : 0 <= b <= 9) by lia.
  assert (Bc : 0 <= c <= 9) by lia.
  assert (Hn : n = 1000 * a + r1) by (apply Z.div_mod; lia).
  rewrite kanjiToArabic_loop.
  - unfold kanji_loop. repeat rewrite fold_left_app.
    assert (T : fold_left kanji_step (place a c_sen) (0, 0)
                = ((if a <=? 9 then a else 1) * 1000, 0)).
    { destruct (Z.leb_spec a 9) as [La|La].
      - rewrite (kanji_step_place a c_sen 1000) by (auto; reflexivity).
        reflexivity.
      - rewrite place_beyond_table by lia. reflexivity. }
    rewrite T.
    rewrite (kanji_step_place b c_hyaku 100) by (auto; reflexivity).
    rewrite (kanji_step_place c c_ju 10) by (auto; reflexivity).
    rewrite kanji_step_ones by lia.
    f_equal. lia.
  - destruct (Z_lt_le_dec 0 a) as [Pa|Za].
    { apply place_multiplier; [exact Pa | reflexivity]. }
    destruct (Z_lt_le_dec 0 b) as [Pb|Zb].
    { rewrite existsb_app. rewrite (place_multiplier b c_hyaku); [|exact Pb|reflexivity].
      apply orb_true_r. }
    destruct (Z_lt_le_dec 0 c) as [Pc|Zc]; [|lia].
    rewrite existsb_app, existsb_app.
    rewrite (place_multiplier c c_ju); [|exact Pc|reflexivity].
    rewrite orb_true_r. apply orb_true_r.
Qed.

(** Reading back what was written, from 0 to 9999. *)
Lemma kanji_read_back (n : Z) :
  0 <= n <= 9999 -> kanjiToArabic (arabicToKanji (Int n)) = Int n.
Proof.
  intros H. destruct (Z_lt_le_dec n 10) as [Hs|Hl].
  - assert (C : In n [0; 1; 2; 3; 4; 5; 6; 7; 8; 9]) by (apply below_ten; lia).
    simpl in C.
    repeat (destruct C as [C|C]; [subst n; reflexivity|]). contradiction.
  - rewrite kanji_read_back_from_10 by exact Hl.
    assert (A : n / 1000 <= 9)
      by (apply Z.lt_succ_r; apply Z.div_lt_upper_bound; lia).
    replace (n / 1000 <=? 9) with true by (symmetry; apply Z.leb_le; exact A).
    f_equal. pose proof (Z.div_mod n 1000). lia.
Qed.

(** X3: Beyond 9999 the table of [arabicToKanji] has no digit for the
    thousands: the text starts with "undefined千", and [kanjiToArabic] reads
    it as 1000 plus the last three digits.  The round trip ends at 9999. *)
Theorem arabicToKanji_beyond_9999 (n : Z) :
  10000 <= n <= 10 ^ 12 ->
  (exists tail, arabicToKanji (Int n) = js "undefined千" ++ tail)
  /\ kanjiToArabic (arabicToKanji (Int n)) = Int (1000 + n mod 1000)
  /\ kanjiToArabic (arabicToKanji (Int n)) <> Int n.
Proof.
  intros H.
  assert (A : 10 <= n / 1000) by (apply Z.div_le_lower_bound; lia).
  assert (R : kanjiToArabic (arabicToKanji (Int n)) = Int (1000 + n mod 1000)).
  { rewrite kanji_read_back_from_10 by lia.
    replace (n / 1000 <=? 9) with false by (symmetry; apply Z.leb_gt; lia).
    reflexivity. }
  split; [|split].
  - rewrite arabicToKanji_places_from_10 by lia.
    rewrite place_beyond_table by exact A.
    eexists. rewrite <- app_assoc. reflexivity.
  - exact R.
  - rewrite R. intros E.
    assert (E' : 1000 + n mod 1000 = n) by congruence.
    assert (B : 0 <= n mod 1000 < 1000) by (apply Z.mod_pos_bound; lia).
    destruct H as [H _]. lia.
Qed.

Lemma arabicToKanji_beyond_9999_witness :
  (exists tail, arabicToKanji (Int 12345) = js "undefined千" ++ tail)
  /\ kanjiToArabic (arabicToKanji (Int 12345)) = Int (1000 + 12345 mod 1000)
  /\ kanjiToArabic (arabicToKanji (Int 12345)) <> Int 12345.
Proof. apply (arabicToKanji_beyond_9999 12345). lia. Defined.

(** ** The text of a numeral *)

Lemma entry_canonical (k : Z) :
  1 <= k <= 9 ->
  exists ch, ARABIC_TO_KANJI_DIGITS k = Some [ch] /\ canonical_numeral ch = true.
Proof.
  intros Hk. assert (C : In k [0; 1; 2; 3; 4; 5; 6; 7; 8; 9]) by (apply below_ten; lia).
  simpl in C.
  repeat (destruct C as [C|C];
          [subst k; first [lia | eexists; split; [reflexivity | vm_compute; reflexivity]]|]).
  contradiction.
Qed.

Lemma place_canonical (k : Z) (m : char) :
  0 <= k <= 9 -> canonical_numeral m = true ->
  forallb canonical_numeral (place k m) = true /\ (length (place k m) <= 2)%nat.
Proof.
  intros Hk Hm. unfold place.
  destruct (Z.ltb_spec 0 k) as [P0|P0]; [|split; [reflexivity | simpl; lia]].
  destruct (Z.ltb_spec 1 k) as [P1|P1].
  - destruct (entry_canonical k) as [ch [E Hc]]; [lia|].
    rewrite E. cbn [append_entry app forallb length]. rewrite Hc, Hm.
    split; [reflexivity | lia].
  - cbn [app forallb length]. rewrite Hm. split; [reflexivity | lia].
Qed.

Lemma ones_canonical (k : Z) :
  0 <= k <= 9 ->
  forallb canonical_numeral (ones k) = true /\ (length (ones k) <= 1)%nat.
Proof.
  intros Hk. unfold ones.
  destruct (Z.ltb_spec 0 k) as [P0|P0]; [|split; [reflexivity | simpl; lia]].
  destruct (entry_canonical k) as [ch [E Hc]]; [lia|].
  rewrite E. cbn [append_entry app forallb length]. rewrite Hc.
  split; [reflexivity | lia].
Qed.

(** The text for 1 to 9999: not empty, at most seven characters, all taken
    from 一 to 九 and 十, 百, 千. *)
Lemma arabicToKanji_shape (n : Z) :
  1 <= n <= 9999 ->
  arabicToKanji (Int n) <> []
  /\ (length (arabicToKanji (Int n)) <= 7)%nat
  /\ forallb canonical_numeral (arabicToKanji (Int n)) = true.
Proof.
  intros H. destruct (Z_lt_le_dec n 10) as [Hs|Hl].
  - assert (C : In n [0; 1; 2; 3; 4; 5; 6; 7; 8; 9]) by (apply below_ten; lia).
    simpl in C.
    repeat (destruct C as [C|C];
            [subst n;
             first [lia
                   | split; [discriminate
                            | split; [vm_compute; lia | vm_compute; reflexivity]]]|]).
    contradiction.
  - assert (Ne : arabicToKanji (Int n) <> []).
    { intros E. pose proof (kanji_read_back n) as R. rewrite E in R.
      assert (Q : kanjiToArabic [] = Int n) by (apply R; lia).
      inversion Q. lia. }
    split; [exact Ne|].
    rewrite arabicToKanji_places by lia.
    assert (B1 : 0 <= n mod 1000 < 1000) by (apply Z.mod_pos_bound; lia).
    assert (B2 : 0 <= n mod 1000 mod 100 < 100) by (apply Z.mod_pos_bound; lia).
    assert (B3 : 0 <= n mod 1000 mod 100 mod 10 < 10) by (apply Z.mod_pos_bound; lia).
    assert (Ba : 0 <= n / 1000 <= 9).
    { split; [apply Z.div_pos; lia|].
      apply Z.lt_succ_r. apply Z.div_lt_upper_bound; lia. }
    assert (Bb : 0 <= n mod 1000 / 100 <= 9).
    { split; [apply Z.div_pos; lia|].
      apply Z.lt_succ_r. apply Z.div_lt_upper_bound; lia. }
    assert (Bc : 0 <= n mod 1000 mod 100 / 10 <= 9).
    { split; [apply Z.div_pos; lia|].
      apply Z.lt_succ_r. apply Z.div_lt_upper_bound; lia. }
    assert (Ms : canonical_numeral c_sen = true) by (vm_compute; reflexivity).
    assert (Mh : canonical_numeral c_hyaku = true) by (vm_compute; reflexivity).
    assert (Mj : canonical_numeral c_ju = true) by (vm_compute; reflexivity).
    destruct (place_canonical (n / 1000) c_sen Ba Ms) as [F1 L1].
    destruct (place_canonical (n mod 1000 / 100) c_hyaku Bb Mh) as [F2 L2].
    destruct (place_canonical (n mod 1000 mod 100 / 10) c_ju Bc Mj) as [F3 L3].
    destruct (ones_canonical (n mod 1000 mod 100 mod 10)) as [F4 L4]; [lia|].
    repeat rewrite length_app. repeat rewrite forallb_app.
    rewrite F1, F2, F3, F4. split; [lia | reflexivity].
Qed.

Lemma canonical_numeral_facts (c : char) :
  canonical_numeral c = true ->
  isWhiteSpace c = false /\ isLineTerminator c = false /\ isDigit c = false
  /\ c <> c_dai /\ c <> c_jo /\ c <> c_kou /\ c <> c_go.
Proof.
  unfold canonical_numeral. intros H. apply existsb_exists in H.
  destruct H as [x [Hx E]]. apply N.eqb_eq in E. subst x.
  vm_compute in Hx.
  repeat (destruct Hx as [Hx|Hx];
          [subst c; repeat split; solve [reflexivity | discriminate]|]).
  contradiction.
Qed.

(** X4: For 1 to 9999, [arabicToKanji] writes a non-empty text of at most
    seven characters, all of them among 一 to 九, 十, 百 and 千, and different
    numbers get different texts. *)
Theorem arabicToKanji_numeral_text (n m : Z) :
  1 <= n <= 9999 -> 1 <= m <= 9999 ->
  arabicToKanji (Int n) <> []
  /\ (length (arabicToKanji (Int n)) <= 7)%nat
  /\ forallb canonical_numeral (arabicToKanji (Int n)) = true
  /\ (arabicToKanji (Int n) = arabicToKanji (Int m) -> n = m).
Proof.
  intros Hn Hm. destruct (arabicToKanji_shape n Hn) as [A [B C]].
  repeat split; auto.
  intros E. pose proof (kanji_read_back n) as Rn. pose proof (kanji_read_back m) as Rm.
  rewrite E in Rn. rewrite Rm in Rn by lia.
  assert (Q : Int m = Int n) by (apply Rn; lia). congruence.
Qed.

Lemma arabicToKanji_numeral_text_witness :
  arabicToKanji (Int 9999) <> []
  /\ (length (arabicToKanji (Int 9999)) <= 7)%nat
  /\ forallb canonical_numeral (arabicToKanji (Int 9999)) = true
  /\ (arabicToKanji (Int 9999) = arabicToKanji (Int 17) -> 9999 = 17).
Proof. apply (arabicToKanji_numeral_text 9999 17); lia. Defined.

(** ** Numeral references, spelling by spelling *)

Lemma trim_no_white_space (s : jsstring) :
  forallb (fun c => negb (isWhiteSpace c)) s = true -> trim s = s.
Proof.
  intros H.
  assert (F : forall t, forallb (fun c => negb (isWhiteSpace c)) t = true ->
                        trimStart t = t).
  { intros [|c t] Ht; [reflexivity|]. simpl in Ht.
    apply andb_true_iff in Ht. destruct Ht as [Hc _].
    apply negb_true_iff in Hc. apply trimStart_fixed. exact Hc. }
  apply trim_fixed; apply F; [exact H|].
  rewrite forallb_forall in *. intros x Hx. apply H. apply in_rev. exact Hx.
Qed.

Lemma all_digits_forall (d : jsstring) :
  all_digits d = true -> d <> [] /\ forallb isDigit d = true.
Proof. destruct d; [discriminate|]. intros H. split; [discriminate | exact H]. Qed.

Lemma isDigit_facts (c : char) :
  isDigit c = true ->
  isWhiteSpace c = false /\ isLineTerminator c = false
  /\ c <> c_dai /\ c <> c_jo /\ c <> c_kou /\ c <> c_go.
Proof.
  intros H. pose proof (isDigit_cases c H) as E. simpl in E.
  repeat (destruct E as [E|E];
          [subst c; repeat split; solve [reflexivity | discriminate]|]).
  contradiction.
Qed.

Lemma parseWrappedNumber_eq (closing : char) (ref : jsstring) :
  parseWrappedNumber closing ref
  = match regex_match (RE_WRAPPED closing) (trim ref) with
    | Some joMatch => normalize_numeral (group joMatch 1)
    | None => normalize_numeral (trim ref)
    end.
Proof. reflexivity. Qed.

Lemma normalize_numeral_digits (d : jsstring) :
  all_digits d = true -> normalize_numeral d = d.
Proof. intros H. unfold normalize_numeral. rewrite test_digits, H. reflexivity. Qed.

Lemma normalize_numeral_read (K : jsstring) (n : Z) :
  0 < n -> forallb canonical_numeral K = true -> kanjiToArabic K = Int n ->
  normalize_numeral K = String_of_number (Int n).
Proof.
  intros Hn F R. unfold normalize_numeral.
  assert (T : all_digits K = false).
  { destruct K as [|a w]; [reflexivity|].
    assert (Fa : canonical_numeral a = true)
      by (rewrite forallb_forall in F; apply F; left; reflexivity).
    destruct (canonical_numeral_facts a Fa) as [_ [_ [D _]]].
    cbn [all_digits forallb]. rewrite D. reflexivity. }
  rewrite test_digits, T, R. cbv zeta.
  replace (num_gt (Int n) 0) with true by (symmetry; apply Z.ltb_lt; lia).
  reflexivity.
Qed.

Lemma normalize_numeral_kanji (n : Z) :
  1 <= n <= 9999 ->
  normalize_numeral (arabicToKanji (Int n)) = String_of_number (Int n).
Proof.
  intros Hn. destruct (arabicToKanji_shape n Hn) as [_ [_ F]].
  apply normalize_numeral_read; [lia | exact F | apply kanji_read_back; lia].
Qed.

(** The wrapper pattern on a wrapped text whose characters all lie in a
    class that holds no line terminator and no closing marker. *)
Lemma RE_WRAPPED_on (closing : char) (good : char -> bool) (v tail : jsstring) :
  (forall c, good c = true -> isLineTerminator c = false /\ c <> closing) ->
  v <> [] -> forallb good v = true ->
  exists m,
    regex_match (RE_WRAPPED closing) ([c_dai] ++ v ++ [closing] ++ tail) = Some m
    /\ group m 1 = v.
Proof.
  intros G Ne F. destruct v as [|a w]; [contradiction|].
  rewrite forallb_forall in F.
  apply (RE_WRAPPED_match closing a w tail).
  - apply forallb_forall. intros x Hx.
    unfold not_line_terminator. apply negb_true_iff. apply (G x (F x Hx)).
  - intros Hin. apply (G closing); [|reflexivity]. apply F. right. exact Hin.
Qed.

Lemma starts_without_dai (good : char -> bool) (v : jsstring) :
  (forall c, good c = true -> c <> c_dai) -> forallb good v = true ->
  match v with [] => True | c :: _ => c <> c_dai end.
Proof.
  intros G F. destruct v as [|c v]; [exact I|].
  apply G. rewrite forallb_forall in F. apply F. left. reflexivity.
Qed.

(** A wrapped text that is a string of digits is returned as it is; what
    follows the closing marker is not looked at. *)
Lemma parseWrappedNumber_digits (closing : char) (d ref tail : jsstring) :
  closing_marker closing -> all_digits d = true ->
  trim ref = d \/ trim ref = [c_dai] ++ d ++ [closing] ++ tail ->
  parseWrappedNumber closing ref = d.
Proof.
  intros Hc Hd H. rewrite parseWrappedNumber_eq.
  destruct (all_digits_forall d Hd) as [Ne F].
  destruct H as [E|E]; rewrite E.
  - rewrite RE_WRAPPED_no_match; [apply normalize_numeral_digits; exact Hd|].
    apply (starts_without_dai isDigit); [|exact F].
    intros c Dc. apply (isDigit_facts c Dc).
  - destruct (RE_WRAPPED_on closing isDigit d tail) as [m [Hm Hg]]; auto.
    + intros c Dc. destruct (isDigit_facts c Dc) as [_ [L [_ [N1 [N2 N3]]]]].
      split; [exact L|]. destruct Hc as [Hc|[Hc|Hc]]; congruence.
    + rewrite Hm, Hg. apply normalize_numeral_digits. exact Hd.
Qed.

(** A wrapped or bare kanji numeral from 1 to 9999 is returned in decimal. *)
Lemma parseWrappedNumber_kanji (closing : char) (n : Z) (ref tail : jsstring) :
  closing_marker closing -> 1 <= n <= 9999 ->
  trim ref = arabicToKanji (Int n)
  \/ trim ref = [c_dai] ++ arabicToKanji (Int n) ++ [closing] ++ tail ->
  parseWrappedNumber closing ref = String_of_number (Int n).
Proof.
  intros Hc Hn H. rewrite parseWrappedNumber_eq.
  destruct (arabicToKanji_shape n Hn) as [Ne [_ F]].
  destruct H as [E|E]; rewrite E.
  - rewrite RE_WRAPPED_no_match; [apply normalize_numeral_kanji; exact Hn|].
    apply (starts_without_dai canonical_numeral); [|exact F].
    intros c Dc. apply (canonical_numeral_facts c Dc).
  - destruct (RE_WRAPPED_on closing canonical_numeral (arabicToKanji (Int n)) tail)
      as [m [Hm Hg]]; auto.
    + intros c Dc.
      destruct (canonical_numeral_facts c Dc) as [_ [L [_ [_ [N1 [N2 N3]]]]]].
      split; [exact L|]. destruct Hc as [Hc|[Hc|Hc]]; congruence.
    + rewrite Hm, Hg. apply normalize_numeral_kanji. exact Hn.
Qed.

(** X5: The three spellings of an article number from 1 to 9999 (the
    wrapped kanji numeral, with anything after the closing marker; the bare
    kanji numeral; the decimal digits), with any white space around them,
    are all normalized to the decimal digits; the same holds for paragraph
    and item references with their own markers. *)
Theorem numeral_references_normalized (n : Z) (ref tail : jsstring) :
  1 <= n <= 9999 ->
  (trim ref = [c_dai] ++ arabicToKanji (Int n) ++ [c_jo] ++ tail
   \/ trim ref = arabicToKanji (Int n) \/ trim ref = String_of_number (Int n) ->
   parseArticleNumber ref = String_of_number (Int n))
  /\ (trim ref = [c_dai] ++ arabicToKanji (Int n) ++ [c_kou] ++ tail
      \/ trim ref = arabicToKanji (Int n) \/ trim ref = String_of_number (Int n) ->
      parseParagraphNumber ref = String_of_number (Int n))
  /\ (trim ref = [c_dai] ++ arabicToKanji (Int n) ++ [c_go] ++ tail
      \/ trim ref = arabicToKanji (Int n) \/ trim ref = String_of_number (Int n) ->
      parseItemNumber ref = String_of_number (Int n)).
Proof.
  intros Hn.
  assert (G : forall closing, closing_marker closing ->
    trim ref = [c_dai] ++ arabicToKanji (Int n) ++ [closing] ++ tail
    \/ trim ref = arabicToKanji (Int n) \/ trim ref = String_of_number (Int n) ->
    parseWrappedNumber closing ref = String_of_number (Int n)).
  { intros closing Hc [E|[E|E]].
    - apply (parseWrappedNumber_kanji closing n ref tail); auto.
    - apply (parseWrappedNumber_kanji closing n ref tail); auto.
    - apply (parseWrappedNumber_digits closing _ ref []); auto.
      apply String_of_number_digits. apply Z.ltb_lt. lia. }
  unfold parseArticleNumber, parseParagraphNumber, parseItemNumber.
  repeat split; apply G; unfold closing_marker; auto.
Qed.

Lemma numeral_references_normalized_witness :
  parseArticleNumber (js "  第十七条の二 ") = js "17"
  /\ parseParagraphNumber (js "十七") = js "17"
  /\ parseItemNumber (js "17") = js "17".
Proof.
  split; [|split].
  - apply (proj1 (numeral_references_normalized 17 (js "  第十七条の二 ") (js "の二")
                    ltac:(lia))).
    left. vm_compute. reflexivity.
  - apply (proj1 (proj2 (numeral_references_normalized 17 (js "十七") []
                           ltac:(lia)))).
    right. left. vm_compute. reflexivity.
  - apply (proj2 (proj2 (numeral_references_normalized 17 (js "17") []
                           ltac:(lia)))).
    right. right. vm_compute. reflexivity.
Defined.

(** X6: An article, paragraph or item reference written in Arabic digits,
    bare or inside its wrapper, is returned digit for digit (leading zeros
    stay, however long the string is), and what follows the closing marker
    is dropped. *)
Theorem digit_references_unchanged (d ref tail : jsstring) :
  all_digits d = true ->
  (trim ref = d \/ trim ref = [c_dai] ++ d ++ [c_jo] ++ tail ->
   parseArticleNumber ref = d)
  /\ (trim ref = d \/ trim ref = [c_dai] ++ d ++ [c_kou] ++ tail ->
      parseParagraphNumber ref = d)
  /\ (trim ref = d \/ trim ref = [c_dai] ++ d ++ [c_go] ++ tail ->
      parseItemNumber ref = d).
Proof.
  intros Hd. unfold parseArticleNumber, parseParagraphNumber, parseItemNumber.
  repeat split; intros H;
    apply (parseWrappedNumber_digits _ d ref tail); auto;
    unfold closing_marker; auto.
Qed.

Lemma digit_references_unchanged_witness :
  parseArticleNumber (js "第007条第2項") = js "007"
  /\ parseParagraphNumber (js "  12 ") = js "12".
Proof.
  split.
  - apply (proj1 (digit_references_unchanged (js "007") (js "第007条第2項")
                    (js "第2項") ltac:(reflexivity))).
    right. vm_compute. reflexivity.
  - apply (proj1 (proj2 (digit_references_unchanged (js "12") (js "  12 ") []
                           ltac:(reflexivity)))).
    left. vm_compute. reflexivity.
Defined.

(** ** The parser on every input *)

Lemma trimStart_app (s r : jsstring) :
  trimStart (s ++ r)
  = if forallb isWhiteSpace s then trimStart r else trimStart s ++ r.
Proof.
  induction s as [|c s IH]; simpl; [reflexivity|].
  destruct (isWhiteSpace c); simpl; [exact IH | reflexivity].
Qed.

Lemma trimStart_blank (s : jsstring) :
  forallb isWhiteSpace s = true -> trimStart s = [].
Proof.
  induction s as [|c s IH]; simpl; [reflexivity|].
  intros H. apply andb_true_iff in H. destruct H as [Hc Hs].
  rewrite Hc. auto.
Qed.

Lemma forallb_rev {A : Type} (p : A -> bool) (l : list A) :
  forallb p (rev l) = forallb p l.
Proof.
  induction l as [|a l IH]; simpl; [reflexivity|].
  rewrite forallb_app, IH. simpl. rewrite andb_true_r. apply andb_comm.
Qed.

(** White space around a string does not change its trimmed form. *)
Lemma trim_padding (l s r : jsstring) :
  forallb isWhiteSpace l = true -> forallb isWhiteSpace r = true ->
  trim (l ++ s ++ r) = trim s.
Proof.
  intros Hl Hr. unfold trim.
  rewrite trimStart_app, Hl, trimStart_app.
  destruct (forallb isWhiteSpace s) eqn:Hs.
  - rewrite (trimStart_blank r Hr), (trimStart_blank s Hs). reflexivity.
  - unfold trimEnd. rewrite rev_app_distr, trimStart_app, forallb_rev, Hr.
    reflexivity.
Qed.

Lemma split_at_first (c : char) (l : jsstring) :
  exists w t, ~ In c w /\ (l = w \/ l = w ++ c :: t).
Proof.
  induction l as [|a l [w [t [Hn H]]]].
  - exists [], []. split; [intros []|]. left. reflexivity.
  - destruct (N.eq_dec a c) as [E|E].
    + subst a. exists [], l. split; [intros []|]. right. reflexivity.
    + exists (a :: w), t. split.
      * intros [Ha|Hw]; [congruence | contradiction].
      * destruct H as [H|H]; [left | right]; simpl; congruence.
Qed.

(** Every text that the reference block of the native patterns matches
    holds an article wrapper that [parseJapaneseRef] finds. *)
Lemma reference_block_article (x y : state) :
  matches false reference_block x y ->
  regex_match RE_REF_ARTICLE (consumed x y) <> None.
Proof.
  intros H. unfold reference_block in H. cbn [cat fold_right] in H.
  inversion H as [| | | | |r1 r2 x0 y1 z0 H1 H2| | | | |]; subst. clear H.
  inversion H2 as [| | | | |r1 r2 x0 y2 z0 H3 H4| | | | |]; subst. clear H2.
  inversion H4 as [| | | | |r1 r2 x0 y3 z0 H5 H6| | | | |]; subst. clear H4.
  inversion H1 as [c a0 t0 x0 Hr Hc| | | | | | | | | |]; subst. clear H1.
  apply chr_match_exact in Hc. subst a0.
  pose proof (matches_rep_cls _ _ _ _ _ _ H3) as [Fv Lv].
  destruct (matches_consume _ _ _ _ H3) as [v [Ev Iv]].
  rewrite (consumed_eq _ _ _ Ev Iv) in Fv, Lv.
  inversion H5 as [c a1 t1 x1 Hr1 Hc1| | | | | | | | | |]; subst. clear H5.
  apply chr_match_exact in Hc1. subst a1.
  destruct (matches_consume _ _ _ _ H6) as [u [Eu Iu]].
  cbn [rest idx caps] in *.
  assert (C : consumed x y = c_dai :: v ++ c_jo :: u).
  { apply consumed_eq.
    - rewrite Hr, Ev, Hr1, Eu. cbn [app]. rewrite <- app_assoc. reflexivity.
    - rewrite Iu, Iv. cbn [length]. rewrite length_app. cbn [length]. lia. }
  rewrite C.
  destruct v as [|a v']; [simpl in Lv; lia|].
  destruct (split_at_first c_jo v') as [w [t [Hn Hs]]].
  assert (Fw : forallb not_line_terminator (a :: w) = true).
  { cbn [forallb] in Fv |- *. apply andb_true_iff in Fv. destruct Fv as [Fa Fv'].
    unfold not_line_terminator at 1. rewrite Fa. cbn [andb].
    destruct Hs as [Hs|Hs]; subst v'; [exact Fv'|].
    rewrite forallb_app in Fv'. apply andb_true_iff in Fv'. apply Fv'. }
  destruct Hs as [Hs|Hs]; subst v'.
  - apply (RE_REF_ARTICLE_match a w u Fw Hn).
  - replace (c_dai :: (a :: w ++ c_jo :: t) ++ c_jo :: u)
      with (c_dai :: (a :: w) ++ c_jo :: (t ++ c_jo :: u))
      by (cbn [app]; rewrite <- app_assoc; reflexivity).
    apply (RE_REF_ARTICLE_match a w _ Fw Hn).
Qed.

Lemma JAPANESE_CITATION_article :
  group_ok false (article_groups [1%nat]) (source JAPANESE_CITATION).
Proof.
  simpl. repeat split.
  - intros x y H _. apply reference_block_article. exact H.
  - intros x y H Hin. simpl in Hin. exfalso. clear - Hin. intuition discriminate.
Qed.

Lemma TRAILING_JAPANESE_article :
  group_ok false (article_groups [2%nat]) (source TRAILING_JAPANESE).
Proof.
  simpl. repeat split.
  - intros x y H Hin. simpl in Hin. exfalso. clear - Hin. intuition discriminate.
  - intros x y H _. apply reference_block_article. exact H.
Qed.

Lemma parseJapaneseRef_article (articleRef lawName : jsstring) :
  regex_match RE_REF_ARTICLE articleRef <> None ->
  exists a, article (parseJapaneseRef articleRef lawName) = Some a.
Proof.
  intros H. simpl. destruct (regex_match RE_REF_ARTICLE articleRef); [|contradiction].
  eexists. reflexivity.
Qed.

(** A valid result always names an article. *)
Lemma parseCitation_valid_article (citation : jsstring) :
  valid (parseCitation citation) = true ->
  exists a, article (parseCitation citation) = Some a /\ a <> [].
Proof.
  intros V.
  assert (A : exists a, article (parseCitation citation) = Some a).
  { revert V. unfold parseCitation.
    destruct (regex_match JAPANESE_CITATION (trim citation)) as [m|] eqn:H1.
    { intros _. apply parseJapaneseRef_article.
      destruct (regex_match_always_sets _ _ _ 1 H1 eq_refl) as [v [Hv Hg]].
      rewrite Hg.
      apply (regex_match_group_ok _ _ _ _ H1 JAPANESE_CITATION_article 1%nat v Hv).
      left. reflexivity. }
    destruct (regex_match TRAILING_JAPANESE (trim citation)) as [m|] eqn:H2.
    { intros _. apply parseJapaneseRef_article.
      destruct (regex_match_always_sets _ _ _ 2 H2 eq_refl) as [v [Hv Hg]].
      rewrite Hg.
      apply (regex_match_group_ok _ _ _ _ H2 TRAILING_JAPANESE_article 2%nat v Hv).
      left. reflexivity. }
    destruct (regex_match ENGLISH_FULL (trim citation)); [eexists; reflexivity|].
    destruct (regex_match SHORT_CITATION (trim citation)); [eexists; reflexivity|].
    destruct (regex_match ID_BASED (trim citation)); [eexists; reflexivity|].
    discriminate. }
  destruct A as [a Ha]. exists a. split; [exact Ha|].
  apply (parseCitation_article_nonempty citation a Ha).
Qed.

(** X7: White space before and after a citation is ignored: padding the
    input with white space on either side changes nothing in the result of
    [parseCitation], neither the fields nor the text quoted in the error. *)
Theorem parseCitation_padding (l r citation : jsstring) :
  forallb isWhiteSpace l = true -> forallb isWhiteSpace r = true ->
  parseCitation (l ++ citation ++ r) = parseCitation citation.
Proof.
  intros Hl Hr. unfold parseCitation. rewrite (trim_padding l citation r Hl Hr).
  reflexivity.
Qed.

Lemma parseCitation_padding_witness :
  parseCitation (js "  " ++ js "Art. 17, APPI" ++ [9%N; 10%N])
  = parseCitation (js "Art. 17, APPI").
Proof.
  apply (parseCitation_padding (js "  ") [9%N; 10%N] (js "Art. 17, APPI"));
    reflexivity.
Defined.

Lemma parseJapaneseRef_frame (articleRef lawName : jsstring) :
  let p := parseJapaneseRef articleRef lawName in
  type p = statute /\ error p = None /\ law_number p = None
  /\ title p = Some (trim lawName) /\ title_en p = None
  /\ year p = None /\ act_number p = None.
Proof. simpl. repeat split. Qed.

(** X8: The shape of every recognised citation: a result with [valid] set
    has type [statute], no error and no law number, names an article that is
    not the empty string, and carries exactly one of [title] and [title_en]. *)
Theorem parseCitation_valid_shape (citation : jsstring) :
  valid (parseCitation citation) = true ->
  type (parseCitation citation) = statute
  /\ error (parseCitation citation) = None
  /\ law_number (parseCitation citation) = None
  /\ (exists a, article (parseCitation citation) = Some a /\ a <> [])
  /\ ((exists t, title (parseCitation citation) = Some t
                 /\ title_en (parseCitation citation) = None)
      \/ (exists t, title_en (parseCitation citation) = Some t
                    /\ title (parseCitation citation) = None)).
Proof.
  intros V.
  pose proof (parseCitation_valid_article citation V) as A.
  revert V A. unfold parseCitation.
  destruct (regex_match JAPANESE_CITATION (trim citation)) as [m|].
  { intros _ A. repeat split; try exact A. left. eexists. split; reflexivity. }
  destruct (regex_match TRAILING_JAPANESE (trim citation)) as [m|].
  { intros _ A. repeat split; try exact A. left. eexists. split; reflexivity. }
  destruct (regex_match ENGLISH_FULL (trim citation)) as [m|].
  { intros _ A. repeat split; try exact A. right. eexists. split; reflexivity. }
  destruct (regex_match SHORT_CITATION (trim citation)) as [m|].
  { intros _ A. repeat split; try exact A. right. eexists. split; reflexivity. }
  destruct (regex_match ID_BASED (trim citation)) as [m|].
  { intros _ A. repeat split; try exact A. left. eexists. split; reflexivity. }
  discriminate.
Qed.

Lemma parseCitation_valid_shape_witness :
  let p := parseCitation (js "民法 第九十条") in
  type p = statute
  /\ error p = None
  /\ law_number p = None
  /\ (exists a, article p = Some a /\ a <> [])
  /\ ((exists t, title p = Some t /\ title_en p = None)
      \/ (exists t, title_en p = Some t /\ title p = None)).
Proof.
  apply (parseCitation_valid_shape (js "民法 第九十条")). reflexivity.
Defined.

(** ** Groups that are captured together *)

Lemma matches_together (ic : bool) (n1 n2 : nat) :
  forall (r : regex) (x y : state),
  matches ic r x y -> together n1 n2 r = true ->
  (caps x n1 = None <-> caps x n2 = None) ->
  (caps y n1 = None <-> caps y n2 = None).
Proof.
  assert (B : forall r x y, matches ic r x y ->
            always_sets n1 r && always_sets n2 r = true ->
            (caps y n1 = None <-> caps y n2 = None)).
  { intros r0 x0 y0 H A. apply andb_true_iff in A. destruct A as [A1 A2].
    destruct (matches_always_sets ic _ _ _ _ H A1) as [v1 E1].
    destruct (matches_always_sets ic _ _ _ _ H A2) as [v2 E2].
    rewrite E1, E2. split; discriminate. }
  assert (O : forall r x y, matches ic r x y ->
            negb (mentions n1 r) && negb (mentions n2 r) = true ->
            (caps x n1 = None <-> caps x n2 = None) ->
            (caps y n1 = None <-> caps y n2 = None)).
  { intros r0 x0 y0 H A I. apply andb_true_iff in A. destruct A as [A1 A2].
    apply negb_true_iff in A1. apply negb_true_iff in A2.
    rewrite (matches_caps_other ic _ _ _ _ H A1),
            (matches_caps_other ic _ _ _ _ H A2). exact I. }
  induction 1 as [c a t x Hr Hc|p a t x Hr Hp|x Hi|x Hr|x
                 |r1 r2 x y z H1 IH1 H2 IH2|r1 r2 x y H1 IH1|r1 r2 x y H1 IH1
                 |min max g r x Hs|min max g r x y z Hmax H1 IH1 Hp H2 IH2
                 |i r x y H1 IH1]; intros T I; try exact I.
  - cbn [together] in T. apply orb_true_iff in T. destruct T as [T|T].
    + apply orb_true_iff in T. destruct T as [T|T].
      * apply (B _ _ _ (matches_seq ic _ _ _ _ _ H1 H2) T).
      * apply (O _ _ _ (matches_seq ic _ _ _ _ _ H1 H2) T I).
    + apply andb_true_iff in T. destruct T as [T1 T2]. auto.
  - cbn [together] in T. apply orb_true_iff in T. destruct T as [T|T].
    + apply orb_true_iff in T. destruct T as [T|T].
      * apply (B _ _ _ (matches_alt_l ic _ r2 _ _ H1) T).
      * apply (O _ _ _ (matches_alt_l ic _ r2 _ _ H1) T I).
    + apply andb_true_iff in T. destruct T as [T1 T2]. auto.
  - cbn [together] in T. apply orb_true_iff in T. destruct T as [T|T].
    + apply orb_true_iff in T. destruct T as [T|T].
      * apply (B _ _ _ (matches_alt_r ic r1 _ _ _ H1) T).
      * apply (O _ _ _ (matches_alt_r ic r1 _ _ _ H1) T I).
    + apply andb_true_iff in T. destruct T as [T1 T2]. auto.
  - assert (T' : together n1 n2 (Rep (Nat.pred min) (option_map Nat.pred max) g r)
                 = true) by exact T.
    cbn [together] in T. apply orb_true_iff in T. destruct T as [T|T].
    + apply orb_true_iff in T. destruct T as [T|T]; [discriminate|].
      apply (O _ _ _ (matches_rep_round ic _ _ _ _ _ _ _ Hmax H1 Hp H2) T I).
    + apply (IH2 T'). apply (B _ _ _ H1 T).
  - cbn [together] in T. apply orb_true_iff in T. destruct T as [T|T].
    + apply orb_true_iff in T. destruct T as [T|T].
      * apply (B _ _ _ (matches_group ic _ _ _ _ H1) T).
      * apply (O _ _ _ (matches_group ic _ _ _ _ H1) T I).
    + apply andb_true_iff in T. destruct T as [T T3].
      apply andb_true_iff in T. destruct T as [T1 T2].
      apply negb_true_iff in T1. apply negb_true_iff in T2.
      cbn [caps]. unfold set_cap. rewrite T1, T2. auto.
Qed.

Lemma regex_match_together (re : RegExp) (s : jsstring) (m : captures)
    (n1 n2 : nat) :
  regex_match re s = Some m -> together n1 n2 (source re) = true ->
  (m n1 = None <-> m n2 = None).
Proof.
  intros H T. destruct (regex_match_sound _ _ _ H) as [s1 [s2 [y [_ [C M]]]]].
  subst m. apply (matches_together _ n1 n2 _ _ _ M T). simpl. tauto.
Qed.

(** A class repeated a bounded number of times. *)
Lemma matches_rep_cls_bounded (ic : bool) (p : char -> bool) (g : bool)
    (min max : nat) (x y : state) :
  matches ic (Rep min (Some max) g (Cls p)) x y ->
  forallb p (consumed x y) = true
  /\ (length (consumed x y) <= max)%nat
  /\ ((min <= max)%nat -> (min <= length (consumed x y))%nat).
Proof.
  intros H.
  assert (G : exists v, rest x = v ++ rest y /\ idx y = (idx x + length v)%nat
                        /\ forallb p v = true /\ (length v <= max)%nat
                        /\ ((min <= max)%nat -> (min <= length v)%nat)).
  { remember (Rep min (Some max) g (Cls p)) as r eqn:E. revert min max E.
    induction H as [c a t x Hr Hc|q a t x Hr Hq|x Hi|x Hr|x
                   |r1 r2 x y z H1 IH1 H2 IH2|r1 r2 x y H1 IH1|r1 r2 x y H1 IH1
                   |min' max' g' r x Hs|min' max' g' r x y z Hmax H1 IH1 Hp H2 IH2
                   |i r x y H1 IH1]; intros min max E; try discriminate.
    - inversion E; subst. exists []. simpl.
      repeat split; try lia. intros L. destruct Hs as [Hs|Hs]; [lia|].
      inversion Hs. lia.
    - inversion E; subst. clear IH1.
      destruct (IH2 _ _ eq_refl) as [v [E2 [I2 [F2 [U2 L2]]]]].
      inversion H1 as [|q a t x' Hr Hq| | | | | | | | |]; subst.
      simpl in *.
      assert (max <> 0%nat) by congruence.
      exists (a :: v). simpl. rewrite Hq, F2, <- E2.
      repeat split; [exact Hr | lia | lia | lia]. }
  destruct G as [v [E [I [F L]]]].
  rewrite (consumed_eq x y v E I). auto.
Qed.

Lemma matches_four_digits (ic : bool) (x y : state) :
  matches ic (exactly 4 digit) x y ->
  forallb isDigit (consumed x y) = true /\ length (consumed x y) = 4%nat.
Proof.
  intros H. apply matches_rep_cls_bounded in H. destruct H as [F [U L]].
  split; [exact F | lia].
Qed.

Lemma digits_value_bound (s : jsstring) :
  forallb isDigit s = true -> 0 <= digits_value s < 10 ^ Z.of_nat (length s).
Proof.
  intros F. unfold digits_value.
  assert (G : forall acc k, 0 <= acc < 10 ^ Z.of_nat k ->
            0 <= fold_left (fun a c => a * 10 + digit_value c) s acc
            < 10 ^ Z.of_nat (k + length s)).
  { induction s as [|c s IH]; intros acc k Ha.
    - simpl. rewrite Nat.add_0_r. exact Ha.
    - cbn [fold_left length]. cbn [forallb] in F. apply andb_true_iff in F.
      destruct F as [Fc Fs].
      replace (k + S (length s))%nat with (S k + length s)%nat by lia.
      apply (IH Fs).
      assert (D : 0 <= digit_value c <= 9).
      { pose proof (isDigit_cases c Fc) as C. simpl in C. unfold digit_value. lia. }
      rewrite Nat2Z.inj_succ, Z.pow_succ_r by lia. lia. }
  apply (G 0 0%nat). simpl. lia.
Qed.

Lemma parseInt_four_digits (v : jsstring) :
  forallb isDigit v = true -> length v = 4%nat ->
  exists z, parseInt v = Int z /\ 0 <= z <= 9999.
Proof.
  intros F L. exists (digits_value v). split.
  - apply parseInt_digits. unfold all_digits. destruct v; [discriminate | exact F].
  - pose proof (digits_value_bound v F) as B. rewrite L in B.
    change (10 ^ Z.of_nat 4) with 10000 in B. lia.
Qed.

Lemma parseInt_digits_natural (v : jsstring) :
  all_digits v = true -> isNaN (parseInt v) = false /\ num_lt (parseInt v) 0 = false.
Proof.
  intros A. rewrite (parseInt_digits v A). split; [reflexivity|].
  assert (F : forallb isDigit v = true) by (destruct v; [discriminate | exact A]).
  pose proof (digits_value_bound v F) as B. simpl. apply Z.ltb_ge. lia.
Qed.

Lemma ENGLISH_FULL_act_group :
  group_ok true (digit_groups [5%nat]) (source ENGLISH_FULL).
Proof. solve_group_ok. Qed.

Lemma ENGLISH_FULL_year_group :
  group_ok true (four_digit_groups [6%nat]) (source ENGLISH_FULL).
Proof.
  simpl. repeat match goal with |- _ /\ _ => split end; try exact I;
    intros x y Hm Hin; simpl in Hin;
    first [ exfalso; clear - Hin; intuition discriminate
          | apply matches_four_digits in Hm; exact Hm ].
Qed.

Lemma RE_ID_PARTS_act_group :
  group_ok false (digit_groups [1%nat]) (source RE_ID_PARTS).
Proof. solve_group_ok. Qed.

Lemma RE_ID_PARTS_year_group :
  group_ok false (four_digit_groups [2%nat]) (source RE_ID_PARTS).
Proof.
  simpl. repeat match goal with |- _ /\ _ => split end; try exact I;
    intros x y Hm Hin; simpl in Hin;
    first [ exfalso; clear - Hin; intuition discriminate
          | apply matches_four_digits in Hm; exact Hm ].
Qed.

(** X9: The act number and the year of a citation come as a pair: a result
    of [parseCitation] holds both or neither.  A year is a whole number
    between 0 and 9999 (four digits were read); an act number is never NaN
    and never negative. *)
Theorem parseCitation_act_and_year (citation : jsstring) :
  (act_number (parseCitation citation) = None
   <-> year (parseCitation citation) = None)
  /\ (forall y, year (parseCitation citation) = Some y ->
        exists z, y = Int z /\ 0 <= z <= 9999)
  /\ (forall a, act_number (parseCitation citation) = Some a ->
        isNaN a = false /\ num_lt a 0 = false).
Proof.
  unfold parseCitation.
  destruct (regex_match JAPANESE_CITATION (trim citation)) as [m|].
  { cbn [parseJapaneseRef act_number year]. repeat split; discriminate. }
  destruct (regex_match TRAILING_JAPANESE (trim citation)) as [m|].
  { cbn [parseJapaneseRef act_number year]. repeat split; discriminate. }
  destruct (regex_match ENGLISH_FULL (trim citation)) as [m|] eqn:H3.
  { cbn [act_number year]. unfold capture.
    pose proof (regex_match_together _ _ _ 5 6 H3 eq_refl) as T.
    pose proof (regex_match_group_ok _ _ _ _ H3 ENGLISH_FULL_act_group 5%nat) as G5.
    pose proof (regex_match_group_ok _ _ _ _ H3 ENGLISH_FULL_year_group 6%nat) as G6.
    destruct (m 5%nat) as [v5|]; destruct (m 6%nat) as [v6|];
      try (exfalso; destruct T as [T1 T2];
           solve [discriminate (T1 eq_refl) | discriminate (T2 eq_refl)]).
    - destruct (G5 v5 eq_refl (or_introl eq_refl)) as [].
      assert (D5 : all_digits v5 = true) by (apply G5; [reflexivity | left; reflexivity]).
      destruct (G6 v6 eq_refl (or_introl eq_refl)) as [F6 L6].
      destruct v5 as [|a5 v5]; [discriminate|].
      destruct v6 as [|a6 v6]; [discriminate|].
      cbn [or_undefined option_map]. repeat split; try discriminate.
      + intros y E. inversion E; subst.
        apply (parseInt_four_digits _ F6 L6).
      + inversion H; subst. apply (parseInt_digits_natural _ D5).
      + inversion H; subst. apply (parseInt_digits_natural _ D5).
    - cbn [or_undefined option_map]. repeat split; discriminate. }
  destruct (regex_match SHORT_CITATION (trim citation)) as [m|].
  { cbn [act_number year]. repeat split; discriminate. }
  destruct (regex_match ID_BASED (trim citation)) as [m|].
  { cbn [act_number year].
    destruct (regex_match RE_ID_PARTS (group m 1)) as [p|] eqn:HP.
    - cbn [option_map].
      destruct (regex_match_always_sets _ _ _ 1 HP eq_refl) as [v1 [E1 G1]].
      destruct (regex_match_always_sets _ _ _ 2 HP eq_refl) as [v2 [E2 G2]].
      pose proof (regex_match_group_ok _ _ _ _ HP RE_ID_PARTS_act_group 1%nat v1 E1
                    (or_introl eq_refl)) as D1.
      destruct (regex_match_group_ok _ _ _ _ HP RE_ID_PARTS_year_group 2%nat v2 E2
                    (or_introl eq_refl)) as [F2 L2].
      rewrite G1, G2. repeat split; try discriminate.
      + intros y E. inversion E; subst. apply (parseInt_four_digits _ F2 L2).
      + inversion H; subst. apply (parseInt_digits_natural _ D1).
      + inversion H; subst. apply (parseInt_digits_natural _ D1).
    - cbn [option_map]. repeat split; discriminate. }
  cbn [act_number year]. repeat split; discriminate.
Qed.

Lemma parseCitation_act_and_year_witness :
  exists z, Int 2005 = Int z /\ 0 <= z <= 9999.
Proof.
  apply (proj1 (proj2 (parseCitation_act_and_year
                         (js "Article 17, Companies Act (Act No. 86 of 2005)")))).
  reflexivity.
Defined.

(** ** The native pattern on an article reference followed by a name *)

Lemma chr_miss_first (c : char) (k : cont) (i : nat) (b : char) (t : jsstring)
    (cs : captures) :
  b <> c -> step_char (chr_match false c) k (mkState i (b :: t) cs) = Failed.
Proof.
  intros H. apply step_char_miss. cbn [rest].
  unfold chr_match, char_eqb. apply N.eqb_neq. congruence.
Qed.

Lemma firstn_prefix {A : Type} (l r : list A) (n : nat) :
  n = length l -> firstn n (l ++ r) = l.
Proof.
  intros E. subst n. rewrite firstn_app, Nat.sub_diag, firstn_all. simpl.
  apply app_nil_r.
Qed.

Lemma greedy_to_end (ic : bool) (p : char -> bool) (v : jsstring) (fuel min i : nat)
    (cs : captures) (k : cont) (o : state) :
  forallb p v = true -> (min <= length v)%nat -> (length v < fuel)%nat ->
  k (mkState (i + length v) [] cs) = Matched o ->
  repeat_matcher (rmatch ic (Cls p)) [] fuel min None true k (mkState i v cs)
  = Matched o.
Proof.
  intros Hv Hm Hf Hk.
  pose proof (greedy_run ic p v Hv fuel min i [] cs k o I Hm Hf Hk) as G.
  rewrite app_nil_r in G. exact G.
Qed.

Lemma JAPANESE_CITATION_match (a b : char) (w sp name : jsstring) :
  forallb not_line_terminator (a :: w) = true -> ~ In c_jo w ->
  forallb isWhiteSpace (b :: sp) = true ->
  name <> [] -> forallb not_line_terminator name = true ->
  match name with
  | c :: _ => isWhiteSpace c = false /\ c <> 44%N /\ c <> c_touten
  | [] => True
  end ->
  exists m,
    regex_match JAPANESE_CITATION
      (c_dai :: (a :: w) ++ c_jo :: (b :: sp) ++ name) = Some m
    /\ group m 1 = c_dai :: (a :: w) ++ [c_jo]
    /\ group m 2 = name.
Proof.
  intros Hw Hc Hsp Hne Hn Hfirst.
  assert (Hb : b <> c_dai).
  { cbn [forallb] in Hsp. apply andb_true_iff in Hsp. destruct Hsp as [Hb _].
    intros E. subst b. discriminate Hb. }
  destruct name as [|c name']; [contradiction|]. destruct Hfirst as [F1 [F2 F3]].
  unfold regex_match.
  cbn [search JAPANESE_CITATION source ignoreCase cat fold_right rmatch idx
       Nat.eqb reference_block].
  rewrite step_char_hit by (unfold chr_match, char_eqb; apply N.eqb_refl).
  unfold plus_lazy, any at 1. cbn [rmatch groups rest idx].
  match goal with
  | |- context [repeat_matcher ?m ?gs ?f ?mn ?mx ?g ?k ?x] =>
    eassert (E : repeat_matcher m gs f mn mx g k x = Matched _)
  end.
  { apply (lazy_scan false (fun c => negb (isLineTerminator c)) (a :: w)).
    - exact Hw.
    - intros w1 w2 E Hne' Hl.
      destruct w1 as [|a1 w1]; [simpl in Hl; lia|].
      destruct w2 as [|b2 w2]; [contradiction|].
      cbn [app rest idx caps]. apply chr_miss_first.
      intros Eb. subst b2.
      apply Hc. inversion E; subst. apply in_or_app. right. left. reflexivity.
    - simpl. lia.
    - rewrite length_app. simpl. lia.
    - rewrite step_char_hit by (unfold chr_match, char_eqb; apply N.eqb_refl).
      rewrite opt_skip
        by (intros d; cbn [rmatch clear_caps rest idx caps app];
            apply chr_miss_first; exact Hb).
      rewrite opt_skip
        by (intros d; cbn [rmatch clear_caps rest idx caps app];
            apply chr_miss_first; exact Hb).
      unfold star, ws at 1. cbn [rmatch groups rest idx caps].
      apply (greedy_run false isWhiteSpace (b :: sp)).
      + exact Hsp.
      + exact F1.
      + simpl. lia.
      + rewrite length_app. simpl. lia.
      + rewrite opt_skip.
        2:{ intros d. unfold comma. cbn [rmatch clear_caps rest idx caps groups].
            apply step_char_miss. cbn [rest]. apply orb_false_iff.
            split; apply N.eqb_neq; assumption. }
        unfold star, ws. cbn [rmatch groups rest idx caps].
        apply (greedy_run false isWhiteSpace []).
        * reflexivity.
        * exact F1.
        * simpl. lia.
        * simpl. lia.
        * unfold plus, any. cbn [rmatch groups rest idx caps].
          apply (greedy_to_end false (fun c => negb (isLineTerminator c))).
          -- exact Hn.
          -- simpl. lia.
          -- simpl. lia.
          -- cbn [rest idx caps]. reflexivity. }
  rewrite E. eexists. split; [reflexivity|].
  clear E. unfold group. cbn [caps idx rest]. unfold set_cap. cbn [Nat.eqb].
  split.
  - change (c_dai :: (a :: w) ++ c_jo :: (b :: sp) ++ c :: name')
      with ((c_dai :: (a :: w)) ++ [c_jo] ++ ((b :: sp) ++ c :: name')).
    rewrite app_assoc.
    change (c_dai :: (a :: w) ++ [c_jo]) with ((c_dai :: (a :: w)) ++ [c_jo]).
    apply firstn_prefix. rewrite length_app. simpl. lia.
  - rewrite <- (app_nil_r (c :: name')) at 2.
    apply firstn_prefix. simpl. lia.
Qed.

(** A wrapper, wherever it matches, holds its closing marker. *)
Lemma wrapped_consumed (closing : char) (x y : state) :
  matches false (cat [Chr c_dai; plus_lazy any; Chr closing]) x y ->
  In closing (consumed x y).
Proof.
  intros H. cbn [cat fold_right] in H.
  inversion H as [| | | | |r1 r2 x0 y1 z0 H1 H2| | | | |]; subst. clear H.
  inversion H2 as [| | | | |r1 r2 x0 y2 z0 H3 H4| | | | |]; subst. clear H2.
  inversion H4 as [| | | | |r1 r2 x0 y3 z0 H5 H6| | | | |]; subst. clear H4.
  inversion H6; subst. clear H6.
  inversion H1 as [c a0 t0 x0 Hr Hc| | | | | | | | | |]; subst. clear H1.
  destruct (matches_consume _ _ _ _ H3) as [v [Ev Iv]].
  inversion H5 as [c a1 t1 x1 Hr1 Hc1| | | | | | | | | |]; subst. clear H5.
  apply chr_match_exact in Hc1. subst a1.
  cbn [rest idx caps] in *.
  rewrite (consumed_eq x _ (a0 :: v ++ [closing])).
  - right. apply in_or_app. right. left. reflexivity.
  - cbn [rest]. rewrite Hr, Ev, Hr1. cbn [app]. rewrite <- app_assoc. reflexivity.
  - cbn [idx length]. rewrite length_app. cbn [length]. lia.
Qed.

Lemma substring_In (c : char) (v s : jsstring) :
  substring_of v s -> In c v -> In c s.
Proof.
  intros [a [b E]] H. subst s. apply in_or_app. right. apply in_or_app. left.
  exact H.
Qed.

Lemma RE_REF_PARAGRAPH_marker (s : jsstring) (m : captures) :
  regex_match RE_REF_PARAGRAPH s = Some m -> In c_kou s.
Proof.
  intros H.
  destruct (regex_match_always_sets _ _ _ 1 H eq_refl) as [v [Hv Hg]].
  apply (substring_In c_kou v s).
  - rewrite <- Hg. apply (regex_match_substring _ _ _ 1%nat H).
  - refine (regex_match_group_ok _ (fun _ u => In c_kou u) _ _ H _ 1%nat v Hv).
    simpl. repeat split. intros x y. apply wrapped_consumed.
Qed.

Lemma RE_REF_ITEM_marker (s : jsstring) (m : captures) :
  regex_match RE_REF_ITEM s = Some m -> In c_go s.
Proof.
  intros H.
  destruct (regex_match_always_sets _ _ _ 1 H eq_refl) as [v [Hv Hg]].
  apply (substring_In c_go v s).
  - rewrite <- Hg. apply (regex_match_substring _ _ _ 1%nat H).
  - refine (regex_match_group_ok _ (fun _ u => In c_go u) _ _ H _ 1%nat v Hv).
    simpl. repeat split. intros x y. apply wrapped_consumed.
Qed.

(** A reference that holds neither 項 nor 号 has no paragraph and no item. *)
Lemma parseJapaneseRef_article_only (articleRef lawName : jsstring) :
  ~ In c_kou articleRef -> ~ In c_go articleRef ->
  regex_match RE_REF_ARTICLE articleRef <> None ->
  parseJapaneseRef articleRef lawName
  = mkParsed true statute (Some (trim lawName)) None None None None
             (Some (parseArticleNumber articleRef)) None None None.
Proof.
  intros Hk Hg Ha. unfold parseJapaneseRef.
  destruct (regex_match RE_REF_ARTICLE articleRef); [|contradiction].
  destruct (regex_match RE_REF_PARAGRAPH articleRef) eqn:P;
    [exfalso; apply Hk; apply (RE_REF_PARAGRAPH_marker _ _ P)|].
  destruct (regex_match RE_REF_ITEM articleRef) eqn:T;
    [exfalso; apply Hg; apply (RE_REF_ITEM_marker _ _ T)|].
  reflexivity.
Qed.

Lemma trim_fixed_head (c : char) (s : jsstring) :
  trim (c :: s) = c :: s -> isWhiteSpace c = false.
Proof.
  intros H. destruct (isWhiteSpace c) eqn:W; [|reflexivity]. exfalso.
  assert (L : forall u, (length (trimStart u) <= length u)%nat).
  { induction u as [|a u IH]; simpl; [lia|].
    destruct (isWhiteSpace a); simpl; lia. }
  assert (L2 : (length (trim (c :: s)) <= length s)%nat).
  { unfold trim, trimEnd. cbn [trimStart]. rewrite W.
    rewrite length_rev.
    etransitivity; [apply L|]. rewrite length_rev. apply L. }
  rewrite H in L2. simpl in L2. lia.
Qed.

Lemma trim_fixed_trimEnd (s : jsstring) : trim s = s -> trimEnd s = s.
Proof.
  intros H. destruct s as [|c s]; [reflexivity|].
  pose proof (trim_fixed_head c s H) as W.
  unfold trim in H. rewrite (trimStart_fixed c s W) in H. exact H.
Qed.

(** A text that starts with a character other than white space and ends
    with a trimmed, non-empty text is itself trimmed. *)
Lemma trim_framed (c : char) (u s : jsstring) :
  isWhiteSpace c = false -> s <> [] -> trim s = s ->
  trim (c :: u ++ s) = c :: u ++ s.
Proof.
  intros W Hne H. unfold trim. rewrite (trimStart_fixed c _ W).
  pose proof (trim_fixed_trimEnd s H) as E. unfold trimEnd in E |- *.
  change (c :: u ++ s) with ((c :: u) ++ s). rewrite rev_app_distr, trimStart_app.
  destruct (forallb isWhiteSpace (rev s)) eqn:B.
  - exfalso. apply Hne. rewrite <- H. apply trim_nil_iff_blank.
    rewrite <- forallb_rev. exact B.
  - rewrite rev_app_distr, rev_involutive, E. reflexivity.
Qed.

Lemma canonical_numeral_absent (c : char) (K : jsstring) :
  canonical_numeral c = false -> forallb canonical_numeral K = true -> ~ In c K.
Proof.
  intros Hc F Hin. rewrite forallb_forall in F. rewrite (F c Hin) in Hc.
  discriminate.
Qed.

Lemma canonical_not_line_terminator (K : jsstring) :
  forallb canonical_numeral K = true -> forallb not_line_terminator K = true.
Proof.
  intros F. apply forallb_forall. intros c Hin. rewrite forallb_forall in F.
  destruct (canonical_numeral_facts c (F c Hin)) as [_ [L _]].
  unfold not_line_terminator. rewrite L. reflexivity.
Qed.

Lemma parseCitation_native (n : Z) (name : jsstring) :
  1 <= n <= 9999 -> plain_name name ->
  parseCitation (native_citation n name) = article_of n name.
Proof.
  intros Hn [Hne [Ht [Hl Hf]]].
  destruct (arabicToKanji_shape n Hn) as [Kne [_ KF]].
  remember (arabicToKanji (Int n)) as K eqn:EK.
  destruct K as [|a w]; [contradiction|].
  assert (Hw : forallb not_line_terminator (a :: w) = true)
    by (apply canonical_not_line_terminator; exact KF).
  assert (Hjo : ~ In c_jo (a :: w))
    by (apply canonical_numeral_absent; [reflexivity | exact KF]).
  assert (Hkou : ~ In c_kou (a :: w))
    by (apply canonical_numeral_absent; [reflexivity | exact KF]).
  assert (Hgo : ~ In c_go (a :: w))
    by (apply canonical_numeral_absent; [reflexivity | exact KF]).
  assert (T : trim (native_citation n name) = native_citation n name).
  { unfold native_citation. rewrite <- EK. cbn [app].
    replace (a :: w ++ c_jo :: js " " ++ name)
      with ((a :: w ++ c_jo :: js " ") ++ name)
      by (cbn [app]; rewrite <- app_assoc; reflexivity).
    apply trim_framed; [reflexivity | exact Hne | exact Ht]. }
  unfold parseCitation. rewrite T. unfold native_citation. rewrite <- EK.
  assert (Hfirst : match name with
                   | c :: _ => isWhiteSpace c = false /\ c <> 44%N /\ c <> c_touten
                   | [] => True
                   end).
  { destruct name as [|c name']; [exact I|]. split; [|exact Hf].
    apply (trim_fixed_head c name' Ht). }
  destruct (JAPANESE_CITATION_match a 32%N w [] name Hw
              (fun H => Hjo (or_intror H)) eq_refl Hne Hl Hfirst)
    as [m [Hm [G1 G2]]].
  match goal with
  | |- context [regex_match JAPANESE_CITATION ?t] =>
    assert (Hm' : regex_match JAPANESE_CITATION t = Some m) by exact Hm
  end.
  rewrite Hm', G1, G2.
  rewrite parseJapaneseRef_article_only.
  - unfold article_of. rewrite Ht. f_equal. f_equal.
    unfold parseArticleNumber.
    apply (parseWrappedNumber_kanji c_jo n _ []); [left; reflexivity | exact Hn|].
    right. rewrite <- EK.
    change ([c_dai] ++ (a :: w) ++ [c_jo] ++ []) with (c_dai :: (a :: w) ++ [c_jo]).
    apply trim_no_white_space.
    apply forallb_forall. intros x Hx. apply negb_true_iff.
    destruct Hx as [Hx|Hx]; [subst x; reflexivity|].
    apply in_app_or in Hx. destruct Hx as [Hx|Hx].
    + rewrite forallb_forall in KF.
      apply (canonical_numeral_facts x (KF x Hx)).
    + destruct Hx as [Hx|[]]. subst x. reflexivity.
  - intros [H|H]; [discriminate H|]. apply in_app_or in H.
    destruct H as [H|[H|[]]]; [exact (Hkou H) | discriminate H].
  - intros [H|H]; [discriminate H|]. apply in_app_or in H.
    destruct H as [H|[H|[]]]; [exact (Hgo H) | discriminate H].
  - change (c_dai :: (a :: w) ++ [c_jo]) with (c_dai :: (a :: w) ++ c_jo :: []).
    apply RE_REF_ARTICLE_match; [exact Hw|]. intros H. apply Hjo. right. exact H.
Qed.

Lemma String_of_number_positive (n : Z) :
  0 < n -> exists c s, String_of_number (Int n) = c :: s.
Proof.
  intros H.
  assert (A : all_digits (String_of_number (Int n)) = true).
  { apply String_of_number_digits. simpl. apply Z.ltb_lt. exact H. }
  destruct (String_of_number (Int n)) as [|c s]; [discriminate|]. eauto.
Qed.

Lemma formatCitation_native (n : Z) (name : jsstring) :
  1 <= n <= 9999 -> name <> [] -> trim name = name ->
  formatCitation (article_of n name) (js "japanese") = native_citation n name.
Proof.
  intros Hn Hne Ht.
  destruct (String_of_number_positive n) as [c [s Es]]; [lia|].
  unfold formatCitation, article_of.
  cbn [valid article paragraph item title title_en negb str_truthy coalesce].
  rewrite Es. cbn [str_truthy negb orb]. rewrite <- Es.
  change (str_eqb (js "japanese") (js "full")) with false.
  change (str_eqb (js "japanese") (js "short")) with false.
  change (str_eqb (js "japanese") (js "pinpoint")) with false.
  change (str_eqb (js "japanese") (js "japanese")) with true.
  cbv iota.
  unfold formatArticleKanji. rewrite parseInt_String_of_number.
  cbn [isNaN num_le orb].
  replace (n <=? 0) with false by (symmetry; apply Z.leb_gt; lia).
  unfold native_citation.
  match goal with
  | |- trim ?t = _ =>
    replace t with (c_dai :: (arabicToKanji (Int n) ++ c_jo :: js " ") ++ name)
  end.
  - rewrite trim_framed; [|reflexivity | exact Hne | exact Ht].
    cbn [app]. rewrite <- app_assoc. reflexivity.
  - cbn [app]. rewrite <- !app_assoc. reflexivity.
Qed.

(** X10: Citations in the native style survive both ways for every article
    from 1 to 9999 and every plain name: the text 第<numeral>条 <name> is
    parsed to that article (in digits) and that title and nothing else, and
    the native style writes the same text back. *)
Theorem native_citation_round_trip (n : Z) (name : jsstring) :
  1 <= n <= 9999 -> plain_name name ->
  parseCitation (native_citation n name) = article_of n name
  /\ formatCitation (article_of n name) (js "japanese") = native_citation n name.
Proof.
  intros Hn Hp. split.
  - apply parseCitation_native; assumption.
  - destruct Hp as [Hne [Ht _]]. apply formatCitation_native; assumption.
Qed.

Lemma native_citation_round_trip_witness :
  parseCitation (native_citation 709 (js "民法")) = article_of 709 (js "民法")
  /\ formatCitation (article_of 709 (js "民法")) (js "japanese")
     = native_citation 709 (js "民法").
Proof.
  apply (native_citation_round_trip 709 (js "民法")).
  - lia.
  - unfold plain_name. repeat split; try reflexivity; discriminate.
Defined.

(** ** The formatter on every citation *)

Lemma trim_head_kept (c : char) (s : jsstring) :
  isWhiteSpace c = false -> trim (c :: s) <> [].
Proof.
  intros W E. apply trim_nil_iff_blank in E. cbn [forallb] in E.
  rewrite W in E. discriminate.
Qed.

(** A valid citation with an article is never formatted to the empty
    string, whatever style is asked for. *)
Lemma formatCitation_written (parsed : ParsedCitation) (format : jsstring) :
  valid parsed = true -> str_truthy (article parsed) = true ->
  formatCitation parsed format <> [].
Proof.
  intros V A. unfold formatCitation. rewrite V, A. cbn [negb orb].
  destruct (str_eqb format (js "full")).
  { apply (trim_head_kept 65%N). reflexivity. }
  destruct (str_eqb format (js "short")).
  { apply (trim_head_kept 65%N). reflexivity. }
  destruct (str_eqb format (js "pinpoint")); [discriminate|].
  destruct (str_eqb format (js "japanese")).
  { assert (F : forall t, exists r, formatArticleKanji t = c_dai :: r).
    { intros t. unfold formatArticleKanji.
      destruct (isNaN _ || num_le _ 0); eexists; reflexivity. }
    destruct (F (ArtStr (coalesce (article parsed) None))) as [r Er].
    rewrite Er.
    destruct (str_truthy (paragraph parsed)); destruct (str_truthy (item parsed));
      cbn [app]; apply (trim_head_kept c_dai); reflexivity. }
  apply (trim_head_kept 65%N). reflexivity.
Qed.

(** X11: [formatCitation] returns the empty string in exactly one
    situation: the citation is not valid or has no article.  For every other
    citation and every style name, known or not, the text is not empty. *)
Theorem formatCitation_empty_iff (parsed : ParsedCitation) (format : jsstring) :
  formatCitation parsed format = []
  <-> valid parsed = false \/ str_truthy (article parsed) = false.
Proof.
  split.
  - intros E. destruct (valid parsed) eqn:V; [|left; reflexivity].
    destruct (str_truthy (article parsed)) eqn:A; [|right; reflexivity].
    exfalso. apply (formatCitation_written parsed format V A E).
  - intros H. unfold formatCitation.
    destruct H as [H|H]; rewrite H; [|rewrite orb_true_r]; reflexivity.
Qed.

(** X12: A style name that is none of full, short, pinpoint and japanese
    (the comparison is exact, so also "Full") gives the full style without
    the act information: the text is what the full style writes for the same
    citation stripped of its act number. *)
Theorem formatCitation_unknown_style (parsed : ParsedCitation) (format : jsstring) :
  known_format format = false ->
  formatCitation parsed format = formatCitation (without_act parsed) (js "full").
Proof.
  unfold known_format. intros K.
  apply orb_false_iff in K. destruct K as [K K4].
  apply orb_false_iff in K. destruct K as [K K3].
  apply orb_false_iff in K. destruct K as [K1 K2].
  unfold formatCitation, without_act.
  cbn [valid article paragraph item title title_en act_number year opt_truthy
       andb].
  rewrite K1, K2, K3, K4.
  change (str_eqb (js "full") (js "full")) with true.
  change (str_eqb (js "full") (js "japanese")) with false.
  destruct (negb (valid parsed) || negb (str_truthy (article parsed)));
    [reflexivity|].
  cbv iota. unfold buildPinpoint.
  cbn [valid article paragraph item title title_en act_number year negb].
  rewrite app_nil_r. reflexivity.
Qed.

Lemma formatCitation_unknown_style_witness :
  formatCitation
    (parseCitation (js "Article 17, Companies Act (Act No. 86 of 2005)"))
    (js "Full")
  = formatCitation
      (without_act
         (parseCitation (js "Article 17, Companies Act (Act No. 86 of 2005)")))
      (js "full").
Proof.
  apply (formatCitation_unknown_style
           (parseCitation (js "Article 17, Companies Act (Act No. 86 of 2005)"))
           (js "Full")).
  reflexivity.
Defined.

(** ** The validator on every citation and every store *)

(** X13: A citation that [parseCitation] rejects never reaches the store:
    whatever the store is (even one whose every statement throws), the
    validator returns, with neither document nor provision found and the
    parser's error as the only warning. *)
Theorem validateCitation_unparsed (db : Database) (citation : jsstring) :
  valid (parseCitation citation) = false ->
  validateCitation db citation
  = Ok (mkValidation (parseCitation citation) false false None None
          [parse_error_prefix ++ [34%N] ++ trim citation ++ [34%N]]).
Proof.
  intros V. unfold validateCitation. rewrite V. cbn [negb].
  rewrite (parseCitation_invalid citation V) at 2. reflexivity.
Qed.

Lemma validateCitation_unparsed_witness :
  validateCitation
    (mkDatabase (fun _ _ _ _ => Throw (js "no such table"))
                (fun _ _ _ _ => Throw (js "no such table")))
    (js "Section 5")
  = Ok (mkValidation (parseCitation (js "Section 5")) false false None None
          [parse_error_prefix ++ [34%N] ++ trim (js "Section 5") ++ [34%N]]).
Proof.
  apply (validateCitation_unparsed
           (mkDatabase (fun _ _ _ _ => Throw (js "no such table"))
                       (fun _ _ _ _ => Throw (js "no such table")))
           (js "Section 5")).
  reflexivity.
Defined.

Lemma valid_article_truthy (citation : jsstring) :
  valid (parseCitation citation) = true ->
  str_truthy (article (parseCitation citation)) = true.
Proof.
  intros V. destruct (parseCitation_valid_article citation V) as [a [Ea Hne]].
  rewrite Ea. destruct a; [contradiction | reflexivity].
Qed.

Lemma str_eqb_eq (s t : jsstring) : str_eqb s t = true <-> s = t.
Proof.
  split.
  - revert t. induction s as [|a s IH]; intros [|b t] E;
      try discriminate; [reflexivity|].
    cbn [str_eqb] in E. apply andb_true_iff in E. destruct E as [E1 E2].
    unfold char_eqb in E1. apply N.eqb_eq in E1. rewrite (IH t E2). congruence.
  - intros E. subst t. induction s as [|a s IH]; [reflexivity|].
    cbn [str_eqb]. unfold char_eqb. rewrite N.eqb_refl. exact IH.
Qed.

(** What the validator returns when the store answers, case by case. *)
Lemma validateCitation_cases (db : Database) (citation : jsstring)
    (v : ValidationResult) :
  validateCitation db citation = Ok v ->
  Types.citation v = parseCitation citation
  /\ ((document_exists v = false /\ provision_exists v = false
       /\ status v = None /\ exists w, warnings v = [w])
      \/ (exists s w,
            document_exists v = true /\ status v = Some s
            /\ warnings v
               = (if str_eqb s (js "repealed") then [repealed_notice] else [])
                 ++ (if provision_exists v then [] else [w]))).
Proof.
  unfold validateCitation.
  destruct (valid (parseCitation citation)) eqn:V; cbn [negb].
  - rewrite (valid_article_truthy citation V).
    destruct (get_document db _ _ _ _) as [[doc|]|e]; cbn [bind]; try discriminate.
    + destruct (get_provision db _ _ _ _) as [prov|e]; cbn [bind]; [|discriminate].
      intros E. inversion E; subst. clear E.
      cbn [Types.citation document_exists provision_exists status warnings].
      split; [reflexivity|]. right.
      exists (doc_status doc),
             (provision_not_found (coalesce (article (parseCitation citation)) None)
                                  (doc_title doc)).
      repeat split.
      destruct prov; destruct (str_eqb (doc_status doc) (js "repealed"));
        reflexivity.
    + intros E. inversion E; subst. cbn. split; [reflexivity|]. left.
      repeat split. eexists. reflexivity.
  - intros E. inversion E; subst. cbn. split; [reflexivity|]. left.
    repeat split. eexists. reflexivity.
Qed.

(** X14: The bookkeeping of a validation result.  Whenever the validator
    returns: a provision is only reported as found in a document that was
    found; there are at most two warnings, and exactly one when the document
    was not found; and the list of warnings is empty exactly when the
    provision was found and the document is not marked repealed. *)
Theorem validateCitation_warnings (db : Database) (citation : jsstring)
    (v : ValidationResult) :
  validateCitation db citation = Ok v ->
  (provision_exists v = true -> document_exists v = true)
  /\ (length (warnings v) <= 2)%nat
  /\ (document_exists v = false -> length (warnings v) = 1%nat)
  /\ (warnings v = []
      <-> provision_exists v = true /\ status v <> Some (js "repealed")).
Proof.
  intros H. destruct (validateCitation_cases db citation v H) as [_ C].
  destruct C as [[D [P [S [w W]]]]|[s [w [D [S W]]]]].
  - rewrite D, P, S, W. repeat split; try discriminate; try (simpl; lia).
  - rewrite D, S, W. clear W.
    pose proof (str_eqb_eq s (js "repealed")) as R.
    destruct (provision_exists v); destruct (str_eqb s (js "repealed")) eqn:Q;
      repeat split; try discriminate; try reflexivity; try (simpl; lia);
      try (intros [X Y]; try discriminate X; exfalso; apply Y; f_equal;
           apply R; reflexivity).
    intros E. inversion E as [E']. apply R in E'. discriminate E'.
Qed.

Lemma validateCitation_warnings_witness :
  let v := mkValidation (parseCitation (js "第十七条 民法")) true true
             (Some (js "民法")) (Some (js "in_force")) [] in
  (provision_exists v = true -> document_exists v = true)
  /\ (length (warnings v) <= 2)%nat
  /\ (document_exists v = false -> length (warnings v) = 1%nat)
  /\ (warnings v = []
      <-> provision_exists v = true /\ status v <> Some (js "repealed")).
Proof.
  apply (validateCitation_warnings
           (mkDatabase
              (fun _ _ _ _ =>
                 Ok (Some (mkDocument (js "129AC0000000089") (js "民法") None
                                      (js "in_force"))))
              (fun _ _ _ _ => Ok (Some tt)))
           (js "第十七条 民法")).
  reflexivity.
Defined.

(** X15: The validator has no failure of its own: when it throws, the
    message is one that a statement of the store threw for the parameters
    the validator bound; a store that answers every statement always gets a
    result. *)
Theorem validateCitation_throws (db : Database) (citation : jsstring) :
  (forall e, validateCitation db citation = Throw e ->
     (exists a b c d, get_document db a b c d = Throw e)
     \/ (exists a b c d, get_provision db a b c d = Throw e))
  /\ ((forall a b c d e, get_document db a b c d <> Throw e) ->
      (forall a b c d e, get_provision db a b c d <> Throw e) ->
      exists v, validateCitation db citation = Ok v).
Proof.
  unfold validateCitation.
  destruct (negb (valid (parseCitation citation))).
  { split; [discriminate | eauto]. }
  destruct (get_document db _ _ _ _) as [[doc|]|e0] eqn:D; cbn [bind].
  - destruct (str_truthy (article (parseCitation citation))).
    + destruct (get_provision db _ _ _ _) as [prov|e1] eqn:P; cbn [bind].
      * split; [discriminate | eauto].
      * split.
        -- intros e E. inversion E; subst. right. eauto.
        -- intros _ HP. exfalso. apply (HP _ _ _ _ _ P).
    + split; [discriminate | eauto].
  - split; [discriminate | eauto].
  - split.
    + intros e E. inversion E; subst. left. eauto.
    + intros HD _. exfalso. apply (HD _ _ _ _ _ D).
Qed.

Lemma validateCitation_throws_witness :
  (exists v,
     validateCitation
       (mkDatabase (fun _ _ _ _ => Ok None) (fun _ _ _ _ => Ok None))
       (js "第十七条 民法") = Ok v)
  /\ ((exists a b c d,
         get_document
           (mkDatabase (fun _ _ _ _ => Throw (js "database is locked"))
                       (fun _ _ _ _ => Ok None)) a b c d
         = Throw (js "database is locked"))
      \/ (exists a b c d,
            get_provision
              (mkDatabase (fun _ _ _ _ => Throw (js "database is locked"))
                          (fun _ _ _ _ => Ok None)) a b c d
            = Throw (js "database is locked"))).
Proof.
  split.
  - apply (proj2 (validateCitation_throws
                    (mkDatabase (fun _ _ _ _ => Ok None) (fun _ _ _ _ => Ok None))
                    (js "第十七条 民法"))); intros; discriminate.
  - apply (proj1 (validateCitation_throws
                    (mkDatabase (fun _ _ _ _ => Throw (js "database is locked"))
                                (fun _ _ _ _ => Ok None))
                    (js "第十七条 民法"))).
    reflexivity.
Defined.

(** ** The format_citation tool on every input *)

Lemma parseCitation_blank (citation : jsstring) :
  trim citation = [] -> valid (parseCitation citation) = false.
Proof. intros E. unfold parseCitation. rewrite E. reflexivity. Qed.

Lemma parseCitation_valid_type (citation : jsstring) :
  valid (parseCitation citation) = true -> type (parseCitation citation) = statute.
Proof.
  unfold parseCitation.
  destruct (regex_match JAPANESE_CITATION (trim citation)); [reflexivity|].
  destruct (regex_match TRAILING_JAPANESE (trim citation)); [reflexivity|].
  destruct (regex_match ENGLISH_FULL (trim citation)); [reflexivity|].
  destruct (regex_match SHORT_CITATION (trim citation)); [reflexivity|].
  destruct (regex_match ID_BASED (trim citation)); [reflexivity|].
  discriminate.
Qed.

(** X16: The tool and the parser agree on every input: the result is
    marked valid exactly when [parseCitation] accepts the citation (a blank
    citation is rejected by both).  A valid result echoes the input, has
    type statute and no error, and both formatted texts are written, whatever
    style was asked for; an invalid result has no native text, type unknown
    and an error message. *)
Theorem formatCitationTool_valid (i : Tool.FormatCitationInput) :
  Tool.valid (Tool.formatCitationTool i) = valid (parseCitation (Tool.citation i))
  /\ (Tool.valid (Tool.formatCitationTool i) = true ->
      Tool.input (Tool.formatCitationTool i) = Tool.citation i
      /\ Tool.type (Tool.formatCitationTool i) = js "statute"
      /\ Tool.error (Tool.formatCitationTool i) = None
      /\ Tool.formatted (Tool.formatCitationTool i) <> []
      /\ Tool.formatted_japanese (Tool.formatCitationTool i) <> [])
  /\ (Tool.valid (Tool.formatCitationTool i) = false ->
      Tool.formatted_japanese (Tool.formatCitationTool i) = []
      /\ Tool.type (Tool.formatCitationTool i) = js "unknown"
      /\ Tool.error (Tool.formatCitationTool i) <> None).
Proof.
  unfold Tool.formatCitationTool, Tool.formatCitationTool_with.
  destruct (trim (Tool.citation i)) as [|c t] eqn:Et.
  - rewrite orb_true_r. cbn [Tool.valid Tool.formatted_japanese Tool.type Tool.error].
    rewrite (parseCitation_blank _ Et).
    split; [reflexivity|]. split; [discriminate|].
    intros _. repeat split. discriminate.
  - assert (Hn : negb (str_truthy (Some (Tool.citation i))) = false).
    { destruct (Tool.citation i); [discriminate Et | reflexivity]. }
    rewrite Hn. cbn [length Nat.eqb orb].
    destruct (valid (parseCitation (Tool.citation i))) eqn:V; cbn [negb].
    + cbn [Tool.valid Tool.input Tool.formatted Tool.formatted_japanese Tool.type
           Tool.error].
      split; [reflexivity|]. split; [|discriminate]. intros _.
      rewrite (parseCitation_valid_type _ V). repeat split.
      * apply formatCitation_written; [exact V | apply valid_article_truthy; exact V].
      * apply formatCitation_written; [exact V | apply valid_article_truthy; exact V].
    + cbn [Tool.valid Tool.formatted_japanese Tool.type Tool.error].
      split; [reflexivity|]. split; [discriminate|]. intros _.
      rewrite (parseCitation_invalid _ V). repeat split. discriminate.
Qed.

Lemma formatCitationTool_valid_witness :
  Tool.input (Tool.formatCitationTool (Tool.mkInput (js "Art. 17, APPI") None))
  = js "Art. 17, APPI"
  /\ Tool.type (Tool.formatCitationTool (Tool.mkInput (js "Art. 17, APPI") None))
     = js "statute"
  /\ Tool.error (Tool.formatCitationTool (Tool.mkInput (js "Art. 17, APPI") None))
     = None
  /\ Tool.formatted (Tool.formatCitationTool (Tool.mkInput (js "Art. 17, APPI") None))
     <> []
  /\ Tool.formatted_japanese
       (Tool.formatCitationTool (Tool.mkInput (js "Art. 17, APPI") None))
     <> [].
Proof.
  apply (proj1 (proj2 (formatCitationTool_valid
                         (Tool.mkInput (js "Art. 17, APPI") None)))).
  reflexivity.
Defined.

(** ** Statute identifiers and the get_provision tool *)

(** X17: [isValidStatuteId] accepts exactly the identifiers that hold a
    character other than white space; its first test (the length of the
    identifier itself) never decides. *)
Theorem isValidStatuteId_not_blank (id : jsstring) :
  isValidStatuteId id = negb (forallb isWhiteSpace id).
Proof.
  unfold isValidStatuteId.
  destruct (forallb isWhiteSpace id) eqn:B.
  - apply (proj2 (trim_nil_iff_blank id)) in B. rewrite B. simpl.
    apply andb_false_r.
  - destruct (trim id) as [|c t] eqn:T.
    + apply trim_nil_iff_blank in T. congruence.
    + destruct id as [|a id]; [discriminate T | reflexivity].
Qed.

Lemma parseArticleNumber_blank (ref : jsstring) :
  trim ref = [] -> parseArticleNumber ref = [].
Proof.
  intros E. unfold parseArticleNumber, parseWrappedNumber. rewrite E. reflexivity.
Qed.

Lemma String_of_number_fixed (n : Z) :
  1 <= n ->
  parseArticleNumber (String_of_number (Int n)) = String_of_number (Int n).
Proof.
  intros Hn. unfold parseArticleNumber.
  assert (D : all_digits (String_of_number (Int n)) = true).
  { apply String_of_number_digits. simpl. apply Z.ltb_lt. lia. }
  apply (parseWrappedNumber_digits c_jo _ _ []); [left; reflexivity | exact D|].
  left. apply trim_no_white_space. apply forallb_forall. intros c Hc.
  destruct (all_digits_forall _ D) as [_ F]. rewrite forallb_forall in F.
  apply negb_true_iff. apply (isDigit_facts c (F c Hc)).
Qed.

(** The spellings of article [n] that the tool is handed. *)
Lemma parseArticleNumber_spellings (n : Z) (ref tail : jsstring) :
  1 <= n <= 9999 ->
  trim ref = [c_dai] ++ arabicToKanji (Int n) ++ [c_jo] ++ tail
  \/ trim ref = arabicToKanji (Int n)
  \/ trim ref = String_of_number (Int n) ->
  ref <> [] /\ parseArticleNumber ref = String_of_number (Int n).
Proof.
  intros Hn H. split.
  - intros E. subst ref.
    destruct (arabicToKanji_shape n Hn) as [Kne _].
    destruct (String_of_number_positive n) as [c [s Es]]; [lia|].
    change (trim []) with (@nil char) in H.
    destruct H as [H|[H|H]]; [discriminate H | congruence | congruence].
  - unfold parseArticleNumber. destruct H as [H|[H|H]].
    + apply (parseWrappedNumber_kanji c_jo n ref tail);
        [left; reflexivity | exact Hn | right; exact H].
    + apply (parseWrappedNumber_kanji c_jo n ref []);
        [left; reflexivity | exact Hn | left; exact H].
    + apply (parseWrappedNumber_digits c_jo _ ref []); [left; reflexivity | |].
      * apply String_of_number_digits. simpl. apply Z.ltb_lt. lia.
      * left. exact H.
Qed.

(** X18: One article, one lookup: for every article from 1 to 9999, a
    reference spelled 第<numeral>条 (with or without more text after it), as
    the bare numeral or in digits, padded with white space or not, makes
    [getProvision] behave exactly as the reference in digits does, for every
    store and document.  It makes no difference whether the reference comes
    as [provision_ref] or, when that is absent, as [article]; when
    [provision_ref] is given, [article] is not looked at. *)
Theorem getProvision_reference_spelling (db : Provision.LawStore)
    (id : jsstring) (n : Z) (ref tail : jsstring) (other : option jsstring) :
  1 <= n <= 9999 ->
  trim ref = [c_dai] ++ arabicToKanji (Int n) ++ [c_jo] ++ tail
  \/ trim ref = arabicToKanji (Int n)
  \/ trim ref = String_of_number (Int n) ->
  Provision.getProvision db (Provision.Input.mkInput id other (Some ref))
  = Provision.getProvision db
      (Provision.Input.mkInput id None (Some (String_of_number (Int n))))
  /\ Provision.getProvision db (Provision.Input.mkInput id (Some ref) None)
     = Provision.getProvision db
         (Provision.Input.mkInput id None (Some (String_of_number (Int n)))).
Proof.
  intros Hn H.
  destruct (parseArticleNumber_spellings n ref tail Hn H) as [Hne E].
  destruct (String_of_number_positive n) as [c [s Es]]; [lia|].
  assert (T : str_truthy (Some ref) = true)
    by (destruct ref; [contradiction | reflexivity]).
  assert (T' : str_truthy (Some (String_of_number (Int n))) = true)
    by (rewrite Es; reflexivity).
  unfold Provision.getProvision.
  cbn [Provision.Input.document_id Provision.Input.article
       Provision.Input.provision_ref].
  rewrite T, T'. cbn [coalesce]. rewrite E, String_of_number_fixed by lia.
  split; reflexivity.
Qed.

Lemma getProvision_reference_spelling_witness :
  Provision.getProvision empty_store
    (Provision.Input.mkInput (js "act-57-2003") (Some (js "3"))
                             (Some (js " 第十七条第二項 ")))
  = Provision.getProvision empty_store
      (Provision.Input.mkInput (js "act-57-2003") None
                               (Some (String_of_number (Int 17))))
  /\ Provision.getProvision empty_store
       (Provision.Input.mkInput (js "act-57-2003") (Some (js " 第十七条第二項 ")) None)
     = Provision.getProvision empty_store
         (Provision.Input.mkInput (js "act-57-2003") None
                                  (Some (String_of_number (Int 17)))).
Proof.
  apply (getProvision_reference_spelling empty_store (js "act-57-2003") 17
           (js " 第十七条第二項 ") (js "第二項") (Some (js "3"))).
  - lia.
  - left. reflexivity.
Defined.

(** X19: A reference that names nothing lists the document.  When the
    effective reference ([provision_ref], or [article] if [provision_ref] is
    absent) is absent, empty or white space only, [getProvision] behaves as
    with no reference at all: a result is the array of provisions, or the
    capped array with a total above 200, never a single provision or null.
    In particular an empty [provision_ref] hides a given [article]. *)
Theorem getProvision_blank_reference (db : Provision.LawStore)
    (id : jsstring) (article provision_ref : option jsstring) :
  blank_reference provision_ref ->
  (provision_ref = None -> blank_reference article) ->
  Provision.getProvision db (Provision.Input.mkInput id article provision_ref)
  = Provision.getProvision db (Provision.Input.mkInput id None None)
  /\ forall r,
       Provision.getProvision db (Provision.Input.mkInput id article provision_ref)
       = Ok r ->
       match r with
       | Provision.AllProvisions _ => True
       | Provision.CappedProvisions _ total => num_gt total 200 = true
       | _ => False
       end.
Proof.
  intros Hp Ha.
  assert (B : forall o, blank_reference o ->
            str_truthy (if str_truthy o
                        then Some (parseArticleNumber (coalesce o None))
                        else o) = false).
  { intros [r|] Hb; [|reflexivity]. simpl in Hb.
    destruct r as [|c r]; [reflexivity|].
    cbn [str_truthy coalesce]. rewrite (parseArticleNumber_blank _ Hb). reflexivity. }
  assert (E : Provision.getProvision db
                (Provision.Input.mkInput id article provision_ref)
              = Provision.getProvision db (Provision.Input.mkInput id None None)).
  { unfold Provision.getProvision.
    cbn [Provision.Input.document_id Provision.Input.article
         Provision.Input.provision_ref].
    destruct provision_ref as [r|].
    - rewrite (B (Some r) Hp). reflexivity.
    - rewrite (B article (Ha eq_refl)). reflexivity. }
  split; [exact E|]. rewrite E. clear E.
  unfold Provision.getProvision.
  cbn [Provision.Input.document_id Provision.Input.article
       Provision.Input.provision_ref].
  destruct (negb (str_truthy (Some id))); [intros r E; discriminate E|].
  destruct (Provision.resolveExistingStatuteId db id) as [o|e]; cbn [bind];
    [|intros r E; discriminate E].
  change (negb (str_truthy (if str_truthy None
                            then Some (parseArticleNumber (coalesce None None))
                            else None))) with true.
  cbv iota.
  destruct (Provision.count_provisions db _) as [c|e]; cbn [bind];
    [|intros r E; discriminate E].
  destruct (Provision.all_provisions db _ _) as [rows|e]; cbn [bind];
    [|intros r E; discriminate E].
  destruct (num_gt _ Provision.MAX_ALL_PROVISIONS) eqn:G;
    intros r E; inversion E; subst; [exact G | exact I].
Qed.

Lemma getProvision_blank_reference_witness :
  Provision.getProvision empty_store
    (Provision.Input.mkInput (js "act-57-2003") (Some (js "17")) (Some []))
  = Provision.getProvision empty_store
      (Provision.Input.mkInput (js "act-57-2003") None None)
  /\ forall r,
       Provision.getProvision empty_store
         (Provision.Input.mkInput (js "act-57-2003") (Some (js "17")) (Some []))
       = Ok r ->
       match r with
       | Provision.AllProvisions _ => True
       | Provision.CappedProvisions _ total => num_gt total 200 = true
       | _ => False
       end.
Proof.
  apply (getProvision_blank_reference empty_store (js "act-57-2003")
           (Some (js "17")) (Some [])).
  - reflexivity.
  - discriminate.
Defined.

Lemma returned_row_url (r : Provision.Row.ProvisionRow) :
  Provision.citation_url (Provision.returned_row r) <> []
  /\ Provision.Row.document_url (Provision.row (Provision.returned_row r)) = None.
Proof.
  split; [|reflexivity]. unfold Provision.returned_row, Provision.buildCitationUrl.
  cbn [Provision.citation_url].
  destruct (Provision.Row.document_url r) as [[|c u]|]; cbn [str_truthy coalesce].
  - intros H. apply app_eq_nil in H. destruct H as [H _]. vm_compute in H.
    discriminate H.
  - discriminate.
  - intros H. apply app_eq_nil in H. destruct H as [H _]. vm_compute in H.
    discriminate H.
Qed.

(** X20: Every provision that [getProvision] returns, alone or in a list,
    carries a citation address that is not empty, and no [document_url]. *)
Theorem getProvision_citation_url (db : Provision.LawStore)
    (input : Provision.Input.GetProvisionInput) (r : Provision.ProvisionResults)
    (p : Provision.ProvisionResult) :
  Provision.getProvision db input = Ok r ->
  In p (returned_provisions r) ->
  Provision.citation_url p <> []
  /\ Provision.Row.document_url (Provision.row p) = None.
Proof.
  unfold Provision.getProvision.
  destruct (negb (str_truthy (Some (Provision.Input.document_id input))));
    [discriminate|].
  destruct (Provision.resolveExistingStatuteId db _) as [o|e]; cbn [bind];
    [|discriminate].
  match goal with
  | |- context [negb (str_truthy ?a)] => destruct (negb (str_truthy a))
  end.
  - destruct (Provision.count_provisions db _) as [c|e]; cbn [bind]; [|discriminate].
    destruct (Provision.all_provisions db _ _) as [rows|e]; cbn [bind];
      [|discriminate].
    assert (L : In p (map Provision.returned_row rows) ->
                Provision.citation_url p <> []
                /\ Provision.Row.document_url (Provision.row p) = None).
    { intros Hin. apply in_map_iff in Hin. destruct Hin as [x [Ex _]]. subst p.
      apply returned_row_url. }
    destruct (num_gt _ _); intros E Hin; inversion E; subst; apply L; exact Hin.
  - destruct (Provision.one_provision db _ _ _ _) as [[x|]|e]; cbn [bind];
      intros E Hin; inversion E; subst; simpl in Hin; [|contradiction].
    destruct Hin as [Hin|[]]. subst p. apply returned_row_url.
Qed.

Lemma getProvision_citation_url_witness :
  let x := Provision.Row.mkRow (js "act-57-2003") (js "個人情報の保護に関する法律")
             None (js "in_force") None (js "art-17") None (js "17") None
             (js "...") None (Some (js "ja")) in
  Provision.citation_url (Provision.returned_row x) <> []
  /\ Provision.Row.document_url (Provision.row (Provision.returned_row x)) = None.
Proof.
  intros x.
  apply (getProvision_citation_url
           (Provision.mkLawStore
              (fun _ => Ok None) (fun _ => Ok None) (fun _ => Ok None)
              (fun _ => Ok None) (fun _ => Ok None) (fun _ => Ok None)
              (fun _ _ => Ok []) (fun _ _ _ _ => Ok (Some x)))
           (Provision.Input.mkInput (js "act-57-2003") None (Some (js "17")))
           (Provision.OneProvision (Provision.returned_row x))
           (Provision.returned_row x)).
  - reflexivity.
  - left. reflexivity.
Defined.

Lemma resolveExistingStatuteId_answers (db : Provision.LawStore) (id : jsstring) :
  store_answers db -> exists o, Provision.resolveExistingStatuteId db id = Ok o.
Proof.
  intros [A1 [A2 [A3 [A4 [A5 _]]]]]. unfold Provision.resolveExistingStatuteId.
  destruct (Provision.document_by_id db id) as [[x|]|e] eqn:E1; cbn [bind];
    [eauto| |exfalso; apply (A1 _ _ E1)].
  destruct (Provision.document_by_law_number db id) as [[x|]|e] eqn:E2; cbn [bind];
    [eauto| |exfalso; apply (A2 _ _ E2)].
  destruct (Provision.document_by_title db _) as [[x|]|e] eqn:E3; cbn [bind];
    [eauto| |exfalso; apply (A3 _ _ E3)].
  destruct (Provision.document_by_title_en db _) as [[x|]|e] eqn:E4; cbn [bind];
    [eauto| |exfalso; apply (A4 _ _ E4)].
  destruct (Provision.document_by_short_name db _) as [o|e] eqn:E5; cbn [bind];
    [eauto | exfalso; apply (A5 _ _ E5)].
Qed.

(** X21: The one failure of [getProvision] itself is the missing document
    id: with an empty [document_id] it throws "document_id is required" for
    every store and every reference, before any statement runs; with a
    document id and a store whose statements all answer it returns a
    result, also when the document or the provision is unknown. *)
Theorem getProvision_failure (db : Provision.LawStore)
    (input : Provision.Input.GetProvisionInput) :
  (Provision.Input.document_id input = [] ->
   Provision.getProvision db input = Throw (js "document_id is required"))
  /\ (Provision.Input.document_id input <> [] -> store_answers db ->
      exists r, Provision.getProvision db input = Ok r).
Proof.
  split.
  - intros E. unfold Provision.getProvision. rewrite E. reflexivity.
  - intros Hne A. unfold Provision.getProvision.
    assert (T : negb (str_truthy (Some (Provision.Input.document_id input))) = false)
      by (destruct (Provision.Input.document_id input);
          [contradiction | reflexivity]).
    rewrite T.
    destruct (resolveExistingStatuteId_answers db
                (Provision.Input.document_id input) A) as [o Eo].
    rewrite Eo. cbn [bind].
    destruct A as [_ [_ [_ [_ [_ [A6 [A7 A8]]]]]]].
    match goal with
    | |- context [negb (str_truthy ?a)] => destruct (negb (str_truthy a))
    end.
    + destruct (Provision.count_provisions db _) as [c|e] eqn:E6; cbn [bind];
        [|exfalso; apply (A6 _ _ E6)].
      destruct (Provision.all_provisions db _ _) as [rows|e] eqn:E7; cbn [bind];
        [|exfalso; apply (A7 _ _ _ E7)].
      destruct (num_gt _ _); eauto.
    + destruct (Provision.one_provision db _ _ _ _) as [[x|]|e] eqn:E8; cbn [bind];
        [eauto | eauto | exfalso; apply (A8 _ _ _ _ _ E8)].
Qed.

Lemma empty_store_answers : store_answers empty_store.
Proof. unfold store_answers, empty_store. simpl. repeat split; discriminate. Qed.

Lemma getProvision_failure_witness :
  Provision.getProvision empty_store
    (Provision.Input.mkInput [] (Some (js "17")) None)
  = Throw (js "document_id is required")
  /\ exists r,
       Provision.getProvision empty_store
         (Provision.Input.mkInput (js "no such law") (Some (js "17")) None) = Ok r.
Proof.
  split.
  - apply (proj1 (getProvision_failure empty_store
                    (Provision.Input.mkInput [] (Some (js "17")) None))).
    reflexivity.
  - apply (proj2 (getProvision_failure empty_store
                    (Provision.Input.mkInput (js "no such law") (Some (js "17")) None))).
    + discriminate.
    + exact empty_store_answers.
Defined.

(** X22: Resolution never invents an identifier and prefers the exact one:
    an identifier that [resolveExistingStatuteId] returns is the answer of
    one of its five statements, bound to the input or to %input%; and when
    the statement on [id] answers with a row, that row's id is the result,
    whatever the four other statements would do. *)
Theorem resolveExistingStatuteId_source (db : Provision.LawStore)
    (inputId : jsstring) :
  (forall x, Provision.resolveExistingStatuteId db inputId = Ok (Some x) ->
     In (Ok (Some x))
        [Provision.document_by_id db inputId;
         Provision.document_by_law_number db inputId;
         Provision.document_by_title db (js "%" ++ inputId ++ js "%");
         Provision.document_by_title_en db (js "%" ++ inputId ++ js "%");
         Provision.document_by_short_name db (js "%" ++ inputId ++ js "%")])
  /\ (forall x, Provision.document_by_id db inputId = Ok (Some x) ->
        Provision.resolveExistingStatuteId db inputId = Ok (Some x)).
Proof.
  unfold Provision.resolveExistingStatuteId. split.
  - intros x.
    destruct (Provision.document_by_id db inputId) as [[a|]|e]; cbn [bind];
      [intros E; left; exact E| |discriminate].
    destruct (Provision.document_by_law_number db inputId) as [[a|]|e]; cbn [bind];
      [intros E; right; left; exact E| |discriminate].
    destruct (Provision.document_by_title db _) as [[a|]|e]; cbn [bind];
      [intros E; right; right; left; exact E| |discriminate].
    destruct (Provision.document_by_title_en db _) as [[a|]|e]; cbn [bind];
      [intros E; right; right; right; left; exact E| |discriminate].
    destruct (Provision.document_by_short_name db _) as [o|e]; cbn [bind];
      [|discriminate].
    intros E. right. right. right. right. left. exact E.
  - intros x E. rewrite E. reflexivity.
Qed.

Lemma resolveExistingStatuteId_source_witness :
  Provision.resolveExistingStatuteId
    (Provision.mkLawStore
       (fun _ => Ok (Some (js "415AC0000000057"))) (fun _ => Throw (js "locked"))
       (fun _ => Ok None) (fun _ => Ok None) (fun _ => Ok None)
       (fun _ => Ok None) (fun _ _ => Ok []) (fun _ _ _ _ => Ok None))
    (js "415AC0000000057")
  = Ok (Some (js "415AC0000000057")).
Proof.
  apply (proj2 (resolveExistingStatuteId_source
                  (Provision.mkLawStore
                     (fun _ => Ok (Some (js "415AC0000000057")))
                     (fun _ => Throw (js "locked"))
                     (fun _ => Ok None) (fun _ => Ok None) (fun _ => Ok None)
                     (fun _ => Ok None) (fun _ _ => Ok []) (fun _ _ _ _ => Ok None))
                  (js "415AC0000000057"))).
  reflexivity.
Defined.

(** ** Patterns that cannot match *)

Lemma rmatch_total (ic : bool) (r : regex) (k : cont) :
  (forall y, k y <> Stuck) -> forall x, rmatch ic r k x <> Stuck.
Proof.
  intros Hk x. apply (rmatch_not_stuck ic (idx x + length (rest x))).
  - unfold wf. reflexivity.
  - intros y _ _. apply Hk.
Qed.

(** If the continuation fails after every match of the pattern, the matcher
    fails. *)
Lemma rmatch_fails (ic : bool) (r : regex) (k : cont) (x : state) :
  (forall y, k y <> Stuck) ->
  (forall y, matches ic r x y -> k y = Failed) ->
  rmatch ic r k x = Failed.
Proof.
  intros Hk H. destruct (rmatch ic r k x) as [o| |] eqn:E.
  - apply rmatch_sound in E. destruct E as [y [Hy Ho]].
    rewrite (H y Hy) in Ho. discriminate.
  - reflexivity.
  - exfalso. apply (rmatch_total ic r k Hk x E).
Qed.

(** An optional part that has no match at all is skipped. *)
Lemma opt_skip_none (ic : bool) (r : regex) (k : cont) (x : state) :
  (forall y, k y <> Stuck) ->
  (forall y, ~ matches ic r (clear_caps (groups r) x) y) ->
  rmatch ic (opt r) k x = k x.
Proof.
  intros Hk H. unfold opt. cbn [rmatch].
  replace (0 + length (rest x) + 1)%nat with (S (length (rest x))) by lia.
  cbn [repeat_matcher Nat.eqb negb]. rewrite rmatch_fails; [reflexivity| |].
  - intros y. destruct (_ && _); [discriminate|].
    rewrite repeat_matcher_done. apply Hk.
  - intros y Hy. exfalso. apply (H y Hy).
Qed.

(** A pattern without any match on any suffix of the input finds nothing. *)
Lemma regex_match_no_match (re : RegExp) (s : jsstring) :
  (forall s1 s2 y, s = s1 ++ s2 ->
     ~ matches (ignoreCase re) (source re) (mkState (length s1) s2 no_caps) y) ->
  regex_match re s = None.
Proof.
  intros H. destruct (regex_match re s) as [m|] eqn:E; [|reflexivity].
  apply regex_match_sound in E. destruct E as [s1 [s2 [y [Es [_ Hm]]]]].
  exfalso. apply (H s1 s2 y Es Hm).
Qed.

(** A class that must match at least once fails on a character outside it. *)
Lemma plus_cls_miss (ic g : bool) (p : char -> bool) (k : cont) (x : state) :
  match rest x with [] => True | a :: _ => p a = false end ->
  rmatch ic (Rep 1 None g (Cls p)) k x = Failed.
Proof.
  intros H. cbn [rmatch groups].
  replace (1 + length (rest x) + 1)%nat with (S (S (length (rest x)))) by lia.
  cbn [repeat_matcher Nat.eqb negb rmatch].
  apply step_char_miss. exact H.
Qed.

(** The native pattern needs 第 in front. *)
Lemma JAPANESE_CITATION_starts (s : jsstring) (m : captures) :
  regex_match JAPANESE_CITATION s = Some m -> exists t, s = c_dai :: t.
Proof.
  intros H. apply regex_match_sound in H.
  destruct H as [s1 [s2 [y [Es [_ Hm]]]]]. simpl in Hm.
  inversion Hm as [| | | | |r1 r2 x0 y1 z0 H1 H2| | | | |]; subst. clear Hm.
  inversion H1 as [| |x0 Hi| | | | | | | |]; subst. clear H1.
  inversion H2 as [| | | | |r1 r2 x0 y2 z0 H3 H4| | | | |]; subst. clear H2 H4.
  inversion H3 as [| | | | | | | | | |n0 r0 x0 y0 H5]; subst. clear H3.
  inversion H5 as [| | | | |r1 r2 x0 y3 z0 H6 H7| | | | |]; subst. clear H5 H7.
  inversion H6 as [c a t x0 Hr Hc| | | | | | | | | |]; subst. clear H6.
  apply chr_match_exact in Hc. subst a.
  cbn [rest idx] in *. destruct s1; [|discriminate]. exists t. exact Hr.
Qed.

(** ** The trailing pattern on a name followed by an article reference *)

Lemma TRAILING_JAPANESE_match (a : char) (w name : jsstring) :
  forallb not_line_terminator (a :: w) = true -> ~ In c_jo w ->
  name <> [] -> forallb (fun c => negb (isWhiteSpace c)) name = true ->
  exists m,
    regex_match TRAILING_JAPANESE (name ++ 32%N :: c_dai :: (a :: w) ++ [c_jo])
    = Some m
    /\ group m 1 = name
    /\ group m 2 = c_dai :: (a :: w) ++ [c_jo].
Proof.
  intros Hw Hc Hne Hn.
  assert (Hl : forallb (fun c => negb (isLineTerminator c)) name = true).
  { apply forallb_forall. intros c Hin. rewrite forallb_forall in Hn.
    specialize (Hn c Hin). apply negb_true_iff in Hn. apply negb_true_iff.
    unfold isWhiteSpace in Hn. unfold isLineTerminator.
    repeat (apply orb_false_iff in Hn; destruct Hn as [Hn ?]).
    apply andb_false_iff in Hn.
    repeat (apply orb_false_iff; split); try assumption;
      apply N.eqb_neq; intros E; subst c; destruct Hn as [Hn|Hn]; discriminate Hn. }
  unfold regex_match.
  destruct name as [|c0 name']; [contradiction|].
  cbn [app].
  cbn [search TRAILING_JAPANESE source ignoreCase cat fold_right rmatch idx
       Nat.eqb reference_block].
  unfold plus_lazy at 1, any at 1. cbn [rmatch groups rest idx].
  match goal with
  | |- context [repeat_matcher ?m ?gs ?f ?mn ?mx ?g ?k ?x] =>
    eassert (E : repeat_matcher m gs f mn mx g k x = Matched _)
  end.
  { apply (lazy_scan false (fun c => negb (isLineTerminator c)) (c0 :: name')).
    - exact Hl.
    - intros w1 w2 E Hne' Hlen.
      destruct w2 as [|b2 w2]; [contradiction|].
      unfold plus, ws. apply plus_cls_miss. cbn [rest app].
      rewrite forallb_forall in Hn. apply negb_true_iff. apply Hn.
      rewrite E. apply in_or_app. right. left. reflexivity.
    - simpl. lia.
    - cbn [length]; rewrite ?length_app; cbn [length]; lia.
    - unfold plus at 1, ws at 1. cbn [rmatch groups rest idx caps].
      apply (greedy_run false isWhiteSpace [32%N]).
      + reflexivity.
      + reflexivity.
      + simpl. lia.
      + cbn [length]; rewrite ?length_app; cbn [length]; lia.
      + cbn [rmatch rest idx caps].
        rewrite step_char_hit by (unfold chr_match, char_eqb; apply N.eqb_refl).
        unfold plus_lazy, any. cbn [rmatch groups rest idx caps].
        apply (lazy_scan false (fun c => negb (isLineTerminator c)) (a :: w)).
        * exact Hw.
        * intros w1 w2 E Hne' Hlen.
          destruct w1 as [|a1 w1]; [simpl in Hlen; lia|].
          destruct w2 as [|b2 w2]; [contradiction|].
          cbn [app rest idx caps]. apply chr_miss_first.
          intros Eb. subst b2.
          apply Hc. inversion E; subst. apply in_or_app. right. left. reflexivity.
        * simpl. lia.
        * cbn [length]; rewrite ?length_app; cbn [length]; lia.
        * rewrite step_char_hit by (unfold chr_match, char_eqb; apply N.eqb_refl).
          rewrite opt_skip
            by (intros d; cbn [rmatch clear_caps rest idx caps];
                apply step_char_miss; exact I).
          rewrite opt_skip
            by (intros d; cbn [rmatch clear_caps rest idx caps];
                apply step_char_miss; exact I).
          cbn [rest idx caps]. reflexivity. }
  rewrite E. clear E. eexists. split; [reflexivity|].
  unfold group. cbn [caps idx rest]. unfold set_cap. cbn [Nat.eqb].
  split.
  - apply (firstn_prefix (c0 :: name')). simpl. lia.
  - match goal with
    | |- firstn ?k ?l = _ => replace k with (length l)
    end.
    + apply firstn_all.
    + cbn [length]. rewrite length_app. cbn [length]. lia.
Qed.

Lemma trim_ends (c d : char) (u : jsstring) :
  isWhiteSpace c = false -> isWhiteSpace d = false ->
  trim (c :: u ++ [d]) = c :: u ++ [d].
Proof.
  intros Wc Wd. apply trim_fixed.
  - apply trimStart_fixed. exact Wc.
  - change (c :: u ++ [d]) with ((c :: u) ++ [d]). rewrite rev_app_distr.
    cbn [rev app]. apply trimStart_fixed. exact Wd.
Qed.

Lemma parseCitation_trailing (n : Z) (name : jsstring) :
  1 <= n <= 9999 -> compact_name name ->
  parseCitation (trailing_citation n name) = article_of n name.
Proof.
  intros Hn [Hne [Hws Hf]].
  destruct (arabicToKanji_shape n Hn) as [Kne [_ KF]].
  remember (arabicToKanji (Int n)) as K eqn:EK.
  destruct K as [|a w]; [contradiction|].
  assert (Hw : forallb not_line_terminator (a :: w) = true)
    by (apply canonical_not_line_terminator; exact KF).
  assert (Hjo : ~ In c_jo (a :: w))
    by (apply canonical_numeral_absent; [reflexivity | exact KF]).
  assert (Hkou : ~ In c_kou (a :: w))
    by (apply canonical_numeral_absent; [reflexivity | exact KF]).
  assert (Hgo : ~ In c_go (a :: w))
    by (apply canonical_numeral_absent; [reflexivity | exact KF]).
  assert (Ht : trim name = name) by (apply trim_no_white_space; exact Hws).
  assert (Es : trailing_citation n name
               = name ++ 32%N :: c_dai :: (a :: w) ++ [c_jo]).
  { unfold trailing_citation. rewrite <- EK. reflexivity. }
  destruct name as [|c0 name']; [contradiction|].
  assert (W0 : isWhiteSpace c0 = false).
  { cbn [forallb] in Hws. apply andb_true_iff in Hws. destruct Hws as [W _].
    apply negb_true_iff in W. exact W. }
  assert (T : trim (trailing_citation n (c0 :: name'))
              = trailing_citation n (c0 :: name')).
  { rewrite Es.
    replace ((c0 :: name') ++ 32%N :: c_dai :: (a :: w) ++ [c_jo])
      with (c0 :: (name' ++ 32%N :: c_dai :: a :: w) ++ [c_jo])
      by (cbn [app]; rewrite <- app_assoc; reflexivity).
    apply trim_ends; [exact W0 | reflexivity]. }
  unfold parseCitation. rewrite T.
  destruct (regex_match JAPANESE_CITATION (trailing_citation n (c0 :: name')))
    as [m0|] eqn:J.
  { exfalso. apply JAPANESE_CITATION_starts in J. destruct J as [t J].
    rewrite Es in J. cbn [app] in J. inversion J. contradiction. }
  destruct (TRAILING_JAPANESE_match a w (c0 :: name') Hw
              (fun H => Hjo (or_intror H)) Hne Hws) as [m [Hm [G1 G2]]].
  rewrite Es, Hm, G1, G2.
  rewrite parseJapaneseRef_article_only.
  - unfold article_of. rewrite Ht. f_equal. f_equal.
    unfold parseArticleNumber.
    apply (parseWrappedNumber_kanji c_jo n _ []); [left; reflexivity | exact Hn|].
    right. rewrite <- EK.
    change ([c_dai] ++ (a :: w) ++ [c_jo] ++ []) with (c_dai :: (a :: w) ++ [c_jo]).
    apply trim_no_white_space.
    apply forallb_forall. intros x Hx. apply negb_true_iff.
    destruct Hx as [Hx|Hx]; [subst x; reflexivity|].
    apply in_app_or in Hx. destruct Hx as [Hx|Hx].
    + rewrite forallb_forall in KF.
      apply (canonical_numeral_facts x (KF x Hx)).
    + destruct Hx as [Hx|[]]. subst x. reflexivity.
  - intros [H|H]; [discriminate H|]. apply in_app_or in H.
    destruct H as [H|[H|[]]]; [exact (Hkou H) | discriminate H].
  - intros [H|H]; [discriminate H|]. apply in_app_or in H.
    destruct H as [H|[H|[]]]; [exact (Hgo H) | discriminate H].
  - change (c_dai :: (a :: w) ++ [c_jo]) with (c_dai :: (a :: w) ++ c_jo :: []).
    apply RE_REF_ARTICLE_match; [exact Hw|]. intros H. apply Hjo. right. exact H.
Qed.

(** Every line terminator is white space. *)
Lemma line_terminator_white_space (c : char) :
  isLineTerminator c = true -> isWhiteSpace c = true.
Proof.
  unfold isLineTerminator. intros H.
  repeat (apply orb_true_iff in H; destruct H as [H|H]);
    apply N.eqb_eq in H; subst c; reflexivity.
Qed.

(** X23: The name may come first.  For every article from 1 to 9999 and
    every name written without white space that does not start with 第, the
    text <name> 第<numeral>条 is parsed to that article in digits with that
    name as title, and the native style then writes it with the article in
    front.  When the name does not start with a comma either, this is the
    citation that 第<numeral>条 <name> is parsed to. *)
Theorem trailing_citation_parsed (n : Z) (name : jsstring) :
  1 <= n <= 9999 -> compact_name name ->
  parseCitation (trailing_citation n name) = article_of n name
  /\ formatCitation (parseCitation (trailing_citation n name)) (js "japanese")
     = native_citation n name
  /\ (match name with
      | c :: _ => c <> 44%N /\ c <> c_touten
      | [] => True
      end ->
      parseCitation (trailing_citation n name)
      = parseCitation (native_citation n name)).
Proof.
  intros Hn Hc. rewrite (parseCitation_trailing n name Hn Hc).
  destruct Hc as [Hne [Hws _]].
  assert (Ht : trim name = name) by (apply trim_no_white_space; exact Hws).
  split; [reflexivity|]. split.
  - apply formatCitation_native; [exact Hn | exact Hne | exact Ht].
  - intros Hf. symmetry. apply (parseCitation_native n name Hn).
    repeat split; try assumption.
    rewrite forallb_forall in Hws |- *. intros x Hx.
    specialize (Hws x Hx). apply negb_true_iff in Hws.
    unfold not_line_terminator. apply negb_true_iff.
    destruct (isLineTerminator x) eqn:L; [|reflexivity].
    rewrite (line_terminator_white_space x L) in Hws. discriminate Hws.
Qed.

Lemma trailing_citation_parsed_witness :
  parseCitation (trailing_citation 90 (js "民法")) = article_of 90 (js "民法")
  /\ formatCitation (parseCitation (trailing_citation 90 (js "民法")))
                    (js "japanese")
     = native_citation 90 (js "民法")
  /\ (match js "民法" with
      | c :: _ => c <> 44%N /\ c <> c_touten
      | [] => True
      end ->
      parseCitation (trailing_citation 90 (js "民法"))
      = parseCitation (native_citation 90 (js "民法"))).
Proof.
  apply (trailing_citation_parsed 90 (js "民法")).
  - lia.
  - unfold compact_name. repeat split; try reflexivity; discriminate.
Defined.

(** ** What the short pattern accepts, the full pattern accepts *)

(** Matching does not look at the captures: a match can be replayed from
    the same position with any captures. *)
Lemma matches_any_caps (ic : bool) (r : regex) (x y : state) :
  matches ic r x y ->
  forall cs, exists cs',
    matches ic r (mkState (idx x) (rest x) cs) (mkState (idx y) (rest y) cs').
Proof.
  induction 1 as [c a t x Hr Hc|p a t x Hr Hp|x Hi|x Hr|x
                 |r1 r2 x y z H1 IH1 H2 IH2|r1 r2 x y H1 IH1|r1 r2 x y H1 IH1
                 |min max g r x Hs|min max g r x y z Hmax H1 IH1 Hp H2 IH2
                 |n r x y H1 IH1]; intros cs.
  - exists cs. apply (matches_chr ic c a t (mkState (idx x) (rest x) cs) Hr Hc).
  - exists cs. apply (matches_cls ic p a t (mkState (idx x) (rest x) cs) Hr Hp).
  - exists cs. apply matches_bol. exact Hi.
  - exists cs. apply matches_eol. exact Hr.
  - exists cs. apply matches_eps.
  - destruct (IH1 cs) as [cs1 M1]. destruct (IH2 cs1) as [cs2 M2].
    exists cs2. apply (matches_seq ic _ _ _ _ _ M1 M2).
  - destruct (IH1 cs) as [cs1 M1]. exists cs1. apply matches_alt_l. exact M1.
  - destruct (IH1 cs) as [cs1 M1]. exists cs1. apply matches_alt_r. exact M1.
  - exists cs. apply matches_rep_stop. exact Hs.
  - destruct (IH1 (caps (clear_caps (groups r) (mkState (idx x) (rest x) cs))))
      as [cs1 M1].
    destruct (IH2 cs1) as [cs2 M2]. exists cs2.
    apply (matches_rep_round ic min max g r (mkState (idx x) (rest x) cs)
             (mkState (idx y) (rest y) cs1)); [exact Hmax | exact M1 | exact Hp
                                               | exact M2].
  - destruct (IH1 cs) as [cs1 M1].
    eexists.
    apply (matches_group ic n r (mkState (idx x) (rest x) cs)
             (mkState (idx y) (rest y) cs1) M1).
Qed.

Lemma matches_spans (ic : bool) (r : regex) (x y : state) :
  matches ic r x y -> spans ic r (position x) (position y).
Proof. intros H cs. apply (matches_any_caps ic r x y H cs). Qed.

Lemma spans_seq (ic : bool) (r1 r2 : regex) (p q u : nat * jsstring) :
  spans ic r1 p q -> spans ic r2 q u -> spans ic (Seq r1 r2) p u.
Proof.
  intros H1 H2 cs. destruct (H1 cs) as [cs1 M1]. destruct (H2 cs1) as [cs2 M2].
  exists cs2. apply (matches_seq ic _ _ _ _ _ M1 M2).
Qed.

Lemma spans_eps (ic : bool) (p : nat * jsstring) : spans ic Eps p p.
Proof. intros cs. exists cs. apply matches_eps. Qed.

Lemma spans_alt_l (ic : bool) (r1 r2 : regex) (p q : nat * jsstring) :
  spans ic r1 p q -> spans ic (Alt r1 r2) p q.
Proof.
  intros H cs. destruct (H cs) as [cs1 M]. exists cs1. apply matches_alt_l. exact M.
Qed.

Lemma spans_alt_r (ic : bool) (r1 r2 : regex) (p q : nat * jsstring) :
  spans ic r2 p q -> spans ic (Alt r1 r2) p q.
Proof.
  intros H cs. destruct (H cs) as [cs1 M]. exists cs1. apply matches_alt_r. exact M.
Qed.

Lemma spans_group (ic : bool) (n m : nat) (r : regex) (p q : nat * jsstring) :
  spans ic (Group n r) p q -> spans ic (Group m r) p q.
Proof.
  intros H cs. destruct (H cs) as [cs1 M].
  inversion M as [| | | | | | | | | |n0 r0 x0 y0 M0]; subst.
  cbn [idx rest] in *. eexists.
  apply (matches_group ic m r _ _ M0).
Qed.

Lemma spans_opt_skip (ic : bool) (r : regex) (p : nat * jsstring) :
  spans ic (opt r) p p.
Proof. intros cs. exists cs. apply matches_rep_stop. left. reflexivity. Qed.

Lemma spans_opt_take (ic : bool) (r : regex) (p q : nat * jsstring) :
  spans ic r p q -> fst q <> fst p -> spans ic (opt r) p q.
Proof.
  intros H Hq cs.
  destruct (H (caps (clear_caps (groups r) (mkState (fst p) (snd p) cs))))
    as [cs1 M].
  exists cs1. unfold opt.
  apply (matches_rep_round ic 0 (Some 1%nat) true r (mkState (fst p) (snd p) cs)
           (mkState (fst q) (snd q) cs1)).
  - discriminate.
  - exact M.
  - intros _. exact Hq.
  - apply matches_rep_stop. right. reflexivity.
Qed.

(** What an optional part matched: nothing, or its body once, moving on. *)
Lemma opt_spans (ic : bool) (r : regex) (x y : state) :
  matches ic (opt r) x y ->
  position y = position x
  \/ (spans ic r (position x) (position y) /\ idx y <> idx x).
Proof.
  intros H. unfold opt in H.
  inversion H as [| | | | | | | |min max g r0 x0 Hs
                 |min max g r0 x0 y0 z0 Hmax H1 Hp H2|]; subst.
  - left. reflexivity.
  - right. cbn [Nat.pred option_map] in H2.
    assert (E : y = y0).
    { inversion H2 as [| | | | | | | |min max g r0 x0 Hs
                      |min max g r0 x0 y1 z0 Hmax' _ _ _|]; subst;
        [reflexivity | contradiction Hmax'; reflexivity]. }
    subst y0. split; [|apply Hp; reflexivity].
    apply (matches_spans ic r _ _ H1).
Qed.

Lemma SHORT_within_ENGLISH (s2 : jsstring) (i : nat) (y : state) :
  matches true (source SHORT_CITATION) (mkState i s2 no_caps) y ->
  exists y', matches true (source ENGLISH_FULL) (mkState i s2 no_caps) y'.
Proof.
  intros H. cbn [source SHORT_CITATION cat fold_right] in H.
  inversion H as [| | | | |r1 r2 x0 x1 z0 H1 R1| | | | |]; subst. clear H.
  inversion R1 as [| | | | |r1 r2 x0 x2 z0 H2 R2| | | | |]; subst. clear R1.
  inversion R2 as [| | | | |r1 r2 x0 x3 z0 H3 R3| | | | |]; subst. clear R2.
  inversion R3 as [| | | | |r1 r2 x0 x4 z0 H4 R4| | | | |]; subst. clear R3.
  inversion R4 as [| | | | |r1 r2 x0 x5 z0 H5 R5| | | | |]; subst. clear R4.
  inversion R5 as [| | | | |r1 r2 x0 x6 z0 H6 R6| | | | |]; subst. clear R5.
  inversion R6 as [| | | | |r1 r2 x0 x7 z0 H7 R7| | | | |]; subst. clear R6.
  inversion R7 as [| | | | |r1 r2 x0 x8 z0 H8 R8| | | | |]; subst. clear R7.
  inversion R8 as [| | | | |r1 r2 x0 x9 z0 H9 R9| | | | |]; subst. clear R8.
  inversion R9 as [| | | | |r1 r2 x0 x10 z0 H10 R10| | | | |]; subst. clear R9.
  inversion R10; subst. clear R10.
  assert (S1 : spans true Bol (i, s2) (position x1)) by apply (matches_spans _ _ _ _ H1).
  assert (S2 : spans true (Alt (lit "Article") (cat [lit "Art"; opt (Chr 46%N)]))
                     (position x1) (position x2)).
  { inversion H2 as [| | | | | |r1 r2 x0 y0 A|r1 r2 x0 y0 A| | |]; subst.
    - apply spans_alt_r. apply (matches_spans _ _ _ _ A).
    - apply spans_alt_l. apply (matches_spans _ _ _ _ A). }
  assert (S3 := matches_spans _ _ _ _ H3).
  assert (S4 := matches_spans _ _ _ _ H4).
  assert (S5 : spans true
                 (opt (cat [star ws; opt (Chr 44%N); star ws;
                            alts [lit "Paragraph"; cat [lit "Para"; opt (Chr 46%N)]]
                                 (cat [lit "Par"; opt (Chr 46%N)]);
                            plus ws; Group 2 (plus digit)]))
                 (position x4) (position x5)).
  { destruct (opt_spans _ _ _ _ H5) as [E|[B P]].
    - rewrite E. apply spans_opt_skip.
    - apply spans_opt_take; [|exact P].
      intros cs. destruct (B cs) as [cs' M]. cbn [cat fold_right] in M.
      cbn [position fst snd] in M.
      inversion M as [| | | | |r1 r2 x0 u1 z0 M1 Q1| | | | |]; subst. clear M.
      inversion Q1 as [| | | | |r1 r2 x0 u2 z0 M2 Q2| | | | |]; subst. clear Q1.
      inversion Q2 as [| | | | |r1 r2 x0 u3 z0 M3 Q3| | | | |]; subst. clear Q2.
      inversion Q3 as [| | | | |r1 r2 x0 u4 z0 M4 Q4| | | | |]; subst. clear Q3.
      inversion Q4 as [| | | | |r1 r2 x0 u5 z0 M5 Q5| | | | |]; subst. clear Q4.
      inversion Q5 as [| | | | |r1 r2 x0 u6 z0 M6 Q6| | | | |]; subst. clear Q5.
      assert (M4' : matches true
                      (alts [lit "Paragraph"; cat [lit "Para"; opt (Chr 46%N)]]
                            (cat [lit "Par"; opt (Chr 46%N)])) u3 u4).
      { unfold alts. cbn [fold_right].
        inversion M4 as [| | | | | |r1 r2 x0 y0 A|r1 r2 x0 y0 A| | |]; subst.
        - apply matches_alt_r. apply matches_alt_l. exact A.
        - apply matches_alt_l. exact A. }
      eexists. cbn [cat fold_right position fst snd].
      apply (matches_seq _ _ _ _ _ _ M1).
      apply (matches_seq _ _ _ _ _ _ M2).
      apply (matches_seq _ _ _ _ _ _ M3).
      apply (matches_seq _ _ _ _ _ _ M4').
      apply (matches_seq _ _ _ _ _ _ M5).
      apply (matches_seq _ _ _ _ _ _ M6).
      exact Q6. }
  assert (S6 := matches_spans _ _ _ _ H6).
  assert (S7 := matches_spans _ _ _ _ H7).
  assert (S8 := matches_spans _ _ _ _ H8).
  assert (S9 : spans true (Group 4 (plus_lazy any)) (position x8) (position x9)).
  { apply (spans_group true 3 4). apply (matches_spans _ _ _ _ H9). }
  assert (S10 := matches_spans _ _ _ _ H10).
  assert (S : spans true (source ENGLISH_FULL) (i, s2) (position y)).
  { cbn [source ENGLISH_FULL cat fold_right].
    apply (spans_seq _ _ _ _ _ _ S1).
    apply (spans_seq _ _ _ _ _ _ S2).
    apply (spans_seq _ _ _ _ _ _ S3).
    apply (spans_seq _ _ _ _ _ _ S4).
    apply (spans_seq _ _ _ _ _ _ S5).
    apply (spans_seq _ _ _ _ (position x5)); [apply spans_opt_skip|].
    apply (spans_seq _ _ _ _ _ _ S6).
    apply (spans_seq _ _ _ _ _ _ S7).
    apply (spans_seq _ _ _ _ _ _ S8).
    apply (spans_seq _ _ _ _ _ _ S9).
    apply (spans_seq _ _ _ _ (position x9)); [apply spans_opt_skip|].
    apply (spans_seq _ _ _ _ _ _ S10).
    apply spans_eps. }
  destruct (S no_caps) as [cs' M]. eexists. exact M.
Qed.

(** X24: The short pattern is never the one that decides.  Every text
    that [SHORT_CITATION] matches is matched by [ENGLISH_FULL], which
    [parseCitation] tries first: whenever the short pattern would apply, the
    result is the record built from the groups of the full pattern. *)
Theorem parseCitation_short_pattern_unused (citation : jsstring) :
  regex_match SHORT_CITATION (trim citation) <> None ->
  regex_match ENGLISH_FULL (trim citation) <> None
  /\ (regex_match JAPANESE_CITATION (trim citation) = None ->
      regex_match TRAILING_JAPANESE (trim citation) = None ->
      exists m,
        regex_match ENGLISH_FULL (trim citation) = Some m
        /\ parseCitation citation
           = mkParsed true statute None (Some (trim (group m 4))) None
               (option_map parseInt (or_undefined (capture m 6)))
               (option_map parseInt (or_undefined (capture m 5)))
               (Some (group m 1)) (or_undefined (capture m 2))
               (or_undefined (capture m 3)) None).
Proof.
  intros H.
  assert (E : regex_match ENGLISH_FULL (trim citation) <> None).
  { destruct (regex_match SHORT_CITATION (trim citation)) as [m|] eqn:Hs;
      [|contradiction].
    apply regex_match_sound in Hs. destruct Hs as [s1 [s2 [y [Es [_ Hm]]]]].
    destruct (SHORT_within_ENGLISH s2 (length s1) y Hm) as [y' M].
    rewrite Es. apply (regex_match_complete ENGLISH_FULL s1 s2 y' M). }
  split; [exact E|]. intros J T. unfold parseCitation. rewrite J, T.
  destruct (regex_match ENGLISH_FULL (trim citation)) as [m|]; [|contradiction].
  exists m. split; reflexivity.
Qed.

Lemma parseCitation_short_pattern_unused_witness :
  regex_match ENGLISH_FULL (trim (js "Art. 17, Para. 2, APPI")) <> None
  /\ (regex_match JAPANESE_CITATION (trim (js "Art. 17, Para. 2, APPI")) = None ->
      regex_match TRAILING_JAPANESE (trim (js "Art. 17, Para. 2, APPI")) = None ->
      exists m,
        regex_match ENGLISH_FULL (trim (js "Art. 17, Para. 2, APPI")) = Some m
        /\ parseCitation (js "Art. 17, Para. 2, APPI")
           = mkParsed true statute None (Some (trim (group m 4))) None
               (option_map parseInt (or_undefined (capture m 6)))
               (option_map parseInt (or_undefined (capture m 5)))
               (Some (group m 1)) (or_undefined (capture m 2))
               (or_undefined (capture m 3)) None).
Proof.
  apply (parseCitation_short_pattern_unused (js "Art. 17, Para. 2, APPI")).
  vm_compute. discriminate.
Defined.

(** ** The full pattern on what the full style writes *)

Lemma chr_match_refl (ic : bool) (c : char) : chr_match ic c c = true.
Proof. unfold chr_match, char_eqb. destruct ic; apply N.eqb_refl. Qed.

(** A literal is read off the input. *)
Lemma lit_hit (ic : bool) (l : jsstring) :
  forall (k : cont) (i : nat) (t : jsstring) (cs : captures),
    rmatch ic (cat (map Chr l)) k (mkState i (l ++ t) cs)
    = k (mkState (i + length l) t cs).
Proof.
  induction l as [|c l IH]; intros k i t cs.
  - cbn [map cat fold_right rmatch app length]. rewrite Nat.add_0_r. reflexivity.
  - cbn [map cat fold_right rmatch app length].
    rewrite step_char_hit by apply chr_match_refl.
    change (fold_right Seq Eps (map Chr l)) with (cat (map Chr l)).
    rewrite IH. rewrite Nat.add_succ_r. reflexivity.
Qed.

(** [p{n}] on [n] characters of the class. *)
Lemma exactly_run (ic : bool) (p : char -> bool) (v : jsstring) :
  forallb p v = true ->
  forall fuel i t cs k,
    (length v <= fuel)%nat ->
    repeat_matcher (rmatch ic (Cls p)) [] fuel (length v) (Some (length v)) true k
                   (mkState i (v ++ t) cs)
    = k (mkState (i + length v) t cs).
Proof.
  induction v as [|a v IH]; intros Hv fuel i t cs k Hf.
  - cbn [length app]. rewrite repeat_matcher_done, Nat.add_0_r. reflexivity.
  - destruct fuel as [|fuel]; [simpl in Hf; lia|].
    cbn [forallb] in Hv. apply andb_true_iff in Hv. destruct Hv as [Ha Hv].
    cbn [length app repeat_matcher Nat.eqb negb rmatch option_map Nat.pred].
    unfold step_char, clear_caps. cbn [rest idx caps existsb]. rewrite Ha.
    cbn [andb].
    assert (L : (length v <= fuel)%nat) by (simpl in Hf; lia).
    specialize (IH Hv fuel (S i) t cs k L).
    replace (i + S (length v))%nat with (S i + length v)%nat by lia.
    etransitivity; [|exact IH]. reflexivity.
Qed.

(** A run of white space cannot end on a character that the text after it
    does not hold before its first character that is no white space. *)
Lemma ws_run_then (v : jsstring) :
  forall (c : char) (r w t : jsstring),
    v ++ c :: r = w ++ t -> forallb isWhiteSpace v = true ->
    ~ In c w -> (exists z, In z w /\ isWhiteSpace z = false) -> False.
Proof.
  induction v as [|a v IH]; intros c r w t E Hv Hc [z [Hz Wz]].
  - destruct w as [|b w]; [contradiction|].
    cbn [app] in E. inversion E; subst. apply Hc. left. reflexivity.
  - destruct w as [|b w]; [contradiction|].
    cbn [app] in E. inversion E; subst.
    cbn [forallb] in Hv. apply andb_true_iff in Hv. destruct Hv as [Hb Hv].
    apply (IH c r w t H1 Hv).
    + intros H. apply Hc. right. exact H.
    + exists z. split; [|exact Wz]. destruct Hz as [Hz|Hz]; [|exact Hz].
      subst z. congruence.
Qed.

(** An unbounded run of a class stays where the next character is outside
    the class. *)
Lemma rep_cls_stays (ic g : bool) (p : char -> bool) (min : nat) (x y : state) :
  matches ic (Rep min None g (Cls p)) x y ->
  match rest x with [] => True | a :: _ => p a = false end ->
  position y = position x.
Proof.
  intros H Hx. pose proof (matches_rep_cls ic p g min x y H) as [F _].
  destruct (matches_consume ic _ _ _ H) as [v [E I]].
  rewrite (consumed_eq x y v E I) in F.
  destruct v as [|a v].
  - unfold position. cbn [app length] in E, I. rewrite E, I, Nat.add_0_r.
    reflexivity.
  - exfalso. rewrite E in Hx. cbn [app forallb] in Hx, F.
    apply andb_true_iff in F. destruct F as [Fa _]. congruence.
Qed.

(** What a run of a class can consume. *)
Lemma rep_cls_run (ic g : bool) (p : char -> bool) (min : nat) (x y : state) :
  matches ic (Rep min None g (Cls p)) x y ->
  exists v, rest x = v ++ rest y /\ idx y = (idx x + length v)%nat
            /\ forallb p v = true.
Proof.
  intros H. pose proof (matches_rep_cls ic p g min x y H) as [F _].
  destruct (matches_consume ic _ _ _ H) as [v [E I]].
  rewrite (consumed_eq x y v E I) in F. eauto.
Qed.

(** A literal matches its own characters, up to case under the [i] flag. *)
Lemma lit_first (ic : bool) (c : char) (l : list char) (x y : state) :
  matches ic (cat (map Chr (c :: l))) x y ->
  exists a r, rest x = a :: r /\ chr_match ic c a = true.
Proof.
  cbn [map cat fold_right]. intros H.
  inversion H as [| | | | |r1 r2 x0 y1 z0 H1 H2| | | | |]; subst.
  inversion H1 as [c0 a t x0 Hr Hc| | | | | | | | | |]; subst. eauto.
Qed.

Ltac total_cont tac :=
  repeat first
    [ progress intros
    | apply rmatch_total
    | discriminate
    | match goal with
      | |- context [match rest ?y with _ => _ end] => destruct (rest y)
      end
    | progress tac ].

Lemma ci_prefix_app (p s t : jsstring) :
  ci_prefix p s = false ->
  match t with
  | [] => True
  | b :: _ => forallb (fun c => negb (chr_match true c b)) p = true
  end ->
  ci_prefix p (s ++ t) = false.
Proof.
  revert s. induction p as [|c p IH]; intros s H Ht; [discriminate H|].
  destruct s as [|a s].
  - destruct t as [|b t]; [reflexivity|]. cbn [app ci_prefix].
    cbn [forallb] in Ht. apply andb_true_iff in Ht. destruct Ht as [Hc _].
    apply negb_true_iff in Hc. rewrite Hc. reflexivity.
  - cbn [app ci_prefix] in H |- *. destruct (chr_match true c a); [|reflexivity].
    cbn [andb] in H |- *. apply IH; [exact H|].
    destruct t as [|b t]; [exact I|]. cbn [forallb] in Ht.
    apply andb_true_iff in Ht. apply Ht.
Qed.

(** A literal only matches a text that it is a prefix of, up to case. *)
Lemma lit_prefix (l : jsstring) (x y : state) :
  matches true (cat (map Chr l)) x y -> ci_prefix l (rest x) = true.
Proof.
  revert x. induction l as [|c l IH]; intros x H; [reflexivity|].
  cbn [map cat fold_right] in H.
  inversion H as [| | | | |r1 r2 x0 y1 z0 H1 H2| | | | |]; subst.
  inversion H1 as [c0 a t x0 Hr Hc| | | | | | | | | |]; subst.
  rewrite Hr. cbn [ci_prefix]. rewrite Hc. apply (IH _ H2).
Qed.

Lemma ci_prefix_shorter (p q s : jsstring) :
  ci_prefix (p ++ q) s = true -> ci_prefix p s = true.
Proof.
  revert s. induction p as [|c p IH]; intros s H; [reflexivity|].
  destruct s as [|a s]; [discriminate H|]. cbn [app ci_prefix] in H |- *.
  apply andb_true_iff in H. destruct H as [H1 H2]. rewrite H1. apply (IH _ H2).
Qed.

(** The clause that introduces a paragraph or an item, [\s*,?\s*word...],
    has no match in front of a comma, a space and a text that does not
    start with the word. *)
Lemma clause_absent (word tail : regex) (p : jsstring) (c0 : char)
    (s : jsstring) (x y : state) :
  (forall u v, matches true word u v -> ci_prefix p (rest u) = true) ->
  ci_prefix p (44%N :: 32%N :: c0 :: s) = false ->
  ci_prefix p (32%N :: c0 :: s) = false ->
  ci_prefix p (c0 :: s) = false ->
  isWhiteSpace c0 = false ->
  rest x = 44%N :: 32%N :: c0 :: s ->
  ~ matches true
      (Seq (star ws) (Seq (opt (Chr 44%N)) (Seq (star ws) (Seq word tail)))) x y.
Proof.
  intros Hw Q1 Q2 Q3 W0 Hx H.
  inversion H as [| | | | |r1 r2 x0 x1 z0 H1 R1| | | | |]; subst. clear H.
  inversion R1 as [| | | | |r1 r2 x0 x2 z0 H2 R2| | | | |]; subst. clear R1.
  inversion R2 as [| | | | |r1 r2 x0 x3 z0 H3 R3| | | | |]; subst. clear R2.
  inversion R3 as [| | | | |r1 r2 x0 x4 z0 H4 R4| | | | |]; subst. clear R3 R4.
  apply Hw in H4.
  assert (E1 : rest x1 = 44%N :: 32%N :: c0 :: s).
  { unfold star, ws in H1. apply rep_cls_stays in H1.
    - unfold position in H1. inversion H1. congruence.
    - rewrite Hx. reflexivity. }
  assert (E2 : rest x2 = 44%N :: 32%N :: c0 :: s \/ rest x2 = 32%N :: c0 :: s).
  { destruct (opt_spans _ _ _ _ H2) as [E|[B _]].
    - left. unfold position in E. inversion E. congruence.
    - right. destruct (B no_caps) as [cs' M]. cbn [position fst snd] in M.
      inversion M as [c a t x0 Hr Hc| | | | | | | | | |]; subst.
      cbn [rest] in Hr. rewrite E1 in Hr. inversion Hr; subst. reflexivity. }
  unfold star, ws in H3. destruct (rep_cls_run _ _ _ _ _ _ H3) as [v [Ev [_ Fv]]].
  destruct E2 as [E2|E2]; rewrite E2 in Ev.
  - destruct v as [|a v].
    + cbn [app] in Ev. rewrite <- Ev in H4. congruence.
    + cbn [app forallb] in Ev, Fv. injection Ev as Ea Ev. subst a.
      apply andb_true_iff in Fv. destruct Fv as [Fa _]. discriminate Fa.
  - destruct v as [|a v].
    + cbn [app] in Ev. rewrite <- Ev in H4. congruence.
    + cbn [app forallb] in Ev, Fv. injection Ev as Ea Ev. subst a.
      apply andb_true_iff in Fv. destruct Fv as [_ Fv].
      destruct v as [|a v].
      * cbn [app] in Ev. rewrite <- Ev in H4. congruence.
      * cbn [app forallb] in Ev, Fv. injection Ev as Ea Ev. subst a.
        apply andb_true_iff in Fv. destruct Fv as [Fa _]. congruence.
Qed.

Lemma paragraph_word (u v : state) :
  matches true
    (alts [lit "Paragraph"; Seq (lit "Para") (Seq (opt (Chr 46%N)) Eps)]
          (Seq (lit "Par") (Seq (opt (Chr 46%N)) Eps))) u v ->
  ci_prefix (js "Par") (rest u) = true.
Proof.
  unfold alts. cbn [fold_right]. intros H.
  inversion H as [| | | | | |r1 r2 x0 y0 A|r1 r2 x0 y0 A| | |]; subst.
  - apply lit_prefix in A. apply (ci_prefix_shorter (js "Par") (js "agraph")).
    exact A.
  - inversion A as [| | | | | |r1 r2 x0 y0 B|r1 r2 x0 y0 B| | |]; subst.
    + inversion B as [| | | | |r1 r2 x0 y1 z0 B1 B2| | | | |]; subst.
      apply lit_prefix in B1. apply (ci_prefix_shorter (js "Par") (js "a")).
      exact B1.
    + inversion B as [| | | | |r1 r2 x0 y1 z0 B1 B2| | | | |]; subst.
      apply lit_prefix in B1. exact B1.
Qed.

Lemma item_word (u v : state) :
  matches true (lit "Item") u v -> ci_prefix (js "Item") (rest u) = true.
Proof. intros H. apply lit_prefix in H. exact H. Qed.

Lemma ENGLISH_FULL_head (d : jsstring) (c0 : char) (s : jsstring)
    (k : cont) (o : state) :
  all_digits d = true ->
  isWhiteSpace c0 = false -> c0 <> 44%N -> c0 <> c_touten ->
  ci_prefix (js "Par") (c0 :: s) = false ->
  ci_prefix (js "Item") (c0 :: s) = false ->
  (forall y, k y <> Stuck) ->
  k (mkState (length d + 10) (c0 :: s) (set_cap no_caps 1 d)) = Matched o ->
  rmatch true
    (cat [Bol;
          Alt (lit "Article") (cat [lit "Art"; opt (Chr 46%N)]);
          plus ws; Group 1 (plus digit);
          opt (cat [star ws; opt (Chr 44%N); star ws;
                    alts [lit "Paragraph"; cat [lit "Para"; opt (Chr 46%N)]]
                         (cat [lit "Par"; opt (Chr 46%N)]);
                    plus ws; Group 2 (plus digit)]);
          opt (cat [star ws; opt (Chr 44%N); star ws; lit "Item";
                    plus ws; Group 3 (plus digit)]);
          star ws; comma; star ws])
    k (mkState 0 (js "Article" ++ 32%N :: d ++ 44%N :: 32%N :: c0 :: s) no_caps)
  = Matched o.
Proof.
  intros Hd W0 C1 C2 P1 P2 Hk Ho.
  destruct (all_digits_forall d Hd) as [Dne DF].
  destruct d as [|d0 d']; [contradiction|].
  assert (Wd : isWhiteSpace d0 = false).
  { cbn [forallb] in DF. apply andb_true_iff in DF. destruct DF as [D0 _].
    apply (isDigit_facts d0 D0). }
  cbn [cat fold_right]. cbn [rmatch idx Nat.eqb].
  unfold lit at 1. rewrite lit_hit.
  match goal with
  | |- match ?R with _ => _ end = _ =>
    assert (E : R = Matched o); [|rewrite E; reflexivity]
  end.
  unfold plus at 1, ws at 1. cbn [rmatch groups rest idx caps].
  apply (greedy_run true isWhiteSpace [32%N]).
  - reflexivity.
  - exact Wd.
  - simpl. lia.
  - cbn [length]; rewrite ?length_app; cbn [length]; lia.
  - unfold plus at 1, digit at 1. cbn [rmatch groups rest idx caps].
    apply (greedy_run true isDigit (d0 :: d')).
    + exact DF.
    + reflexivity.
    + simpl. lia.
    + cbn [length]; rewrite ?length_app; cbn [length]; lia.
    + rewrite opt_skip_none.
      2:{ total_cont ltac:(apply Hk). }
      2:{ intros y. cbn [clear_caps rest idx caps cat fold_right].
          apply (clause_absent _ _ (js "Par") c0 s).
          - apply paragraph_word.
          - reflexivity.
          - reflexivity.
          - exact P1.
          - exact W0.
          - reflexivity. }
      rewrite opt_skip_none.
      2:{ total_cont ltac:(apply Hk). }
      2:{ intros y. cbn [clear_caps rest idx caps cat fold_right].
          apply (clause_absent _ _ (js "Item") c0 s).
          - apply item_word.
          - reflexivity.
          - reflexivity.
          - exact P2.
          - exact W0.
          - reflexivity. }
      unfold star at 1, ws at 1. cbn [rmatch groups rest idx caps].
      apply (greedy_run true isWhiteSpace []).
      * reflexivity.
      * reflexivity.
      * simpl. lia.
      * simpl. lia.
      * unfold comma. cbn [rmatch rest idx caps].
        rewrite step_char_hit by reflexivity.
        unfold star, ws. cbn [rmatch groups rest idx caps].
        apply (greedy_run true isWhiteSpace [32%N]).
        -- reflexivity.
        -- exact W0.
        -- simpl. lia.
        -- simpl. lia.
        -- change (length (js "Article")) with 7%nat.
           match goal with
           | |- k (mkState ?i _ (set_cap _ _ ?g)) = _ =>
             replace i with (length (d0 :: d') + 10)%nat
               by (cbn [length]; lia);
             replace g with (d0 :: d'); [exact Ho|]
           end.
           symmetry. apply firstn_prefix. cbn [length]. lia.
Qed.

Lemma rmatch_cat_app (ic : bool) (l1 l2 : list regex) (k : cont) (x : state) :
  rmatch ic (cat (l1 ++ l2)) k x = rmatch ic (cat l1) (rmatch ic (cat l2) k) x.
Proof.
  revert x. induction l1 as [|a l1 IH]; intros x; [reflexivity|].
  cbn [app cat fold_right rmatch]. apply rmatch_ext. intros y. apply IH.
Qed.

Lemma forallb_false_witness {A : Type} (p : A -> bool) (l : list A) :
  forallb p l = false -> exists z, In z l /\ p z = false.
Proof.
  induction l as [|a l IH]; [discriminate|]. cbn [forallb].
  destruct (p a) eqn:Pa.
  - intros H. destruct (IH H) as [z [Hz Pz]]. exists z. split; [right|]; assumption.
  - intros _. exists a. split; [left; reflexivity | exact Pa].
Qed.

(** Every non-empty end of a trimmed text holds a character that is no
    white space. *)
Lemma trimmed_suffix (s w1 w2 : jsstring) :
  trim s = s -> s = w1 ++ w2 -> w2 <> [] ->
  exists z, In z w2 /\ isWhiteSpace z = false.
Proof.
  intros Ht Es Hne. apply forallb_false_witness.
  destruct (forallb isWhiteSpace w2) eqn:B; [exfalso|reflexivity].
  pose proof (trim_fixed_trimEnd s Ht) as E. unfold trimEnd in E.
  assert (L : forall u, (length (trimStart u) <= length u)%nat).
  { induction u as [|a u IH]; simpl; [lia|].
    destruct (isWhiteSpace a); simpl; lia. }
  assert (Ls : (length s <= length w1)%nat).
  { rewrite <- E at 1. rewrite length_rev. rewrite Es, rev_app_distr.
    rewrite trimStart_app, forallb_rev, B.
    etransitivity; [apply L|]. rewrite length_rev. lia. }
  rewrite Es, length_app in Ls. destruct w2; [contradiction|]. simpl in Ls. lia.
Qed.

Lemma chr_match_paren (a : char) : chr_match true 40%N a = true -> a = 40%N.
Proof.
  unfold chr_match, char_eqb, canonicalize.
  change ((97 <=? 40)%N && (40 <=? 122)%N) with false. cbv iota.
  destruct ((97 <=? a)%N && (a <=? 122)%N) eqn:R; intros H; apply N.eqb_eq in H.
  - apply andb_true_iff in R. destruct R as [R1 R2].
    apply N.leb_le in R1. lia.
  - congruence.
Qed.

Lemma act_clause_starts (x y : state) :
  matches true act_clause x y ->
  exists v r, rest x = v ++ 40%N :: r /\ forallb isWhiteSpace v = true.
Proof.
  unfold act_clause. cbn [cat fold_right]. intros H.
  inversion H as [| | | | |r1 r2 x0 x1 z0 H1 R1| | | | |]; subst. clear H.
  inversion R1 as [| | | | |r1 r2 x0 x2 z0 H2 R2| | | | |]; subst. clear R1 R2.
  unfold star, ws in H1. destruct (rep_cls_run _ _ _ _ _ _ H1) as [v [Ev [_ Fv]]].
  unfold lit in H2. destruct (lit_first _ _ _ _ _ H2) as [a [r [Er Hc]]].
  apply chr_match_paren in Hc. subst a.
  exists v, r. rewrite Ev, Er. auto.
Qed.

Lemma ENGLISH_FULL_tail (name t : jsstring) (i : nat) (cs : captures) (o : state) :
  name <> [] -> trim name = name ->
  forallb not_line_terminator name = true -> ~ In 40%N name ->
  rmatch true (opt act_clause) (rmatch true (cat [Eol]) Matched)
         (mkState (i + length name) t (set_cap cs 4 name)) = Matched o ->
  rmatch true (cat [Group 4 (plus_lazy any); opt act_clause; Eol]) Matched
         (mkState i (name ++ t) cs) = Matched o.
Proof.
  intros Hne Ht Hl Hp Ho.
  cbn [cat fold_right]. cbn [rmatch].
  unfold plus_lazy, any. cbn [rmatch groups rest idx caps].
  apply (lazy_scan true (fun c => negb (isLineTerminator c)) name).
  - exact Hl.
  - intros w1 w2 E Hne2 Hlen. cbn [rest idx caps].
    apply rmatch_fails.
    + total_cont idtac.
    + intros y Hy.
      destruct (opt_spans _ _ _ _ Hy) as [P|[B _]].
      * unfold position in P. cbn [rest idx] in P. inversion P as [[Pi Pr]].
        cbn [rmatch]. rewrite Pr. destruct w2; [contradiction | reflexivity].
      * exfalso. destruct (B no_caps) as [cs' M]. cbn [position fst snd] in M.
        destruct (act_clause_starts _ _ M) as [v [r [Er Fv]]].
        cbn [rest] in Er.
        apply (ws_run_then v 40%N r w2 t (eq_sym Er) Fv).
        -- intros H. apply Hp. rewrite E. apply in_or_app. right. exact H.
        -- apply (trimmed_suffix name w1 w2 Ht E Hne2).
  - destruct name; [contradiction | simpl; lia].
  - cbn [length]; rewrite ?length_app; cbn [length]; lia.
  - cbn [rest idx caps].
    match goal with
    | |- rmatch _ _ _ (mkState _ _ (set_cap _ _ ?g)) = _ =>
      replace g with name; [exact Ho|]
    end.
    symmetry. apply firstn_prefix. lia.
Qed.

Lemma act_clause_absent (k : cont) (i : nat) (cs : captures) :
  (forall y, k y <> Stuck) ->
  rmatch true (opt act_clause) k (mkState i [] cs) = k (mkState i [] cs).
Proof.
  intros Hk. apply opt_skip_none; [exact Hk|].
  intros y H. destruct (act_clause_starts _ _ H) as [v [r [Er _]]].
  cbn [clear_caps rest] in Er. destruct v; discriminate Er.
Qed.

Lemma act_clause_match (A Y : jsstring) (k : cont) (i : nat) (cs : captures)
    (o : state) :
  all_digits A = true -> forallb isDigit Y = true -> length Y = 4%nat ->
  k (mkState (i + (length A + 19)) []
       (set_cap (set_cap (caps (clear_caps [5; 6]%nat (mkState i [] cs))) 5 A) 6 Y))
  = Matched o ->
  rmatch true (opt act_clause) k
    (mkState i ([32%N] ++ js "(Act" ++ [32%N] ++ js "No." ++ [32%N] ++ A
                ++ [32%N] ++ js "of" ++ [32%N] ++ Y ++ js ")") cs)
  = Matched o.
Proof.
  intros HA HY LY Ho.
  destruct (all_digits_forall A HA) as [Ane AF].
  destruct A as [|a0 A']; [contradiction|].
  assert (Wa : isWhiteSpace a0 = false).
  { cbn [forallb] in AF. apply andb_true_iff in AF. destruct AF as [D0 _].
    apply (isDigit_facts a0 D0). }
  destruct Y as [|y0 Y']; [discriminate LY|].
  assert (Wy : isWhiteSpace y0 = false).
  { cbn [forallb] in HY. apply andb_true_iff in HY. destruct HY as [D0 _].
    apply (isDigit_facts y0 D0). }
  apply opt_take. unfold act_clause. cbn [cat fold_right groups].
  match goal with
  | |- context [clear_caps ?g _] => change g with [5%nat; 6%nat]
  end.
  unfold clear_caps at 1. cbn [rmatch rest idx caps].
  unfold star at 1, ws at 1. cbn [rmatch groups rest idx caps].
  apply (greedy_run true isWhiteSpace [32%N]);
    [reflexivity | reflexivity | simpl; lia
    | cbn [length]; rewrite ?length_app; cbn [length]; lia |].
  unfold lit at 1. rewrite lit_hit.
  unfold plus at 1, ws at 1. cbn [rmatch groups rest idx caps].
  apply (greedy_run true isWhiteSpace [32%N]);
    [reflexivity | reflexivity | simpl; lia
    | cbn [length]; rewrite ?length_app; cbn [length]; lia |].
  unfold lit at 1. rewrite lit_hit.
  unfold star at 1, ws at 1. cbn [rmatch groups rest idx caps].
  apply (greedy_run true isWhiteSpace [32%N]);
    [reflexivity | exact Wa | simpl; lia
    | cbn [length]; rewrite ?length_app; cbn [length]; lia |].
  unfold plus at 1, digit at 1. cbn [rmatch groups rest idx caps].
  apply (greedy_run true isDigit (a0 :: A'));
    [exact AF | reflexivity | simpl; lia
    | cbn [length]; rewrite ?length_app; cbn [length]; lia |].
  unfold plus at 1, ws at 1. cbn [rmatch groups rest idx caps].
  apply (greedy_run true isWhiteSpace [32%N]);
    [reflexivity | reflexivity | simpl; lia
    | cbn [length]; rewrite ?length_app; cbn [length]; lia |].
  unfold lit at 1. rewrite lit_hit.
  unfold plus at 1, ws at 1. cbn [rmatch groups rest idx caps].
  apply (greedy_run true isWhiteSpace [32%N]);
    [reflexivity | exact Wy | simpl; lia
    | cbn [length]; rewrite ?length_app; cbn [length]; lia |].
  unfold exactly, digit. cbn [rmatch groups rest idx caps].
  pose proof (exactly_run true isDigit (y0 :: Y') HY) as X. rewrite LY in X.
  etransitivity; [apply X; lia|]. clear X.
  cbn [rest idx caps]. unfold lit. rewrite <- (app_nil_r (js ")")).
  rewrite lit_hit. cbn [idx].
  change (length (js "(Act")) with 4%nat. change (length (js "No.")) with 3%nat.
  change (length (js "of")) with 2%nat. change (length (js ")")) with 1%nat.
  match goal with
  | |- (if ?b then _ else _) = _ =>
    replace b with false by (symmetry; apply Nat.eqb_neq; cbn [length]; lia)
  end.
  match goal with
  | |- k (mkState ?j _ (set_cap (set_cap _ _ ?g5) _ ?g6)) = _ =>
    replace j with (i + (length (a0 :: A') + 19))%nat by (cbn [length]; lia);
    replace g5 with (a0 :: A');
    [replace g6 with (y0 :: Y'); [exact Ho|]|]
  end.
  - symmetry. apply firstn_prefix. cbn [length] in LY |- *. lia.
  - symmetry. apply firstn_prefix. cbn [length]. lia.
Qed.

(** [String(y)] for a year of four digits. *)
Lemma String_of_year (y : Z) :
  1000 <= y <= 9999 ->
  forallb isDigit (String_of_number (Int y)) = true
  /\ length (String_of_number (Int y)) = 4%nat.
Proof.
  intros Hy. unfold String_of_number.
  replace (y <? 0) with false by (symmetry; apply Z.ltb_ge; lia).
  unfold decimal.
  assert (L : 9 <= Z.log2 y).
  { change 9 with (Z.log2 512). apply Z.log2_le_mono. lia. }
  destruct (Z.to_nat (Z.log2 y)) as [|[|[|[|f]]]] eqn:F; try lia.
  cbn [decimal_loop].
  assert (Q1 : 100 <= y / 10 <= 999).
  { Z.to_euclidean_division_equations. lia. }
  assert (Q2 : 10 <= y / 10 / 10 <= 99).
  { Z.to_euclidean_division_equations. lia. }
  assert (Q3 : 1 <= y / 10 / 10 / 10 <= 9).
  { Z.to_euclidean_division_equations. lia. }
  replace (y <? 10) with false by (symmetry; apply Z.ltb_ge; lia).
  replace (y / 10 <? 10) with false by (symmetry; apply Z.ltb_ge; lia).
  replace (y / 10 / 10 <? 10) with false by (symmetry; apply Z.ltb_ge; lia).
  replace (y / 10 / 10 / 10 <? 10) with true by (symmetry; apply Z.ltb_lt; lia).
  split; [|reflexivity].
  cbn [forallb].
  rewrite !digit_char_isDigit; try reflexivity;
    try (apply Z.mod_pos_bound; lia); lia.
Qed.

Lemma regex_match_hit (re : RegExp) (s : jsstring) (y : state) :
  rmatch (ignoreCase re) (source re) Matched (mkState 0 s no_caps) = Matched y ->
  regex_match re s = Some (caps y).
Proof.
  intros H. unfold regex_match. destruct s; cbn [search]; rewrite H; reflexivity.
Qed.

Lemma TRAILING_JAPANESE_marker (s : jsstring) (m : captures) :
  regex_match TRAILING_JAPANESE s = Some m -> In c_dai s.
Proof.
  intros H.
  destruct (regex_match_always_sets _ _ _ 2 H eq_refl) as [v [Hv Hg]].
  apply (substring_In c_dai v s).
  - rewrite <- Hg. apply (regex_match_substring _ _ _ 2%nat H).
  - pose proof (regex_match_group_ok _ _ _ _ H TRAILING_JAPANESE_article 2%nat v Hv
                  (or_introl eq_refl)) as A.
    destruct (regex_match RE_REF_ARTICLE v) as [m'|] eqn:E; [|contradiction].
    apply (RE_REF_ARTICLE_marker v m' E).
Qed.

Lemma digits_without (c : char) (d : jsstring) :
  isDigit c = false -> forallb isDigit d = true -> ~ In c d.
Proof.
  intros Hc F Hin. rewrite forallb_forall in F. rewrite (F c Hin) in Hc.
  discriminate.
Qed.

Lemma act_text_shape (act : option (Z * Z)) :
  act_range act ->
  (act = None /\ act_text act = [])
  \/ (exists a y A Y,
        act = Some (a, y) /\ 1 <= a /\ 1000 <= y <= 9999
        /\ A = String_of_number (Int a) /\ Y = String_of_number (Int y)
        /\ all_digits A = true /\ forallb isDigit Y = true /\ length Y = 4%nat
        /\ act_text act
           = [32%N] ++ js "(Act" ++ [32%N] ++ js "No." ++ [32%N] ++ A
             ++ [32%N] ++ js "of" ++ [32%N] ++ Y ++ js ")").
Proof.
  destruct act as [[a y]|]; [|left; split; reflexivity].
  intros [Ha Hy]. right.
  destruct (String_of_year y Hy) as [FY LY].
  exists a, y, (String_of_number (Int a)), (String_of_number (Int y)).
  split; [reflexivity|]. split; [lia|]. split; [exact Hy|].
  split; [reflexivity|]. split; [reflexivity|].
  split; [apply String_of_number_digits; simpl; apply Z.ltb_lt; lia|].
  split; [exact FY|]. split; [exact LY|].
  unfold act_text.
  change (js " (Act No. ") with ([32%N] ++ js "(Act" ++ [32%N] ++ js "No." ++ [32%N]).
  change (js " of ") with ([32%N] ++ js "of" ++ [32%N]).
  rewrite <- !app_assoc. reflexivity.
Qed.

Lemma full_citation_trimmed (d name : jsstring) (act : option (Z * Z)) :
  name <> [] -> trim name = name -> act_range act ->
  trim (full_citation d name act) = full_citation d name act.
Proof.
  intros Hne Ht Hr. unfold full_citation.
  change (js "Article ") with (65%N :: js "rticle ").
  destruct (act_text_shape act Hr)
    as [[_ E]|(a & y & A & Y & _ & _ & _ & _ & _ & _ & _ & _ & E)];
    rewrite E.
  - rewrite app_nil_r.
    match goal with
    | |- trim ?t = _ =>
      replace t with (65%N :: (js "rticle " ++ d ++ js ", ") ++ name)
        by (cbn [app]; rewrite <- !app_assoc; reflexivity)
    end.
    apply (trim_framed 65%N (js "rticle " ++ d ++ js ", ") name);
      [reflexivity | exact Hne | exact Ht].
  - change (js ")") with [41%N].
    match goal with
    | |- trim ?t = _ =>
      replace t with
        (65%N :: (js "rticle " ++ d ++ js ", " ++ name ++ [32%N] ++ js "(Act"
                  ++ [32%N] ++ js "No." ++ [32%N] ++ A ++ [32%N] ++ js "of"
                  ++ [32%N] ++ Y) ++ [41%N])
        by (repeat (rewrite <- app_assoc || rewrite <- app_comm_cons);
            reflexivity)
    end.
    apply trim_ends; reflexivity.
Qed.

Lemma ENGLISH_FULL_match (d name : jsstring) (act : option (Z * Z)) :
  all_digits d = true -> english_name name -> act_range act ->
  exists m,
    regex_match ENGLISH_FULL (full_citation d name act) = Some m
    /\ m 1%nat = Some d /\ m 2%nat = None /\ m 3%nat = None
    /\ m 4%nat = Some name
    /\ m 5%nat = option_map (fun ay => String_of_number (Int (fst ay))) act
    /\ m 6%nat = option_map (fun ay => String_of_number (Int (snd ay))) act.
Proof.
  intros Hd [Hne [Ht [Hl [Hp [_ [Hf [P1 P2]]]]]]] Hr.
  destruct name as [|c0 name']; [contradiction|].
  destruct Hf as [C1 C2].
  pose proof (trim_fixed_head c0 name' Ht) as W0.
  assert (TS : match act_text act with
               | [] => True
               | b :: _ => b = 32%N
               end).
  { destruct act as [[a y]|]; [reflexivity | exact I]. }
  assert (Q1 : ci_prefix (js "Par") (c0 :: name' ++ act_text act) = false).
  { apply (ci_prefix_app (js "Par") (c0 :: name')); [exact P1|].
    destruct (act_text act) as [|b t]; [exact I | subst b; reflexivity]. }
  assert (Q2 : ci_prefix (js "Item") (c0 :: name' ++ act_text act) = false).
  { apply (ci_prefix_app (js "Item") (c0 :: name')); [exact P2|].
    destruct (act_text act) as [|b t]; [exact I | subst b; reflexivity]. }
  assert (Hk : forall y,
             rmatch true (cat [Group 4 (plus_lazy any); opt act_clause; Eol])
                    Matched y <> Stuck).
  { total_cont idtac. }
  assert (G : forall o,
            rmatch true (opt act_clause) (rmatch true (cat [Eol]) Matched)
              (mkState (length d + 10 + length (c0 :: name')) (act_text act)
                 (set_cap (set_cap no_caps 1 d) 4 (c0 :: name'))) = Matched o ->
            regex_match ENGLISH_FULL (full_citation d (c0 :: name') act)
            = Some (caps o)).
  { intros o Ho. apply regex_match_hit.
    change (source ENGLISH_FULL)
      with (cat ([Bol;
                  Alt (lit "Article") (cat [lit "Art"; opt (Chr 46%N)]);
                  plus ws; Group 1 (plus digit);
                  opt (cat [star ws; opt (Chr 44%N); star ws;
                            alts [lit "Paragraph"; cat [lit "Para"; opt (Chr 46%N)]]
                                 (cat [lit "Par"; opt (Chr 46%N)]);
                            plus ws; Group 2 (plus digit)]);
                  opt (cat [star ws; opt (Chr 44%N); star ws; lit "Item";
                            plus ws; Group 3 (plus digit)]);
                  star ws; comma; star ws]
                 ++ [Group 4 (plus_lazy any); opt act_clause; Eol])).
    rewrite rmatch_cat_app.
    unfold full_citation.
    replace (js "Article " ++ d ++ js ", " ++ (c0 :: name') ++ act_text act)
      with (js "Article" ++ 32%N :: d ++ 44%N :: 32%N :: c0 :: name' ++ act_text act)
      by reflexivity.
    apply (ENGLISH_FULL_head d c0 (name' ++ act_text act)); try assumption.
    apply (ENGLISH_FULL_tail (c0 :: name') (act_text act) (length d + 10)
             (set_cap no_caps 1 d) o Hne Ht Hl Hp Ho). }
  destruct (act_text_shape act Hr)
    as [[Ea E]|(a & y & A & Y & Ea & Ha & Hy & EA & EY & DA & FY & LY & E)].
  - eexists. split.
    + apply G. rewrite E, act_clause_absent by (total_cont idtac).
      cbn [cat fold_right rmatch rest]. reflexivity.
    + subst act. cbn [caps option_map]. unfold set_cap. cbn [Nat.eqb].
      repeat split; reflexivity.
  - eexists. split.
    + apply G. rewrite E.
      apply (act_clause_match A Y); [exact DA | exact FY | exact LY|].
      cbn [cat fold_right rmatch rest]. reflexivity.
    + subst act A Y. cbn [caps option_map fst snd clear_caps existsb].
      unfold set_cap. cbn [Nat.eqb orb]. repeat split; reflexivity.
Qed.

Lemma full_citation_without (c : char) (d name : jsstring) (act : option (Z * Z)) :
  isDigit c = false -> ~ In c name ->
  ~ In c (js "Article , (Act No. of )") ->
  all_digits d = true -> act_range act ->
  ~ In c (full_citation d name act).
Proof.
  intros Hc Hn Hlit Hd Hr Hin. unfold full_citation in Hin.
  destruct (all_digits_forall d Hd) as [_ DF].
  assert (L : forall l, In c l -> (forall x, In x l ->
               In x (js "Article , (Act No. of )")) -> False).
  { intros l Hl Hs. apply Hlit. apply Hs. exact Hl. }
  apply in_app_or in Hin. destruct Hin as [H|H].
  { apply (L _ H). intros x Hx. vm_compute in Hx |- *. tauto. }
  apply in_app_or in H. destruct H as [H|H]; [exact (digits_without c d Hc DF H)|].
  apply in_app_or in H. destruct H as [H|H].
  { apply (L _ H). intros x Hx. vm_compute in Hx |- *. tauto. }
  apply in_app_or in H. destruct H as [H|H]; [exact (Hn H)|].
  destruct (act_text_shape act Hr)
    as [[_ E]|(a & y & A & Y & _ & _ & _ & _ & _ & DA & FY & _ & E)];
    rewrite E in H; [contradiction|].
  destruct (all_digits_forall A DA) as [_ AF].
  repeat (apply in_app_or in H; destruct H as [H|H];
          [first [ exact (digits_without c _ Hc AF H)
                 | exact (digits_without c _ Hc FY H)
                 | apply (L _ H); intros x Hx; vm_compute in Hx |- *; tauto ]|]).
  apply (L _ H). intros x Hx. vm_compute in Hx |- *. tauto.
Qed.

Lemma parseCitation_full (d name : jsstring) (act : option (Z * Z)) :
  all_digits d = true -> english_name name -> act_range act ->
  parseCitation (full_citation d name act) = full_cited d name act.
Proof.
  intros Hd Hn Hr.
  destruct (ENGLISH_FULL_match d name act Hd Hn Hr)
    as (m & Hm & M1 & M2 & M3 & M4 & M5 & M6).
  destruct Hn as [Hne [Ht [Hl [Hp [Hdai _]]]]].
  unfold parseCitation. rewrite (full_citation_trimmed d name act Hne Ht Hr).
  destruct (regex_match JAPANESE_CITATION (full_citation d name act)) as [m0|] eqn:J.
  { exfalso. apply JAPANESE_CITATION_starts in J. destruct J as [t J].
    unfold full_citation in J. discriminate J. }
  destruct (regex_match TRAILING_JAPANESE (full_citation d name act)) as [m0|] eqn:T.
  { exfalso. apply TRAILING_JAPANESE_marker in T. revert T.
    apply full_citation_without; try assumption; try reflexivity.
    vm_compute. intuition discriminate. }
  rewrite Hm. unfold group, capture. rewrite M1, M2, M3, M4, M5, M6, Ht.
  unfold full_cited. destruct act as [[a y]|]; cbn [option_map fst snd].
  - destruct Hr as [Ha Hy].
    destruct (String_of_number_positive a) as [c1 [s1 E1]]; [lia|].
    destruct (String_of_number_positive y) as [c2 [s2 E2]]; [lia|].
    assert (O1 : or_undefined (Some (String_of_number (Int a)))
                 = Some (String_of_number (Int a))) by (rewrite E1; reflexivity).
    assert (O2 : or_undefined (Some (String_of_number (Int y)))
                 = Some (String_of_number (Int y))) by (rewrite E2; reflexivity).
    rewrite O1, O2. cbn [option_map]. rewrite !parseInt_String_of_number.
    reflexivity.
  - reflexivity.
Qed.

Lemma formatCitation_full (d name : jsstring) (act : option (Z * Z)) :
  all_digits d = true -> name <> [] -> trim name = name -> act_range act ->
  formatCitation (full_cited d name act) (js "full") = full_citation d name act.
Proof.
  intros Hd Hne Ht Hr.
  destruct (all_digits_forall d Hd) as [Dne _].
  unfold formatCitation, full_cited.
  cbn [valid article paragraph item title title_en year act_number negb].
  assert (T : str_truthy (Some d) = true) by (destruct d; [contradiction | reflexivity]).
  rewrite T. cbn [negb orb].
  change (str_eqb (js "full") (js "full")) with true.
  change (str_eqb (js "full") (js "japanese")) with false.
  cbv iota. unfold buildPinpoint.
  cbn [valid article paragraph item title title_en year act_number negb
       str_truthy coalesce].
  rewrite <- (full_citation_trimmed d name act Hne Ht Hr). f_equal.
  unfold full_citation. destruct act as [[a y]|]; cbn [option_map fst snd opt_truthy].
  - destruct Hr as [Ha Hy]. unfold num_truthy.
    replace (a =? 0) with false by (symmetry; apply Z.eqb_neq; lia).
    replace (y =? 0) with false by (symmetry; apply Z.eqb_neq; lia).
    cbn [negb andb opt_number_text act_text]. reflexivity.
  - cbn [andb act_text]. reflexivity.
Qed.

(** X25: The full style and the parser agree.  For every article number
    in digits, every name that the full style can carry (trimmed, on one
    line, without an opening parenthesis or 第, not starting with a comma,
    "Par" or "Item") and every act number below 10^15 with a year of four
    digits, or none: the full style writes
    Article <digits>, <name>[ (Act No. <a> of <y>)], and [parseCitation]
    reads exactly that citation back from it. *)
Theorem full_citation_round_trip (d name : jsstring) (act : option (Z * Z)) :
  all_digits d = true -> english_name name -> act_range act ->
  formatCitation (full_cited d name act) (js "full") = full_citation d name act
  /\ parseCitation (full_citation d name act) = full_cited d name act.
Proof.
  intros Hd Hn Hr. split.
  - destruct Hn as [Hne [Ht _]]. apply formatCitation_full; assumption.
  - apply parseCitation_full; assumption.
Qed.

Lemma full_citation_round_trip_witness :
  formatCitation
    (full_cited (js "17") (js "Act on the Protection of Personal Information")
                (Some (57, 2003)))
    (js "full")
  = full_citation (js "17") (js "Act on the Protection of Personal Information")
                  (Some (57, 2003))
  /\ parseCitation
       (full_citation (js "17") (js "Act on the Protection of Personal Information")
                      (Some (57, 2003)))
     = full_cited (js "17") (js "Act on the Protection of Personal Information")
                  (Some (57, 2003)).
Proof.
  apply (full_citation_round_trip (js "17")
           (js "Act on the Protection of Personal Information") (Some (57, 2003))).
  - reflexivity.
  - unfold english_name. repeat split; try reflexivity; try discriminate;
      vm_compute; intuition discriminate.
  - simpl. lia.
Defined.

(** ** The native pattern on an article and a paragraph *)

Lemma search_skip (re : RegExp) (i : nat) (c : char) (s : jsstring) :
  rmatch (ignoreCase re) (source re) Matched (mkState i (c :: s) no_caps) = Failed ->
  search re i (c :: s) = search re (S i) s.
Proof. intros H. cbn [search]. rewrite H. reflexivity. Qed.

Lemma RE_REF_PARAGRAPH_skip (l s : jsstring) (i : nat) :
  ~ In c_jo l ->
  search RE_REF_PARAGRAPH i (l ++ s) = search RE_REF_PARAGRAPH (i + length l) s.
Proof.
  revert i. induction l as [|c l IH]; intros i Hl.
  - cbn [app length]. rewrite Nat.add_0_r. reflexivity.
  - cbn [app length]. rewrite search_skip.
    + rewrite IH; [f_equal; lia|]. intros H. apply Hl. right. exact H.
    + cbn [RE_REF_PARAGRAPH source ignoreCase cat fold_right rmatch].
      apply chr_miss_first. intros E. apply Hl. left. exact E.
Qed.

Lemma RE_REF_PARAGRAPH_match (l tail : jsstring) (a : char) (w : jsstring) :
  ~ In c_jo l ->
  forallb not_line_terminator (a :: w) = true -> ~ In c_kou w ->
  exists m,
    regex_match RE_REF_PARAGRAPH (l ++ c_jo :: c_dai :: (a :: w) ++ c_kou :: tail)
    = Some m
    /\ group m 1 = c_dai :: (a :: w) ++ [c_kou].
Proof.
  intros Hl Hw Hk. unfold regex_match. rewrite RE_REF_PARAGRAPH_skip by exact Hl.
  cbn [search RE_REF_PARAGRAPH source ignoreCase cat fold_right rmatch].
  rewrite step_char_hit by apply chr_match_refl.
  rewrite step_char_hit by apply chr_match_refl.
  unfold plus_lazy, any. cbn [rmatch groups rest idx caps].
  match goal with
  | |- context [repeat_matcher ?m ?gs ?f ?mn ?mx ?g ?k ?x] =>
    eassert (E : repeat_matcher m gs f mn mx g k x = Matched _)
  end.
  { apply (lazy_scan false (fun c => negb (isLineTerminator c)) (a :: w)).
    - exact Hw.
    - intros w1 w2 E Hne Hlen.
      destruct w1 as [|a1 w1]; [simpl in Hlen; lia|].
      destruct w2 as [|b2 w2]; [contradiction|].
      cbn [app rest idx caps]. apply chr_miss_first.
      intros Eb. subst b2.
      apply Hk. inversion E; subst. apply in_or_app. right. left. reflexivity.
    - simpl. lia.
    - cbn [length]; rewrite ?length_app; cbn [length]; lia.
    - rewrite step_char_hit by apply chr_match_refl.
      cbn [rest idx caps]. reflexivity. }
  rewrite E. clear E. eexists. split; [reflexivity|].
  unfold group. cbn [caps idx rest]. unfold set_cap. cbn [Nat.eqb].
  change (c_dai :: (a :: w) ++ c_kou :: tail)
    with ((c_dai :: (a :: w)) ++ [c_kou] ++ tail).
  rewrite app_assoc.
  change (c_dai :: (a :: w) ++ [c_kou]) with ((c_dai :: (a :: w)) ++ [c_kou]).
  apply firstn_prefix. rewrite length_app. cbn [length]. lia.
Qed.

Lemma firstn_split_at {A : Type} (l p r : list A) (n : nat) :
  l = p ++ r -> n = length p -> firstn n l = p.
Proof. intros E H. subst l. apply firstn_prefix. exact H. Qed.

Lemma JAPANESE_CITATION_paragraph_match (a b a' : char)
    (w w' sp name : jsstring) :
  forallb not_line_terminator (a :: w) = true -> ~ In c_jo w ->
  forallb not_line_terminator (a' :: w') = true -> ~ In c_kou w' ->
  forallb isWhiteSpace (b :: sp) = true ->
  name <> [] -> forallb not_line_terminator name = true ->
  match name with
  | c :: _ => isWhiteSpace c = false /\ c <> 44%N /\ c <> c_touten
  | [] => True
  end ->
  exists m,
    regex_match JAPANESE_CITATION
      (c_dai :: (a :: w) ++ c_jo :: c_dai :: (a' :: w') ++ c_kou :: (b :: sp) ++ name)
    = Some m
    /\ group m 1 = c_dai :: (a :: w) ++ c_jo :: c_dai :: (a' :: w') ++ [c_kou]
    /\ group m 2 = name.
Proof.
  intros Hw Hc Hw' Hc' Hsp Hne Hn Hfirst.
  assert (Hb : b <> c_dai).
  { cbn [forallb] in Hsp. apply andb_true_iff in Hsp. destruct Hsp as [Hb _].
    intros E. subst b. discriminate Hb. }
  destruct name as [|c name']; [contradiction|]. destruct Hfirst as [F1 [F2 F3]].
  enough (R : exists y,
            rmatch (ignoreCase JAPANESE_CITATION) (source JAPANESE_CITATION) Matched
              (mkState 0 (c_dai :: (a :: w) ++ c_jo :: c_dai :: (a' :: w')
                          ++ c_kou :: (b :: sp) ++ c :: name') no_caps) = Matched y
            /\ group (caps y) 1
               = c_dai :: (a :: w) ++ c_jo :: c_dai :: (a' :: w') ++ [c_kou]
            /\ group (caps y) 2 = c :: name').
  { destruct R as [y [Hy G]]. exists (caps y).
    split; [apply regex_match_hit; exact Hy | exact G]. }
  cbn [JAPANESE_CITATION source ignoreCase cat fold_right rmatch idx
       Nat.eqb reference_block].
  rewrite step_char_hit by apply chr_match_refl.
  unfold plus_lazy at 1, any at 1. cbn [rmatch groups rest idx].
  eexists. split.
  - apply (lazy_scan false (fun c => negb (isLineTerminator c)) (a :: w)).
    + exact Hw.
    + intros w1 w2 E Hne' Hl.
      destruct w1 as [|a1 w1]; [simpl in Hl; lia|].
      destruct w2 as [|b2 w2]; [contradiction|].
      cbn [app rest idx caps]. apply chr_miss_first.
      intros Eb. subst b2.
      apply Hc. inversion E; subst. apply in_or_app. right. left. reflexivity.
    + simpl. lia.
    + cbn [length]; rewrite ?length_app; cbn [length]; lia.
    + rewrite step_char_hit by apply chr_match_refl.
      apply opt_take. cbn [rmatch rest idx caps groups].
      change (groups (plus_lazy any)) with (@nil nat).
      unfold clear_caps at 1. cbn [app existsb rest idx caps].
      rewrite step_char_hit by apply chr_match_refl.
      unfold plus_lazy at 1, any at 1. cbn [rmatch groups rest idx caps].
      apply (lazy_scan false (fun c => negb (isLineTerminator c)) (a' :: w')).
      * exact Hw'.
      * intros w1 w2 E Hne' Hl.
        destruct w1 as [|a1 w1]; [simpl in Hl; lia|].
        destruct w2 as [|b2 w2]; [contradiction|].
        cbn [app rest idx caps]. apply chr_miss_first.
        intros Eb. subst b2.
        apply Hc'. inversion E; subst. apply in_or_app. right. left. reflexivity.
      * simpl. lia.
      * cbn [length]; rewrite ?length_app; cbn [length]; lia.
      * rewrite step_char_hit by apply chr_match_refl.
        cbn [idx].
        match goal with
        | |- (if ?t then _ else _) = _ =>
          replace t with false by (symmetry; apply Nat.eqb_neq; lia)
        end.
        rewrite opt_skip
          by (intros d; cbn [rmatch clear_caps rest idx caps app];
              apply chr_miss_first; exact Hb).
        unfold star at 1, ws at 1. cbn [rmatch groups rest idx caps].
        apply (greedy_run false isWhiteSpace (b :: sp)).
        -- exact Hsp.
        -- exact F1.
        -- simpl. lia.
        -- cbn [length]; rewrite ?length_app; cbn [length]; lia.
        -- rewrite opt_skip.
           2:{ intros d. unfold comma. cbn [rmatch clear_caps rest idx caps groups].
               apply step_char_miss. cbn [rest]. apply orb_false_iff.
               split; apply N.eqb_neq; assumption. }
           unfold star, ws. cbn [rmatch groups rest idx caps].
           apply (greedy_run false isWhiteSpace []).
           ++ reflexivity.
           ++ exact F1.
           ++ simpl. lia.
           ++ simpl. lia.
           ++ unfold plus, any. cbn [rmatch groups rest idx caps].
              apply (greedy_to_end false (fun c => negb (isLineTerminator c))).
              ** exact Hn.
              ** simpl. lia.
              ** simpl. lia.
              ** cbn [rest idx caps]. reflexivity.
  - unfold group. cbn [caps idx rest]. unfold set_cap. cbn [Nat.eqb].
    split.
    + apply (firstn_split_at _ _ ((b :: sp) ++ c :: name')).
      * cbn [app]. repeat (rewrite <- app_assoc; cbn [app]). reflexivity.
      * cbn [length]. rewrite !length_app. cbn [length]. rewrite length_app.
        cbn [length]. lia.
    + apply (firstn_split_at _ _ []); [symmetry; apply app_nil_r|].
      cbn [length]. lia.
Qed.

Lemma numeral_chars (n : Z) :
  1 <= n <= 9999 ->
  exists a w,
    arabicToKanji (Int n) = a :: w
    /\ forallb canonical_numeral (a :: w) = true
    /\ forallb not_line_terminator (a :: w) = true
    /\ forallb (fun c => negb (isWhiteSpace c)) (a :: w) = true
    /\ ~ In c_dai (a :: w) /\ ~ In c_jo (a :: w)
    /\ ~ In c_kou (a :: w) /\ ~ In c_go (a :: w).
Proof.
  intros Hn. destruct (arabicToKanji_shape n Hn) as [Kne [_ KF]].
  destruct (arabicToKanji (Int n)) as [|a w]; [contradiction|].
  exists a, w. split; [reflexivity|]. split; [exact KF|].
  split; [apply canonical_not_line_terminator; exact KF|].
  split.
  { apply forallb_forall. intros x Hx. rewrite forallb_forall in KF.
    apply negb_true_iff. apply (canonical_numeral_facts x (KF x Hx)). }
  repeat split; apply canonical_numeral_absent; solve [reflexivity | exact KF].
Qed.

Lemma parseCitation_native_paragraph (n p : Z) (name : jsstring) :
  1 <= n <= 9999 -> 1 <= p <= 9999 -> plain_name name ->
  parseCitation (native_paragraph_citation n p name) = paragraph_of n p name.
Proof.
  intros Hn Hp [Hne [Ht [Hl Hf]]].
  destruct (numeral_chars n Hn)
    as (a & w & EK & KF & Kl & Kw & Kdai & Kjo & Kkou & Kgo).
  destruct (numeral_chars p Hp)
    as (a' & w' & EP & PF & Pl & Pw & Pdai & Pjo & Pkou & Pgo).
  assert (Es : native_paragraph_citation n p name
               = c_dai :: (a :: w) ++ c_jo :: c_dai :: (a' :: w') ++ c_kou
                 :: [32%N] ++ name).
  { unfold native_paragraph_citation. rewrite EK, EP. cbn [app].
    repeat (rewrite <- app_assoc; cbn [app]). reflexivity. }
  assert (T : trim (native_paragraph_citation n p name)
              = native_paragraph_citation n p name).
  { rewrite Es.
    replace ((a :: w) ++ c_jo :: c_dai :: (a' :: w') ++ c_kou :: [32%N] ++ name)
      with (((a :: w) ++ c_jo :: c_dai :: (a' :: w') ++ [c_kou; 32%N]) ++ name)
      by (cbn [app]; repeat (rewrite <- app_assoc; cbn [app]); reflexivity).
    apply trim_framed; [reflexivity | exact Hne | exact Ht]. }
  unfold parseCitation. rewrite T, Es.
  assert (Hfirst : match name with
                   | c :: _ => isWhiteSpace c = false /\ c <> 44%N /\ c <> c_touten
                   | [] => True
                   end).
  { destruct name as [|c name']; [exact I|]. split; [|exact Hf].
    apply (trim_fixed_head c name' Ht). }
  destruct (JAPANESE_CITATION_paragraph_match a 32%N a' w w' [] name Kl
              (fun H => Kjo (or_intror H)) Pl (fun H => Pkou (or_intror H))
              eq_refl Hne Hl Hfirst)
    as [m [Hm [G1 G2]]].
  match goal with
  | |- context [regex_match JAPANESE_CITATION ?t] =>
    assert (Hm' : regex_match JAPANESE_CITATION t = Some m) by exact Hm
  end.
  rewrite Hm', G1, G2. clear Hm Hm' G1 G2.
  set (ref := c_dai :: (a :: w) ++ c_jo :: c_dai :: (a' :: w') ++ [c_kou]).
  assert (Tr : trim ref = ref).
  { apply trim_no_white_space. unfold ref. cbn [forallb].
    rewrite forallb_app. cbn [forallb]. rewrite forallb_app. cbn [forallb].
    cbn [forallb] in Kw, Pw. apply andb_true_iff in Kw. destruct Kw as [K1 K2].
    apply andb_true_iff in Pw. destruct Pw as [P1 P2].
    rewrite K1, K2, P1, P2. reflexivity. }
  unfold parseJapaneseRef.
  assert (A : regex_match RE_REF_ARTICLE ref <> None).
  { unfold ref. apply RE_REF_ARTICLE_match; [exact Kl|].
    intros H. apply Kjo. right. exact H. }
  destruct (regex_match RE_REF_ARTICLE ref) as [ma|]; [|contradiction].
  assert (Kjo' : ~ In c_jo (c_dai :: a :: w)).
  { intros H. destruct H as [H|H].
    - discriminate H.
    - exact (Kjo H). }
  destruct (RE_REF_PARAGRAPH_match (c_dai :: a :: w) [] a' w' Kjo' Pl
              (fun H => Pkou (or_intror H)))
    as [mp [Hmp Gp]].
  assert (Hmp' : regex_match RE_REF_PARAGRAPH ref = Some mp).
  { rewrite <- Hmp. unfold ref. f_equal. }
  rewrite Hmp', Gp.
  destruct (regex_match RE_REF_ITEM ref) as [mi|] eqn:Ti.
  { exfalso. apply RE_REF_ITEM_marker in Ti. unfold ref in Ti.
    destruct Ti as [H|H]; [discriminate H|].
    apply in_app_or in H. destruct H as [H|H]; [exact (Kgo H)|].
    destruct H as [H|[H|H]]; [discriminate H | discriminate H|].
    apply in_app_or in H. destruct H as [H|[H|[]]]; [exact (Pgo H) | discriminate H]. }
  unfold paragraph_of. rewrite Ht. f_equal.
  - f_equal. unfold parseArticleNumber.
    apply (parseWrappedNumber_kanji c_jo n ref (c_dai :: (a' :: w') ++ [c_kou]));
      [left; reflexivity | exact Hn|].
    right. rewrite Tr, EK. unfold ref. cbn [app]. reflexivity.
  - f_equal. unfold parseParagraphNumber.
    apply (parseWrappedNumber_kanji c_kou p _ []);
      [right; left; reflexivity | exact Hp|].
    right. rewrite EP.
    change ([c_dai] ++ (a' :: w') ++ [c_kou] ++ [])
      with (c_dai :: (a' :: w') ++ [c_kou]).
    apply trim_no_white_space. cbn [forallb]. rewrite forallb_app. cbn [forallb].
    cbn [forallb] in Pw. apply andb_true_iff in Pw. destruct Pw as [P1 P2].
    rewrite P1, P2. reflexivity.
Qed.

Lemma formatCitation_native_paragraph (n p : Z) (name : jsstring) :
  1 <= n <= 9999 -> 1 <= p <= 9999 -> name <> [] -> trim name = name ->
  formatCitation (paragraph_of n p name) (js "japanese")
  = native_paragraph_citation n p name.
Proof.
  intros Hn Hp Hne Ht.
  destruct (String_of_number_positive n) as [c [s Es]]; [lia|].
  destruct (String_of_number_positive p) as [c' [s' Es']]; [lia|].
  unfold formatCitation, paragraph_of.
  cbn [valid article paragraph item title title_en negb str_truthy coalesce].
  rewrite Es, Es'. cbn [str_truthy negb orb]. rewrite <- Es, <- Es'.
  change (str_eqb (js "japanese") (js "full")) with false.
  change (str_eqb (js "japanese") (js "short")) with false.
  change (str_eqb (js "japanese") (js "pinpoint")) with false.
  change (str_eqb (js "japanese") (js "japanese")) with true.
  cbv iota.
  unfold formatArticleKanji, native_numeral. rewrite !parseInt_String_of_number.
  cbn [isNaN num_le orb].
  replace (n <=? 0) with false by (symmetry; apply Z.leb_gt; lia).
  unfold native_paragraph_citation.
  match goal with
  | |- trim ?t = _ =>
    replace t with
      (c_dai :: (arabicToKanji (Int n) ++ c_jo :: c_dai :: arabicToKanji (Int p)
                 ++ c_kou :: js " ") ++ name)
      by (cbn [app]; repeat (rewrite <- app_assoc; cbn [app]); reflexivity)
  end.
  rewrite trim_framed; [|reflexivity | exact Hne | exact Ht].
  cbn [app]. repeat (rewrite <- app_assoc; cbn [app]). reflexivity.
Qed.

(** X26: The native style keeps the paragraph.  For every article and
    every paragraph from 1 to 9999 and every plain name, the text
    第<numeral>条第<numeral>項 <name> is parsed to that article and that
    paragraph, both in digits, that title and no item, and the native style
    writes the same text back. *)
Theorem native_paragraph_round_trip (n p : Z) (name : jsstring) :
  1 <= n <= 9999 -> 1 <= p <= 9999 -> plain_name name ->
  parseCitation (native_paragraph_citation n p name) = paragraph_of n p name
  /\ formatCitation (paragraph_of n p name) (js "japanese")
     = native_paragraph_citation n p name.
Proof.
  intros Hn Hp Hname. split.
  - apply parseCitation_native_paragraph; assumption.
  - destruct Hname as [Hne [Ht _]].
    apply formatCitation_native_paragraph; assumption.
Qed.

Lemma native_paragraph_round_trip_witness :
  parseCitation (native_paragraph_citation 17 2 (js "個人情報の保護に関する法律"))
  = paragraph_of 17 2 (js "個人情報の保護に関する法律")
  /\ formatCitation (paragraph_of 17 2 (js "個人情報の保護に関する法律"))
                    (js "japanese")
     = native_paragraph_citation 17 2 (js "個人情報の保護に関する法律").
Proof.
  apply (native_paragraph_round_trip 17 2 (js "個人情報の保護に関する法律")).
  - lia.
  - lia.
  - unfold plain_name. repeat split; try reflexivity; discriminate.
Defined.

(** ** What the full style writes for a paragraph is not read back *)

Lemma app_same_length {A : Type} (l1 l2 r1 r2 : list A) :
  l1 ++ r1 = l2 ++ r2 -> length l1 = length l2 -> r1 = r2.
Proof.
  revert l2. induction l1 as [|a l1 IH]; intros [|b l2] E L;
    try discriminate L; [exact E|].
  cbn [app] in E. injection E as _ E. apply (IH l2 E). simpl in L. lia.
Qed.

Lemma lit_consumed (ic : bool) (l : jsstring) (x y : state) :
  matches ic (cat (map Chr l)) x y ->
  exists v, rest x = v ++ rest y /\ length v = length l.
Proof.
  revert x. induction l as [|c l IH]; intros x H.
  - cbn [map cat fold_right] in H. inversion H; subst. exists []. auto.
  - cbn [map cat fold_right] in H.
    inversion H as [| | | | |r1 r2 x0 y1 z0 H1 H2| | | | |]; subst.
    inversion H1 as [c0 a t x0 Hr Hc| | | | | | | | | |]; subst.
    destruct (IH _ H2) as [v [Ev Lv]]. cbn [rest] in Ev.
    exists (a :: v). rewrite Hr, Ev. cbn [app length]. auto.
Qed.

(** Trimming keeps everything up to a character that is no white space. *)
Lemma trim_keeps_prefix (c0 c : char) (u v : jsstring) :
  isWhiteSpace c0 = false -> isWhiteSpace c = false ->
  exists v', trim (c0 :: u ++ c :: v) = c0 :: u ++ c :: v'.
Proof.
  intros W0 Wc. unfold trim. rewrite (trimStart_fixed c0 _ W0). unfold trimEnd.
  replace (c0 :: u ++ c :: v) with ((c0 :: u ++ [c]) ++ v)
    by (cbn [app]; rewrite <- app_assoc; reflexivity).
  rewrite rev_app_distr, trimStart_app.
  assert (R : rev (c0 :: u ++ [c]) = c :: rev (c0 :: u)).
  { change (c0 :: u ++ [c]) with ((c0 :: u) ++ [c]). rewrite rev_app_distr.
    reflexivity. }
  destruct (forallb isWhiteSpace (rev v)).
  - exists []. rewrite R, (trimStart_fixed c _ Wc). rewrite <- R, rev_involutive.
    cbn [app]. reflexivity.
  - exists (rev (trimStart (rev v))). rewrite rev_app_distr, rev_involutive.
    cbn [app]. rewrite <- app_assoc. reflexivity.
Qed.

Lemma rep_cls_run_min (ic g : bool) (p : char -> bool) (min : nat) (x y : state) :
  matches ic (Rep min None g (Cls p)) x y ->
  exists v, rest x = v ++ rest y /\ forallb p v = true /\ (min <= length v)%nat.
Proof.
  intros H. pose proof (matches_rep_cls ic p g min x y H) as [F L].
  destruct (matches_consume ic _ _ _ H) as [v [E I]].
  rewrite (consumed_eq x y v E I) in F, L. eauto.
Qed.

(** The paragraph or item clause has no match in front of a character that
    is neither white space, nor a comma, nor the start of the word. *)
Lemma clause_absent_at (word tail : regex) (p : jsstring) (c : char)
    (s : jsstring) (x y : state) :
  (forall u v, matches true word u v -> ci_prefix p (rest u) = true) ->
  ci_prefix p (c :: s) = false ->
  isWhiteSpace c = false -> c <> 44%N ->
  rest x = c :: s ->
  ~ matches true
      (Seq (star ws) (Seq (opt (Chr 44%N)) (Seq (star ws) (Seq word tail)))) x y.
Proof.
  intros Hw Q W0 C Hx H.
  inversion H as [| | | | |r1 r2 x0 x1 z0 H1 R1| | | | |]; subst. clear H.
  inversion R1 as [| | | | |r1 r2 x0 x2 z0 H2 R2| | | | |]; subst. clear R1.
  inversion R2 as [| | | | |r1 r2 x0 x3 z0 H3 R3| | | | |]; subst. clear R2.
  inversion R3 as [| | | | |r1 r2 x0 x4 z0 H4 R4| | | | |]; subst. clear R3 R4.
  apply Hw in H4.
  assert (E1 : rest x1 = c :: s).
  { unfold star, ws in H1. apply rep_cls_stays in H1.
    - unfold position in H1. inversion H1. congruence.
    - rewrite Hx. exact W0. }
  assert (E2 : rest x2 = c :: s).
  { destruct (opt_spans _ _ _ _ H2) as [E|[B _]].
    - unfold position in E. inversion E. congruence.
    - exfalso. destruct (B no_caps) as [cs' M]. cbn [position fst snd] in M.
      inversion M as [c1 a t x0 Hr Hc| | | | | | | | | |]; subst.
      cbn [rest] in Hr. rewrite E1 in Hr. inversion Hr; subst.
      unfold chr_match, char_eqb, canonicalize in Hc.
      change ((97 <=? 44)%N && (44 <=? 122)%N) with false in Hc. cbv iota in Hc.
      destruct ((97 <=? a)%N && (a <=? 122)%N) eqn:R; apply N.eqb_eq in Hc.
      + apply andb_true_iff in R. destruct R as [R1 R2]. apply N.leb_le in R1. lia.
      + congruence. }
  assert (E3 : rest x3 = c :: s).
  { unfold star, ws in H3. apply rep_cls_stays in H3.
    - unfold position in H3. inversion H3. congruence.
    - rewrite E2. exact W0. }
  congruence.
Qed.

Lemma comma_class (c : char) :
  (c =? 44)%N || (c =? c_touten)%N = true -> c = 44%N \/ c = c_touten.
Proof.
  intros H. apply orb_true_iff in H.
  destruct H as [H|H]; apply N.eqb_eq in H; auto.
Qed.

Lemma digit_run_then (v : jsstring) :
  forall d r t,
    v ++ r = d ++ 40%N :: t -> forallb isDigit v = true ->
    forallb isDigit d = true ->
    exists a r', r = a :: r' /\ (isDigit a = true \/ a = 40%N).
Proof.
  induction v as [|a v IH]; intros d r t E Fv Fd.
  - cbn [app] in E. subst r. destruct d as [|b d]; cbn [app].
    + eexists. eexists. split; [reflexivity | right; reflexivity].
    + cbn [forallb] in Fd. apply andb_true_iff in Fd.
      eexists. eexists. split; [reflexivity | left; apply Fd].
  - cbn [forallb] in Fv. apply andb_true_iff in Fv. destruct Fv as [Fa Fv].
    destruct d as [|b d]; cbn [app] in E; injection E as Ea E.
    + subst a. discriminate Fa.
    + cbn [forallb] in Fd. apply andb_true_iff in Fd.
      apply (IH d r t E Fv). apply Fd.
Qed.

(** A digit or an opening parenthesis is none of the characters that can
    follow the article number in the full pattern. *)
Lemma after_number (a : char) :
  isDigit a = true \/ a = 40%N ->
  isWhiteSpace a = false /\ a <> 44%N /\ a <> c_touten
  /\ chr_match true 80%N a = false /\ chr_match true 73%N a = false.
Proof.
  intros [H|H].
  - pose proof (isDigit_cases a H) as C. simpl in C.
    repeat (destruct C as [C|C];
            [subst a; repeat split; solve [reflexivity | discriminate]|]).
    contradiction.
  - subst a. repeat split; solve [reflexivity | discriminate].
Qed.

Lemma ENGLISH_FULL_rejects (d t s1 s2 : jsstring) (y : state) :
  all_digits d = true ->
  js "Article " ++ d ++ 40%N :: t = s1 ++ s2 ->
  ~ matches true (source ENGLISH_FULL) (mkState (length s1) s2 no_caps) y.
Proof.
  intros Hd Es H.
  destruct (all_digits_forall d Hd) as [Dne DF].
  cbn [source ENGLISH_FULL cat fold_right] in H.
  inversion H as [| | | | |r1 r2 x0 x1 z0 H1 R1| | | | |]; subst. clear H.
  inversion R1 as [| | | | |r1 r2 x0 x2 z0 H2 R2| | | | |]; subst. clear R1.
  inversion R2 as [| | | | |r1 r2 x0 x3 z0 H3 R3| | | | |]; subst. clear R2.
  inversion R3 as [| | | | |r1 r2 x0 x4 z0 H4 R4| | | | |]; subst. clear R3.
  inversion R4 as [| | | | |r1 r2 x0 x5 z0 H5 R5| | | | |]; subst. clear R4.
  inversion R5 as [| | | | |r1 r2 x0 x6 z0 H6 R6| | | | |]; subst. clear R5.
  inversion R6 as [| | | | |r1 r2 x0 x7 z0 H7 R7| | | | |]; subst. clear R6.
  inversion R7 as [| | | | |r1 r2 x0 x8 z0 H8 R8| | | | |]; subst. clear R7 R8.
  inversion H1 as [| |x0 Hi| | | | | | | |]; subst. clear H1.
  cbn [idx] in Hi. destruct s1; [|discriminate Hi]. cbn [app] in Es. subst s2.
  (* the head *)
  assert (E2 : rest x2 = 32%N :: d ++ 40%N :: t).
  { inversion H2 as [| | | | | |r1 r2 x0 y0 A|r1 r2 x0 y0 A| | |]; subst.
    - unfold lit in A. destruct (lit_consumed _ _ _ _ A) as [v [Ev Lv]].
      cbn [rest] in Ev.
      change (js "Article " ++ d ++ 40%N :: t)
        with (js "Article" ++ 32%N :: d ++ 40%N :: t) in Ev.
      apply app_same_length in Ev; [symmetry; exact Ev | symmetry; exact Lv].
    - exfalso. cbn [cat fold_right] in A.
      inversion A as [| | | | |r1 r2 x0 u1 z0 A1 A2| | | | |]; subst. clear A.
      inversion A2 as [| | | | |r1 r2 x0 u2 z0 A3 A4| | | | |]; subst. clear A2.
      inversion A4; subst. clear A4.
      unfold lit in A1. destruct (lit_consumed _ _ _ _ A1) as [v [Ev Lv]].
      cbn [rest] in Ev.
      change (js "Article " ++ d ++ 40%N :: t)
        with (js "Art" ++ js "icle " ++ d ++ 40%N :: t) in Ev.
      apply app_same_length in Ev; [|symmetry; exact Lv].
      assert (E : rest x2 = js "icle " ++ d ++ 40%N :: t).
      { destruct (opt_spans _ _ _ _ A3) as [P|[B _]].
        - unfold position in P. inversion P. congruence.
        - exfalso. destruct (B no_caps) as [cs' M]. cbn [position fst snd] in M.
          inversion M as [c1 a t1 x0 Hr Hc| | | | | | | | | |]; subst.
          cbn [rest] in Hr. rewrite <- Ev in Hr. inversion Hr; subst.
          discriminate Hc. }
      unfold plus, ws in H3.
      destruct (rep_cls_run_min _ _ _ _ _ _ H3) as [v' [Ev' [Fv' Lv']]].
      rewrite E in Ev'. destruct v' as [|b v']; [simpl in Lv'; lia|].
      cbn [app forallb] in Ev', Fv'. inversion Ev'; subst. discriminate Fv'. }
  (* the white space *)
  assert (E3 : rest x3 = d ++ 40%N :: t).
  { unfold plus, ws in H3.
    destruct (rep_cls_run_min _ _ _ _ _ _ H3) as [v [Ev [Fv Lv]]].
    rewrite E2 in Ev. destruct v as [|b v]; [simpl in Lv; lia|].
    cbn [app forallb] in Ev, Fv. injection Ev as _ Ev.
    apply andb_true_iff in Fv. destruct Fv as [_ Fv].
    destruct v as [|b' v]; [symmetry; exact Ev|]. exfalso.
    destruct d as [|d0 d']; [contradiction|].
    cbn [app forallb] in Ev, Fv, DF. injection Ev as Eb _. subst b'.
    apply andb_true_iff in DF. destruct DF as [D0 _].
    apply andb_true_iff in Fv. destruct Fv as [Fb _].
    destruct (isDigit_facts d0 D0) as [W _]. congruence. }
  (* the number *)
  assert (E4 : exists a r', rest x4 = a :: r' /\ (isDigit a = true \/ a = 40%N)).
  { inversion H4 as [| | | | | | | | | |n0 r0 x0 y0 G]; subst. cbn [rest].
    unfold plus, digit in G.
    destruct (rep_cls_run _ _ _ _ _ _ G) as [v [Ev [_ Fv]]].
    rewrite E3 in Ev. apply (digit_run_then v d (rest y0) t (eq_sym Ev) Fv DF). }
  destruct E4 as [a [r' [E4 Qa]]].
  destruct (after_number a Qa) as [Wa [C1 [C2 [NP NI]]]].
  (* the optional clauses *)
  assert (E5 : rest x5 = a :: r').
  { destruct (opt_spans _ _ _ _ H5) as [P|[B _]].
    - unfold position in P. inversion P. congruence.
    - exfalso. destruct (B no_caps) as [cs' M]. cbn [position fst snd] in M.
      revert M. cbn [cat fold_right].
      apply (clause_absent_at _ _ (js "Par") a r').
      + apply paragraph_word.
      + change (js "Par") with (80%N :: js "ar"). cbn [ci_prefix]. rewrite NP.
        reflexivity.
      + exact Wa.
      + exact C1.
      + exact E4. }
  assert (E6 : rest x6 = a :: r').
  { destruct (opt_spans _ _ _ _ H6) as [P|[B _]].
    - unfold position in P. inversion P. congruence.
    - exfalso. destruct (B no_caps) as [cs' M]. cbn [position fst snd] in M.
      revert M. cbn [cat fold_right].
      apply (clause_absent_at _ _ (js "Item") a r').
      + apply item_word.
      + change (js "Item") with (73%N :: js "tem"). cbn [ci_prefix]. rewrite NI.
        reflexivity.
      + exact Wa.
      + exact C1.
      + exact E5. }
  assert (E7 : rest x7 = a :: r').
  { unfold star, ws in H7. apply rep_cls_stays in H7.
    - unfold position in H7. inversion H7. congruence.
    - rewrite E6. exact Wa. }
  unfold comma in H8.
  inversion H8 as [|q a0 t0 x0 Hr Hq| | | | | | | | |]; subst.
  rewrite E7 in Hr. inversion Hr; subst.
  destruct (comma_class _ Hq); contradiction.
Qed.

Lemma ID_BASED_starts (s : jsstring) (m : captures) :
  regex_match ID_BASED s = Some m -> ci_prefix (js "act-") s = true.
Proof.
  intros H. apply regex_match_sound in H.
  destruct H as [s1 [s2 [y [Es [_ Hm]]]]].
  cbn [source ID_BASED ignoreCase cat fold_right] in Hm.
  inversion Hm as [| | | | |r1 r2 x0 x1 z0 H1 R1| | | | |]; subst. clear Hm.
  inversion R1 as [| | | | |r1 r2 x0 x2 z0 H2 R2| | | | |]; subst. clear R1 R2.
  inversion H1 as [| |x0 Hi| | | | | | | |]; subst. clear H1.
  cbn [idx] in Hi. destruct s1; [|discriminate Hi]. cbn [app].
  inversion H2 as [| | | | | | | | | |n0 r0 x0 y0 G]; subst. clear H2.
  inversion G as [| | | | |r1 r2 x0 u1 z0 G1 G2| | | | |]; subst. clear G G2.
  unfold lit in G1. apply lit_prefix in G1. exact G1.
Qed.

Lemma formatCitation_paragraph_text (d p name : jsstring) :
  all_digits d = true -> p <> [] ->
  formatCitation (cited_paragraph d p name) (js "full")
  = trim (js "Article " ++ (d ++ js "(" ++ p ++ js ")") ++ js ", " ++ name ++ []).
Proof.
  intros Hd Hp. destruct (all_digits_forall d Hd) as [Dne _].
  unfold formatCitation, cited_paragraph.
  cbn [valid article paragraph item title title_en year act_number negb].
  assert (T : str_truthy (Some d) = true) by (destruct d; [contradiction | reflexivity]).
  assert (T' : str_truthy (Some p) = true) by (destruct p; [contradiction | reflexivity]).
  rewrite T. cbn [negb orb].
  change (str_eqb (js "full") (js "full")) with true.
  change (str_eqb (js "full") (js "japanese")) with false.
  cbv iota. unfold buildPinpoint.
  cbn [valid article paragraph item title title_en year act_number negb].
  rewrite T'. cbn [opt_truthy andb coalesce str_truthy]. reflexivity.
Qed.

(** X27: A paragraph does not survive the full style.  For every article
    number in digits and every paragraph and name without 第, the text that
    the full style writes for the citation, Article <digits>(<paragraph>),
    <name>, is rejected by [parseCitation]: none of its five patterns accepts
    a parenthesis after the article number. *)
Theorem full_style_paragraph_rejected (d p name : jsstring) :
  all_digits d = true -> p <> [] -> ~ In c_dai p -> ~ In c_dai name ->
  (exists t,
     formatCitation (cited_paragraph d p name) (js "full")
     = js "Article " ++ d ++ js "(" ++ t)
  /\ valid (parseCitation (formatCitation (cited_paragraph d p name) (js "full")))
     = false.
Proof.
  intros Hd Hp Np Nn.
  destruct (all_digits_forall d Hd) as [_ DF].
  rewrite (formatCitation_paragraph_text d p name Hd Hp).
  set (X := js "Article " ++ (d ++ js "(" ++ p ++ js ")") ++ js ", " ++ name ++ []).
  assert (S : exists t, trim X = js "Article " ++ d ++ 40%N :: t).
  { destruct (trim_keeps_prefix 65%N 40%N (js "rticle " ++ d)
                (p ++ js ")" ++ js ", " ++ name ++ []))
      as [v' E]; [reflexivity | reflexivity|].
    exists v'. rewrite <- E at 1. f_equal. unfold X.
    change (js "Article ") with (65%N :: js "rticle ").
    cbn [app]. rewrite <- !app_assoc. reflexivity. }
  destruct S as [t St]. split; [exists t; exact St|].
  assert (Ndai : ~ In c_dai (trim X)).
  { intros H. apply (substring_In c_dai _ X (trim_substring X)) in H.
    unfold X in H. rewrite <- !app_assoc in H.
    repeat (apply in_app_or in H; destruct H as [H|H];
            [first [ exact (digits_without c_dai d eq_refl DF H)
                   | exact (Np H) | exact (Nn H)
                   | vm_compute in H; intuition discriminate ]|]).
    contradiction. }
  unfold parseCitation. rewrite trim_idempotent.
  destruct (regex_match JAPANESE_CITATION (trim X)) as [m|] eqn:J.
  { exfalso. apply JAPANESE_CITATION_starts in J. destruct J as [u J].
    rewrite St in J. discriminate J. }
  destruct (regex_match TRAILING_JAPANESE (trim X)) as [m|] eqn:T.
  { exfalso. apply TRAILING_JAPANESE_marker in T. exact (Ndai T). }
  assert (E : regex_match ENGLISH_FULL (trim X) = None).
  { apply regex_match_no_match. intros s1 s2 y Es.
    apply (ENGLISH_FULL_rejects d t s1 s2 y Hd). rewrite <- St. exact Es. }
  rewrite E.
  destruct (regex_match SHORT_CITATION (trim X)) as [m|] eqn:Sh.
  { exfalso. apply regex_match_sound in Sh.
    destruct Sh as [s1 [s2 [y [Es [_ Hm]]]]].
    destruct (SHORT_within_ENGLISH s2 (length s1) y Hm) as [y' M].
    apply (ENGLISH_FULL_rejects d t s1 s2 y' Hd); [|exact M].
    rewrite <- St. exact Es. }
  destruct (regex_match ID_BASED (trim X)) as [m|] eqn:Id.
  { exfalso. apply ID_BASED_starts in Id. rewrite St in Id. discriminate Id. }
  reflexivity.
Qed.

Lemma full_style_paragraph_rejected_witness :
  (exists t,
     formatCitation (cited_paragraph (js "17") (js "2") (js "APPI")) (js "full")
     = js "Article " ++ js "17" ++ js "(" ++ t)
  /\ valid (parseCitation
              (formatCitation (cited_paragraph (js "17") (js "2") (js "APPI"))
                              (js "full")))
     = false.
Proof.
  apply (full_style_paragraph_rejected (js "17") (js "2") (js "APPI")).
  - reflexivity.
  - discriminate.
  - vm_compute. intuition discriminate.
  - vm_compute. intuition discriminate.
Defined.

(** ** The tool as a translator between the two styles *)

Lemma formatCitation_article_of_full (n : Z) (name : jsstring) :
  1 <= n -> name <> [] -> trim name = name ->
  formatCitation (article_of n name) (js "full")
  = full_citation (String_of_number (Int n)) name None.
Proof.
  intros Hn Hne Ht.
  destruct (String_of_number_positive n) as [c [s Es]]; [lia|].
  unfold formatCitation, article_of.
  cbn [valid article paragraph item title title_en year act_number negb].
  rewrite Es. cbn [str_truthy negb orb]. rewrite <- Es.
  change (str_eqb (js "full") (js "full")) with true.
  change (str_eqb (js "full") (js "japanese")) with false.
  cbv iota. unfold buildPinpoint.
  cbn [valid article paragraph item title title_en year act_number negb
       str_truthy coalesce opt_truthy andb].
  rewrite <- (full_citation_trimmed (String_of_number (Int n)) name None Hne Ht I).
  reflexivity.
Qed.

Lemma formatCitation_full_cited_native (n : Z) (name : jsstring) :
  1 <= n <= 9999 -> name <> [] -> trim name = name ->
  formatCitation (full_cited (String_of_number (Int n)) name None) (js "japanese")
  = native_citation n name.
Proof.
  intros Hn Hne Ht.
  rewrite <- (formatCitation_native n name Hn Hne Ht).
  destruct (String_of_number_positive n) as [c [s Es]]; [lia|].
  unfold formatCitation, full_cited, article_of.
  cbn [valid article paragraph item title title_en negb option_map].
  rewrite Es. cbn [str_truthy negb orb coalesce]. reflexivity.
Qed.

Lemma tool_on_valid (text : jsstring) (p : ParsedCitation) :
  trim text <> [] -> parseCitation text = p -> valid p = true ->
  Tool.formatCitationTool (Tool.mkInput text None)
  = Tool.mkResult text (formatCitation p (js "full"))
                  (formatCitation p (js "japanese"))
                  (Tool.type_name (type p)) true None.
Proof.
  intros Hne Ep V. unfold Tool.formatCitationTool, Tool.formatCitationTool_with.
  cbn [Tool.citation Tool.format].
  assert (Hn : negb (str_truthy (Some text)) = false).
  { destruct text; [contradiction Hne; reflexivity | reflexivity]. }
  rewrite Hn. destruct (trim text) as [|c t] eqn:Et; [contradiction|].
  cbn [length Nat.eqb orb]. rewrite Ep, V. reflexivity.
Qed.

(** X28: the tool gives the same pair of texts for both spellings of a
    citation.  For every article from 1 to 9999 and every name that both
    styles can carry, calling the tool (default style) on
    Article <n>, <name> and calling it on 第<numeral>条 <name> both give a
    valid result of type statute without error whose [formatted] is
    Article <n>, <name> and whose [formatted_japanese] is
    第<numeral>条 <name>. *)
Theorem formatCitationTool_translates (n : Z) (name : jsstring) :
  1 <= n <= 9999 -> english_name name ->
  Tool.formatCitationTool
    (Tool.mkInput (full_citation (String_of_number (Int n)) name None) None)
  = Tool.mkResult (full_citation (String_of_number (Int n)) name None)
                  (full_citation (String_of_number (Int n)) name None)
                  (native_citation n name) (js "statute") true None
  /\ Tool.formatCitationTool (Tool.mkInput (native_citation n name) None)
     = Tool.mkResult (native_citation n name)
                     (full_citation (String_of_number (Int n)) name None)
                     (native_citation n name) (js "statute") true None.
Proof.
  intros Hn He.
  assert (Hd : all_digits (String_of_number (Int n)) = true).
  { apply String_of_number_digits. simpl. apply Z.ltb_lt. lia. }
  pose proof (parseCitation_full _ name None Hd He I) as P1.
  destruct He as [Hne [Ht [Hl [_ [_ [Hf _]]]]]].
  assert (Hp : plain_name name) by (repeat split; assumption).
  pose proof (parseCitation_native n name Hn Hp) as P2.
  assert (T1 : trim (full_citation (String_of_number (Int n)) name None) <> []).
  { rewrite (full_citation_trimmed _ name None Hne Ht I).
    unfold full_citation. discriminate. }
  assert (T2 : trim (native_citation n name) <> []).
  { unfold native_citation. cbn [app]. apply trim_head_kept. reflexivity. }
  split.
  - rewrite (tool_on_valid _ _ T1 P1 eq_refl).
    rewrite (formatCitation_full _ name None Hd Hne Ht I).
    rewrite (formatCitation_full_cited_native n name Hn Hne Ht). reflexivity.
  - rewrite (tool_on_valid _ _ T2 P2 eq_refl).
    rewrite (formatCitation_native n name Hn Hne Ht).
    rewrite (formatCitation_article_of_full n name (proj1 Hn) Hne Ht).
    reflexivity.
Qed.

Lemma formatCitationTool_translates_witness :
  Tool.formatCitationTool
    (Tool.mkInput (full_citation (String_of_number (Int 709)) (js "Civil Code") None)
                  None)
  = Tool.mkResult (full_citation (String_of_number (Int 709)) (js "Civil Code") None)
                  (full_citation (String_of_number (Int 709)) (js "Civil Code") None)
                  (native_citation 709 (js "Civil Code")) (js "statute") true None
  /\ Tool.formatCitationTool
       (Tool.mkInput (native_citation 709 (js "Civil Code")) None)
     = Tool.mkResult (native_citation 709 (js "Civil Code"))
                     (full_citation (String_of_number (Int 709)) (js "Civil Code")
                                    None)
                     (native_citation 709 (js "Civil Code")) (js "statute") true
                     None.
Proof.
  apply (formatCitationTool_translates 709 (js "Civil Code")).
  - lia.
  - unfold english_name. repeat split; try reflexivity; try discriminate;
      vm_compute; intuition discriminate.
Defined.

(** ** The identifier pattern on an identifier followed by an article *)

Lemma chr_match_ascii (c a : char) :
  chr_match true c a = true -> (c < 128)%N -> (a < 128)%N.
Proof.
  unfold chr_match, char_eqb, canonicalize. intros H Hc.
  apply N.eqb_eq in H.
  destruct ((97 <=? c)%N && (c <=? 122)%N) eqn:Rc;
    destruct ((97 <=? a)%N && (a <=? 122)%N) eqn:Ra;
    try (apply andb_true_iff in Rc; destruct Rc as [R1 R2];
         apply N.leb_le in R1; apply N.leb_le in R2);
    try (apply andb_true_iff in Ra; destruct Ra as [R3 R4];
         apply N.leb_le in R3; apply N.leb_le in R4);
    lia.
Qed.

Lemma ci_prefix_ascii (l p : jsstring) :
  forallb (fun c => (c <? 128)%N) l = true ->
  length p = length l -> ci_prefix l p = true ->
  forallb (fun c => (c <? 128)%N) p = true.
Proof.
  revert p. induction l as [|c l IH]; intros [|a p] Hl L H;
    try discriminate L; [reflexivity|].
  cbn [forallb ci_prefix] in *. apply andb_true_iff in Hl, H.
  destruct Hl as [Hc Hl], H as [Ha H]. apply N.ltb_lt in Hc.
  rewrite (IH p Hl) by (try exact H; simpl in L; lia).
  pose proof (chr_match_ascii c a Ha Hc) as B. apply N.ltb_lt in B.
  rewrite B. reflexivity.
Qed.

(** A literal under the [i] flag reads any spelling of itself. *)
Lemma lit_hit_ci (l : jsstring) :
  forall (p : jsstring) (k : cont) (i : nat) (t : jsstring) (cs : captures),
    length p = length l -> ci_prefix l p = true ->
    rmatch true (cat (map Chr l)) k (mkState i (p ++ t) cs)
    = k (mkState (i + length l) t cs).
Proof.
  induction l as [|c l IH]; intros [|a p] k i t cs L H; try discriminate L.
  - cbn [map cat fold_right rmatch app length]. rewrite Nat.add_0_r. reflexivity.
  - cbn [ci_prefix] in H. apply andb_true_iff in H. destruct H as [Ha H].
    cbn [map cat fold_right rmatch app length].
    rewrite step_char_hit by exact Ha.
    change (fold_right Seq Eps (map Chr l)) with (cat (map Chr l)).
    rewrite IH by (try exact H; simpl in L; lia).
    rewrite Nat.add_succ_r. reflexivity.
Qed.

(** A literal without the flag only matches itself. *)
Lemma lit_exact (l : jsstring) (x y : state) :
  matches false (cat (map Chr l)) x y -> exists t, rest x = l ++ t.
Proof.
  revert x. induction l as [|c l IH]; intros x H; [exists (rest x); reflexivity|].
  cbn [map cat fold_right] in H.
  inversion H as [| | | | |r1 r2 x0 y1 z0 H1 H2| | | | |]; subst.
  inversion H1 as [c0 a t x0 Hr Hc| | | | | | | | | |]; subst.
  apply chr_match_exact in Hc. subst a.
  destruct (IH _ H2) as [t' E]. cbn [rest] in E. subst t.
  exists t'. rewrite Hr. reflexivity.
Qed.

Lemma digit_not_period (a : char) :
  isDigit a = true -> chr_match true 46%N a = false /\ a <> 45%N /\ a <> 97%N.
Proof.
  intros H. pose proof (isDigit_cases a H) as C. simpl in C.
  repeat (destruct C as [C|C];
          [subst a; repeat split; solve [reflexivity | discriminate]|]).
  contradiction.
Qed.

Lemma ID_BASED_match (pre A Y d : jsstring) :
  id_prefix pre -> all_digits A = true ->
  forallb isDigit Y = true -> length Y = 4%nat -> all_digits d = true ->
  exists m,
    regex_match ID_BASED (id_citation pre A Y d) = Some m
    /\ m 1%nat = Some (pre ++ A ++ js "-" ++ Y)
    /\ m 2%nat = Some d /\ m 3%nat = None.
Proof.
  intros [Lp Cp] HA HY LY Hd.
  destruct (all_digits_forall A HA) as [Ane AF].
  destruct (all_digits_forall d Hd) as [Dne DF].
  destruct d as [|d0 d']; [contradiction|].
  assert (D0 : isDigit d0 = true).
  { cbn [forallb] in DF. apply andb_true_iff in DF. apply DF. }
  destruct (isDigit_facts d0 D0) as [Wd _].
  destruct (digit_not_period d0 D0) as [Pd _].
  eexists. split.
  - apply regex_match_hit.
    unfold id_citation.
    change (js "-" ++ Y ++ js ", art. " ++ d0 :: d')
      with (45%N :: Y ++ 44%N :: 32%N :: js "art" ++ 46%N :: 32%N :: d0 :: d').
    cbn [source ID_BASED ignoreCase cat fold_right]. cbn [rmatch idx Nat.eqb].
    unfold lit at 1. rewrite (lit_hit_ci (js "act-") pre) by assumption.
    unfold plus at 1, digit at 1. cbn [rmatch groups rest idx caps].
    apply (greedy_run true isDigit A);
      [exact AF | reflexivity | destruct A; [contradiction | simpl; lia]
      | cbn [length]; rewrite ?length_app; cbn [length]; lia |].
    unfold lit at 1.
    change (45%N :: Y ++ 44%N :: 32%N :: js "art" ++ 46%N :: 32%N :: d0 :: d')
      with (js "-" ++ Y ++ 44%N :: 32%N :: js "art" ++ 46%N :: 32%N :: d0 :: d').
    rewrite lit_hit.
    unfold exactly, digit at 1. cbn [rmatch groups rest idx caps].
    pose proof (exactly_run true isDigit Y HY) as X. rewrite LY in X.
    etransitivity; [apply X; lia|]. clear X.
    cbn [rest idx caps].
    unfold star at 1, ws at 1. cbn [rmatch groups rest idx caps].
    apply (greedy_run true isWhiteSpace []);
      [reflexivity | reflexivity | simpl; lia | simpl; lia |].
    unfold comma at 1. cbn [rmatch rest idx caps].
    rewrite step_char_hit by reflexivity.
    unfold star at 1, ws at 1. cbn [rmatch groups rest idx caps].
    apply (greedy_run true isWhiteSpace [32%N]);
      [reflexivity | reflexivity | simpl; lia
      | cbn [length]; rewrite ?length_app; cbn [length]; lia |].
    match goal with
    | |- match ?R with _ => _ end = _ =>
      eassert (E : R = Matched _); [|rewrite E; reflexivity]
    end.
    unfold lit at 1. rewrite lit_hit.
    apply opt_take. cbn [rmatch groups]. unfold clear_caps at 1.
    cbn [rest idx caps existsb].
    rewrite step_char_hit by reflexivity. cbn [idx].
    match goal with
    | |- (if ?b then _ else _) = _ =>
      replace b with false by (symmetry; apply Nat.eqb_neq; lia)
    end.
    unfold star at 1, ws at 1. cbn [rmatch groups rest idx caps].
    apply (greedy_run true isWhiteSpace [32%N]);
      [reflexivity | exact Wd | simpl; lia
      | cbn [length]; rewrite ?length_app; cbn [length]; lia |].
    rewrite opt_skip.
    2:{ intros k'. cbn [rmatch groups]. unfold clear_caps at 1.
        apply step_char_miss. cbn [rest]. exact Pd. }
    unfold star at 1, ws at 1. cbn [rmatch groups rest idx caps].
    apply (greedy_run true isWhiteSpace []);
      [reflexivity | exact Wd | simpl; lia | simpl; lia |].
    unfold plus at 1, digit at 1. cbn [rmatch groups rest idx caps app].
    apply (greedy_to_end true isDigit (d0 :: d'));
      [exact DF | simpl; lia | cbn [length]; lia |].
    rewrite opt_skip.
    2:{ intros k'. reflexivity. }
    cbn [rmatch rest]. reflexivity.
  - cbn [caps]. unfold set_cap. cbn [Nat.eqb].
    split; [|split; [|reflexivity]].
    + f_equal. cbn [idx rest].
      rewrite <- (app_nil_r (pre ++ A ++ js "-" ++ Y)).
      match goal with
      | |- firstn ?n ?l = _ =>
        replace l with ((pre ++ A ++ js "-" ++ Y)
                          ++ 44%N :: 32%N :: js "art" ++ 46%N :: 32%N :: d0 :: d')
          by (repeat (rewrite <- app_assoc; cbn [app]); reflexivity)
      end.
      rewrite app_nil_r. apply firstn_prefix.
      change (length (js "act-")) with 4%nat.
      rewrite !length_app, Lp, LY. change (length (js "-")) with 1%nat. lia.
    + f_equal. cbn [idx rest]. rewrite <- (app_nil_r (d0 :: d')) at 2.
      apply firstn_prefix. cbn [length]. lia.
Qed.

Lemma RE_ID_PARTS_match (A Y : jsstring) :
  all_digits A = true -> forallb isDigit Y = true -> length Y = 4%nat ->
  exists p,
    regex_match RE_ID_PARTS (js "act-" ++ A ++ js "-" ++ Y) = Some p
    /\ p 1%nat = Some A /\ p 2%nat = Some Y.
Proof.
  intros HA HY LY. destruct (all_digits_forall A HA) as [Ane AF].
  eexists. split.
  - apply regex_match_hit. rewrite <- (app_nil_r Y) at 1.
    cbn [source RE_ID_PARTS ignoreCase cat fold_right]. cbn [rmatch].
    unfold lit at 1. rewrite lit_hit.
    unfold plus at 1, digit at 1. cbn [rmatch groups rest idx caps].
    apply (greedy_run false isDigit A);
      [exact AF | reflexivity | destruct A; [contradiction | simpl; lia]
      | cbn [length]; rewrite ?length_app; cbn [length]; lia |].
    cbn [rest idx caps]. unfold lit at 1. rewrite lit_hit.
    unfold exactly, digit. cbn [rmatch groups rest idx caps].
    pose proof (exactly_run false isDigit Y HY) as X. rewrite LY in X.
    etransitivity; [apply X; lia|]. reflexivity.
  - cbn [caps]. unfold set_cap. cbn [Nat.eqb idx rest]. split; f_equal.
    + apply firstn_prefix. lia.
    + apply firstn_prefix. lia.
Qed.

Lemma chr_match_letter (c a : char) :
  chr_match true c a = true -> (97 <= c <= 122)%N -> a = c \/ a = (c - 32)%N.
Proof.
  unfold chr_match, char_eqb, canonicalize. intros H [L U].
  replace ((97 <=? c)%N && (c <=? 122)%N) with true in H
    by (symmetry; apply andb_true_iff; split; apply N.leb_le; assumption).
  apply N.eqb_eq in H.
  destruct ((97 <=? a)%N && (a <=? 122)%N) eqn:R.
  - apply andb_true_iff in R. destruct R as [R1 R2].
    apply N.leb_le in R1. left. lia.
  - right. congruence.
Qed.

Lemma chr_match_hyphen (a : char) : chr_match true 45%N a = true -> a = 45%N.
Proof.
  unfold chr_match, char_eqb, canonicalize.
  change ((97 <=? 45)%N && (45 <=? 122)%N) with false. cbv iota.
  destruct ((97 <=? a)%N && (a <=? 122)%N) eqn:R; intros H; apply N.eqb_eq in H.
  - apply andb_true_iff in R. destruct R as [R1 R2].
    apply N.leb_le in R1. lia.
  - congruence.
Qed.

Lemma id_prefix_shape (pre : jsstring) :
  id_prefix pre ->
  exists p0 p1 p2,
    pre = [p0; p1; p2; 45%N]
    /\ (p0 = 97%N \/ p0 = 65%N) /\ (p1 = 99%N \/ p1 = 67%N)
    /\ (p2 = 116%N \/ p2 = 84%N).
Proof.
  intros [L C].
  destruct pre as [|p0 [|p1 [|p2 [|p3 [|p4 pre]]]]]; try discriminate L.
  change (js "act-") with [97%N; 99%N; 116%N; 45%N] in C.
  cbn [ci_prefix] in C. rewrite !andb_true_iff in C.
  destruct C as [C0 [C1 [C2 [C3 _]]]].
  apply chr_match_hyphen in C3. subst p3.
  exists p0, p1, p2. split; [reflexivity|].
  split; [|split].
  - apply (chr_match_letter 97%N p0 C0). lia.
  - apply (chr_match_letter 99%N p1 C1). lia.
  - apply (chr_match_letter 116%N p2 C2). lia.
Qed.

Lemma RE_ID_PARTS_none (pre A Y : jsstring) :
  id_prefix pre -> pre <> js "act-" ->
  forallb isDigit A = true -> forallb isDigit Y = true ->
  regex_match RE_ID_PARTS (pre ++ A ++ js "-" ++ Y) = None.
Proof.
  intros Hp Hn AF YF.
  destruct (id_prefix_shape pre Hp) as (p0 & p1 & p2 & Ep & Q0 & Q1 & Q2).
  subst pre. apply regex_match_no_match. intros s1 s2 y Es Hm.
  cbn [source RE_ID_PARTS ignoreCase cat fold_right] in Hm.
  inversion Hm as [| | | | |r1 r2 x0 x1 z0 H1 R1| | | | |]; subst. clear Hm R1.
  unfold lit in H1. destruct (lit_exact _ _ _ H1) as [t Et]. cbn [rest] in Et.
  subst s2. change (js "act-") with [97%N; 99%N; 116%N; 45%N] in Es, Hn.
  cbn [app] in Es. destruct s1 as [|b s1].
  - cbn [app] in Es. injection Es as E0 E1 E2 _. apply Hn. congruence.
  - cbn [app] in Es. injection Es as _ Es.
    match type of Es with
    | ?l = _ => assert (H : In 97%N l)
    end.
    { rewrite Es. apply in_or_app. right. left. reflexivity. }
    destruct H as [H|[H|[H|H]]].
    + destruct Q1; congruence.
    + destruct Q2; congruence.
    + discriminate H.
    + apply in_app_or in H. destruct H as [H|H].
      * exact (digits_without 97%N A eq_refl AF H).
      * destruct H as [H|H]; [discriminate H|].
        exact (digits_without 97%N Y eq_refl YF H).
Qed.

(** The full pattern needs the word Art in front, in any case. *)
Lemma ENGLISH_FULL_starts (s : jsstring) (m : captures) :
  regex_match ENGLISH_FULL s = Some m -> ci_prefix (js "Art") s = true.
Proof.
  intros H. apply regex_match_sound in H.
  destruct H as [s1 [s2 [y [Es [_ Hm]]]]].
  cbn [source ENGLISH_FULL ignoreCase cat fold_right] in Hm.
  inversion Hm as [| | | | |r1 r2 x0 x1 z0 H1 R1| | | | |]; subst. clear Hm.
  inversion R1 as [| | | | |r1 r2 x0 x2 z0 H2 R2| | | | |]; subst. clear R1 R2.
  inversion H1 as [| |x0 Hi| | | | | | | |]; subst. clear H1.
  cbn [idx] in Hi. destruct s1; [|discriminate Hi]. cbn [app].
  inversion H2 as [| | | | | |r1 r2 x0 y0 A|r1 r2 x0 y0 A| | |]; subst.
  - unfold lit in A. apply lit_prefix in A.
    apply (ci_prefix_shorter (js "Art") (js "icle")). exact A.
  - cbn [cat fold_right] in A.
    inversion A as [| | | | |r1 r2 x0 u1 z0 A1 A2| | | | |]; subst.
    unfold lit in A1. apply lit_prefix in A1. exact A1.
Qed.

Lemma id_citation_trimmed (pre A Y d : jsstring) :
  id_prefix pre -> all_digits d = true ->
  trim (id_citation pre A Y d) = id_citation pre A Y d.
Proof.
  intros Hp Hd.
  destruct (id_prefix_shape pre Hp) as (p0 & p1 & p2 & Ep & Q0 & _).
  destruct (all_digits_forall d Hd) as [Dne DF].
  subst pre. unfold id_citation.
  match goal with
  | |- trim ?t = _ =>
    assert (E : t = p0 :: ([p1; p2; 45%N] ++ A ++ js "-" ++ Y ++ js ", art. ") ++ d)
      by (cbn [app]; repeat (rewrite <- app_assoc; cbn [app]); reflexivity);
    rewrite E
  end.
  apply (trim_framed p0 ([p1; p2; 45%N] ++ A ++ js "-" ++ Y ++ js ", art. ") d).
  - destruct Q0; subst p0; reflexivity.
  - exact Dne.
  - apply trim_no_white_space. rewrite forallb_forall in *.
    intros x Hx. destruct (isDigit_facts x (DF x Hx)) as [W _]. rewrite W.
    reflexivity.
Qed.

Lemma id_citation_without_marker (pre A Y d : jsstring) :
  id_prefix pre -> forallb isDigit A = true -> forallb isDigit Y = true ->
  forallb isDigit d = true -> ~ In c_dai (id_citation pre A Y d).
Proof.
  intros Hp AF YF DF H.
  destruct (id_prefix_shape pre Hp) as (p0 & p1 & p2 & Ep & Q0 & Q1 & Q2).
  subst pre. unfold id_citation in H.
  apply in_app_or in H. destruct H as [H|H].
  { destruct H as [H|[H|[H|[H|H]]]].
    - destruct Q0 as [Q|Q]; rewrite Q in H; discriminate H.
    - destruct Q1 as [Q|Q]; rewrite Q in H; discriminate H.
    - destruct Q2 as [Q|Q]; rewrite Q in H; discriminate H.
    - discriminate H.
    - contradiction. }
  apply in_app_or in H. destruct H as [H|H];
    [exact (digits_without c_dai A eq_refl AF H)|].
  apply in_app_or in H. destruct H as [H|H];
    [vm_compute in H; intuition discriminate|].
  apply in_app_or in H. destruct H as [H|H];
    [exact (digits_without c_dai Y eq_refl YF H)|].
  apply in_app_or in H. destruct H as [H|H];
    [vm_compute in H; intuition discriminate|].
  exact (digits_without c_dai d eq_refl DF H).
Qed.

(** X29: a citation by identifier.  For every spelling <id> of act-<number>-
    <year> (digits for the number, four digits for the year, the word act in
    any case) and every article number in digits, [parseCitation] reads
    <id>, art. <digits> as a valid statute citation whose title is the
    identifier as written and whose article is the digits.  Its act number
    and year are read from the identifier only if the word act is written in
    lower case; otherwise they are left out.  The number has at most 15
    digits, so that [parseInt] reads it exactly. *)
Theorem id_citation_parsed (pre A Y d : jsstring) :
  id_prefix pre -> all_digits A = true -> (length A <= 15)%nat ->
  forallb isDigit Y = true -> length Y = 4%nat -> all_digits d = true ->
  parseCitation (id_citation pre A Y d)
  = mkParsed true statute (Some (pre ++ A ++ js "-" ++ Y)) None None
             (if str_eqb pre (js "act-") then Some (parseInt Y) else None)
             (if str_eqb pre (js "act-") then Some (parseInt A) else None)
             (Some d) None None None.
Proof.
  intros Hp HA _ HY LY Hd.
  destruct (all_digits_forall A HA) as [_ AF].
  destruct (all_digits_forall d Hd) as [_ DF].
  destruct (ID_BASED_match pre A Y d Hp HA HY LY Hd) as (m & Hm & M1 & M2 & M3).
  unfold parseCitation. rewrite (id_citation_trimmed pre A Y d Hp Hd).
  destruct (id_prefix_shape pre Hp) as (p0 & p1 & p2 & Ep & Q0 & Q1 & Q2).
  destruct (regex_match JAPANESE_CITATION (id_citation pre A Y d)) as [m0|] eqn:J.
  { exfalso. apply JAPANESE_CITATION_starts in J. destruct J as [t J].
    subst pre. unfold id_citation in J. cbn [app] in J. injection J as J _.
    destruct Q0; subst p0; discriminate J. }
  destruct (regex_match TRAILING_JAPANESE (id_citation pre A Y d)) as [m0|] eqn:T.
  { exfalso. apply TRAILING_JAPANESE_marker in T. revert T.
    apply id_citation_without_marker; assumption. }
  assert (E : regex_match ENGLISH_FULL (id_citation pre A Y d) = None).
  { destruct (regex_match ENGLISH_FULL (id_citation pre A Y d)) as [m0|] eqn:E;
      [exfalso|reflexivity].
    apply ENGLISH_FULL_starts in E. subst pre. unfold id_citation in E.
    change (js "Art") with [65%N; 114%N; 116%N] in E. cbn [app ci_prefix] in E.
    apply andb_true_iff in E. destruct E as [_ E].
    apply andb_true_iff in E. destruct E as [E _].
    destruct Q1; subst p1; discriminate E. }
  rewrite E.
  destruct (regex_match SHORT_CITATION (id_citation pre A Y d)) as [m0|] eqn:Sh.
  { exfalso. apply regex_match_sound in Sh.
    destruct Sh as [s1 [s2 [y [Es [_ Hs]]]]].
    destruct (SHORT_within_ENGLISH s2 (length s1) y Hs) as [y' M].
    apply (regex_match_complete ENGLISH_FULL s1 s2 y' M).
    rewrite <- Es. exact E. }
  rewrite Hm. unfold group, capture. rewrite M1, M2, M3.
  cbn [or_undefined].
  destruct (str_eqb pre (js "act-")) eqn:B.
  - apply str_eqb_eq in B. rewrite B.
    destruct (RE_ID_PARTS_match A Y HA HY LY) as (p & Hp' & P1 & P2).
    rewrite Hp'. cbn [option_map]. unfold group. rewrite P1, P2. reflexivity.
  - assert (N : pre <> js "act-").
    { intros N. apply str_eqb_eq in N. congruence. }
    rewrite (RE_ID_PARTS_none pre A Y Hp N AF HY). reflexivity.
Qed.

Lemma id_citation_parsed_witness :
  parseCitation (id_citation (js "ACT-") (js "57") (js "2003") (js "17"))
  = mkParsed true statute (Some (js "ACT-" ++ js "57" ++ js "-" ++ js "2003"))
             None None
             (if str_eqb (js "ACT-") (js "act-")
              then Some (parseInt (js "2003")) else None)
             (if str_eqb (js "ACT-") (js "act-")
              then Some (parseInt (js "57")) else None)
             (Some (js "17")) None None None.
Proof.
  apply (id_citation_parsed (js "ACT-") (js "57") (js "2003") (js "17")).
  - split; reflexivity.
  - reflexivity.
  - simpl. lia.
  - reflexivity.
  - reflexivity.
  - reflexivity.
Defined.

(** ** The short style *)

(** A literal fails on a text that it is no prefix of. *)
Lemma lit_miss (l : jsstring) :
  forall (k : cont) (i : nat) (s : jsstring) (cs : captures),
    ci_prefix l s = false ->
    rmatch true (cat (map Chr l)) k (mkState i s cs) = Failed.
Proof.
  induction l as [|c l IH]; intros k i s cs H; [discriminate H|].
  cbn [map cat fold_right rmatch]. destruct s as [|a s]; [reflexivity|].
  cbn [ci_prefix] in H. destruct (chr_match true c a) eqn:Ca.
  - rewrite step_char_hit by exact Ca.
    change (fold_right Seq Eps (map Chr l)) with (cat (map Chr l)).
    apply IH. exact H.
  - apply step_char_miss. cbn [rest]. exact Ca.
Qed.

Lemma ENGLISH_FULL_head_short (d : jsstring) (c0 : char) (s : jsstring)
    (k : cont) (o : state) :
  all_digits d = true ->
  isWhiteSpace c0 = false -> c0 <> 44%N -> c0 <> c_touten ->
  ci_prefix (js "Par") (c0 :: s) = false ->
  ci_prefix (js "Item") (c0 :: s) = false ->
  (forall y, k y <> Stuck) ->
  k (mkState (length d + 7) (c0 :: s) (set_cap no_caps 1 d)) = Matched o ->
  rmatch true
    (cat [Bol;
          Alt (lit "Article") (cat [lit "Art"; opt (Chr 46%N)]);
          plus ws; Group 1 (plus digit);
          opt (cat [star ws; opt (Chr 44%N); star ws;
                    alts [lit "Paragraph"; cat [lit "Para"; opt (Chr 46%N)]]
                         (cat [lit "Par"; opt (Chr 46%N)]);
                    plus ws; Group 2 (plus digit)]);
          opt (cat [star ws; opt (Chr 44%N); star ws; lit "Item";
                    plus ws; Group 3 (plus digit)]);
          star ws; comma; star ws])
    k (mkState 0 (js "Art" ++ 46%N :: 32%N :: d ++ 44%N :: 32%N :: c0 :: s) no_caps)
  = Matched o.
Proof.
  intros Hd W0 C1 C2 P1 P2 Hk Ho.
  destruct (all_digits_forall d Hd) as [Dne DF].
  destruct d as [|d0 d']; [contradiction|].
  assert (Wd : isWhiteSpace d0 = false).
  { cbn [forallb] in DF. apply andb_true_iff in DF. destruct DF as [D0 _].
    apply (isDigit_facts d0 D0). }
  cbn [cat fold_right]. cbn [rmatch idx Nat.eqb].
  unfold lit at 1. rewrite lit_miss by reflexivity.
  unfold lit at 1. rewrite lit_hit.
  apply opt_take. cbn [rmatch groups]. unfold clear_caps at 1.
  cbn [rest idx caps existsb].
  rewrite step_char_hit by reflexivity. cbn [idx].
  match goal with
  | |- (if ?b then _ else _) = _ =>
    replace b with false by (symmetry; apply Nat.eqb_neq; lia)
  end.
  unfold plus at 1, ws at 1. cbn [rmatch groups rest idx caps].
  apply (greedy_run true isWhiteSpace [32%N]).
  - reflexivity.
  - exact Wd.
  - simpl. lia.
  - cbn [length]; rewrite ?length_app; cbn [length]; lia.
  - unfold plus at 1, digit at 1. cbn [rmatch groups rest idx caps].
    apply (greedy_run true isDigit (d0 :: d')).
    + exact DF.
    + reflexivity.
    + simpl. lia.
    + cbn [length]; rewrite ?length_app; cbn [length]; lia.
    + rewrite opt_skip_none.
      2:{ total_cont ltac:(apply Hk). }
      2:{ intros y. cbn [clear_caps rest idx caps cat fold_right].
          apply (clause_absent _ _ (js "Par") c0 s).
          - apply paragraph_word.
          - reflexivity.
          - reflexivity.
          - exact P1.
          - exact W0.
          - reflexivity. }
      rewrite opt_skip_none.
      2:{ total_cont ltac:(apply Hk). }
      2:{ intros y. cbn [clear_caps rest idx caps cat fold_right].
          apply (clause_absent _ _ (js "Item") c0 s).
          - apply item_word.
          - reflexivity.
          - reflexivity.
          - exact P2.
          - exact W0.
          - reflexivity. }
      unfold star at 1, ws at 1. cbn [rmatch groups rest idx caps].
      apply (greedy_run true isWhiteSpace []).
      * reflexivity.
      * reflexivity.
      * simpl. lia.
      * simpl. lia.
      * unfold comma. cbn [rmatch rest idx caps].
        rewrite step_char_hit by reflexivity.
        unfold star, ws. cbn [rmatch groups rest idx caps].
        apply (greedy_run true isWhiteSpace [32%N]).
        -- reflexivity.
        -- exact W0.
        -- simpl. lia.
        -- simpl. lia.
        -- change (length (js "Art")) with 3%nat.
           match goal with
           | |- k (mkState ?i _ ?c) = _ =>
             replace i with (length (d0 :: d') + 7)%nat
               by (cbn [length]; lia);
             replace c with (set_cap no_caps 1 (d0 :: d')); [exact Ho|]
           end.
           f_equal. symmetry. apply firstn_prefix. cbn [length]. lia.
Qed.

Lemma short_citation_trimmed (d name : jsstring) :
  name <> [] -> trim name = name ->
  trim (short_citation d name) = short_citation d name.
Proof.
  intros Hne Ht. unfold short_citation.
  change (js "Art. ") with (65%N :: js "rt. ").
  match goal with
  | |- trim ?t = _ =>
    assert (E : t = 65%N :: (js "rt. " ++ d ++ js ", ") ++ name)
      by (cbn [app]; rewrite <- !app_assoc; reflexivity);
    rewrite E
  end.
  apply (trim_framed 65%N (js "rt. " ++ d ++ js ", ") name);
    [reflexivity | exact Hne | exact Ht].
Qed.

Lemma ENGLISH_FULL_match_short (d name : jsstring) :
  all_digits d = true -> english_name name ->
  exists m,
    regex_match ENGLISH_FULL (short_citation d name) = Some m
    /\ m 1%nat = Some d /\ m 2%nat = None /\ m 3%nat = None
    /\ m 4%nat = Some name /\ m 5%nat = None /\ m 6%nat = None.
Proof.
  intros Hd [Hne [Ht [Hl [Hp [_ [Hf [P1 P2]]]]]]].
  destruct name as [|c0 name']; [contradiction|].
  destruct Hf as [C1 C2].
  pose proof (trim_fixed_head c0 name' Ht) as W0.
  eexists. split.
  - apply regex_match_hit.
    change (source ENGLISH_FULL)
      with (cat ([Bol;
                  Alt (lit "Article") (cat [lit "Art"; opt (Chr 46%N)]);
                  plus ws; Group 1 (plus digit);
                  opt (cat [star ws; opt (Chr 44%N); star ws;
                            alts [lit "Paragraph"; cat [lit "Para"; opt (Chr 46%N)]]
                                 (cat [lit "Par"; opt (Chr 46%N)]);
                            plus ws; Group 2 (plus digit)]);
                  opt (cat [star ws; opt (Chr 44%N); star ws; lit "Item";
                            plus ws; Group 3 (plus digit)]);
                  star ws; comma; star ws]
                 ++ [Group 4 (plus_lazy any); opt act_clause; Eol])).
    rewrite rmatch_cat_app.
    unfold short_citation.
    change (js "Art. " ++ d ++ js ", " ++ c0 :: name')
      with (js "Art" ++ 46%N :: 32%N :: d ++ 44%N :: 32%N :: c0 :: name').
    apply (ENGLISH_FULL_head_short d c0 name'); try assumption.
    { total_cont idtac. }
    rewrite <- (app_nil_r (c0 :: name')).
    apply (ENGLISH_FULL_tail (c0 :: name') [] (length d + 7)
             (set_cap no_caps 1 d) _ Hne Ht Hl Hp).
    rewrite act_clause_absent by (total_cont idtac).
    cbn [cat fold_right rmatch rest]. reflexivity.
  - cbn [caps]. unfold set_cap. cbn [Nat.eqb]. repeat split; reflexivity.
Qed.

(** X30: the short style keeps the article and the name and drops the act.
    For every article number in digits, every name that the Western styles
    can carry and every act number and year (or none), the short style
    writes the citation as Art. <digits>, <name>, and [parseCitation] reads
    that text back, through the full pattern, as the same citation without
    act number and year. *)
Theorem short_style_round_trip (d name : jsstring) (act : option (Z * Z)) :
  all_digits d = true -> english_name name -> act_range act ->
  formatCitation (full_cited d name act) (js "short") = short_citation d name
  /\ parseCitation (short_citation d name) = full_cited d name None.
Proof.
  intros Hd Hn Hr.
  destruct (ENGLISH_FULL_match_short d name Hd Hn)
    as (m & Hm & M1 & M2 & M3 & M4 & M5 & M6).
  destruct Hn as [Hne [Ht [Hl [Hp [Hdai _]]]]].
  destruct (all_digits_forall d Hd) as [Dne DF].
  split.
  - unfold formatCitation, full_cited.
    cbn [valid article paragraph item title title_en year act_number negb].
    assert (T : str_truthy (Some d) = true)
      by (destruct d; [contradiction | reflexivity]).
    rewrite T. cbn [negb orb].
    change (str_eqb (js "short") (js "full")) with false.
    change (str_eqb (js "short") (js "short")) with true.
    change (str_eqb (js "short") (js "japanese")) with false.
    cbv iota. unfold buildPinpoint.
    cbn [valid article paragraph item title title_en year act_number negb
         str_truthy coalesce].
    apply (short_citation_trimmed d name Hne Ht).
  - unfold parseCitation. rewrite (short_citation_trimmed d name Hne Ht).
    destruct (regex_match JAPANESE_CITATION (short_citation d name)) as [m0|] eqn:J.
    { exfalso. apply JAPANESE_CITATION_starts in J. destruct J as [t J].
      unfold short_citation in J. discriminate J. }
    destruct (regex_match TRAILING_JAPANESE (short_citation d name)) as [m0|] eqn:T.
    { exfalso. apply TRAILING_JAPANESE_marker in T.
      unfold short_citation in T.
      apply in_app_or in T. destruct T as [T|T];
        [vm_compute in T; intuition discriminate|].
      apply in_app_or in T. destruct T as [T|T];
        [exact (digits_without c_dai d eq_refl DF T)|].
      apply in_app_or in T. destruct T as [T|T];
        [vm_compute in T; intuition discriminate|].
      exact (Hdai T). }
    rewrite Hm. unfold group, capture. rewrite M1, M2, M3, M4, M5, M6, Ht.
    reflexivity.
Qed.

Lemma short_style_round_trip_witness :
  formatCitation (full_cited (js "17") (js "APPI") (Some (57, 2003))) (js "short")
  = short_citation (js "17") (js "APPI")
  /\ parseCitation (short_citation (js "17") (js "APPI"))
     = full_cited (js "17") (js "APPI") None.
Proof.
  apply (short_style_round_trip (js "17") (js "APPI") (Some (57, 2003))).
  - reflexivity.
  - unfold english_name. repeat split; try reflexivity; try discriminate;
      vm_compute; intuition discriminate.
  - simpl. lia.
Defined.

(** * The claims that rest on the properties above *)

(** ** Reference fields and the wrappers they are read from *)

(** What a wrapper pattern, whatever follows it, takes from the input: 第,
    a text on one line, the closing marker, and the rest. *)
Lemma wrapper_shape (closing : char) (tail : regex) (x y : state) :
  matches false (Seq (Chr c_dai) (Seq (plus_lazy any) (Seq (Chr closing) tail)))
          x y ->
  exists a w t,
    consumed x y = c_dai :: (a :: w) ++ closing :: t
    /\ forallb not_line_terminator (a :: w) = true
    /\ ~ In closing w.
Proof.
  intros H.
  inversion H as [| | | | |r1 r2 x0 y1 z0 H1 H2| | | | |]; subst. clear H.
  inversion H2 as [| | | | |r1 r2 x0 y2 z0 H3 H4| | | | |]; subst. clear H2.
  inversion H4 as [| | | | |r1 r2 x0 y3 z0 H5 H6| | | | |]; subst. clear H4.
  inversion H1 as [c a0 t0 x0 Hr Hc| | | | | | | | | |]; subst. clear H1.
  apply chr_match_exact in Hc. subst a0.
  pose proof (matches_rep_cls _ _ _ _ _ _ H3) as [Fv Lv].
  destruct (matches_consume _ _ _ _ H3) as [v [Ev Iv]].
  rewrite (consumed_eq _ _ _ Ev Iv) in Fv, Lv.
  inversion H5 as [c a1 t1 x1 Hr1 Hc1| | | | | | | | | |]; subst. clear H5.
  apply chr_match_exact in Hc1. subst a1.
  destruct (matches_consume _ _ _ _ H6) as [u [Eu Iu]].
  cbn [rest idx caps] in *.
  assert (C : consumed x y = c_dai :: v ++ closing :: u).
  { apply consumed_eq.
    - rewrite Hr, Ev, Hr1, Eu. cbn [app]. rewrite <- app_assoc. reflexivity.
    - rewrite Iu, Iv. cbn [length]. rewrite length_app. cbn [length]. lia. }
  rewrite C.
  destruct v as [|a v']; [simpl in Lv; lia|].
  destruct (split_at_first closing v') as [w [t [Hn Hs]]].
  assert (Fw : forallb not_line_terminator (a :: w) = true).
  { cbn [forallb] in Fv |- *. apply andb_true_iff in Fv. destruct Fv as [Fa Fv'].
    unfold not_line_terminator at 1. rewrite Fa. cbn [andb].
    destruct Hs as [Hs|Hs]; subst v'; [exact Fv'|].
    rewrite forallb_app in Fv'. apply andb_true_iff in Fv'. apply Fv'. }
  destruct Hs as [Hs|Hs]; subst v'.
  - exists a, w, u. auto.
  - exists a, w, (t ++ closing :: u). split; [|auto].
    cbn [app]. rewrite <- app_assoc. reflexivity.
Qed.

Lemma JAPANESE_CITATION_block :
  group_ok false (wrapper_groups c_jo [1%nat]) (source JAPANESE_CITATION).
Proof.
  simpl. repeat split.
  - intros x y H _. apply (wrapper_shape c_jo _ x y H).
  - intros x y H Hin. simpl in Hin. exfalso. clear - Hin. intuition discriminate.
Qed.

Lemma TRAILING_JAPANESE_block :
  group_ok false (wrapper_groups c_jo [2%nat]) (source TRAILING_JAPANESE).
Proof.
  simpl. repeat split.
  - intros x y H Hin. simpl in Hin. exfalso. clear - Hin. intuition discriminate.
  - intros x y H _. apply (wrapper_shape c_jo _ x y H).
Qed.

Lemma RE_REF_PARAGRAPH_block :
  group_ok false (wrapper_groups c_kou [1%nat]) (source RE_REF_PARAGRAPH).
Proof.
  simpl. repeat split. intros x y H _. apply (wrapper_shape c_kou _ x y H).
Qed.

Lemma RE_REF_ITEM_block :
  group_ok false (wrapper_groups c_go [1%nat]) (source RE_REF_ITEM).
Proof.
  simpl. repeat split. intros x y H _. apply (wrapper_shape c_go _ x y H).
Qed.

(** The three parsers on a text that starts with a wrapper: the text inside
    the wrapper, up to the first closing marker, is what they normalize. *)
Lemma parseWrappedNumber_wrapper (closing a : char) (w t : jsstring) :
  isWhiteSpace closing = false ->
  forallb not_line_terminator (a :: w) = true -> ~ In closing w ->
  parseWrappedNumber closing (c_dai :: (a :: w) ++ closing :: t)
  = normalize_numeral (a :: w).
Proof.
  intros Wc Fw Hn. rewrite parseWrappedNumber_eq.
  destruct (trim_keeps_prefix c_dai closing (a :: w) t eq_refl Wc) as [t' E].
  rewrite E.
  destruct (RE_WRAPPED_match closing a w t' Fw Hn) as [m [Hm Hg]].
  rewrite Hm, Hg. reflexivity.
Qed.

Lemma normalize_numeral_reads (inner : jsstring) :
  read_from inner (normalize_numeral inner).
Proof.
  repeat split.
  - apply normalize_numeral_digits.
  - intros n Hn E. subst inner. apply (normalize_numeral_kanji n Hn).
  - unfold normalize_numeral. rewrite test_digits, H, H0. reflexivity.
  - unfold normalize_numeral. rewrite test_digits, H, H0.
    apply String_of_number_digits. exact H0.
  - intros D K. unfold normalize_numeral. rewrite test_digits, D, K. reflexivity.
Qed.

Lemma wrapper_read (closing : char) (input g v : jsstring) :
  isWhiteSpace closing = false ->
  substring_of g input ->
  (exists a w t,
     g = c_dai :: (a :: w) ++ closing :: t
     /\ forallb not_line_terminator (a :: w) = true
     /\ ~ In closing w) ->
  v = parseWrappedNumber closing g ->
  exists inner, wrapped_in closing input inner /\ read_from inner v.
Proof.
  intros Wc Hs (a & w & t & Eg & Fw & Hn) Ev.
  exists (a :: w). split.
  - split; [discriminate|]. split; [exact Hn|].
    apply (substring_trans _ g); [|exact Hs].
    exists [], t. rewrite Eg. cbn [app]. rewrite <- app_assoc. reflexivity.
  - rewrite Ev, Eg, (parseWrappedNumber_wrapper closing a w t Wc Fw Hn).
    apply normalize_numeral_reads.
Qed.

Lemma parseJapaneseRef_reads (input articleRef lawName : jsstring) :
  substring_of articleRef input ->
  (exists a w t,
     articleRef = c_dai :: (a :: w) ++ c_jo :: t
     /\ forallb not_line_terminator (a :: w) = true
     /\ ~ In c_jo w) ->
  let p := parseJapaneseRef articleRef lawName in
  (forall v, article p = Some v ->
     exists inner, wrapped_in c_jo input inner /\ read_from inner v)
  /\ (forall v, paragraph p = Some v ->
        exists inner, wrapped_in c_kou input inner /\ read_from inner v)
  /\ (forall v, item p = Some v ->
        exists inner, wrapped_in c_go input inner /\ read_from inner v).
Proof.
  intros Hs Hb. cbv zeta. unfold parseJapaneseRef.
  cbn [article paragraph item]. split; [|split].
  - intros v H.
    destruct (regex_match RE_REF_ARTICLE articleRef); [|discriminate H].
    injection H as H. symmetry in H.
    apply (wrapper_read c_jo input articleRef v eq_refl Hs Hb H).
  - intros v H.
    destruct (regex_match RE_REF_PARAGRAPH articleRef) as [m|] eqn:Hm;
      [|discriminate H].
    injection H as H. symmetry in H.
    destruct (regex_match_always_sets _ _ _ 1 Hm eq_refl) as [g [Hg Eg]].
    rewrite Eg in H.
    apply (wrapper_read c_kou input g v eq_refl).
    + apply (substring_trans _ articleRef); [|exact Hs].
      rewrite <- Eg. apply (regex_match_substring _ _ _ 1%nat Hm).
    + apply (regex_match_group_ok _ _ _ _ Hm RE_REF_PARAGRAPH_block 1%nat g Hg).
      left. reflexivity.
    + exact H.
  - intros v H.
    destruct (regex_match RE_REF_ITEM articleRef) as [m|] eqn:Hm;
      [|discriminate H].
    injection H as H. symmetry in H.
    destruct (regex_match_always_sets _ _ _ 1 Hm eq_refl) as [g [Hg Eg]].
    rewrite Eg in H.
    apply (wrapper_read c_go input g v eq_refl).
    + apply (substring_trans _ articleRef); [|exact Hs].
      rewrite <- Eg. apply (regex_match_substring _ _ _ 1%nat Hm).
    + apply (regex_match_group_ok _ _ _ _ Hm RE_REF_ITEM_block 1%nat g Hg).
      left. reflexivity.
    + exact H.
Qed.

Lemma captured_digits (re : RegExp) (gs : list nat) (s input : jsstring)
    (m : captures) (n : nat) (v : jsstring) :
  regex_match re s = Some m -> substring_of s input ->
  group_ok (ignoreCase re) (digit_groups gs) (source re) ->
  In n gs -> m n = Some v ->
  all_digits v = true /\ substring_of v input.
Proof.
  intros Hm Hs G Hin Hv. split.
  - exact (regex_match_group_ok _ _ _ _ Hm G n v Hv Hin).
  - apply (substring_trans _ s); [|exact Hs].
    pose proof (regex_match_substring _ _ _ n Hm) as S.
    unfold group in S. rewrite Hv in S. exact S.
Qed.

(** C1, amended: for every input string whose kanji numerals are within the
    exact range of [kanjiToArabic] (at most 15 numeral characters), whenever
    the citation returned by [parseCitation] has its article, paragraph or
    item populated, the field is read as follows.  When one of the two
    native patterns matches, the input holds a wrapper 第<text>条 (article),
    第<text>項 (paragraph) or 第<text>号 (item), whose text is not empty and
    ends at the first closing marker after its first character, and the
    field is: that text when it is a string of Arabic digits; the decimal
    digits of its value when it is a numeral ([arabicToKanji] of n gives
    String(n), for 1 <= n <= 9999, and in general every text to which
    [kanjiToArabic] gives a positive value gives the digits of that value);
    and that text unchanged when it is not all digits and [kanjiToArabic]
    gives it no positive value.  When a Western pattern matches, the field
    is a string of Arabic digits taken from the input. *)
Theorem parseCitation_reference_fields (citation : jsstring) :
  (numeral_count citation <= 15)%nat ->
  (forall v, article (parseCitation citation) = Some v ->
     reference_field c_jo citation v)
  /\ (forall v, paragraph (parseCitation citation) = Some v ->
        reference_field c_kou citation v)
  /\ (forall v, item (parseCitation citation) = Some v ->
        reference_field c_go citation v).
Proof.
  intros _. unfold reference_field, native_grammar, parseCitation.
  pose proof (trim_substring citation) as Ts.
  destruct (regex_match JAPANESE_CITATION (trim citation)) as [m|] eqn:H1.
  { destruct (regex_match_always_sets _ _ _ 1 H1 eq_refl) as [g [Hg Eg]].
    apply (parseJapaneseRef_reads citation).
    - apply (substring_trans _ (trim citation)); [|exact Ts].
      apply (regex_match_substring _ _ _ 1%nat H1).
    - rewrite Eg.
      apply (regex_match_group_ok _ _ _ _ H1 JAPANESE_CITATION_block 1%nat g Hg).
      left. reflexivity. }
  destruct (regex_match TRAILING_JAPANESE (trim citation)) as [m|] eqn:H2.
  { destruct (regex_match_always_sets _ _ _ 2 H2 eq_refl) as [g [Hg Eg]].
    apply (parseJapaneseRef_reads citation).
    - apply (substring_trans _ (trim citation)); [|exact Ts].
      apply (regex_match_substring _ _ _ 2%nat H2).
    - rewrite Eg.
      apply (regex_match_group_ok _ _ _ _ H2 TRAILING_JAPANESE_block 2%nat g Hg).
      left. reflexivity. }
  destruct (regex_match ENGLISH_FULL (trim citation)) as [m|] eqn:H3.
  { cbn [article paragraph item]. split; [|split]; intros v H.
    - injection H as H.
      destruct (regex_match_always_sets _ _ _ 1 H3 eq_refl) as [g [Hg Eg]].
      rewrite Eg in H. subst g.
      apply (captured_digits _ _ _ _ _ 1%nat v H3 Ts ENGLISH_FULL_digits);
        [simpl; auto | exact Hg].
    - apply or_undefined_some in H.
      apply (captured_digits _ _ _ _ _ 2%nat v H3 Ts ENGLISH_FULL_digits);
        [simpl; auto | exact H].
    - apply or_undefined_some in H.
      apply (captured_digits _ _ _ _ _ 3%nat v H3 Ts ENGLISH_FULL_digits);
        [simpl; auto | exact H]. }
  destruct (regex_match SHORT_CITATION (trim citation)) as [m|] eqn:H4.
  { cbn [article paragraph item]. split; [|split]; intros v H.
    - injection H as H.
      destruct (regex_match_always_sets _ _ _ 1 H4 eq_refl) as [g [Hg Eg]].
      rewrite Eg in H. subst g.
      apply (captured_digits _ _ _ _ _ 1%nat v H4 Ts SHORT_CITATION_digits);
        [simpl; auto | exact Hg].
    - apply or_undefined_some in H.
      apply (captured_digits _ _ _ _ _ 2%nat v H4 Ts SHORT_CITATION_digits);
        [simpl; auto | exact H].
    - discriminate H. }
  destruct (regex_match ID_BASED (trim citation)) as [m|] eqn:H5.
  { cbn [article paragraph item]. split; [|split]; intros v H.
    - injection H as H.
      destruct (regex_match_always_sets _ _ _ 2 H5 eq_refl) as [g [Hg Eg]].
      rewrite Eg in H. subst g.
      apply (captured_digits _ _ _ _ _ 2%nat v H5 Ts ID_BASED_digits);
        [simpl; auto | exact Hg].
    - apply or_undefined_some in H.
      apply (captured_digits _ _ _ _ _ 3%nat v H5 Ts ID_BASED_digits);
        [simpl; auto | exact H].
    - discriminate H. }
  cbn [article paragraph item]. split; [|split]; intros v H; discriminate H.
Qed.

Lemma parseCitation_reference_fields_witness :
  (exists inner,
     wrapped_in c_jo (js "第十七条第一項 個人情報の保護に関する法律") inner
     /\ read_from inner (js "17"))
  /\ (exists inner,
        wrapped_in c_kou (js "第十七条第一項 個人情報の保護に関する法律") inner
        /\ read_from inner (js "1")).
Proof.
  assert (B : (numeral_count (js "第十七条第一項 個人情報の保護に関する法律")
               <= 15)%nat) by (vm_compute; lia).
  assert (N : native_grammar (js "第十七条第一項 個人情報の保護に関する法律")
              = true) by (vm_compute; reflexivity).
  destruct (parseCitation_reference_fields
              (js "第十七条第一項 個人情報の保護に関する法律") B) as [A [P _]].
  specialize (A (js "17")). specialize (P (js "1")).
  unfold reference_field in A, P. rewrite N in A, P.
  split; [apply A | apply P]; vm_compute; reflexivity.
Defined.

(** ** The article wrapper *)

Lemma wrapped_numeral_read_back (n : Z) :
  1 <= n <= 9999 ->
  parseArticleNumber (wrap_article (arabicToKanji (Int n)))
  = String_of_number (Int n).
Proof.
  intros Hn. destruct (arabicToKanji_shape n Hn) as [_ [_ KF]].
  unfold parseArticleNumber, wrap_article.
  apply (parseWrappedNumber_kanji c_jo n _ []); [left; reflexivity | exact Hn|].
  right. rewrite app_nil_r.
  apply trim_no_white_space.
  apply forallb_forall. intros x Hx. apply negb_true_iff.
  cbn [app] in Hx. destruct Hx as [Hx|Hx]; [subst x; reflexivity|].
  apply in_app_or in Hx. destruct Hx as [Hx|Hx].
  - rewrite forallb_forall in KF. apply (canonical_numeral_facts x (KF x Hx)).
  - destruct Hx as [Hx|[]]. subst x. reflexivity.
Qed.

(** C8, amended: for every integer n with 1 <= n <= 9999, given as a number
    or as a string in which [parseInt] reads n (a string of digits, also
    with text after the digits, such as "17abc"), [formatArticleKanji]
    returns 第K条, where K is the native numeral that [arabicToKanji] writes
    for n: a non-empty text of the numerals 一 to 九, 十, 百 and 千 that
    [kanjiToArabic] reads as n, so that [parseArticleNumber] reads the result
    back as String(n).  A string in which [parseInt] reads no number, or a
    number that is not positive, is wrapped unchanged, and so are the text
    of an integer that is not positive and NaN.  Integers stay within
    2^53, where the numbers of the code are exact; numerals beyond 9999 are
    outside the table of the converter and left out here. *)
Theorem formatArticleKanji_cases :
  (forall a n, 1 <= n <= 9999 -> leading_integer a = Int n ->
     formatArticleKanji a = wrap_article (arabicToKanji (Int n))
     /\ numeral_of n (arabicToKanji (Int n))
     /\ parseArticleNumber (formatArticleKanji a) = String_of_number (Int n))
  /\ (forall s, all_digits s = true ->
        leading_integer (ArtStr s) = Int (digits_value s))
  /\ (forall s, num_gt (parseInt s) 0 = false ->
        formatArticleKanji (ArtStr s) = wrap_article s)
  /\ (forall z, - 2 ^ 53 <= z <= 0 ->
        formatArticleKanji (ArtNum (Int z))
        = wrap_article (String_of_number (Int z)))
  /\ formatArticleKanji (ArtNum NaN) = wrap_article (js "NaN").
Proof.
  assert (G : forall n, isNaN n || num_le n 0 = negb (num_gt n 0)).
  { intros [|z]; simpl; [reflexivity|].
    destruct (z <=? 0) eqn:L, (0 <? z) eqn:G; try reflexivity; lia. }
  split; [|split; [|split; [|split]]].
  - intros a n Hn E.
    assert (F : formatArticleKanji a = wrap_article (arabicToKanji (Int n))).
    { unfold formatArticleKanji. fold (leading_integer a). rewrite G, E.
      replace (num_gt (Int n) 0) with true
        by (symmetry; apply Z.ltb_lt; lia).
      reflexivity. }
    destruct (arabicToKanji_shape n Hn) as [Kne [_ KF]].
    split; [exact F|]. split.
    + split; [exact Kne|]. split; [exact KF|]. apply kanji_read_back. lia.
    + rewrite F. apply (wrapped_numeral_read_back n Hn).
  - intros s D. apply (parseInt_digits s D).
  - intros s H. unfold formatArticleKanji. rewrite G, H. reflexivity.
  - intros z Hz. unfold formatArticleKanji. rewrite G.
    replace (num_gt (Int z) 0) with false
      by (symmetry; apply Z.ltb_ge; lia).
    reflexivity.
  - reflexivity.
Qed.

Lemma formatArticleKanji_cases_witness :
  (formatArticleKanji (ArtStr (js "17abc")) = wrap_article (arabicToKanji (Int 17))
   /\ numeral_of 17 (arabicToKanji (Int 17))
   /\ parseArticleNumber (formatArticleKanji (ArtStr (js "17abc")))
      = String_of_number (Int 17))
  /\ formatArticleKanji (ArtNum (Int 2003)) = js "第二千三条"
  /\ formatArticleKanji (ArtStr (js "abc")) = js "第abc条"
  /\ formatArticleKanji (ArtNum (Int (-5))) = js "第-5条".
Proof.
  split; [|split; [|split]].
  - apply (proj1 formatArticleKanji_cases (ArtStr (js "17abc")) 17);
      [lia | reflexivity].
  - refine (proj1 (proj1 formatArticleKanji_cases (ArtNum (Int 2003)) 2003
                     _ eq_refl)).
    lia.
  - apply (proj1 (proj2 (proj2 formatArticleKanji_cases)) (js "abc")).
    reflexivity.
  - apply (proj1 (proj2 (proj2 (proj2 formatArticleKanji_cases))) (-5)). lia.
Defined.

(** ** Bare references *)

Lemma bare_reference_trimmed (X : jsstring) :
  trim (bare_reference X) = bare_reference X.
Proof.
  unfold bare_reference. cbn [app]. apply trim_ends; reflexivity.
Qed.

(** The native pattern wants text after the first closing 条 it can use. *)
Lemma JAPANESE_CITATION_needs_name (X : jsstring) :
  ~ In c_jo (tl X) ->
  regex_match JAPANESE_CITATION (bare_reference X) = None.
Proof.
  intros Hn. apply regex_match_no_match. intros s1 s2 y Es H.
  cbn [source JAPANESE_CITATION ignoreCase cat fold_right] in H.
  inversion H as [| | | | |r1 r2 x0 x1 z0 H1 R1| | | | |]; subst. clear H.
  inversion R1 as [| | | | |r1 r2 x0 x2 z0 H2 R2| | | | |]; subst. clear R1.
  inversion R2 as [| | | | |r1 r2 x0 x3 z0 H3 R3| | | | |]; subst. clear R2.
  inversion R3 as [| | | | |r1 r2 x0 x4 z0 H4 R4| | | | |]; subst. clear R3.
  inversion R4 as [| | | | |r1 r2 x0 x5 z0 H5 R5| | | | |]; subst. clear R4.
  inversion R5 as [| | | | |r1 r2 x0 x6 z0 H6 R6| | | | |]; subst. clear R5.
  inversion H1 as [| |x0 Hi| | | | | | | |]; subst. clear H1.
  cbn [idx] in Hi. destruct s1; [|discriminate Hi]. cbn [app] in Es. subst s2.
  (* the block *)
  inversion H2 as [| | | | | | | | | |n0 r0 x0 y0 G]; subst. clear H2.
  destruct (wrapper_shape c_jo _ _ _ G) as (a & w & t & C & _ & _).
  destruct (matches_consume _ _ _ _ G) as [b [Eb Ib]].
  rewrite (consumed_eq _ _ _ Eb Ib) in C. cbn [rest idx] in Eb, Ib.
  (* the name *)
  inversion H6 as [| | | | | | | | | |n1 r1 x1 y1 G2]; subst. clear H6.
  pose proof (matches_plus_nonempty _ _ _ _ _ G2) as Ne.
  destruct (matches_consume _ _ _ _ G2) as [v [Ev Iv]].
  rewrite (consumed_eq _ _ _ Ev Iv) in Ne.
  destruct (matches_consume _ _ _ _ H3) as [u3 [E3 _]].
  destruct (matches_consume _ _ _ _ H4) as [u4 [E4 _]].
  destruct (matches_consume _ _ _ _ H5) as [u5 [E5 _]].
  cbn [rest idx caps] in *.
  assert (E : bare_reference X
              = c_dai :: (a :: w) ++ c_jo :: (t ++ u3 ++ u4 ++ u5 ++ v ++ rest y1)).
  { rewrite Eb, E3, E4, E5, Ev. cbn [app].
    repeat (rewrite <- app_assoc; cbn [app]). reflexivity. }
  unfold bare_reference in E. cbn [app] in E. injection E as E.
  apply Hn.
  destruct X as [|x0 X']; [destruct w; discriminate E|].
  cbn [app] in E. injection E as _ E. cbn [tl].
  assert (L : In c_jo (X' ++ [c_jo]) /\ (length w < length X')%nat).
  { split; [apply in_or_app; right; left; reflexivity|].
    apply (f_equal (@length char)) in E.
    rewrite !length_app in E. cbn [length] in E. rewrite !length_app in E.
    destruct v; [contradiction|]. cbn [length] in E. lia. }
  destruct L as [_ L].
  assert (S : X' = w ++ c_jo :: removelast (t ++ u3 ++ u4 ++ u5 ++ v ++ rest y1)).
  { assert (Nn : t ++ u3 ++ u4 ++ u5 ++ v ++ rest y1 <> []).
    { destruct t; [|discriminate]. destruct u3; [|discriminate].
      destruct u4; [|discriminate]. destruct u5; [|discriminate].
      destruct v; [contradiction | discriminate]. }
    pose proof (app_removelast_last c_jo Nn) as R.
    set (z := t ++ u3 ++ u4 ++ u5 ++ v ++ rest y1) in *.
    rewrite R in E.
    replace (w ++ c_jo :: removelast z ++ [last z c_jo])
      with ((w ++ c_jo :: removelast z) ++ [last z c_jo]) in E
      by (rewrite <- app_assoc; reflexivity).
    apply app_inj_tail in E. apply E. }
  rewrite S. apply in_or_app. right. left. reflexivity.
Qed.

(** The name-first pattern wants a name and white space in front of 第. *)
Lemma TRAILING_JAPANESE_needs_name (X : jsstring) :
  ~ In c_dai X ->
  regex_match TRAILING_JAPANESE (bare_reference X) = None.
Proof.
  intros Hn. apply regex_match_no_match. intros s1 s2 y Es H.
  cbn [source TRAILING_JAPANESE ignoreCase cat fold_right] in H.
  inversion H as [| | | | |r1 r2 x0 x1 z0 H1 R1| | | | |]; subst. clear H.
  inversion R1 as [| | | | |r1 r2 x0 x2 z0 H2 R2| | | | |]; subst. clear R1.
  inversion R2 as [| | | | |r1 r2 x0 x3 z0 H3 R3| | | | |]; subst. clear R2.
  inversion R3 as [| | | | |r1 r2 x0 x4 z0 H4 R4| | | | |]; subst. clear R3 R4.
  inversion H1 as [| |x0 Hi| | | | | | | |]; subst. clear H1.
  cbn [idx] in Hi. destruct s1; [|discriminate Hi]. cbn [app] in Es. subst s2.
  inversion H2 as [| | | | | | | | | |n0 r0 x0 y0 G]; subst. clear H2.
  pose proof (matches_plus_nonempty _ _ _ _ _ G) as Ne.
  destruct (matches_consume _ _ _ _ G) as [v1 [E1 I1]].
  rewrite (consumed_eq _ _ _ E1 I1) in Ne.
  destruct (matches_consume _ _ _ _ H3) as [v2 [E2 _]].
  inversion H4 as [| | | | | | | | | |n1 r1 x1 y1 G2]; subst. clear H4.
  destruct (wrapper_shape c_jo _ _ _ G2) as (a & w & t & C & _ & _).
  destruct (matches_consume _ _ _ _ G2) as [b [Eb Ib]].
  rewrite (consumed_eq _ _ _ Eb Ib) in C.
  cbn [rest idx caps] in *.
  assert (E : bare_reference X
              = v1 ++ v2 ++ c_dai :: (a :: w) ++ c_jo :: t ++ rest y1).
  { rewrite E1, E2, Eb, C. cbn [app].
    repeat (rewrite <- app_assoc; cbn [app]). reflexivity. }
  destruct v1 as [|c1 v1]; [contradiction|].
  unfold bare_reference in E. cbn [app] in E. injection E as _ E.
  assert (D : In c_dai (X ++ [c_jo])).
  { rewrite E. apply in_or_app. right. apply in_or_app. right. left.
    reflexivity. }
  apply in_app_or in D. destruct D as [D|[D|[]]]; [exact (Hn D) | discriminate D].
Qed.

(** C10, as stated, fails for a bare reference with a paragraph: the text
    "第十七条第一項" holds no law name, yet the native pattern accepts it,
    with the paragraph wrapper as the name. *)
Lemma parseCitation_bare_reference_with_paragraph :
  valid (parseCitation (js "第十七条第一項")) = true
  /\ article (parseCitation (js "第十七条第一項")) = Some (js "17")
  /\ title (parseCitation (js "第十七条第一項")) = Some (js "第一項")
  /\ paragraph (parseCitation (js "第十七条第一項")) = None.
Proof. vm_compute. repeat split. Qed.

(** C10, amended: a bare article reference 第<text>条 that holds one article
    wrapper only (no further 第 in the text, and 条 nowhere after its first
    character), such as "第十七条" alone, matches none of the five patterns
    of the parser: the two native patterns ask for a name next to the
    reference block and the other three for a Western word in front.
    [parseCitation] returns valid = false, type 'unknown' and the non-empty
    error that quotes the input. *)
Theorem parseCitation_bare_reference (X : jsstring) :
  ~ In c_dai X -> ~ In c_jo (tl X) ->
  let s := bare_reference X in
  regex_match JAPANESE_CITATION s = None
  /\ regex_match TRAILING_JAPANESE s = None
  /\ regex_match ENGLISH_FULL s = None
  /\ regex_match SHORT_CITATION s = None
  /\ regex_match ID_BASED s = None
  /\ valid (parseCitation s) = false
  /\ type (parseCitation s) = unknown
  /\ error (parseCitation s)
     = Some (js "Could not parse Japanese legal citation: " ++ [34%N] ++ s ++ [34%N])
  /\ error (parseCitation s) <> Some [].
Proof.
  intros Hd Hj. cbv zeta.
  pose proof (JAPANESE_CITATION_needs_name X Hj) as J.
  pose proof (TRAILING_JAPANESE_needs_name X Hd) as T.
  assert (E : regex_match ENGLISH_FULL (bare_reference X) = None).
  { destruct (regex_match ENGLISH_FULL (bare_reference X)) as [m|] eqn:E;
      [exfalso|reflexivity].
    apply ENGLISH_FULL_starts in E. discriminate E. }
  assert (Sh : regex_match SHORT_CITATION (bare_reference X) = None).
  { destruct (regex_match SHORT_CITATION (bare_reference X)) as [m|] eqn:Sh;
      [exfalso|reflexivity].
    apply regex_match_sound in Sh.
    destruct Sh as [s1 [s2 [y [Es [_ Hs]]]]].
    destruct (SHORT_within_ENGLISH s2 (length s1) y Hs) as [y' M].
    apply (regex_match_complete ENGLISH_FULL s1 s2 y' M).
    rewrite <- Es. exact E. }
  assert (Id : regex_match ID_BASED (bare_reference X) = None).
  { destruct (regex_match ID_BASED (bare_reference X)) as [m|] eqn:Id;
      [exfalso|reflexivity].
    apply ID_BASED_starts in Id. discriminate Id. }
  assert (P : parseCitation (bare_reference X)
              = mkParsed false unknown None None None None None None None None
                  (Some (parse_error_prefix ++ [34%N] ++ bare_reference X
                         ++ [34%N]))).
  { unfold parseCitation. rewrite (bare_reference_trimmed X), J, T, E, Sh, Id.
    reflexivity. }
  rewrite P. cbn [valid type error].
  repeat split; try assumption. discriminate.
Qed.

Lemma parseCitation_bare_reference_witness :
  let s := bare_reference (js "十七") in
  regex_match JAPANESE_CITATION s = None
  /\ regex_match TRAILING_JAPANESE s = None
  /\ regex_match ENGLISH_FULL s = None
  /\ regex_match SHORT_CITATION s = None
  /\ regex_match ID_BASED s = None
  /\ valid (parseCitation s) = false
  /\ type (parseCitation s) = unknown
  /\ error (parseCitation s)
     = Some (js "Could not parse Japanese legal citation: " ++ [34%N] ++ s ++ [34%N])
  /\ error (parseCitation s) <> Some [].
Proof.
  apply (parseCitation_bare_reference (js "十七")).
  - vm_compute. intuition discriminate.
  - vm_compute. intuition discriminate.
Defined.
